(* ===== verification/_CoqProject ===== *)
-Q . S2P
Prelude.v
Lib0.v
Any.v
Content.v
StateVector.v
DeleteSet.v
Struct.v
Update.v
StructStore.v
Doc.v
Links.v
Invariant.v
Integrate.v
Deletion.v
Apply.v
Sync.v
Skeleton.v
Build.v
Transfer.v
CatchUp.v
Yata.v
Messages.v
Views.v
LoadBot.v
Memory.v
Scenario.v
Cluster.v
Redis.v
Text.v
Base64.v
Http.v
Uuid.v
Signature.v
Auth.v
Callback.v
CallbackSys.v
Webhook.v
ClientIP.v
Pack.v
Store.v
StoreProps.v
StoreLog.v
StoreLife.v
Listing.v
Conn.v
Gateway.v
Pump.v
Awareness.v
Limit.v
AuditTrail.v
ByteSize.v
Blob.v
Room.v
RoomInv.v
RoomProps.v
RoomScenario.v
Mailbox.v
Persist.v
PersistProps.v
Registry.v
RegistryProps.v
RegistrySys.v
RegistryGet.v
RegistryRoom.v
Admin.v
AdminProps.v
Backup.v
AdminScenario.v
