(* ===== verification/Prelude.v ===== *)
(** * ycollab: a verification library for the collaboration server

    The program is a Yjs-compatible collaboration server written in Go.  A client opens
    a document over a WebSocket; the gateway hands the connection to the document's
    room, an actor that owns the CRDT and the cursors, relays every edit to the other
    connections and to the other replicas, and writes it to PostgreSQL through a writer
    goroutine of its own.  A registry opens, shares and evicts rooms.

    ** The parts and where they are modelled

    Every file names the Go files it translates; definitions keep the Go names where
    Rocq allows it ([Doc_X] or [YText_X] for a method [X] whose bare name is taken).

    - The wire: [Lib0] (lib0.go, encoder.go, decoder.go), [Any] (any.go), [Content]
      (id.go, content.go), [Struct] (struct.go), [Update] (update.go), [StateVector],
      [DeleteSet], [Messages] (protocol/messages.go).  Encoders have their sticky error,
      decoders their position; [Wire] is the interface between a format and its users.
    - The CRDT: [StructStore] (structstore.go, type.go), [Doc] (doc.go), [Views]
      (ytext.go, ymap.go, subdoc.go).  Items live in a heap and point at each other as
      in Go.  [Links], [Invariant], [Integrate], [Deletion], [Apply], [Sync], [Yata],
      [Skeleton], [Build], [Transfer] and [CatchUp] prove things about them; [Scenario]
      runs a session.  [LoadBot] (cmd/ycollab-load/update.go) builds the updates of somebody
      typing; [Memory] (crdt/memory.go) weighs a document.
    - Presence: [Awareness] (protocol/awareness.go).
    - The room: [Conn] (room/conn.go as a class with laws, gateway/conn.go as its
      instance) and [Room] (room.go, fanout.go, hooks.go, the actor's half of
      versions.go, read.go, write.go, memory.go and persist.go).  A command handler is a
      function from room to room; a run is a sequence of commands and envelopes.
      [RoomInv], [RoomProps]; [RoomScenario].  [Mailbox] is send, Run and the handover at
      shutdown as a transition system around it.
    - Replicas: [Cluster] (envelope.go, bus.go, memory.go) and [Redis] (redis.go), the bus
      with its connection and the server as a transition system.
    - Who may connect: [Signature] (signature.go), [Auth] (auth.go), [Callback]
      (callback.go) and [CallbackSys], its requests as a transition system.
    - The gateway: [ClientIP] (clientip.go), [Gateway] (the verdict on a request, the
      caps and their interleavings, and the authorizer of cmd/server/main.go), [Pump]
      (the read and write pumps of handler.go over [Conn]), [Limit] (limit.go, with
      IEEE binary64 arithmetic) and [ByteSize] (bytesize.go).
    - Hooks: [Webhook] (hook.go, webhook.go): the queue, the workers and their retries.
    - [Text] holds what these use of Go's strings, strconv and utf8.
    - Storage: [Uuid] (uuid.go), [Pack] (pack.go), [Store] (store.go, blobs.go,
      versions.go, SetOwner and Name of list.go) and [Listing] (list.go).  The tables and
      the bucket are finite maps, a statement is a change of them, and every call can
      fail ([faults]).  [StoreProps], [StoreLog], [StoreLife].  [Blob] (s3.go, sigv4.go) is
      the client of the bucket, with the server as a class.
    - Persistence: [Persist] (the writer of persist.go and versions.go, loading, Fetch,
      Import).  [PersistProps].
    - The registry: [Registry] (registry.go and the budget of memory.go), sequentially
      and as a transition system of callers, rooms and the database.  [RegistryProps],
      [RegistrySys], [RegistryGet]; [RegistryRoom] puts [Room] behind its interface.

    - The admin surface: [Http] (requests, answers, and handlers as programs of critical
      sections that anything may run between), [Base64] and [AuditTrail] (audit.go,
      adminaudit.go, adminauth.go), [Admin] (admin.go, document.go, documents.go,
      versions.go of cmd/server).  [AdminProps], [Backup]; [AdminScenario].

    ** What is proved

    - Codec: what is encoded is decoded, whatever is decoded is bounded by its input
      ([DecodeUpdate_Encode], [DecodeUpdate_bounded], [Decode_frame]); delete sets are
      the sets of clocks they stand for ([Add_spec], [IsDeleted_spec]).
    - CRDT: every document any bytes can lead to is well formed ([reachable_inv]); it
      only ever grows ([ApplyUpdate_grows]); nothing is held back that could be
      integrated ([ApplyUpdate_maximal]); deletions are exact ([applyDeleteSet_exact],
      [deleteSetForUpdate_exact]); what peers are sent is complete
      ([state_update_complete]) and rebuilds the document
      ([snapshot_restores]), and one exchange of state vectors and answers brings two
      replicas level, also when an answer starts in the middle of a struct
      ([replicas_converge]); a document is always a run of an abstract machine that takes
      causes before effects ([documents_are_causal]); redelivery is harmless
      ([redelivery]); typed text reads back ([typed_text_reads_back]); concurrent
      insertions at one place converge ([concurrent_inserts_converge]); the walks end
      ([resolveConflict_terminates]); reading does not disturb
      ([clean_lookup_invisible]).
    - Room: an invariant over every run ([room_invariant]), the relay
      ([update_relayed]), the handshake ([handshake]), permissions
      ([readonly_never_edits]), departure ([leave_retracts], [leave_terminates]),
      replicas ([remote_never_republished]), eviction ([evict_saves],
      [eviction_never_disconnects]), the mailbox, which accepts a command and loses none
      ([handover_total]), and a shutdown that ends for everybody ([shutdown_ends]);
      presence is bounded, survives a greeting and a removal ([awareness_bounded] and its
      neighbours).
    - Storage: compaction is all or nothing under failures ([Compact_all_or_nothing]),
      every blob stays readable but the snapshot of a document compacted twice to one
      watermark ([blobs_stay_readable]), owners are settled
      ([owner_is_settled]), the writer refines a write-through log
      ([writer_refines_log]), paging visits everything once ([pages_list_everything]); the
      client of the object storage is a map ([client_is_a_map]) whose signatures cover
      method, key and body ([signature_covers]).
    - Registry: cap and uniqueness under every interleaving ([registry_invariant]), the
      tenancy boundary ([tenancy]), every room keeps the room invariant
      ([resident_rooms_ok]), opening and sweeping return and evict idle rooms, least
      recently used first ([get_spec], [enforceBudget_spec]).

    - Gateway: a connection is let in only on a token or an answer for this document
      ([Verify_grants], [authorization_genuine], [callback_single_flight]) and signatures
      bind what they sign ([Verify_Sign], [signature_binds]); an address cannot be forged
      ([ClientIP_unforgeable]), the caps hold under every interleaving ([gateway_caps]),
      throttling is bounded and spares whoever keeps to the limits ([throttling_bounded]),
      and a client is told why it is closed ([goodbye_is_last], [close_reason_legal]).
    - Admin: nothing happens without a configured token ([admin_authorization]) and
      everything leaves a record ([admin_trail]); deleting and merging keep to their
      document and tenant whatever runs at once ([delete_document_spec],
      [merge_within_tenant]); what one server hands out another restores
      ([backup_restores]).
    - Replicas over Redis: a room hears what was published for it, in order
      ([redis_in_order]).
    - Hooks: no event is lost or sent twice over ([hook_conservation]) and closing ends
      ([Close_drains]).

    Where the code does not do what its comments say, an [Example] shows it on concrete
    input: [held_update_not_saved], [snapshot_deletes_more],
    [delete_inside_surrogate], [negative_zero_rewritten],
    [same_watermark_destroys_snapshot], [later_watermark_overwrites_snapshot],
    [eviction_drops_failed_update], [overlapping_rooms_lose_update],
    [two_rooms_for_one_document], [slash_breaks_cursor], [rotation_masks_expiry],
    [nul_confuses_documents], [asker_cancels_waiters], [mapped_entry_never_trusts],
    [wrong_owner_is_told_apart], [owner_change_misses_room],
    [merge_misses_local_room], [bad_body_is_500], [unsubscribe_races_subscribe],
    [objects_weigh_nothing], [huge_size_is_no_limit].

    ** Bounds and fuel

    Machine integers are [Z] with the wrap-around written out ([u64], [s64]).  Walks
    over item chains have the size of the heap as fuel, enough because chains are
    acyclic ([Links]); the loops of integration have the number of structs left, enough
    because each further round consumes one ([Integrate]); [leave_loop] has the number of
    connections, enough by [leave_terminates]; decoders have the bytes left.  [get] and
    [enforceBudget] take fuel as an argument and return [None] without it; their theorems
    give the amount.  Updates are taken to be below 2 GiB, as Go's decoder checks against
    the bytes it has, and a registry to count fewer than [2^64] uses.

    ** Parameters

    SHA-1, SHA-256, HMAC, JWT parsing, JSON, the parsing of addresses and URLs, DEFLATE,
    the formatting of times, the heap estimate [Usage] of the room (its instance is
    [room_usage] of [Memory]), the spare capacity of slices, the conversion of a float out
    of an integer's range, the texts of errors, the iteration
    order of Go maps ([MapOrder]) and the database's collation are arguments; what is
    relied on is a named hypothesis where it is used, and the witnesses give instances.

    ** Not modelled

    Goroutine scheduling is represented by sequences of steps and transition systems,
    logging and metrics are left out.  Not modelled at all: flags, startup and shutdown of
    cmd/server, the counters of stats.go, the JSON rendering of shared types (a view for
    tests), profiling, and the command-line tools but for the updates of the load bot.  A
    transaction whose commit reports a failure is taken not to have happened. *)

From stdpp Require Export base tactics numbers option list gmap sorting.
From stdpp Require Import strings.
From Stdlib Require Export ZArith Lia.

#[global] Open Scope Z_scope.
#[global] Set Default Goal Selector "!".

(** ** Machine integers

    Go's [uint64] and [int64] are integers with the wrap-around written out. *)

Abbreviation byte := Z (only parsing).
Abbreviation bytes := (list Z) (only parsing).

Definition two64 : Z := 18446744073709551616.
Definition two63 : Z := 9223372036854775808.

(** The value of an integer expression stored in a [uint64]. *)
Definition u64 (x : Z) : Z := x mod two64.

(** The value of an integer expression stored in an [int64]: two's complement. *)
Definition s64 (x : Z) : Z := (x + two63) mod two64 - two63.

Lemma u64_small x : 0 <= x < two64 -> u64 x = x.
Proof. intros H. unfold u64. by apply Z.mod_small. Qed.

Lemma u64_range x : 0 <= u64 x < two64.
Proof. apply Z.mod_pos_bound. unfold two64. lia. Qed.

Lemma s64_small x : - two63 <= x < two63 -> s64 x = x.
Proof.
  intros H. unfold s64. rewrite Z.mod_small; unfold two63, two64 in *; lia.
Qed.

Lemma s64_range x : - two63 <= s64 x < two63.
Proof.
  unfold s64. pose proof (Z.mod_pos_bound (x + two63) two64) as H.
  unfold two63, two64 in *. lia.
Qed.

(** ** Errors

    Every sentinel error the modelled packages can return.  Go wraps some of
    them with [fmt.Errorf("%w: ...")]; the wrapped sentinel is what callers test
    with [errors.Is], so the sentinel is what is kept. *)
Inductive GoError :=
  (* internal/crdt/lib0 *)
  | ErrUnexpectedEOF | ErrIntegerOutOfRange | ErrNegativeLength
  | ErrUnknownAnyTag | ErrUnsupportedType | ErrDepthExceeded
  (* internal/crdt *)
  | ErrUnknownContentRef | ErrUnknownTypeRef | ErrCorruptUpdate
  | ErrMissingStruct | ErrClockGap | ErrNotSplittable | ErrSplitSurrogate
  (* internal/protocol *)
  | ErrUnknownMessageType | ErrUnknownSyncType | ErrUnknownAuthType
  | ErrTrailingBytes | ErrAwarenessClockOutOfRange | ErrStateTooLarge
  | ErrTooManyClients
  (* internal/cluster *)
  | ErrVersion | ErrKind | ErrOriginOutOfRange | ErrBusClosed
  (* internal/pack *)
  | ErrUnknownCodec | ErrDecompress
  (* internal/store; [ErrDatabase] and [ErrObject] are calls to PostgreSQL and to
     object storage that failed *)
  | ErrBadUUID | ErrBadCursor | ErrStaleSnapshot | ErrWrongOwner | ErrNoVersion
  | ErrNoPayload | ErrNoBlobs | ErrDatabase | ErrObject
  (* internal/room *)
  | ErrNoDocument | ErrClosed | ErrTooManyRooms | ErrManagerClosed | ErrNoVersioning
  (* internal/auth *)
  | ErrMissingToken | ErrInvalidToken | ErrExpired | ErrWrongDoc.

#[export] Instance GoError_eq_dec : EqDecision GoError.
Proof. solve_decision. Defined.

(** A Go pair [(A, error)] whose value is meaningful exactly when the error is
    nil. *)
Inductive res (A : Type) :=
  | Ok (a : A)
  | Err (e : GoError).
Arguments Ok {A} a.
Arguments Err {A} e.

#[export] Instance res_ret : MRet res := @Ok.
#[export] Instance res_bind : MBind res := fun A B f m =>
  match m with Ok a => f a | Err e => Err e end.

#[export] Instance res_eq_dec {A} `{EqDecision A} : EqDecision (res A).
Proof. solve_decision. Defined.

Definition is_ok {A} (r : res A) : bool :=
  match r with Ok _ => true | Err _ => false end.

Lemma bind_Ok_inv {A B} (m : res A) (f : A -> res B) b :
  m ≫= f = Ok b -> exists a, m = Ok a /\ f a = Ok b.
Proof. destruct m as [a|e]; [eauto | discriminate]. Qed.

(** Splits every [_ ≫= _ = Ok _] hypothesis into its steps. *)
Ltac res_inv :=
  repeat match goal with
  | H : (?m ≫= ?f) = Ok ?b |- _ =>
      let a := fresh "a" in let H1 := fresh "Hm" in let H2 := fresh "Hk" in
      apply bind_Ok_inv in H as (a & H1 & H2);
      repeat match type of a with (_ * _)%type =>
               let x := fresh "x" in let y := fresh "y" in destruct a as [x y] end;
      cbn beta iota in H2
  | H : (let '(_, _) := ?x in _) = Ok _ |- _ => destruct x; cbn beta iota in H
  | H : Ok _ = Ok _ |- _ => inversion H; clear H; subst
  | H : Err _ = Ok _ |- _ => discriminate H
  | H : Ok _ = Err _ |- _ => discriminate H
  end.

(** Case analysis on every boolean comparison or option scrutinised in the goal
    or a hypothesis, with the equation kept in arithmetic form. *)
Ltac bool_arith :=
  repeat match goal with
  | H : (_ <? _) = true |- _ => apply Z.ltb_lt in H
  | H : (_ <? _) = false |- _ => apply Z.ltb_ge in H
  | H : (_ <=? _) = true |- _ => apply Z.leb_le in H
  | H : (_ <=? _) = false |- _ => apply Z.leb_gt in H
  | H : (_ =? _) = true |- _ => apply Z.eqb_eq in H
  | H : (_ =? _) = false |- _ => apply Z.eqb_neq in H
  | H : (_ && _)%bool = true |- _ => apply andb_true_iff in H as [? ?]
  | H : (_ || _)%bool = false |- _ => apply orb_false_iff in H as [? ?]
  | H : negb _ = true |- _ => apply negb_true_iff in H
  | H : negb _ = false |- _ => apply negb_false_iff in H
  end.

Ltac case_if :=
  match goal with
  | |- context [if ?b then _ else _] =>
      let E := fresh "E" in destruct b eqn:E; bool_arith
  | H : context [if ?b then _ else _] |- _ =>
      let E := fresh "E" in destruct b eqn:E; bool_arith
  end.

Ltac case_if_in H :=
  match type of H with
  | context [if ?b then _ else _] =>
      let E := fresh "E" in destruct b eqn:E; bool_arith
  end.

(** A Go string literal as bytes. *)
Definition str (s : string) : bytes :=
  map (fun a => Z.of_N (Ascii.N_of_ascii a)) (String.list_ascii_of_string s).

(** ** Automation databases

    [wire] holds the reading and writing lemmas of the codecs, so that a
    composite format is proved by [eauto with wire]; [store_inv] holds the
    preservation lemmas of the document invariants. *)
Create HintDb wire discriminated.
Create HintDb store_inv discriminated.

(** ** Lists *)

Lemma drop_lookup_cons {A} (l : list A) i x :
  l !! i = Some x -> drop i l = x :: drop (S i) l.
Proof. intros H. by rewrite (drop_S l x i H). Qed.

Lemma lookup_of_drop {A} (l : list A) i x r :
  drop i l = x :: r -> l !! i = Some x /\ drop (S i) l = r.
Proof.
  intros H. assert (l !! i = Some x) as Hx.
  { rewrite <- (Nat.add_0_r i), <- lookup_drop, H. done. }
  split; [done|]. rewrite (drop_S l x i Hx) in H. by injection H.
Qed.

Lemma drop_app_split {A} (l : list A) i xs r :
  drop i l = xs ++ r -> drop (i + length xs) l = r.
Proof.
  intros H. rewrite <- (drop_drop l (length xs) i), H. apply drop_app_length.
Qed.

(** ** Sorting

    [sort.Slice] and [sort.SliceStable] with a less function on a key.  Insertion
    sort is one of the permitted outcomes; where keys are distinct it is the only
    one ([sort_by_unique]). *)
Section Sort.
Context {A : Type} (less : A -> A -> bool).

Fixpoint insert_by (x : A) (l : list A) : list A :=
  match l with
  | [] => [x]
  | y :: t => if less y x then y :: insert_by x t else x :: l
  end.

Definition sort_by (l : list A) : list A := foldr insert_by [] l.

Lemma insert_by_perm x l : insert_by x l ≡ₚ x :: l.
Proof.
  induction l as [|y t IH]; cbn; [done|]. destruct (less y x); [|done].
  rewrite IH. apply Permutation_swap.
Qed.

Lemma sort_by_perm l : sort_by l ≡ₚ l.
Proof. induction l as [|x l IH]; cbn; [done|]. by rewrite insert_by_perm, IH. Qed.

Lemma sort_by_length l : length (sort_by l) = length l.
Proof. by rewrite sort_by_perm. Qed.

(** [less] is a strict order whose negation is transitive: what Go asks of a
    less function. *)
Context (less_asym : forall x y, less x y = true -> less y x = false).
Context (geq_trans : forall x y z, less y x = false -> less z y = false -> less z x = false).

Definition ordered (l : list A) : Prop :=
  StronglySorted (fun x y => less y x = false) l.

Lemma insert_by_ordered x l : ordered l -> ordered (insert_by x l).
Proof.
  unfold ordered. induction 1 as [|y t Ht IH Hy]; cbn; [repeat constructor|].
  destruct (less y x) eqn:E.
  - constructor; [done|]. rewrite insert_by_perm. constructor; [by apply less_asym|done].
  - constructor; [by constructor|]. constructor; [done|].
    eapply Forall_impl; [exact Hy|]. intros z Hz. cbn in Hz. by apply (geq_trans x y z).
Qed.

Lemma sort_by_ordered l : ordered (sort_by l).
Proof. induction l as [|x l IH]; cbn; [constructor|by apply insert_by_ordered]. Qed.

(** With a total order on the elements present there is one sorted list. *)
Lemma ordered_unique l1 l2 :
  (forall x y, x ∈ l1 -> y ∈ l1 -> less x y = false -> less y x = false -> x = y) ->
  l1 ≡ₚ l2 -> ordered l1 -> ordered l2 -> l1 = l2.
Proof.
  intros Hanti Hp H1. revert l2 Hp. induction H1 as [|x t Ht IH Hx]; intros l2 Hp H2.
  { by apply Permutation_nil_l in Hp. }
  destruct H2 as [|y u Hu Hy]; [by apply Permutation_nil_r in Hp|].
  assert (x = y) as ->.
  { assert (x ∈ y :: u) as Hxu by (rewrite <- Hp; left).
    assert (y ∈ x :: t) as Hyt by (rewrite Hp; left).
    apply elem_of_cons in Hxu as [?|Hxu]; [done|].
    apply elem_of_cons in Hyt as [?|Hyt]; [done|].
    rewrite Forall_forall in Hx, Hy.
    apply Hanti; [left|by right|by apply Hy|by apply Hx]. }
  f_equal. apply IH; [|by apply Permutation_cons_inv in Hp|done].
  intros a b Ha Hb. apply Hanti; by right.
Qed.
End Sort.

(** The keys of a Go map, highest first: the order every client-keyed section of
    the wire format uses. *)
Definition keys_desc {A} (m : gmap Z A) : list Z :=
  sort_by (fun x y => y <? x) (map fst (map_to_list m)).

Lemma keys_desc_perm {A} (m : gmap Z A) : keys_desc m ≡ₚ (map_to_list m).*1.
Proof. apply sort_by_perm. Qed.

Lemma elem_of_keys_desc {A} (m : gmap Z A) k : k ∈ keys_desc m <-> is_Some (m !! k).
Proof.
  rewrite keys_desc_perm, list_elem_of_fmap. split.
  - intros [[k' v] [-> H]]. apply elem_of_map_to_list in H. eauto.
  - intros [v H]. exists (k, v). split; [done|]. by apply elem_of_map_to_list.
Qed.

Lemma NoDup_keys_desc {A} (m : gmap Z A) : NoDup (keys_desc m).
Proof. rewrite keys_desc_perm. apply NoDup_fst_map_to_list. Qed.

Lemma keys_desc_sorted {A} (m : gmap Z A) : StronglySorted Z.gt (keys_desc m).
Proof.
  assert (ordered (fun x y => y <? x) (keys_desc m)) as H.
  { apply sort_by_ordered; intros; bool_arith; rewrite ?Z.ltb_lt, ?Z.ltb_ge; lia. }
  pose proof (NoDup_keys_desc m) as Hn. induction H as [|x t Ht IH Hx]; [constructor|].
  apply NoDup_cons in Hn as [Hxt Hn]. constructor; [auto|].
  rewrite Forall_forall in Hx |- *. intros y Hy. specialize (Hx y Hy).
  apply Z.ltb_ge in Hx. assert (x <> y) by (intros ->; done). lia.
Qed.

(** ** Binary search

    Go's [sort.Search]: the smallest [i] in [[0, n)] for which [f] holds, or [n],
    provided [f] is false then true. *)
Fixpoint search_loop (fuel : nat) (f : nat -> bool) (i j : nat) : nat :=
  match fuel with
  | O => i
  | S fuel =>
      if (i <? j)%nat then
        let h := Nat.div2 (i + j) in
        if f h then search_loop fuel f i h else search_loop fuel f (S h) j
      else i
  end.

Definition search (n : nat) (f : nat -> bool) : nat := search_loop n f 0 n.

Lemma search_loop_spec fuel f : forall i j,
  (j - i <= fuel)%nat -> (i <= j)%nat ->
  (forall a b, (a <= b < j)%nat -> f a = true -> f b = true) ->
  let r := search_loop fuel f i j in
  (i <= r <= j)%nat /\ (forall k, (i <= k < r)%nat -> f k = false)
  /\ ((r < j)%nat -> f r = true).
Proof.
  induction fuel as [|fuel IH]; intros i j Hf Hij Hm; cbn [search_loop]; cbn zeta.
  { split_and!; intros; lia. }
  destruct (i <? j)%nat eqn:E; [apply Nat.ltb_lt in E|apply Nat.ltb_ge in E; split_and!; intros; lia].
  pose proof (Nat.div2_odd (i + j)) as Hd.
  set (h := Nat.div2 (i + j)) in *.
  assert (i <= h < j)%nat as Hh by (destruct (Nat.odd _); cbn in Hd; lia).
  clearbody h. clear Hd. destruct (f h) eqn:Eh.
  - destruct (IH i h) as (H1 & H2 & H3); [lia..| |].
    { intros a b Hab. apply Hm. lia. }
    split_and!; [lia..|done|].
    intros Hr. destruct (decide (search_loop fuel f i h < h)%nat) as [?|?]; [auto|].
    by replace (search_loop fuel f i h) with h by lia.
  - destruct (IH (S h) j) as (H1 & H2 & H3); [lia..|done|].
    split_and!; [lia..| |done].
    intros k Hk. destruct (decide (k <= h)%nat) as [?|?]; [|apply H2; lia].
    destruct (f k) eqn:Ek; [|done]. rewrite (Hm k h) in Eh; [done|lia|done].
Qed.

Lemma search_spec n f :
  (forall a b, (a <= b < n)%nat -> f a = true -> f b = true) ->
  (search n f <= n)%nat /\ (forall k, (k < search n f)%nat -> f k = false)
  /\ ((search n f < n)%nat -> f (search n f) = true).
Proof.
  intros Hm. destruct (search_loop_spec n f 0 n) as (H1 & H2 & H3); [lia..|done|].
  unfold search. split_and!; [lia| |done]. intros k Hk. apply H2. lia.
Qed.

(** ** Maps *)

Lemma alter_comm `{Countable K} {A} (f g : A -> A) (i j : K) (m : gmap K A) :
  i <> j -> alter f i (alter g j m) = alter g j (alter f i m).
Proof.
  intros Hne. apply map_eq. intros k. rewrite !lookup_alter.
  repeat case_decide; subst; congruence.
Qed.

(** The order in which Go ranges over a map: unspecified, so every definition
    that ranges over one takes it as an argument. *)
Class MapOrder := {
  iter : forall {A : Type}, gmap Z A -> list (Z * A);
  iter_perm : forall {A : Type} (m : gmap Z A), iter m ≡ₚ map_to_list m;
}.

(** An order to run definitions with. *)
Definition any_order : MapOrder :=
  {| iter := fun A m => map_to_list m; iter_perm := fun A m => Permutation_refl _ |}.

Lemma elem_of_iter `{!MapOrder} {A} (m : gmap Z A) c a : (c, a) ∈ iter m <-> m !! c = Some a.
Proof. rewrite iter_perm. apply elem_of_map_to_list. Qed.

Lemma NoDup_iter_keys `{!MapOrder} {A} (m : gmap Z A) : NoDup (iter m).*1.
Proof. rewrite iter_perm. apply NoDup_fst_map_to_list. Qed.
