(* ===== verification/Lib0.v ===== *)
(** * lib0: the binary encoding under every message

    [internal/crdt/lib0/lib0.go], [encoder.go] and [decoder.go]: the growable
    [Encoder] with its sticky error, the [Decoder] over a byte slice, variable
    length integers, strings and byte arrays, and UTF-16 lengths.

    The interface other components are proved against is the class [Wire]: a
    writer, a reader, the bytes that go between them and the values for which
    the pair is a round trip. *)

From S2P Require Import Prelude.

Definition MaxSafeInteger : Z := 9007199254740991.

(** ** Encoder *)

Record Encoder := MkEncoder { enc_buf : bytes; enc_err : option GoError }.

Definition NewEncoder : Encoder := MkEncoder [] None.
(** The size is a capacity hint and nothing else. *)
Definition NewEncoderSize (n : Z) : Encoder := MkEncoder [] None.

Definition Bytes (e : Encoder) : bytes := enc_buf e.
Definition Enc_Len (e : Encoder) : Z := Z.of_nat (length (enc_buf e)).
Definition Enc_Err (e : Encoder) : option GoError := enc_err e.
Definition Enc_Reset (e : Encoder) : Encoder := MkEncoder [] None.

Definition fail (err : GoError) (e : Encoder) : Encoder :=
  match enc_err e with
  | None => MkEncoder (enc_buf e) (Some err)
  | Some _ => e
  end.

Definition WriteUint8 (b : byte) (e : Encoder) : Encoder :=
  match enc_err e with
  | Some _ => e
  | None => MkEncoder (enc_buf e ++ [b]) None
  end.

Definition WriteBytes (b : bytes) (e : Encoder) : Encoder :=
  match enc_err e with
  | Some _ => e
  | None => MkEncoder (enc_buf e ++ b) None
  end.

(** The loop [for v > 0x7F] of [WriteVarUint].  Ten groups of seven bits hold
    any [uint64]. *)
Fixpoint varuint_loop (fuel : nat) (v : Z) (buf : bytes) : bytes :=
  match fuel with
  | O => buf
  | S fuel =>
      if 127 <? v
      then varuint_loop fuel (Z.shiftr v 7) (buf ++ [Z.lor 128 (Z.land v 127)])
      else buf ++ [v]
  end.

Definition WriteVarUint (v : Z) (e : Encoder) : Encoder :=
  match enc_err e with
  | Some _ => e
  | None =>
      if MaxSafeInteger <? v then fail ErrIntegerOutOfRange e
      else MkEncoder (varuint_loop 10 v (enc_buf e)) None
  end.

(** The loop [for num > 0] of [WriteVarInt]. *)
Fixpoint varint_loop (fuel : nat) (num : Z) (buf : bytes) : bytes :=
  match fuel with
  | O => buf
  | S fuel =>
      if 0 <? num
      then
        let b := Z.land num 127 in
        let b := if 127 <? num then Z.lor b 128 else b in
        varint_loop fuel (Z.shiftr num 7) (buf ++ [b])
      else buf
  end.

Definition WriteVarInt (v : Z) (e : Encoder) : Encoder :=
  match enc_err e with
  | Some _ => e
  | None =>
      let negative := v <? 0 in
      if (v <? - MaxSafeInteger) || (MaxSafeInteger <? v)
      then fail ErrIntegerOutOfRange e
      else
        let num := if negative then - v else v in
        let first := Z.land num 63 in
        let first := if 63 <? num then Z.lor first 128 else first in
        let first := if negative then Z.lor first 64 else first in
        MkEncoder (varint_loop 9 (Z.shiftr num 6) (enc_buf e ++ [first])) None
  end.

Definition WriteVarUint8Array (b : bytes) (e : Encoder) : Encoder :=
  match enc_err e with
  | Some _ => e
  | None => WriteBytes b (WriteVarUint (Z.of_nat (length b)) e)
  end.

(** A Go string is its UTF-8 bytes, so this is the same computation. *)
Definition WriteVarString (s : bytes) (e : Encoder) : Encoder :=
  match enc_err e with
  | Some _ => e
  | None => WriteBytes s (WriteVarUint (Z.of_nat (length s)) e)
  end.

(** How every [Encode] ends: [if err := e.Err(); err != nil { return nil, err };
    return e.Bytes(), nil]. *)
Definition finish (e : Encoder) : res bytes :=
  match Enc_Err e with
  | Some err => Err err
  | None => Ok (Bytes e)
  end.

(** ** Decoder *)

Record Decoder := MkDecoder { dec_buf : bytes; dec_pos : nat }.

Definition NewDecoder (b : bytes) : Decoder := MkDecoder b 0.
Definition Pos (d : Decoder) : nat := dec_pos d.
Definition Remaining (d : Decoder) : nat := (length (dec_buf d) - dec_pos d)%nat.
Definition Done (d : Decoder) : bool := (length (dec_buf d) <=? dec_pos d)%nat.

(** [d.pos += n]. *)
Definition advance (n : nat) (d : Decoder) : Decoder :=
  MkDecoder (dec_buf d) (dec_pos d + n).

Definition ReadUint8 (d : Decoder) : res (byte * Decoder) :=
  match dec_buf d !! dec_pos d with
  | None => Err ErrUnexpectedEOF
  | Some b => Ok (b, advance 1 d)
  end.

Definition ReadBytes (n : Z) (d : Decoder) : res (bytes * Decoder) :=
  if n <? 0 then Err ErrNegativeLength
  else if Z.of_nat (Remaining d) <? n then Err ErrUnexpectedEOF
  else Ok (take (Z.to_nat n) (drop (dec_pos d) (dec_buf d)), advance (Z.to_nat n) d).

(** The loop [for d.pos < len(d.buf)] of [ReadVarUint]: one iteration per
    unread byte, so [Remaining d] iterations is the loop condition itself. *)
Fixpoint varuint_read (fuel : nat) (num mult : Z) (d : Decoder)
    : res (Z * Decoder) :=
  match fuel with
  | O => Err ErrUnexpectedEOF
  | S fuel =>
      match dec_buf d !! dec_pos d with
      | None => Err ErrUnexpectedEOF
      | Some r =>
          let d := advance 1 d in
          let num := u64 (num + u64 (Z.land r 127 * mult)) in
          let mult := u64 (mult * 128) in
          if r <? 128 then Ok (num, d)
          else if MaxSafeInteger <? num then Err ErrIntegerOutOfRange
          else varuint_read fuel num mult d
      end
  end.

Definition ReadVarUint (d : Decoder) : res (Z * Decoder) :=
  varuint_read (Remaining d) 0 1 d.

(** The loop of [ReadVarInt], after its first byte. *)
Fixpoint varint_read (fuel : nat) (sign num mult : Z) (d : Decoder)
    : res (Z * Decoder) :=
  match fuel with
  | O => Err ErrUnexpectedEOF
  | S fuel =>
      match dec_buf d !! dec_pos d with
      | None => Err ErrUnexpectedEOF
      | Some r =>
          let d := advance 1 d in
          let num := s64 (num + s64 (Z.land r 127 * mult)) in
          let mult := s64 (mult * 128) in
          if r <? 128 then Ok (s64 (sign * num), d)
          else if MaxSafeInteger <? num then Err ErrIntegerOutOfRange
          else varint_read fuel sign num mult d
      end
  end.

Definition ReadVarInt (d : Decoder) : res (Z * Decoder) :=
  match dec_buf d !! dec_pos d with
  | None => Err ErrUnexpectedEOF
  | Some r =>
      let d := advance 1 d in
      let num := Z.land r 63 in
      let sign := if Z.land r 64 =? 0 then 1 else -1 in
      if Z.land r 128 =? 0 then Ok (sign * num, d)
      else varint_read (Remaining d) sign num 64 d
  end.

Definition ReadVarUint8Array (d : Decoder) : res (bytes * Decoder) :=
  '(n, d) ← ReadVarUint d;
  if Z.of_nat (Remaining d) <? n then Err ErrUnexpectedEOF
  else ReadBytes n d.

Definition ReadVarString (d : Decoder) : res (bytes * Decoder) :=
  '(b, d) ← ReadVarUint8Array d; Ok (b, d).

(** [for range n { x, err := get(d); ...; xs = append(xs, x) }]. *)
Fixpoint read_n {A} (n : nat) (get : Decoder -> res (A * Decoder)) (d : Decoder)
    : res (list A * Decoder) :=
  match n with
  | O => Ok ([], d)
  | S n =>
      '(x, d) ← get d;
      '(xs, d) ← read_n n get d;
      Ok (x :: xs, d)
  end.

(** [for _, x := range xs { put(x) }]. *)
Definition write_list {A} (put : A -> Encoder -> Encoder) (l : list A)
    (e : Encoder) : Encoder :=
  foldl (fun e a => put a e) e l.

(** ** UTF-16 length

    [for _, r := range s] decodes UTF-8.  A byte that does not start a valid
    sequence yields U+FFFD and consumes one byte, as the language specification
    says. *)

Definition cont (b : Z) : bool := (128 <=? b) && (b <=? 191).

Definition between (lo hi b : Z) : bool := (lo <=? b) && (b <=? hi).

(** One step of [for _, r := range s]: the rune and how many bytes it took. *)
Definition decode_rune (s : bytes) : option (Z * nat) :=
  match s with
  | [] => None
  | b0 :: t =>
      let bad := Some (65533, 1%nat) in
      if b0 <? 128 then Some (b0, 1%nat)
      else if between 194 223 b0 then
        match t with
        | b1 :: _ =>
            if cont b1 then Some ((b0 - 192) * 64 + (b1 - 128), 2%nat) else bad
        | _ => bad
        end
      else if between 224 239 b0 then
        let lo := if b0 =? 224 then 160 else 128 in
        let hi := if b0 =? 237 then 159 else 191 in
        match t with
        | b1 :: b2 :: _ =>
            if between lo hi b1 && cont b2
            then Some ((b0 - 224) * 4096 + (b1 - 128) * 64 + (b2 - 128), 3%nat)
            else bad
        | _ => bad
        end
      else if between 240 244 b0 then
        let lo := if b0 =? 240 then 144 else 128 in
        let hi := if b0 =? 244 then 143 else 191 in
        match t with
        | b1 :: b2 :: b3 :: _ =>
            if between lo hi b1 && cont b2 && cont b3
            then Some ((b0 - 240) * 262144 + (b1 - 128) * 4096
                       + (b2 - 128) * 64 + (b3 - 128), 4%nat)
            else bad
        | _ => bad
        end
      else bad
  end.

(** UTF-16 code units of one rune. *)
Definition units (r : Z) : Z := if 65535 <? r then 2 else 1.

(** The runes [range s] visits, each with the bytes it was decoded from.  Every
    step consumes at least one byte, so [length s] steps are enough. *)
Fixpoint runes_fuel (fuel : nat) (s : bytes) : list (Z * bytes) :=
  match fuel with
  | O => []
  | S fuel =>
      match decode_rune s with
      | None => []
      | Some (r, n) => (r, take n s) :: runes_fuel fuel (drop n s)
      end
  end.

Definition runes (s : bytes) : list (Z * bytes) := runes_fuel (length s) s.

Definition UTF16Length (s : bytes) : Z :=
  foldl (fun n '(r, _) => n + units r) 0 (runes s).

(** ** What a reader and a writer promise *)

(** The bytes a decoder has left. *)
Definition unread (d : Decoder) : bytes := drop (dec_pos d) (dec_buf d).

(** [f] appends exactly [bs] to an encoder that has not failed. *)
Definition writes (f : Encoder -> Encoder) (bs : bytes) : Prop :=
  forall buf, f (MkEncoder buf None) = MkEncoder (buf ++ bs) None.

(** [m], run where the input continues with [bs], returns [a] and stops exactly
    after [bs]. *)
Definition reads {A} (m : Decoder -> res (A * Decoder)) (bs : bytes) (a : A) : Prop :=
  forall d rest, unread d = bs ++ rest -> m d = Ok (a, advance (length bs) d).

(** A failed encoder stays as it is: no later write touches it. *)
Definition sticky (f : Encoder -> Encoder) : Prop :=
  forall e, enc_err e <> None -> f e = e.

(** [m] never leaves the buffer: on success it has moved forward by at least
    [k] bytes and stopped inside. *)
Definition consumes {A} (k : nat) (m : Decoder -> res (A * Decoder)) : Prop :=
  forall d a d', m d = Ok (a, d') -> (dec_pos d <= length (dec_buf d))%nat ->
    dec_buf d' = dec_buf d /\ (dec_pos d + k <= dec_pos d' <= length (dec_buf d))%nat.

(** A writer, a reader and the bytes between them. *)
Class Wire {A} (put : A -> Encoder -> Encoder) (get : Decoder -> res (A * Decoder))
    (enc : A -> bytes) (ok : A -> Prop) : Prop := {
  wire_put : forall a, ok a -> writes (put a) (enc a);
  wire_get : forall a, ok a -> reads get (enc a) a;
  wire_ne : forall a, ok a -> (1 <= length (enc a))%nat;
}.

(** *** Composition *)

Lemma unread_advance d bs rest :
  unread d = bs ++ rest -> unread (advance (length bs) d) = rest.
Proof. apply drop_app_split. Qed.

Lemma advance_advance n m d : advance m (advance n d) = advance (n + m) d.
Proof. unfold advance. cbn. f_equal. lia. Qed.

Lemma advance_0 d : advance 0 d = d.
Proof. destruct d. unfold advance. cbn. by rewrite Nat.add_0_r. Qed.

Lemma length_unread d : length (unread d) = Remaining d.
Proof. apply length_drop. Qed.

Lemma remaining_ge d bs rest :
  unread d = bs ++ rest -> (length bs <= Remaining d)%nat.
Proof. intros H. rewrite <- length_unread, H, length_app. lia. Qed.

Lemma unread_cons d b r :
  unread d = b :: r ->
  dec_buf d !! dec_pos d = Some b /\ unread (advance 1 d) = r.
Proof.
  intros H. apply lookup_of_drop in H as [H1 H2]. split; [done|].
  unfold unread, advance. cbn. by rewrite Nat.add_1_r.
Qed.

Lemma unread_new b : unread (NewDecoder b) = b.
Proof. unfold unread. cbn. apply drop_0. Qed.

Lemma done_advance b : Done (advance (length b) (NewDecoder b)) = true.
Proof. apply Nat.leb_le. cbn. lia. Qed.

(** Runs the reader [L] proves correct at the front of the goal. *)
Ltac read_step L :=
  match goal with
  | H : unread ?d = _ |- _ =>
      rewrite (L d _ H); apply unread_advance in H; cbn [mbind res_bind]
  end.

Ltac read_done :=
  rewrite ?advance_advance, ?advance_0;
  apply (f_equal Ok), (f_equal2 pair); [try reflexivity|];
  apply (f_equal (fun n => advance n _));
  repeat (rewrite ?length_app; cbn [length]); try reflexivity; try lia.

Lemma writes_app f g b1 b2 :
  writes f b1 -> writes g b2 -> writes (fun e => g (f e)) (b1 ++ b2).
Proof. intros Hf Hg buf. by rewrite Hf, Hg, <- app_assoc. Qed.

Lemma finish_writes f bs : writes f bs -> finish (f NewEncoder) = Ok bs.
Proof. intros H. unfold NewEncoder. by rewrite H. Qed.

Lemma finish_failed e err : enc_err e = Some err -> finish e = Err err.
Proof. unfold finish, Enc_Err. by intros ->. Qed.

Lemma writes_nil : writes (fun e => e) [].
Proof. intros buf. by rewrite app_nil_r. Qed.

Lemma reads_bind {A B} (m : Decoder -> res (A * Decoder))
    (k : A -> Decoder -> res (B * Decoder)) b1 b2 a b :
  reads m b1 a -> reads (k a) b2 b ->
  reads (fun d => '(x, d) ← m d; k x d) (b1 ++ b2) b.
Proof.
  intros Hm Hk d rest H. rewrite <- app_assoc in H. read_step Hm.
  rewrite (Hk _ _ H). read_done.
Qed.

(** *** Raw bytes *)

Lemma WriteUint8_writes b : writes (WriteUint8 b) [b].
Proof. done. Qed.

Lemma WriteBytes_writes b : writes (WriteBytes b) b.
Proof. done. Qed.

Lemma ReadUint8_reads b : reads ReadUint8 [b] b.
Proof.
  intros d rest H. apply unread_cons in H as [H _]. unfold ReadUint8. by rewrite H.
Qed.

Lemma ReadBytes_reads bs : reads (ReadBytes (Z.of_nat (length bs))) bs bs.
Proof.
  intros d rest H. pose proof (remaining_ge _ _ _ H). unfold ReadBytes.
  rewrite (proj2 (Z.ltb_ge _ _)), (proj2 (Z.ltb_ge _ _)) by lia.
  fold (unread d). rewrite H, Nat2Z.id, take_app_length. done.
Qed.

Lemma fail_sticky err : sticky (fail err).
Proof. intros e He. unfold fail. by destruct (enc_err e). Qed.

Lemma WriteUint8_sticky b : sticky (WriteUint8 b).
Proof. intros e He. unfold WriteUint8. by destruct (enc_err e). Qed.

Lemma WriteBytes_sticky b : sticky (WriteBytes b).
Proof. intros e He. unfold WriteBytes. by destruct (enc_err e). Qed.

Lemma WriteVarUint_sticky v : sticky (WriteVarUint v).
Proof. intros e He. unfold WriteVarUint. by destruct (enc_err e). Qed.

Lemma WriteVarInt_sticky v : sticky (WriteVarInt v).
Proof. intros e He. unfold WriteVarInt. by destruct (enc_err e). Qed.

Lemma WriteVarString_sticky v : sticky (WriteVarString v).
Proof. intros e He. unfold WriteVarString. by destruct (enc_err e). Qed.

Lemma WriteVarUint8Array_sticky v : sticky (WriteVarUint8Array v).
Proof. intros e He. unfold WriteVarUint8Array. by destruct (enc_err e). Qed.

Lemma write_list_sticky {A} (put : A -> Encoder -> Encoder) l :
  (forall a, sticky (put a)) -> sticky (write_list put l).
Proof.
  intros Hp. induction l as [|a l IH]; intros e He; [done|].
  cbn. rewrite Hp by done. by apply IH.
Qed.

#[export] Hint Resolve WriteUint8_writes WriteBytes_writes ReadUint8_reads
  ReadBytes_reads WriteUint8_sticky WriteBytes_sticky WriteVarUint_sticky
  WriteVarInt_sticky WriteVarString_sticky WriteVarUint8Array_sticky
  write_list_sticky fail_sticky : wire.

(** *** Variable length unsigned integers *)

(** The bytes of [v], by recursion on the value. *)
Fixpoint varuint (fuel : nat) (v : Z) : bytes :=
  match fuel with
  | O => []
  | S fuel =>
      if 127 <? v then (128 + v mod 128) :: varuint fuel (v / 128) else [v]
  end.

Definition varuint_bytes (v : Z) : bytes := varuint 10 v.

Definition safe (v : Z) : Prop := 0 <= v <= MaxSafeInteger.

Lemma land_127 v : Z.land v 127 = v mod 128.
Proof. change 127 with (Z.ones 7). rewrite Z.land_ones by lia. done. Qed.

Lemma lor_128 v : 0 <= v < 128 -> Z.lor 128 v = 128 + v.
Proof.
  intros H. assert (Z.land 128 v = 0) as H0.
  { apply Z.bits_inj'. intros n Hn. rewrite Z.land_spec, Z.bits_0.
    change 128 with (2 ^ 7). rewrite Z.pow2_bits_eqb by lia.
    destruct (Z.eqb_spec 7 n) as [<-|]; [|done].
    destruct (Z.eq_dec v 0) as [->|]; [done|].
    apply Z.bits_above_log2; [lia|]. apply Z.log2_lt_pow2; lia. }
  pose proof (Z.add_lor_land 128 v). lia.
Qed.

Lemma varuint_loop_eq fuel v buf :
  0 <= v -> varuint_loop fuel v buf = buf ++ varuint fuel v.
Proof.
  revert v buf. induction fuel as [|fuel IH]; intros v buf Hv; cbn [varuint varuint_loop].
  { by rewrite app_nil_r. }
  case_if; [|done].
  rewrite land_127, lor_128 by (apply Z.mod_pos_bound; lia).
  rewrite Z.shiftr_div_pow2 by lia. change (2 ^ 7) with 128.
  rewrite IH by (apply Z.div_pos; lia). by rewrite <- app_assoc.
Qed.

Lemma WriteVarUint_writes v : safe v -> writes (WriteVarUint v) (varuint_bytes v).
Proof.
  intros [H1 H2] buf. unfold WriteVarUint. cbn [enc_err enc_buf].
  rewrite (proj2 (Z.ltb_ge _ _)) by lia. by rewrite varuint_loop_eq.
Qed.

Lemma varuint_step num mult r v :
  0 <= num -> 0 < mult -> 0 <= v -> r = v mod 128 ->
  num + v * mult <= MaxSafeInteger ->
  u64 (num + u64 (r * mult)) = num + r * mult.
Proof.
  intros Hn Hm Hv -> Hs. pose proof (Z.div_mod v 128 ltac:(lia)).
  pose proof (Z.mod_pos_bound v 128 ltac:(lia)).
  pose proof (Z.div_pos v 128 ltac:(lia) ltac:(lia)).
  unfold MaxSafeInteger in Hs. rewrite (u64_small (_ * mult)).
  - apply u64_small. unfold two64. nia.
  - unfold two64. nia.
Qed.

Lemma varuint_read_reads fuel : forall v num mult d rest k,
  0 <= v < 128 ^ Z.of_nat (S fuel) -> 0 <= num -> 0 < mult ->
  num + v * mult <= MaxSafeInteger ->
  unread d = varuint (S fuel) v ++ rest -> (length (varuint (S fuel) v) <= k)%nat ->
  varuint_read k num mult d
  = Ok (num + v * mult, advance (length (varuint (S fuel) v)) d).
Proof.
  induction fuel as [|fuel IH]; intros v num mult d rest k Hv Hn Hm Hs Hd Hk;
    pose proof (Z.div_mod v 128 ltac:(lia)) as Hdm;
    pose proof (Z.mod_pos_bound v 128 ltac:(lia)) as Hmb;
    destruct k as [|k]; try (cbn [varuint] in Hk; case_if; cbn in Hk; lia);
    cbn [varuint] in Hd, Hk |- *; destruct (127 <? v) eqn:E; bool_arith;
    try (change (128 ^ Z.of_nat 1) with 128 in Hv; lia);
    apply unread_cons in Hd as [Hb Hd]; cbn [varuint_read]; rewrite Hb; cbn zeta;
    rewrite land_127.
  - rewrite (varuint_step num mult (v mod 128) v) by lia.
    rewrite (proj2 (Z.ltb_lt v 128)), (Z.mod_small v) by lia. done.
  - assert (0 <= v / 128) by (apply Z.div_pos; lia).
    replace ((128 + v mod 128) mod 128) with (v mod 128)
      by (rewrite Z.add_mod_idemp_r, Z.add_comm by lia; symmetry; 
          apply (Z_mod_plus_full v 1 128)).
    rewrite (varuint_step num mult (v mod 128) v) by lia.
    rewrite (proj2 (Z.ltb_ge _ 128)) by lia.
    rewrite (proj2 (Z.ltb_ge _ _)) by nia.
    rewrite (u64_small (mult * 128)) by (unfold two64, MaxSafeInteger in *; nia).
    rewrite (IH (v / 128) _ _ (advance 1 d) rest k).
    + rewrite advance_advance. apply (f_equal Ok), (f_equal2 pair); [nia|done].
    + split; [done|]. apply Z.div_lt_upper_bound; [lia|].
      rewrite <- Z.pow_succ_r, <- Nat2Z.inj_succ by lia. lia.
    + nia.
    + lia.
    + nia.
    + done.
    + cbn in Hk. cbn. lia.
  - rewrite (varuint_step num mult (v mod 128) v) by lia.
    rewrite (proj2 (Z.ltb_lt v 128)), (Z.mod_small v) by lia. done.
Qed.

Lemma ReadVarUint_reads v : safe v -> reads ReadVarUint (varuint_bytes v) v.
Proof.
  intros [H1 H2] d rest Hd. unfold ReadVarUint.
  rewrite (varuint_read_reads 9 v 0 1 d rest); [by rewrite Z.mul_1_r|..]; try lia.
  - unfold MaxSafeInteger in H2.
    change (128 ^ Z.of_nat 10) with 1180591620717411303424. lia.
  - done.
  - by apply remaining_ge in Hd.
Qed.

Lemma varuint_ne v : (1 <= length (varuint_bytes v))%nat.
Proof. unfold varuint_bytes. cbn [varuint]. case_if; cbn [length]; lia. Qed.

#[export] Instance varuint_wire : Wire WriteVarUint ReadVarUint varuint_bytes safe.
Proof. split; auto using WriteVarUint_writes, ReadVarUint_reads, varuint_ne. Qed.

#[export] Hint Resolve WriteVarUint_writes ReadVarUint_reads : wire.

(** *** Variable length signed integers *)

Definition varint_first (neg more : bool) (a : Z) : Z :=
  a + (if neg then 64 else 0) + (if more then 128 else 0).

Definition varint_bytes (v : Z) : bytes :=
  let num := Z.abs v in
  varint_first (v <? 0) (63 <? num) (num mod 64)
    :: (if 63 <? num then varuint 9 (num / 64) else []).

Definition safe_int (v : Z) : Prop := - MaxSafeInteger <= v <= MaxSafeInteger.

(** The first byte is checked exhaustively: six value bits, sign, continuation. *)
Definition varint_first_check (neg more : bool) (a : Z) : bool :=
  let w := if more then Z.lor a 128 else a in
  let w := if neg then Z.lor w 64 else w in
  let r := varint_first neg more a in
  (w =? r) && (Z.land r 63 =? a)
  && Bool.eqb (Z.land r 64 =? 0) (negb neg)
  && Bool.eqb (Z.land r 128 =? 0) (negb more).

Lemma varint_first_all :
  forallb (fun a => varint_first_check true true a && varint_first_check true false a
                    && varint_first_check false true a
                    && varint_first_check false false a) (seqZ 0 64) = true.
Proof. vm_compute. reflexivity. Qed.

Lemma varint_first_spec neg more a :
  0 <= a < 64 ->
  let r := varint_first neg more a in
  (let w := if more then Z.lor a 128 else a in if neg then Z.lor w 64 else w) = r
  /\ Z.land r 63 = a /\ (Z.land r 64 =? 0) = negb neg
  /\ (Z.land r 128 =? 0) = negb more.
Proof.
  intros Ha r. pose proof (proj1 (forallb_forall _ _) varint_first_all a) as H.
  lapply H; [|apply list_elem_of_In, elem_of_seqZ; lia]. clear H. intros H.
  rewrite !andb_true_iff in H. destruct H as [[[H1 H2] H3] H4].
  assert (varint_first_check neg more a = true) as Hc
    by (destruct neg, more; assumption).
  unfold varint_first_check in Hc. rewrite !andb_true_iff in Hc.
  destruct Hc as [[[Hw Hl] Hn] Hm]. bool_arith.
  apply Bool.eqb_prop in Hn, Hm. done.
Qed.

Lemma land_63 v : Z.land v 63 = v mod 64.
Proof. change 63 with (Z.ones 6). rewrite Z.land_ones by lia. done. Qed.

Lemma varint_loop_eq fuel v buf :
  0 < v < 128 ^ Z.of_nat fuel -> varint_loop fuel v buf = buf ++ varuint fuel v.
Proof.
  revert v buf. induction fuel as [|fuel IH]; intros v buf Hv.
  { change (128 ^ Z.of_nat 0) with 1 in Hv. lia. }
  cbn [varuint varint_loop]. rewrite (proj2 (Z.ltb_lt 0 v)) by lia. cbn zeta.
  rewrite Z.shiftr_div_pow2 by lia. change (2 ^ 7) with 128. rewrite land_127.
  case_if.
  - rewrite Z.lor_comm, lor_128 by (apply Z.mod_pos_bound; lia).
    rewrite IH, <- app_assoc; [done|]. split.
    + apply Z.div_str_pos. lia.
    + apply Z.div_lt_upper_bound; [lia|].
      rewrite <- Z.pow_succ_r, <- Nat2Z.inj_succ by lia. lia.
  - rewrite Z.div_small, Z.mod_small by lia. by destruct fuel.
Qed.

Lemma WriteVarInt_writes v : safe_int v -> writes (WriteVarInt v) (varint_bytes v).
Proof.
  intros [H1 H2] buf. unfold WriteVarInt. cbn [enc_err enc_buf].
  rewrite (proj2 (Z.ltb_ge v _)), (proj2 (Z.ltb_ge _ v)) by lia. cbn [orb].
  set (num := if v <? 0 then - v else v).
  assert (num = Z.abs v) as Habs by (subst num; case_if; lia).
  clearbody num. subst num. unfold varint_bytes.
  set (num := Z.abs v). set (neg := v <? 0). set (more := 63 <? num).
  assert (0 <= num <= MaxSafeInteger) as Hn by lia. clearbody num neg.
  rewrite land_63.
  destruct (varint_first_spec neg more (num mod 64)) as [Hf _];
    [apply Z.mod_pos_bound; lia|].
  cbn zeta in Hf. rewrite Hf. clear Hf.
  rewrite Z.shiftr_div_pow2 by lia. change (2 ^ 6) with 64.
  assert (num / 64 < 128 ^ Z.of_nat 9) as Hb.
  { apply Z.div_lt_upper_bound; [lia|]. unfold MaxSafeInteger in Hn.
    change (64 * 128 ^ Z.of_nat 9) with 590295810358705651712. lia. }
  subst more. case_if.
  - rewrite varint_loop_eq, <- app_assoc; [done|]. split; [|done].
    apply Z.div_str_pos. lia.
  - rewrite (Z.div_small num) by lia. done.
Qed.

Lemma varint_step num mult r v :
  0 <= num -> 0 < mult -> 0 <= v -> r = v mod 128 ->
  num + v * mult <= MaxSafeInteger ->
  s64 (num + s64 (r * mult)) = num + r * mult.
Proof.
  intros Hn Hm Hv -> Hs. pose proof (Z.div_mod v 128 ltac:(lia)).
  pose proof (Z.mod_pos_bound v 128 ltac:(lia)).
  pose proof (Z.div_pos v 128 ltac:(lia) ltac:(lia)).
  unfold MaxSafeInteger in Hs. rewrite (s64_small (_ * mult)).
  - apply s64_small. unfold two63. nia.
  - unfold two63. nia.
Qed.

Lemma varint_read_reads fuel : forall v sign num mult d rest k,
  0 <= v < 128 ^ Z.of_nat (S fuel) -> 0 <= num -> 0 < mult ->
  num + v * mult <= MaxSafeInteger ->
  unread d = varuint (S fuel) v ++ rest -> (length (varuint (S fuel) v) <= k)%nat ->
  varint_read k sign num mult d
  = Ok (s64 (sign * (num + v * mult)), advance (length (varuint (S fuel) v)) d).
Proof.
  induction fuel as [|fuel IH]; intros v sign num mult d rest k Hv Hn Hm Hs Hd Hk;
    pose proof (Z.div_mod v 128 ltac:(lia)) as Hdm;
    pose proof (Z.mod_pos_bound v 128 ltac:(lia)) as Hmb;
    destruct k as [|k]; try (cbn [varuint] in Hk; case_if; cbn in Hk; lia);
    cbn [varuint] in Hd, Hk |- *; destruct (127 <? v) eqn:E; bool_arith;
    try (change (128 ^ Z.of_nat 1) with 128 in Hv; lia);
    apply unread_cons in Hd as [Hb Hd]; cbn [varint_read]; rewrite Hb; cbn zeta;
    rewrite land_127.
  - rewrite (varint_step num mult (v mod 128) v) by lia.
    rewrite (proj2 (Z.ltb_lt v 128)), (Z.mod_small v) by lia. done.
  - assert (0 <= v / 128) by (apply Z.div_pos; lia).
    replace ((128 + v mod 128) mod 128) with (v mod 128)
      by (rewrite Z.add_mod_idemp_r, Z.add_comm by lia; symmetry;
          apply (Z_mod_plus_full v 1 128)).
    rewrite (varint_step num mult (v mod 128) v) by lia.
    rewrite (proj2 (Z.ltb_ge _ 128)) by lia.
    rewrite (proj2 (Z.ltb_ge _ _)) by nia.
    rewrite (s64_small (mult * 128)) by (unfold two63, MaxSafeInteger in *; nia).
    rewrite (IH (v / 128) _ _ _ (advance 1 d) rest k); try done.
    + rewrite advance_advance. apply (f_equal Ok), (f_equal2 pair); [f_equal; nia|done].
    + split; [done|]. apply Z.div_lt_upper_bound; [lia|].
      rewrite <- Z.pow_succ_r, <- Nat2Z.inj_succ by lia. lia.
    + nia.
    + lia.
    + nia.
    + cbn in Hk. cbn. lia.
  - rewrite (varint_step num mult (v mod 128) v) by lia.
    rewrite (proj2 (Z.ltb_lt v 128)), (Z.mod_small v) by lia. done.
Qed.

Lemma ReadVarInt_reads v : safe_int v -> reads ReadVarInt (varint_bytes v) v.
Proof.
  intros Hv d rest Hd. unfold varint_bytes in *. cbn zeta in *.
  set (num := Z.abs v) in *. set (more := 63 <? num) in *.
  apply unread_cons in Hd as [Hb Hd]. unfold ReadVarInt. rewrite Hb. cbn zeta.
  destruct (varint_first_spec (v <? 0) more (num mod 64)) as (_ & Ha & Hn & Hm);
    [apply Z.mod_pos_bound; lia|].
  cbn zeta in *. rewrite Ha, Hn, Hm.
  pose proof (Z.div_mod num 64 ltac:(lia)). pose proof (Z.mod_pos_bound num 64 ltac:(lia)).
  unfold safe_int, MaxSafeInteger in Hv. subst more.
  destruct (63 <? num) eqn:E; cbn [negb]; bool_arith.
  - rewrite (varint_read_reads 8 (num / 64) _ _ _ _ rest); try done.
    + rewrite advance_advance. apply (f_equal Ok), (f_equal2 pair); [|done].
      destruct (v <? 0) eqn:Ev; cbn [negb]; bool_arith; rewrite s64_small;
        unfold two63; subst num; lia.
    + split; [apply Z.div_pos; lia|]. apply Z.div_lt_upper_bound; [lia|].
      change (64 * 128 ^ Z.of_nat 9) with 590295810358705651712. lia.
    + lia.
    + unfold MaxSafeInteger. lia.
    + by apply remaining_ge in Hd.
  - rewrite (Z.mod_small num) by lia.
    destruct (v <? 0) eqn:Ev; cbn [negb]; bool_arith;
      apply (f_equal Ok), (f_equal2 pair); try done; subst num; lia.
Qed.

#[export] Instance varint_wire : Wire WriteVarInt ReadVarInt varint_bytes safe_int.
Proof.
  split; auto using WriteVarInt_writes, ReadVarInt_reads. intros; cbn; lia.
Qed.

(** *** Length-prefixed strings and arrays *)

Definition string_bytes (s : bytes) : bytes :=
  varuint_bytes (Z.of_nat (length s)) ++ s.

Definition short (s : bytes) : Prop := Z.of_nat (length s) <= MaxSafeInteger.

Lemma short_safe s : short s -> safe (Z.of_nat (length s)).
Proof. unfold short, safe. lia. Qed.

Lemma WriteVarString_writes s : short s -> writes (WriteVarString s) (string_bytes s).
Proof.
  intros H buf. unfold WriteVarString. cbn [enc_err].
  rewrite (WriteVarUint_writes _ (short_safe _ H)), WriteBytes_writes.
  by rewrite <- app_assoc.
Qed.

Lemma WriteVarUint8Array_writes s :
  short s -> writes (WriteVarUint8Array s) (string_bytes s).
Proof. apply WriteVarString_writes. Qed.

Lemma ReadVarUint8Array_reads s :
  short s -> reads ReadVarUint8Array (string_bytes s) s.
Proof.
  intros H d rest Hd. unfold ReadVarUint8Array, string_bytes in *.
  rewrite <- app_assoc in Hd. read_step (ReadVarUint_reads _ (short_safe _ H)).
  pose proof (remaining_ge _ _ _ Hd) as Hr.
  rewrite (proj2 (Z.ltb_ge _ _)) by lia. rewrite (ReadBytes_reads _ _ _ Hd). read_done.
Qed.

Lemma ReadVarString_reads s : short s -> reads ReadVarString (string_bytes s) s.
Proof.
  intros H d rest Hd. unfold ReadVarString.
  by rewrite (ReadVarUint8Array_reads s H d rest Hd).
Qed.

Lemma string_ne s : (1 <= length (string_bytes s))%nat.
Proof.
  unfold string_bytes. rewrite length_app.
  pose proof (varuint_ne (Z.of_nat (length s))). lia.
Qed.

#[export] Instance string_wire : Wire WriteVarString ReadVarString string_bytes short.
Proof. split; auto using WriteVarString_writes, ReadVarString_reads, string_ne. Qed.

#[export] Instance array_wire :
  Wire WriteVarUint8Array ReadVarUint8Array string_bytes short.
Proof. split; auto using WriteVarUint8Array_writes, ReadVarUint8Array_reads, string_ne. Qed.

#[export] Hint Resolve WriteVarString_writes WriteVarUint8Array_writes
  ReadVarString_reads ReadVarUint8Array_reads : wire.

(** *** Sequences of values *)

Section Sequences.
Context {A : Type} {put : A -> Encoder -> Encoder}
  {get : Decoder -> res (A * Decoder)} {enc : A -> bytes} {ok : A -> Prop}
  {W : Wire put get enc ok}.

Definition list_bytes (l : list A) : bytes := concat (map enc l).

Lemma write_list_writes l : Forall ok l -> writes (write_list put l) (list_bytes l).
Proof.
  induction 1 as [|a l Ha Hl IH]; [apply writes_nil|].
  intros buf. cbn [write_list foldl]. rewrite (wire_put a Ha).
  unfold writes, write_list in IH. rewrite IH. unfold list_bytes. cbn [map concat].
  by rewrite <- app_assoc.
Qed.

Lemma read_n_reads l : Forall ok l -> reads (read_n (length l) get) (list_bytes l) l.
Proof.
  induction 1 as [|a l Ha Hl IH]; intros d rest Hd; [by rewrite advance_0|].
  unfold list_bytes in Hd. cbn [map concat] in Hd. rewrite <- app_assoc in Hd.
  cbn [read_n length]. read_step (wire_get a Ha). cbn beta iota.
  rewrite (IH _ _ Hd). cbn. rewrite advance_advance. unfold list_bytes. cbn.
  by rewrite length_app.
Qed.

Lemma list_bytes_ge l : Forall ok l -> (length l <= length (list_bytes l))%nat.
Proof.
  induction 1 as [|a l Ha Hl IH]; [done|]. unfold list_bytes in *. cbn.
  rewrite length_app. pose proof (wire_ne a Ha). lia.
Qed.
End Sequences.
Arguments list_bytes {A} enc l.

(** *** Readers stay inside the buffer *)

Lemma consumes_weaken {A} (m : Decoder -> res (A * Decoder)) k k' :
  (k' <= k)%nat -> consumes k m -> consumes k' m.
Proof. intros Hk Hm d a d' H Hp. destruct (Hm d a d' H Hp). split; [done|lia]. Qed.

Lemma consumes_ret {A} (a : A) : consumes 0 (fun d => Ok (a, d)).
Proof. intros d x d' H Hp. injection H as <- <-. split; [done|lia]. Qed.

Lemma consumes_err {A} k e : consumes k (fun d => @Err (A * Decoder) e).
Proof. intros d x d' H. discriminate. Qed.

Lemma consumes_bind {A B} (m : Decoder -> res (A * Decoder))
    (k : A -> Decoder -> res (B * Decoder)) n1 n2 :
  consumes n1 m -> (forall a, consumes n2 (k a)) ->
  consumes (n1 + n2) (fun d => '(x, d) ← m d; k x d).
Proof.
  intros Hm Hk d b d' H Hp. apply bind_Ok_inv in H as ([a d1] & H1 & H2).
  destruct (Hm _ _ _ H1 Hp) as [Hb1 Hp1]. rewrite <- Hb1 in Hp1.
  destruct (Hk _ _ _ _ H2) as [Hb2 Hp2]; [lia|]. rewrite Hb2, Hb1 in *.
  split; [done|]. lia.
Qed.

Lemma consumes_bind0 {A B} (m : Decoder -> res (A * Decoder))
    (k : A -> Decoder -> res (B * Decoder)) n :
  consumes n m -> (forall a, consumes 0 (k a)) ->
  consumes n (fun d => '(x, d) ← m d; k x d).
Proof.
  intros Hm Hk. rewrite <- (Nat.add_0_r n). by apply consumes_bind.
Qed.

Lemma consumes_if {A} (b : Decoder -> bool) (m1 m2 : Decoder -> res (A * Decoder)) n :
  consumes n m1 -> consumes n m2 -> consumes n (fun d => if b d then m1 d else m2 d).
Proof. intros H1 H2 d a d'. destruct (b d); eauto. Qed.

Lemma consumes_0 {A} (m : Decoder -> res (A * Decoder)) n : consumes n m -> consumes 0 m.
Proof. apply consumes_weaken. lia. Qed.

(** Walks through a reader built from binds, tests and known readers. *)
Ltac consumes_tac :=
  repeat first
    [ apply consumes_ret | apply consumes_err
    | solve [eauto using consumes_0 with wire]
    | eapply consumes_if
    | eapply consumes_bind0;
      [solve [eauto using consumes_0 with wire] | let a := fresh in intros a;
         try match type of a with (_ * _)%type => destruct a end] ].

Lemma ReadUint8_consumes : consumes 1 ReadUint8.
Proof.
  intros d a d' H Hp. unfold ReadUint8 in H.
  destruct (dec_buf d !! dec_pos d) eqn:E; [|done]. injection H as <- <-.
  apply lookup_lt_Some in E. cbn. split; [done|lia].
Qed.

Lemma ReadBytes_consumes n : consumes 0 (ReadBytes n).
Proof.
  intros d a d' H Hp. unfold ReadBytes in H. repeat case_if; try done.
  injection H as <- <-. unfold Remaining in *. cbn. split; [done|lia].
Qed.

Lemma varuint_read_consumes k : forall num mult, consumes 1 (varuint_read k num mult).
Proof.
  induction k as [|k IH]; intros num mult d a d' H Hp; [done|].
  cbn [varuint_read] in H. destruct (dec_buf d !! dec_pos d) eqn:E; [|done].
  apply lookup_lt_Some in E. cbn zeta in H. repeat case_if; try done.
  - injection H as <- <-. cbn. split; [done|lia].
  - apply IH in H as [H1 H2]; cbn in *; [lia|split; [done|lia]].
Qed.

Lemma varint_read_consumes k : forall s num mult, consumes 1 (varint_read k s num mult).
Proof.
  induction k as [|k IH]; intros s num mult d a d' H Hp; [done|].
  cbn [varint_read] in H. destruct (dec_buf d !! dec_pos d) eqn:E; [|done].
  apply lookup_lt_Some in E. cbn zeta in H. repeat case_if; try done.
  - injection H as <- <-. cbn. split; [done|lia].
  - apply IH in H as [H1 H2]; cbn in *; [lia|split; [done|lia]].
Qed.

Lemma ReadVarUint_consumes : consumes 1 ReadVarUint.
Proof. intros d a d' H Hp. exact (varuint_read_consumes _ _ _ _ _ _ H Hp). Qed.

Lemma ReadVarInt_consumes : consumes 1 ReadVarInt.
Proof.
  intros d a d' H Hp. unfold ReadVarInt in H.
  destruct (dec_buf d !! dec_pos d) eqn:E; [|done]. apply lookup_lt_Some in E.
  cbn zeta in H. destruct (Z.land z 128 =? 0).
  - injection H as <- <-. cbn. split; [done|lia].
  - apply varint_read_consumes in H as [H1 H2]; cbn in *; [lia|split; [done|lia]].
Qed.

Lemma ReadVarUint8Array_consumes : consumes 1 ReadVarUint8Array.
Proof.
  apply (consumes_bind _ _ 1 0 ReadVarUint_consumes). intros n d a d' H Hp.
  case_if; [done|]. exact (ReadBytes_consumes _ _ _ _ H Hp).
Qed.

Lemma ReadVarString_consumes : consumes 1 ReadVarString.
Proof.
  apply (consumes_bind _ _ 1 0 ReadVarUint8Array_consumes). intros b. apply consumes_ret.
Qed.

Lemma read_n_consumes {A} (get : Decoder -> res (A * Decoder)) n :
  consumes 1 get -> consumes n (read_n n get).
Proof.
  intros Hg. induction n as [|n IH]; [apply consumes_ret|].
  apply (consumes_bind _ _ 1 n Hg). intros a.
  apply (consumes_weaken _ (n + 0)); [lia|].
  apply (consumes_bind _ _ n 0 IH). intros l. apply consumes_ret.
Qed.

Lemma read_n_length {A} (get : Decoder -> res (A * Decoder)) n d l d' :
  read_n n get d = Ok (l, d') -> length l = n.
Proof.
  revert d l. induction n as [|n IH]; intros d l H; cbn in H; res_inv; [done|].
  cbn. by erewrite IH.
Qed.

Lemma varuint_read_range k num mult d v d' :
  varuint_read k num mult d = Ok (v, d') -> 0 <= v < two64.
Proof.
  revert num mult d. induction k as [|k IH]; intros num mult d H; [done|].
  cbn [varuint_read] in H. destruct (dec_buf d !! dec_pos d); [|done].
  cbn zeta in H. repeat case_if; try done; [|by apply IH in H].
  injection H as <- _. apply u64_range.
Qed.

#[export] Hint Resolve ReadUint8_consumes ReadVarUint_consumes ReadVarInt_consumes
  ReadVarString_consumes ReadVarUint8Array_consumes ReadBytes_consumes
  read_n_consumes consumes_ret consumes_err : wire.

(** *** Runes *)

Lemma decode_rune_length s r n :
  decode_rune s = Some (r, n) -> (1 <= n <= length s)%nat.
Proof.
  destruct s as [|b0 [|b1 [|b2 [|b3 t]]]]; [done|..]; cbn -[Z.mul Z.sub];
    intros H; repeat case_if; simplify_eq; cbn; lia.
Qed.

Lemma decode_rune_cons b s : is_Some (decode_rune (b :: s)).
Proof.
  destruct s as [|b1 [|b2 [|b3 t]]]; cbn -[Z.mul Z.sub]; repeat case_if; eauto.
Qed.

(** A rune that fits in a prefix is decoded the same there, valid or not. *)
Lemma decode_rune_take s r n k :
  decode_rune s = Some (r, n) -> (n <= k)%nat -> decode_rune (take k s) = Some (r, n).
Proof.
  intros H Hk. pose proof (decode_rune_length _ _ _ H) as Hl.
  destruct s as [|b0 [|b1 [|b2 [|b3 t]]]];
    destruct k as [|[|[|[|k]]]]; cbn -[Z.mul Z.sub] in *;
    try lia; repeat case_if; simplify_eq; try done; try lia.
Qed.

Lemma runes_fuel_irrel f1 f2 s :
  (length s <= f1)%nat -> (length s <= f2)%nat -> runes_fuel f1 s = runes_fuel f2 s.
Proof.
  revert f2 s. induction f1 as [|f1 IH]; intros f2 s H1 H2.
  { destruct s; [|cbn in H1; lia]. by destruct f2. }
  destruct f2 as [|f2]; [destruct s; [done|cbn in H2; lia]|].
  cbn. destruct (decode_rune s) as [[r n]|] eqn:E; [|done].
  pose proof (decode_rune_length _ _ _ E). f_equal.
  apply IH; rewrite length_drop; lia.
Qed.

Lemma runes_cons s r n :
  decode_rune s = Some (r, n) -> runes s = (r, take n s) :: runes (drop n s).
Proof.
  intros E. pose proof (decode_rune_length _ _ _ E).
  unfold runes at 1. destruct (length s) as [|f] eqn:El; [lia|].
  cbn. rewrite E. f_equal. apply runes_fuel_irrel; rewrite length_drop; lia.
Qed.

(** Induction over the runes of a string. *)
Lemma runes_ind (P : bytes -> Prop) :
  P [] ->
  (forall s r n, decode_rune s = Some (r, n) -> P (drop n s) -> P s) ->
  forall s, P s.
Proof.
  intros H0 HS s. remember (length s) as k eqn:Hk. revert s Hk.
  induction (lt_wf k) as [k _ IH]. intros s ->.
  destruct s as [|b s]; [done|].
  destruct (decode_rune_cons b s) as [[r n] E]. pose proof (decode_rune_length _ _ _ E).
  apply (HS _ r n E). apply (IH (length (drop n (b :: s)))); [|done].
  rewrite length_drop. cbn in *. lia.
Qed.

Definition usum (rs : list (Z * bytes)) : Z := foldr (fun x n => units x.1 + n) 0 rs.

Lemma usum_app a b : usum (a ++ b) = usum a + usum b.
Proof. induction a as [|x a IH]; cbn in *; [done|]. unfold usum in *. cbn. lia. Qed.

Lemma usum_nonneg rs : 0 <= usum rs.
Proof.
  induction rs as [|x rs IH]; cbn; [done|]. unfold usum in *.
  assert (1 <= units x.1) by (unfold units; case_if; lia). lia.
Qed.

Lemma UTF16Length_usum s : UTF16Length s = usum (runes s).
Proof.
  unfold UTF16Length. enough (forall rs a, foldl (fun n '(r, _) => n + units r) a rs
    = a + usum rs) as -> by lia.
  induction rs as [|[r b] rs IH]; intros a; cbn; [lia|].
  rewrite IH. unfold usum. cbn. lia.
Qed.

Lemma UTF16Length_nonneg s : 0 <= UTF16Length s.
Proof. rewrite UTF16Length_usum. apply usum_nonneg. Qed.

Lemma UTF16Length_le s : UTF16Length s <= Z.of_nat (length s).
Proof.
  rewrite UTF16Length_usum. induction s as [|s r n E IH] using runes_ind; [done|].
  rewrite (runes_cons s r n E). unfold usum in *. cbn [foldr fst].
  pose proof (decode_rune_length _ _ _ E) as Hn. rewrite length_drop in IH.
  enough (units r <= Z.of_nat n) by lia. unfold units. case_if; [|lia].
  destruct (decide (n = 1%nat)) as [->|]; [|lia]. exfalso. clear IH Hn.
  destruct s as [|b0 [|b1 [|b2 [|b3 t]]]]; [done|..]; cbn -[Z.mul Z.sub] in E;
    repeat case_if; simplify_eq; lia.
Qed.

Lemma ReadBytes_length n d b d' :
  ReadBytes n d = Ok (b, d') -> (length b <= length (dec_buf d))%nat.
Proof.
  unfold ReadBytes. intros H. repeat case_if; try done. res_inv.
  rewrite length_take, length_drop. lia.
Qed.

Lemma ReadVarString_length d s d' :
  ReadVarString d = Ok (s, d') -> (dec_pos d <= length (dec_buf d))%nat ->
  (length s <= length (dec_buf d))%nat.
Proof.
  unfold ReadVarString, ReadVarUint8Array. intros H Hp. res_inv. case_if; [done|].
  apply ReadVarUint_consumes in Hm0 as [Hb _]; [done|]. rewrite <- Hb.
  by eapply ReadBytes_length.
Qed.

#[global] Arguments WriteUint8 : simpl never.
#[global] Arguments WriteBytes : simpl never.
#[global] Arguments WriteVarUint : simpl never.
#[global] Arguments WriteVarInt : simpl never.
#[global] Arguments WriteVarString : simpl never.
#[global] Arguments WriteVarUint8Array : simpl never.
#[global] Arguments ReadVarUint : simpl never.
#[global] Arguments ReadVarInt : simpl never.
#[global] Arguments ReadVarString : simpl never.
#[global] Arguments ReadVarUint8Array : simpl never.
#[global] Arguments ReadBytes : simpl never.
#[global] Arguments ReadUint8 : simpl never.
#[global] Arguments varuint_bytes : simpl never.
#[global] Arguments string_bytes : simpl never.
#[global] Arguments varint_bytes : simpl never.
#[global] Arguments UTF16Length : simpl never.
#[global] Arguments unread : simpl never.
#[global] Arguments advance : simpl never.
#[global] Arguments read_n : simpl never.
