(* ===== verification/Any.v ===== *)
(** * The lib0 "any" format

    [internal/crdt/lib0/any.go]: a tag byte and a payload, nested up to
    [maxAnyDepth].  Numbers follow JavaScript: an integral value within 31 bits
    is a varInt, a value that survives a float32 round trip is a float32, any
    other is a float64.  Floats are their IEEE 754 bit patterns; the part of
    float arithmetic [writeNumber] uses is written out on them. *)

From S2P Require Import Prelude Lib0.

Definition TagUndefined := 127.
Definition TagNull := 126.
Definition TagInteger := 125.
Definition TagFloat32 := 124.
Definition TagFloat64 := 123.
Definition TagBigInt := 122.
Definition TagFalse := 121.
Definition TagTrue := 120.
Definition TagString := 119.
Definition TagObject := 118.
Definition TagArray := 117.
Definition TagUint8Array := 116.

Definition maxInt31 : Z := 2147483647.
Definition maxAnyDepth : nat := 128.
Definition canonicalNaN64 : Z := 9221120237041090560.

(** A Go value of type [any], by the cases [writeAny] distinguishes.  All the
    integer kinds go through [float64(t)], so they are one constructor.  [AnyMap]
    is a Go map, here its entries in any order.  [AnyOther] is every type the
    format has no representation for. *)
#[warnings="-register-all"]
Inductive any :=
  | AnyNil
  | AnyUndefined
  | AnyBool (b : bool)
  | AnyString (s : bytes)
  | AnyBigInt (z : Z)
  | AnyBytes (b : bytes)
  | AnyArray (l : list any)
  | AnyObject (fields : list (bytes * any))
  | AnyMap (entries : list (bytes * any))
  | AnyFloat32 (bits : Z)
  | AnyFloat64 (bits : Z)
  | AnyInt (z : Z)
  | AnyOther.

(** [Object.Get] and [Object.Set] on the ordered field list. *)
Fixpoint Object_Get (fields : list (bytes * any)) (key : bytes) : option any :=
  match fields with
  | [] => None
  | (k, v) :: t => if decide (k = key) then Some v else Object_Get t key
  end.

Fixpoint Object_Set (fields : list (bytes * any)) (key : bytes) (v : any)
    : list (bytes * any) :=
  match fields with
  | [] => [(key, v)]
  | (k, w) :: t => if decide (k = key) then (k, v) :: t else (k, w) :: Object_Set t key v
  end.

(** ** Floats *)

(** A float64 value: [FFin s m e] is [(-1)^s * m * 2^e] with [m >= 0]. *)
Inductive f64 :=
  | FNaN
  | FInf (s : bool)
  | FFin (s : bool) (m e : Z).

(** [math.Float64frombits]. *)
Definition f64_of_bits (bits : Z) : f64 :=
  let s := Z.testbit bits 63 in
  let ex := Z.land (Z.shiftr bits 52) 2047 in
  let man := Z.land bits 4503599627370495 in
  if ex =? 2047 then if man =? 0 then FInf s else FNaN
  else if ex =? 0 then FFin s man (-1074)
  else FFin s (man + 4503599627370496) (ex - 1075).

(** Number of binary digits of a non-negative integer. *)
Definition digits (m : Z) : Z := if m =? 0 then 0 else Z.log2 m + 1.

(** Rounds [m * 2^e] to [prec] digits, to nearest, ties to even. *)
Definition round_even (prec m e : Z) : Z * Z :=
  let k := digits m - prec in
  if k <=? 0 then (m, e)
  else
    let q := Z.shiftr m k in
    let r := m - Z.shiftl q k in
    let half := Z.shiftl 1 (k - 1) in
    let up := (half <? r) || ((half =? r) && Z.odd q) in
    ((if up then q + 1 else q), e + k).

(** The conversion [float64(t)] of an integer. *)
Definition f64_of_int (z : Z) : f64 :=
  let '(m, e) := round_even 53 (Z.abs z) 0 in FFin (z <? 0) m e.

(** [math.Float64bits] of a value with at most 53 digits. *)
Definition f64_bits (v : f64) : Z :=
  match v with
  | FNaN => canonicalNaN64
  | FInf s => (if s then two63 else 0) + Z.shiftl 2047 52
  | FFin s m e =>
      let sg := if s then two63 else 0 in
      if m =? 0 then sg
      else
        let k := 53 - digits m in
        let m' := if 0 <=? k then Z.shiftl m k else Z.shiftr m (- k) in
        let ex := e - k + 1075 in
        if 1 <=? ex then sg + Z.shiftl ex 52 + (m' - 4503599627370496)
        else sg + Z.shiftr m' (1 - ex)
  end.

(** [v == math.Trunc(v)], with the integer it then is. *)
Definition f64_integral (v : f64) : option Z :=
  match v with
  | FFin s m e =>
      let n :=
        if 0 <=? e then Some (Z.shiftl m e)
        else if m =? Z.shiftl (Z.shiftr m (- e)) (- e) then Some (Z.shiftr m (- e))
        else None in
      (fun n => if s then - n else n) <$> n
  | _ => None
  end.

Definition f64_negzero (v : f64) : bool :=
  match v with FFin s m _ => s && (m =? 0) | _ => false end.

(** Strips factors of two: [m * 2^e] with [m] odd (or zero). *)
Fixpoint odd_part (fuel : nat) (m e : Z) : Z * Z :=
  match fuel with
  | O => (m, e)
  | S fuel => if Z.even m && negb (m =? 0) then odd_part fuel (Z.shiftr m 1) (e + 1) else (m, e)
  end.

(** [float64(float32(v)) == v]: exactly when [v] is a float32 value or an
    infinity; the bits are then [math.Float32bits(float32(v))]. *)
Definition f32_exact (v : f64) : option Z :=
  match v with
  | FNaN => None
  | FInf s => Some ((if s then 2147483648 else 0) + Z.shiftl 255 23)
  | FFin s m e =>
      let sg := if s then 2147483648 else 0 in
      if m =? 0 then Some sg
      else
        let '(o, x) := odd_part 64 m e in
        let n := digits o in
        if (n <=? 24) && (-149 <=? x) && (x + n <=? 128) then
          let ex := x + n - 24 + 150 in
          if 1 <=? ex
          then Some (sg + Z.shiftl ex 23 + (Z.shiftl o (24 - n) - 8388608))
          else Some (sg + Z.shiftl o (x + 149))
        else None
  end.

(** ** Big-endian fixed width integers *)

(** [binary.BigEndian.PutUint32] and [PutUint64], [n] bytes wide. *)
Fixpoint be_split (n : nat) (w : Z) : bytes :=
  match n with
  | O => []
  | S n => Z.land (Z.shiftr w (8 * Z.of_nat n)) 255 :: be_split n w
  end.

(** [binary.BigEndian.Uint32] and [Uint64]. *)
Definition be_combine (b : bytes) : Z := foldl (fun acc x => Z.lor (Z.shiftl acc 8) x) 0 b.

(** ** Writing *)

Definition writeNumber (v : f64) (bits : Z) (e : Encoder) : Encoder :=
  let float_case :=
    match f32_exact v with
    | Some b32 => WriteBytes (be_split 4 b32) (WriteUint8 TagFloat32 e)
    | None =>
        let bits := match v with FNaN => canonicalNaN64 | _ => bits end in
        WriteBytes (be_split 8 bits) (WriteUint8 TagFloat64 e)
    end in
  match f64_integral v with
  | Some n =>
      if Z.abs n <=? maxInt31 then
        let e := WriteUint8 TagInteger e in
        if f64_negzero v then WriteUint8 64 e else WriteVarInt n e
      else float_case
  | None => float_case
  end.

(** [sort.Strings] on keys: byte-wise order.  Keys of a map are distinct, so the
    result does not depend on the sorting algorithm. *)
Fixpoint bytes_le (a b : bytes) : bool :=
  match a, b with
  | [], _ => true
  | _ :: _, [] => false
  | x :: a, y :: b => (x <? y) || ((x =? y) && bytes_le a b)
  end.

Fixpoint insert_key {A} (k : bytes) (v : A) (l : list (bytes * A)) : list (bytes * A) :=
  match l with
  | [] => [(k, v)]
  | (k', v') :: t => if bytes_le k k' then (k, v) :: l else (k', v') :: insert_key k v t
  end.

Definition sort_keys {A} (l : list (bytes * A)) : list (bytes * A) :=
  foldr (fun '(k, v) => insert_key k v) [] l.

(** [writeFields], given for each field its key and the write of its value one
    level down. *)
Definition writeFields (puts : list (bytes * (Encoder -> Encoder))) (e : Encoder)
    : Encoder :=
  foldl (fun e '(k, put) => put (WriteVarString k e))
    (WriteVarUint (Z.of_nat (length puts)) (WriteUint8 TagObject e)) puts.

Fixpoint writeAny (v : any) (depth : nat) (e : Encoder) : Encoder :=
  match enc_err e with
  | Some _ => e
  | None =>
      if (maxAnyDepth <? depth)%nat then fail ErrDepthExceeded e
      else
        match v with
        | AnyNil => WriteUint8 TagNull e
        | AnyUndefined => WriteUint8 TagUndefined e
        | AnyBool b => WriteUint8 (if b then TagTrue else TagFalse) e
        | AnyString s => WriteVarString s (WriteUint8 TagString e)
        | AnyBigInt z => WriteBytes (be_split 8 (u64 z)) (WriteUint8 TagBigInt e)
        | AnyBytes b => WriteVarUint8Array b (WriteUint8 TagUint8Array e)
        | AnyArray l =>
            foldl (fun e put => put e)
              (WriteVarUint (Z.of_nat (length l)) (WriteUint8 TagArray e))
              (map (fun x => writeAny x (S depth)) l)
        | AnyObject fields =>
            writeFields (map (fun '(k, x) => (k, writeAny x (S depth))) fields) e
        | AnyMap entries =>
            writeFields (sort_keys (map (fun '(k, x) => (k, writeAny x (S depth))) entries)) e
        | AnyFloat32 bits => WriteBytes (be_split 4 bits) (WriteUint8 TagFloat32 e)
        | AnyFloat64 bits => writeNumber (f64_of_bits bits) bits e
        | AnyInt z => let v := f64_of_int z in writeNumber v (f64_bits v) e
        | AnyOther => fail ErrUnsupportedType e
        end
  end.

Definition WriteAny (v : any) (e : Encoder) : Encoder := writeAny v 0 e.

(** ** Reading *)

(** [readAny(depth)], by recursion on how much depth remains: [depth] is
    [maxAnyDepth + 1 - more]. *)
Fixpoint readAny_left (more : nat) (d : Decoder) : res (any * Decoder) :=
  match more with
  | O => Err ErrDepthExceeded
  | S more =>
      '(tag, d) ← ReadUint8 d;
      if tag =? TagUndefined then Ok (AnyUndefined, d)
      else if tag =? TagNull then Ok (AnyNil, d)
      else if tag =? TagInteger then '(n, d) ← ReadVarInt d; Ok (AnyInt n, d)
      else if tag =? TagFloat32 then
        '(b, d) ← ReadBytes 4 d; Ok (AnyFloat32 (be_combine b), d)
      else if tag =? TagFloat64 then
        '(b, d) ← ReadBytes 8 d; Ok (AnyFloat64 (be_combine b), d)
      else if tag =? TagBigInt then
        '(b, d) ← ReadBytes 8 d; Ok (AnyBigInt (s64 (be_combine b)), d)
      else if tag =? TagFalse then Ok (AnyBool false, d)
      else if tag =? TagTrue then Ok (AnyBool true, d)
      else if tag =? TagString then '(s, d) ← ReadVarString d; Ok (AnyString s, d)
      else if tag =? TagObject then
        '(n, d) ← ReadVarUint d;
        if Z.of_nat (Remaining d) <? n then Err ErrUnexpectedEOF
        else
          '(fields, d) ← read_n (Z.to_nat n)
            (fun d => '(key, d) ← ReadVarString d;
                      '(val, d) ← readAny_left more d; Ok ((key, val), d)) d;
          Ok (AnyObject fields, d)
      else if tag =? TagArray then
        '(n, d) ← ReadVarUint d;
        if Z.of_nat (Remaining d) <? n then Err ErrUnexpectedEOF
        else
          '(l, d) ← read_n (Z.to_nat n) (readAny_left more) d;
          Ok (AnyArray l, d)
      else if tag =? TagUint8Array then
        '(b, d) ← ReadVarUint8Array d; Ok (AnyBytes b, d)
      else Err ErrUnknownAnyTag
  end.

Definition readAny (depth : nat) (d : Decoder) : res (any * Decoder) :=
  readAny_left (S maxAnyDepth - depth) d.

Definition ReadAny (d : Decoder) : res (any * Decoder) := readAny 0 d.

(** ** Round trip *)

(** The values a JavaScript client's [writeAny] produces after reading: what
    [readAny] returns for a canonical encoding with [more] levels to spare. *)
Definition canon_f64 (bits : Z) : Prop :=
  0 <= bits < two64 /\ f32_exact (f64_of_bits bits) = None
  /\ (f64_of_bits bits = FNaN -> bits = canonicalNaN64)
  /\ (forall n, f64_integral (f64_of_bits bits) = Some n -> maxInt31 < Z.abs n).

Fixpoint canon (more : nat) (v : any) : Prop :=
  match more with
  | O => False
  | S more =>
      match v with
      | AnyNil | AnyUndefined | AnyBool _ => True
      | AnyString s | AnyBytes s => short s
      | AnyBigInt z => - two63 <= z < two63
      | AnyFloat32 bits => 0 <= bits < 4294967296
      | AnyFloat64 bits => canon_f64 bits
      | AnyInt z => Z.abs z <= maxInt31
      | AnyArray l => Z.of_nat (length l) <= MaxSafeInteger /\ Forall (canon more) l
      | AnyObject fields =>
          Z.of_nat (length fields) <= MaxSafeInteger
          /\ Forall (fun f => short f.1 /\ canon more f.2) fields
      | AnyMap _ | AnyOther => False
      end
  end.

(** The encoding of a canonical value. *)
Fixpoint any_bytes (v : any) : bytes :=
  match v with
  | AnyNil => [TagNull]
  | AnyUndefined => [TagUndefined]
  | AnyBool b => [if b then TagTrue else TagFalse]
  | AnyString s => TagString :: string_bytes s
  | AnyBigInt z => TagBigInt :: be_split 8 (u64 z)
  | AnyBytes b => TagUint8Array :: string_bytes b
  | AnyArray l =>
      TagArray :: varuint_bytes (Z.of_nat (length l)) ++ concat (map any_bytes l)
  | AnyObject fields =>
      TagObject :: varuint_bytes (Z.of_nat (length fields))
        ++ concat (map (fun '(k, x) => string_bytes k ++ any_bytes x) fields)
  | AnyFloat32 bits => TagFloat32 :: be_split 4 bits
  | AnyFloat64 bits => TagFloat64 :: be_split 8 bits
  | AnyInt z => TagInteger :: varint_bytes z
  | AnyMap _ | AnyOther => []
  end.

Lemma length_be_split n w : length (be_split n w) = n.
Proof. induction n; cbn; by f_equal. Qed.

Lemma be_combine_acc b acc : 0 <= acc ->
  Forall (fun x => 0 <= x < 256) b ->
  foldl (fun acc x => Z.lor (Z.shiftl acc 8) x) acc b
  = acc * 256 ^ Z.of_nat (length b) + be_combine b.
Proof.
  intros Ha Hb. revert acc Ha. unfold be_combine.
  induction Hb as [|x b Hx Hb IH]; intros acc Ha; [cbn; lia|].
  assert (Hl : forall a, 0 <= a -> Z.lor (Z.shiftl a 8) x = a * 256 + x).
  { intros a H. rewrite <- (Z.lor_comm x), Z.shiftl_mul_pow2 by lia.
    change (2 ^ 8) with 256. rewrite Z.lor_comm, <- Z.lxor_lor, <- Z.add_nocarry_lxor; [done|..];
    (apply Z.bits_inj'; intros n Hn; rewrite Z.land_spec, Z.bits_0;
     destruct (Z.ltb_spec n 8);
     [ change 256 with (2 ^ 8); rewrite Z.mul_pow2_bits_low by lia; done
     | rewrite (Z.bits_above_log2 x n), andb_false_r;
       [done|lia|];
       destruct (Z.eq_dec x 0) as [->|]; [cbn; lia|];
       apply Z.lt_le_trans with 8; [apply Z.log2_lt_pow2; lia|lia] ]). }
  cbn [foldl length]. rewrite !Hl by lia. rewrite IH, (IH (0 * 256 + x)) by lia.
  rewrite Nat2Z.inj_succ, Z.pow_succ_r by lia. ring.
Qed.

Lemma be_split_range n w : Forall (fun x => 0 <= x < 256) (be_split n w).
Proof.
  induction n as [|n IH]; cbn; constructor; [|done].
  change 255 with (Z.ones 8). rewrite Z.land_ones by lia.
  apply Z.mod_pos_bound. lia.
Qed.

Lemma be_combine_split n w :
  be_combine (be_split n w) = w mod 256 ^ Z.of_nat n.
Proof.
  induction n as [|n IH]; [by rewrite Z.mod_1_r|].
  cbn [be_split]. unfold be_combine. cbn [foldl].
  rewrite be_combine_acc.
  - rewrite IH, length_be_split. change 255 with (Z.ones 8).
    rewrite Z.land_ones, Z.shiftr_div_pow2 by lia.
    rewrite Z.shiftl_0_l, Z.lor_0_l. rewrite Nat2Z.inj_succ, Z.pow_succ_r by lia.
    change (2 ^ 8) with 256. rewrite (Z.pow_mul_r 2 8) by lia. change (2 ^ 8) with 256.
    pose proof (Z.pow_pos_nonneg 256 (Z.of_nat n) ltac:(lia) ltac:(lia)).
    rewrite (Z.mul_comm 256), (Z.rem_mul_r w) by lia. ring.
  - rewrite Z.shiftl_0_l, Z.lor_0_l. change 255 with (Z.ones 8).
    rewrite Z.land_ones by lia. apply Z.mod_pos_bound. lia.
  - apply be_split_range.
Qed.

Lemma f64_of_small_int z :
  Z.abs z <= maxInt31 -> f64_of_int z = FFin (z <? 0) (Z.abs z) 0.
Proof.
  intros H. unfold f64_of_int, round_even. rewrite (proj2 (Z.leb_le _ 0)); [done|].
  unfold digits, maxInt31 in *. case_if; [lia|].
  assert (Z.log2 (Z.abs z) < 31) by (apply Z.log2_lt_pow2; lia). lia.
Qed.

Lemma writeNumber_int z bits :
  Z.abs z <= maxInt31 ->
  writes (writeNumber (FFin (z <? 0) (Z.abs z) 0) bits) (TagInteger :: varint_bytes z).
Proof.
  intros H buf. unfold writeNumber. cbn [f64_integral Z.leb Z.compare].
  rewrite Z.shiftl_0_r. cbn [fmap option_fmap option_map].
  replace (if z <? 0 then - Z.abs z else Z.abs z) with z by (case_if; lia).
  rewrite (proj2 (Z.leb_le _ _)) by done.
  replace (f64_negzero _) with false.
  - rewrite WriteUint8_writes, WriteVarInt_writes, <- app_assoc; [done|].
    unfold safe_int, MaxSafeInteger, maxInt31 in *. lia.
  - cbn. destruct (Z.ltb_spec z 0); cbn; [|done]. symmetry. apply Z.eqb_neq. lia.
Qed.

Lemma writeNumber_f64 bits :
  canon_f64 bits ->
  writes (writeNumber (f64_of_bits bits) bits) (TagFloat64 :: be_split 8 bits).
Proof.
  intros (Hr & Hf & Hn & Hi) buf. unfold writeNumber. rewrite Hf.
  replace (match f64_of_bits bits with FNaN => canonicalNaN64 | _ => bits end) with bits
    by (destruct (f64_of_bits bits); auto).
  destruct (f64_integral (f64_of_bits bits)) as [n|].
  - rewrite (proj2 (Z.leb_gt _ _)) by (by apply Hi).
    by rewrite WriteUint8_writes, WriteBytes_writes, <- app_assoc.
  - by rewrite WriteUint8_writes, WriteBytes_writes, <- app_assoc.
Qed.

Lemma foldl_puts_writes {A} (f : A -> Encoder -> Encoder) (enc : A -> bytes) l :
  Forall (fun a => writes (f a) (enc a)) l ->
  writes (fun e => foldl (fun e put => put e) e (map f l)) (concat (map enc l)).
Proof.
  induction 1 as [|a l Ha Hl IH]; [apply writes_nil|]. intros buf. cbn.
  rewrite Ha. unfold writes in IH. by rewrite IH, <- app_assoc.
Qed.

Lemma foldl_fields_writes {A} (f : A -> Encoder -> Encoder) (enc : A -> bytes)
    (l : list (bytes * A)) :
  Forall (fun a => short a.1 /\ writes (f a.2) (enc a.2)) l ->
  writes (fun e => foldl (fun e '(k, put) => put (WriteVarString k e)) e
                     (map (fun '(k, x) => (k, f x)) l))
    (concat (map (fun '(k, x) => string_bytes k ++ enc x) l)).
Proof.
  induction 1 as [|[k a] l [Hk Ha] Hl IH]; [apply writes_nil|]. intros buf. cbn in *.
  rewrite (WriteVarString_writes k Hk), Ha. unfold writes in IH.
  rewrite IH. by rewrite <- !app_assoc.
Qed.

Lemma writeAny_writes more : forall v depth,
  canon more v -> (depth + more <= S maxAnyDepth)%nat ->
  writes (writeAny v depth) (any_bytes v).
Proof.
  induction more as [|more IH]; intros v depth Hv Hd; [done|].
  assert ((maxAnyDepth <? depth)%nat = false) as Hlt by (apply Nat.ltb_ge; lia).
  intros buf. cbn [canon] in Hv.
  destruct v as [| |b|s|z|b|l|fs|m|bits|bits|z|]; cbn [writeAny enc_err];
    rewrite Hlt; cbn [any_bytes]; try done.
  - by rewrite WriteUint8_writes, WriteVarString_writes, <- app_assoc.
  - by rewrite WriteUint8_writes, WriteBytes_writes, <- app_assoc.
  - by rewrite WriteUint8_writes, WriteVarUint8Array_writes, <- app_assoc.
  - destruct Hv as [Hlen Hl]. rewrite WriteUint8_writes, WriteVarUint_writes
      by (unfold safe; lia).
    rewrite (foldl_puts_writes _ any_bytes l), <- !app_assoc; [done|].
    eapply Forall_impl; [exact Hl|]. intros x Hx. apply IH; [done|lia].
  - destruct Hv as [Hlen Hl]. unfold writeFields. rewrite length_map.
    rewrite WriteUint8_writes, WriteVarUint_writes by (unfold safe; lia).
    rewrite (foldl_fields_writes (fun x => writeAny x (S depth)) any_bytes fs),
      <- !app_assoc; [done|].
    eapply Forall_impl; [exact Hl|]. intros [k x] [Hk Hx].
    split; [done|]. apply IH; [done|cbn; lia].
  - by rewrite WriteUint8_writes, WriteBytes_writes, <- app_assoc.
  - by apply writeNumber_f64.
  - rewrite f64_of_small_int by done. by apply writeNumber_int.
Qed.

Lemma any_bytes_ne more v : canon more v -> (1 <= length (any_bytes v))%nat.
Proof. destruct more, v; cbn; try done; lia. Qed.

(** Reads the tag the goal's input starts with and picks its branch. *)
Ltac read_tag :=
  match goal with H : unread _ = _ |- _ => cbn [app] in H end;
  match goal with
  | H : unread ?d = ?t :: ?r |- _ =>
      change (unread d = [t] ++ r) in H; cbn [readAny_left];
      read_step (ReadUint8_reads t); cbn beta iota;
      repeat match goal with
      | |- context [t =? ?u] =>
          let b := eval vm_compute in (t =? u) in change (t =? u) with b; cbn iota
      end
  end.

Lemma read_be n k w rest d :
  k = Z.of_nat n -> 0 <= w < 256 ^ k -> unread d = be_split n w ++ rest ->
  ReadBytes k d = Ok (be_split n w, advance n d) /\ be_combine (be_split n w) = w.
Proof.
  intros -> Hw Hd. split.
  - pose proof (ReadBytes_reads _ _ _ Hd) as H. by rewrite length_be_split in H.
  - rewrite be_combine_split. by apply Z.mod_small.
Qed.

Lemma readAny_reads more : forall v,
  canon more v -> reads (readAny_left more) (any_bytes v) v.
Proof.
  induction more as [|more IH]; intros v Hv d rest Hd; [done|]. cbn [canon] in Hv.
  destruct v as [| |b|s|z|b|l|fs|m|bits|bits|z|]; cbn [any_bytes] in *; try done.
  - by read_tag.
  - by read_tag.
  - destruct b; by read_tag.
  - read_tag. read_step (ReadVarString_reads s Hv). read_done.
  - read_tag. destruct (read_be 8 8 (u64 z) rest _ eq_refl (u64_range z) Hd) as [-> Hc].
    cbn [mbind res_bind length]. rewrite Hc, advance_advance, ?length_be_split. repeat f_equal.
    unfold s64, u64, two63, two64 in *. rewrite Z.add_mod_idemp_l by lia.
    rewrite Z.mod_small; lia.
  - read_tag. read_step (ReadVarUint8Array_reads b Hv). read_done.
  - destruct Hv as [Hlen Hl]. rewrite <- app_comm_cons, <- app_assoc in Hd. read_tag.
    read_step (ReadVarUint_reads (Z.of_nat (length l)) ltac:(unfold safe; lia)).
    assert (W : Wire (fun v => WriteBytes (any_bytes v)) (readAny_left more)
                  any_bytes (canon more)).
    { split; intros a Ha; [done|by apply IH|by eapply any_bytes_ne]. }
    pose proof (list_bytes_ge l Hl). pose proof (remaining_ge _ _ _ Hd).
    rewrite (proj2 (Z.ltb_ge _ _)) by (unfold list_bytes in *; lia). rewrite Nat2Z.id.
    read_step (read_n_reads l Hl). unfold list_bytes. read_done.
  - destruct Hv as [Hlen Hl]. rewrite <- app_comm_cons, <- app_assoc in Hd. read_tag.
    read_step (ReadVarUint_reads (Z.of_nat (length fs)) ltac:(unfold safe; lia)).
    set (enc := fun '(k, x) => string_bytes k ++ any_bytes x) in *.
    set (get := fun d0 : Decoder => '(key, d1) ← ReadVarString d0;
                 '(val, d2) ← readAny_left more d1; Ok (key, val, d2)).
    assert (W : Wire (fun f => WriteBytes (enc f)) get enc
                  (fun f => short f.1 /\ canon more f.2)).
    { split; intros [k x] [Hk Hx]; cbn [fst snd] in Hk, Hx.
      - done.
      - eapply (reads_bind _ (fun key d1 => '(val, d2) ← readAny_left more d1; Ok (key, val, d2)));
          [by apply ReadVarString_reads|].
        intros d1 r Hd1. rewrite (IH x Hx d1 r Hd1). done.
      - subst enc. cbn. rewrite length_app. pose proof (string_ne k). lia. }
    pose proof (list_bytes_ge fs Hl). pose proof (remaining_ge _ _ _ Hd).
    rewrite (proj2 (Z.ltb_ge _ _)) by (unfold list_bytes in *; lia). rewrite Nat2Z.id.
    read_step (read_n_reads fs Hl). unfold list_bytes. read_done.
  - read_tag. destruct (read_be 4 4 bits rest _ eq_refl Hv Hd) as [-> Hc].
    cbn [mbind res_bind length]. by rewrite Hc, advance_advance, ?length_be_split.
  - read_tag. destruct Hv as [Hr _]. destruct (read_be 8 8 bits rest _ eq_refl Hr Hd) as [-> Hc].
    cbn [mbind res_bind length]. by rewrite Hc, advance_advance, ?length_be_split.
  - read_tag. rewrite (ReadVarInt_reads z) with (rest := rest); [read_done|..|done].
    unfold safe_int, MaxSafeInteger, maxInt31 in *. lia.
Qed.

#[export] Instance any_wire :
  Wire WriteAny ReadAny any_bytes (canon (S maxAnyDepth)).
Proof.
  split; eauto using any_bytes_ne.
  - intros v Hv. by apply (writeAny_writes (S maxAnyDepth)).
  - intros v Hv. by apply readAny_reads.
Qed.

Lemma readAny_consumes more : consumes 1 (readAny_left more).
Proof.
  induction more as [|more IH]; [apply consumes_err|].
  apply (consumes_bind _ _ 1 0 ReadUint8_consumes). intros tag.
  assert (Hr : forall A (m : Decoder -> res (A * Decoder)) (f : A -> any) k,
             consumes k m -> consumes 0 (fun d => '(x, d) ← m d; Ok (f x, d))).
  { intros A m f k Hm. apply (consumes_weaken _ (k + 0)); [lia|].
    apply (consumes_bind _ _ k 0 Hm). intros x. apply consumes_ret. }
  assert (Hl : forall A (m : Decoder -> res (A * Decoder)) (f : list A -> any),
             consumes 1 m ->
             consumes 0 (fun d => '(n, d) ← ReadVarUint d;
               if Z.of_nat (Remaining d) <? n then Err ErrUnexpectedEOF
               else '(l, d) ← read_n (Z.to_nat n) m d; Ok (f l, d))).
  { intros A m f Hm. apply (consumes_weaken _ (1 + 0)); [lia|].
    apply (consumes_bind _ _ 1 0 ReadVarUint_consumes). intros n d x d' H Hp.
    case_if; [done|]. exact (Hr _ _ f _ (read_n_consumes _ _ Hm) d x d' H Hp). }
  repeat match goal with |- consumes _ (fun d => if ?b then _ else _) => destruct b end;
    eauto using consumes_ret, consumes_err with wire.
  apply (Hl _ (fun d => '(key, d) ← ReadVarString d;
                       '(val, d) ← readAny_left more d; Ok ((key, val), d))).
  apply (consumes_weaken _ (1 + 1)); [lia|].
  apply (consumes_bind _ _ 1 1 ReadVarString_consumes). intros key.
  apply (consumes_bind _ _ 1 0 IH). intros v. apply consumes_ret.
Qed.

Lemma ReadAny_consumes : consumes 1 ReadAny.
Proof. apply readAny_consumes. Qed.

#[export] Hint Resolve ReadAny_consumes : wire.
#[global] Arguments ReadAny : simpl never.
#[global] Arguments WriteAny : simpl never.
#[global] Arguments canon : simpl never.
