(* ===== verification/Content.v ===== *)
(** * Item content

    [internal/crdt/id.go] and [internal/crdt/content.go]: clock ids, the nine
    kinds of content an item can carry, their length in clock units, how they
    are written from an offset, split, merged and decoded.

    A method that mutates its receiver in Go ([Splice], [MergeWith]) returns the
    receiver's new value here. *)

From S2P Require Import Prelude Lib0 Any.

(** ** Ids *)

Abbreviation ClientID := Z (only parsing).
Abbreviation ClockT := Z (only parsing).

Record ID := NewID { Client : ClientID; Clock : ClockT }.

#[export] Instance ID_eq_dec : EqDecision ID.
Proof. solve_decision. Defined.

Definition ID_Compare (a b : ID) : Z :=
  if Client a <? Client b then -1
  else if Client b <? Client a then 1
  else if Clock a <? Clock b then -1
  else if Clock b <? Clock a then 1
  else 0.

(** ** Content *)

Definition RefGC : Z := 0.
Definition RefDeleted : Z := 1.
Definition RefJSON : Z := 2.
Definition RefBinary : Z := 3.
Definition RefString : Z := 4.
Definition RefEmbed : Z := 5.
Definition RefFormat : Z := 6.
Definition RefType : Z := 7.
Definition RefAny : Z := 8.
Definition RefDoc : Z := 9.
Definition RefSkip : Z := 10.

Definition TypeRefArray : Z := 0.
Definition TypeRefMap : Z := 1.
Definition TypeRefText : Z := 2.
Definition TypeRefXMLElement : Z := 3.
Definition TypeRefXMLFragment : Z := 4.
Definition TypeRefXMLHook : Z := 5.
Definition TypeRefXMLText : Z := 6.

(** [ContentType] is a pointer to an [AbstractType].  [TypeRef] and [Name] of a
    nested type never change after decoding and are kept here; its mutable half
    lives in the store, under the item that owns it (see StructStore). *)
Inductive Content :=
  | ContentDeleted (Length : Z)
  | ContentJSON (Values : list bytes)
  | ContentBinary (Data : bytes)
  | ContentString (Str : bytes)
  | ContentEmbed (JSON : bytes)
  | ContentFormat (Key Value : bytes)
  | ContentType (TypeRef : Z) (Name : bytes)
  | ContentAny (Values : list any)
  | ContentDoc (GUID : bytes) (Opts : any).

Definition Ref (c : Content) : Z :=
  match c with
  | ContentDeleted _ => RefDeleted
  | ContentJSON _ => RefJSON
  | ContentBinary _ => RefBinary
  | ContentString _ => RefString
  | ContentEmbed _ => RefEmbed
  | ContentFormat _ _ => RefFormat
  | ContentType _ _ => RefType
  | ContentAny _ => RefAny
  | ContentDoc _ _ => RefDoc
  end.

Definition Len (c : Content) : Z :=
  match c with
  | ContentDeleted n => n
  | ContentJSON vs => Z.of_nat (length vs)
  | ContentString s => UTF16Length s
  | ContentAny vs => Z.of_nat (length vs)
  | ContentBinary _ | ContentEmbed _ | ContentFormat _ _
  | ContentType _ _ | ContentDoc _ _ => 1
  end.

Definition Content_Countable (c : Content) : bool :=
  match c with
  | ContentDeleted _ | ContentFormat _ _ => false
  | _ => true
  end.

(** The loop of [splitUTF16] over the runes not yet visited; [i] is the byte
    index of the next one. *)
Fixpoint split_loop (rs : list (Z * bytes)) (us n : Z) (i : nat) : option nat :=
  match rs with
  | [] => if us =? n then Some i else None
  | (r, b) :: rs =>
      if us =? n then Some i
      else
        let us := us + units r in
        if n <? us then None else split_loop rs us n (i + length b)
  end.

Definition splitUTF16 (s : bytes) (n : Z) : option (bytes * bytes) :=
  if n <=? 0 then Some ([], s)
  else match split_loop (runes s) 0 n 0 with
       | Some i => Some (take i s, drop i s)
       | None => None
       end.

(** [AbstractType.write]. *)
Definition AbstractType_write (typeRef : Z) (name : bytes) (e : Encoder) : Encoder :=
  let e := WriteVarUint typeRef e in
  if (typeRef =? TypeRefXMLElement) || (typeRef =? TypeRefXMLHook)
  then WriteVarString name e else e.

Definition Content_Write (c : Content) (offset : Z) (e : Encoder) : Encoder :=
  match c with
  | ContentDeleted n => WriteVarUint (u64 (n - offset)) e
  | ContentJSON vs =>
      write_list WriteVarString (drop (Z.to_nat offset) vs)
        (WriteVarUint (u64 (Z.of_nat (length vs) - offset)) e)
  | ContentBinary b => WriteVarUint8Array b e
  | ContentString s =>
      if offset =? 0 then WriteVarString s e
      else match splitUTF16 s offset with
           | Some (_, tail) => WriteVarString tail e
           | None => WriteVarString s e
           end
  | ContentEmbed j => WriteVarString j e
  | ContentFormat k v => WriteVarString v (WriteVarString k e)
  | ContentType tr name => AbstractType_write tr name e
  | ContentAny vs =>
      write_list WriteAny (drop (Z.to_nat offset) vs)
        (WriteVarUint (u64 (Z.of_nat (length vs) - offset)) e)
  | ContentDoc g o => WriteAny o (WriteVarString g e)
  end.

(** [Splice]: the receiver truncated to [offset] units, and the tail. *)
Definition Splice (c : Content) (offset : Z) : res (Content * Content) :=
  match c with
  | ContentDeleted n => Ok (ContentDeleted offset, ContentDeleted (n - offset))
  | ContentJSON vs =>
      Ok (ContentJSON (take (Z.to_nat offset) vs), ContentJSON (drop (Z.to_nat offset) vs))
  | ContentString s =>
      match splitUTF16 s offset with
      | Some (head, tail) => Ok (ContentString head, ContentString tail)
      | None => Err ErrSplitSurrogate
      end
  | ContentAny vs =>
      Ok (ContentAny (take (Z.to_nat offset) vs), ContentAny (drop (Z.to_nat offset) vs))
  | ContentBinary _ | ContentEmbed _ | ContentFormat _ _
  | ContentType _ _ | ContentDoc _ _ => Err ErrNotSplittable
  end.

(** [MergeWith]: the receiver extended with [right], if they can be one struct. *)
Definition MergeWith (c right : Content) : option Content :=
  match c, right with
  | ContentDeleted n, ContentDeleted m => Some (ContentDeleted (n + m))
  | ContentJSON vs, ContentJSON ws => Some (ContentJSON (vs ++ ws))
  | ContentString s, ContentString t => Some (ContentString (s ++ t))
  | ContentAny vs, ContentAny ws => Some (ContentAny (vs ++ ws))
  | _, _ => None
  end.

(** ** Decoding *)

Definition maxLen : Z := 2147483648.

Definition readSafeVarUint (d : Decoder) : res (Z * Decoder) :=
  '(n, d) ← ReadVarUint d;
  if MaxSafeInteger <? n then Err ErrIntegerOutOfRange else Ok (n, d).

Definition readLen (d : Decoder) : res (Z * Decoder) :=
  '(n, d) ← ReadVarUint d;
  if maxLen <? n then Err ErrNegativeLength else Ok (n, d).

(** [readAbstractType]: the type ref and, for the two XML kinds that have one,
    the name. *)
Definition readAbstractType (d : Decoder) : res (Z * bytes * Decoder) :=
  '(ref, d) ← ReadVarUint d;
  if TypeRefXMLText <? ref then Err ErrUnknownTypeRef
  else if (ref =? TypeRefXMLElement) || (ref =? TypeRefXMLHook)
  then '(name, d) ← ReadVarString d; Ok (ref, name, d)
  else Ok (ref, [], d).

Definition readContent (ref : Z) (d : Decoder) : res (Content * Decoder) :=
  if ref =? RefDeleted then
    '(n, d) ← readLen d; Ok (ContentDeleted n, d)
  else if ref =? RefJSON then
    '(n, d) ← readLen d;
    if Z.of_nat (Remaining d) <? n then Err ErrUnexpectedEOF
    else '(vs, d) ← read_n (Z.to_nat n) ReadVarString d; Ok (ContentJSON vs, d)
  else if ref =? RefBinary then
    '(b, d) ← ReadVarUint8Array d; Ok (ContentBinary b, d)
  else if ref =? RefString then
    '(s, d) ← ReadVarString d; Ok (ContentString s, d)
  else if ref =? RefEmbed then
    '(s, d) ← ReadVarString d; Ok (ContentEmbed s, d)
  else if ref =? RefFormat then
    '(key, d) ← ReadVarString d;
    '(val, d) ← ReadVarString d; Ok (ContentFormat key val, d)
  else if ref =? RefType then
    '(tr, name, d) ← readAbstractType d; Ok (ContentType tr name, d)
  else if ref =? RefAny then
    '(n, d) ← readLen d;
    if Z.of_nat (Remaining d) <? n then Err ErrUnexpectedEOF
    else '(vs, d) ← read_n (Z.to_nat n) ReadAny d; Ok (ContentAny vs, d)
  else if ref =? RefDoc then
    '(guid, d) ← ReadVarString d;
    '(opts, d) ← ReadAny d; Ok (ContentDoc guid opts, d)
  else Err ErrUnknownContentRef.

(** ** Splitting *)

(** Where [split_loop] stops is a rune boundary: the runes of the string are
    those of the two halves, and the first half has exactly [n - us] units. *)
Lemma split_loop_spec s : forall us n i0 i,
  split_loop (runes s) us n i0 = Some i -> us <= n ->
  exists k, i = (i0 + k)%nat /\ (k <= length s)%nat
    /\ runes s = runes (take k s) ++ runes (drop k s)
    /\ us + usum (runes (take k s)) = n.
Proof.
  induction s as [|s r m E IH] using runes_ind; intros us n i0 i H Hle.
  { cbn in H. case_if; [|done]. simplify_eq. exists 0%nat. cbn. split_and!; [lia..|done|lia]. }
  rewrite (runes_cons s r m E) in H. cbn in H.
  pose proof (decode_rune_length _ _ _ E) as Hm.
  destruct (us =? n) eqn:E0; bool_arith.
  { simplify_eq. exists 0%nat. rewrite take_0, drop_0. change (runes []) with (@nil (Z * bytes)).
    split; [lia|]. split; [lia|]. split; [done|]. cbn. lia. }
  destruct (n <? us + units r) eqn:E1; [done|]. bool_arith.
  apply IH in H as (k & -> & Hk & Hr & Hu); [|lia].
  rewrite length_take_le in * by lia. rewrite length_drop in Hk.
  exists (m + k)%nat. repeat split; try lia.
  - rewrite (runes_cons s r m E), Hr.
    rewrite (runes_cons (take (m + k) s) r m) by (by apply decode_rune_take; [|lia]).
    rewrite take_take, skipn_firstn_comm, drop_drop.
    replace (m `min` (m + k))%nat with m by lia.
    replace (m + k - m)%nat with k by lia. done.
  - rewrite (runes_cons (take (m + k) s) r m) by (by apply decode_rune_take; [|lia]).
    rewrite skipn_firstn_comm. replace (m + k - m)%nat with k by lia.
    unfold usum in *. cbn. lia.
Qed.

Lemma splitUTF16_spec s n h t :
  splitUTF16 s n = Some (h, t) -> 0 <= n ->
  h ++ t = s /\ UTF16Length h = n /\ UTF16Length h + UTF16Length t = UTF16Length s.
Proof.
  intros H Hn. unfold splitUTF16 in H. case_if.
  { simplify_eq. change (UTF16Length []) with 0. split; [done|]. lia. }
  destruct (split_loop _ _ _ _) as [i|] eqn:E1; [|done]. simplify_eq.
  apply split_loop_spec in E1 as (k & -> & Hk & Hr & Hu); [|lia]. cbn [Nat.add] in *.
  rewrite take_drop, !UTF16Length_usum, Hr, usum_app. split_and!; [done|lia|done].
Qed.

(** [Splice] at an offset inside the content conserves clock units. *)
Lemma Splice_Len c off h t :
  Splice c off = Ok (h, t) -> 0 <= off <= Len c ->
  Len h = off /\ Len t = Len c - off.
Proof.
  destruct c as [n|vs|b|s|j|k v|tr nm|vs|g o]; cbn [Splice Len]; intros H Ho;
    try discriminate.
  - simplify_eq. cbn. lia.
  - simplify_eq. cbn [Len]. rewrite length_take, length_drop. lia.
  - destruct (splitUTF16 s off) as [[h' t']|] eqn:E; [|discriminate]. simplify_eq.
    apply splitUTF16_spec in E as (_ & H1 & H2); [|lia]. cbn [Len]. lia.
  - simplify_eq. cbn [Len]. rewrite length_take, length_drop. lia.
Qed.

(** Merging what was split gives the content back. *)
Lemma Splice_MergeWith c off h t :
  Splice c off = Ok (h, t) -> 0 <= off -> MergeWith h t = Some c.
Proof.
  destruct c as [n|vs|b|s|j|k v|tr nm|vs|g o]; cbn [Splice]; intros H Ho;
    try discriminate.
  - simplify_eq. cbn. do 2 f_equal. lia.
  - simplify_eq. cbn. by rewrite take_drop.
  - destruct (splitUTF16 s off) as [[h' t']|] eqn:E; [|discriminate]. simplify_eq.
    apply splitUTF16_spec in E as (H1 & _ & _); [|lia]. cbn. by rewrite H1.
  - simplify_eq. cbn. by rewrite take_drop.
Qed.

Lemma Splice_kind c off h t :
  Splice c off = Ok (h, t) -> Ref h = Ref c /\ Ref t = Ref c.
Proof.
  destruct c; cbn [Splice]; intros H; try discriminate; simplify_eq; try done.
  destruct (splitUTF16 Str off) as [[? ?]|]; [|discriminate]. by simplify_eq.
Qed.

(** A split point of a string is a rune boundary, and stays one in the halves of
    any other split. *)
Definition cut (rs : list (Z * bytes)) (n : Z) : Prop :=
  exists a b, rs = a ++ b /\ usum a = n.

Lemma usum_pos x rs : 0 < usum (x :: rs).
Proof.
  pose proof (usum_nonneg rs). assert (1 <= units x.1) by (unfold units; case_if; lia).
  unfold usum in *. cbn. lia.
Qed.

Lemma split_loop_cut rs : forall us n i,
  us <= n -> is_Some (split_loop rs us n i) <-> cut rs (n - us).
Proof.
  induction rs as [|[r b] rs IH]; intros us n i Hle; cbn.
  - case_if.
    + split; [|eauto]. intros _. exists [], []. cbn. split; [done|lia].
    + split; [by intros [? ?]|]. intros (a & b & He & Hu). symmetry in He.
      apply app_nil in He as [-> ->]. cbn in Hu. lia.
  - case_if.
    + split; [|eauto]. intros _. exists [], ((r, b) :: rs). cbn. split; [done|lia].
    + case_if.
      * split; [by intros [? ?]|]. intros (a & c & He & Hu).
        destruct a as [|x a]; [cbn in Hu; lia|]. injection He as <- ->.
        pose proof (usum_nonneg a). unfold usum in *. cbn in Hu. lia.
      * rewrite IH by lia. split.
        -- intros (a & c & -> & Hu). exists ((r, b) :: a), c. split; [done|].
           unfold usum in *. cbn. lia.
        -- intros (a & c & He & Hu). destruct a as [|x a]; [cbn in Hu; lia|].
           injection He as <- ->. exists a, c. split; [done|]. unfold usum in *. cbn in Hu. lia.
Qed.

Lemma splitUTF16_cut s n : 0 < n -> is_Some (splitUTF16 s n) <-> cut (runes s) n.
Proof.
  intros Hn. unfold splitUTF16. rewrite (proj2 (Z.leb_gt n 0)) by done.
  rewrite <- (Z.sub_0_r n) at 2. rewrite <- (split_loop_cut _ 0 n 0) by lia.
  destruct (split_loop _ _ _ _); split; intros [? ?]; by eauto.
Qed.

Lemma splitUTF16_runes s n h t :
  splitUTF16 s n = Some (h, t) -> 0 < n -> runes s = runes h ++ runes t /\ usum (runes h) = n.
Proof.
  intros H Hn. unfold splitUTF16 in H. rewrite (proj2 (Z.leb_gt n 0)) in H by done.
  destruct (split_loop _ _ _ _) as [i|] eqn:E1; [|done]. simplify_eq.
  apply split_loop_spec in E1 as (k & -> & Hk & Hr & Hu); [|lia]. cbn [Nat.add] in *. auto.
Qed.

Lemma cut_halves a b n : cut (a ++ b) n ->
  (n <= usum a -> cut a n) /\ (usum a <= n -> cut b (n - usum a)).
Proof.
  intros (x & y & He & Hu). apply app_eq_app in He as [k [[-> ->]|[-> ->]]].
  - split; intros Hn; [exists x, k; done|]. rewrite usum_app in *.
    destruct k as [|z k]; [|pose proof (usum_pos z k); lia].
    exists [], b. cbn in *. split; [done|lia].
  - rewrite usum_app in Hu. split; intros Hn.
    + destruct k as [|z k]; [|pose proof (usum_pos z k); lia].
      exists a, []. rewrite app_nil_r. cbn in Hu. split; [done|lia].
    + exists k, y. split; [done|lia].
Qed.

(** Whether a content can be split at an offset is not changed by splitting it
    elsewhere. *)
Lemma Splice_again c a b h t :
  Splice c a = Ok (h, t) -> 0 < a -> 0 < b -> is_ok (Splice c b) = true ->
  (b < a -> is_ok (Splice h b) = true) /\ (a < b -> is_ok (Splice t (b - a)) = true).
Proof.
  intros H Ha Hb Hok. destruct c; cbn in *; try discriminate; simplify_eq; try done.
  destruct (splitUTF16 Str a) as [[h' t']|] eqn:E; [|done]. simplify_eq.
  apply splitUTF16_runes in E as [Hr Hu]; [|done].
  assert (Hc : cut (runes Str) b).
  { apply splitUTF16_cut; [done|]. destruct (splitUTF16 Str b); [eauto|done]. }
  rewrite Hr in Hc. destruct (cut_halves _ _ _ Hc) as [H1 H2]. rewrite Hu in *.
  cbn. split; intros Hlt.
  - assert (is_Some (splitUTF16 h' b)) as [[? ?] ->] by (apply splitUTF16_cut; auto with lia). done.
  - assert (is_Some (splitUTF16 t' (b - a))) as [[? ?] ->]
      by (apply splitUTF16_cut; [lia|apply H2; lia]). done.
Qed.

(** ** Wire format of content *)

Definition has_name (tr : Z) : bool := (tr =? TypeRefXMLElement) || (tr =? TypeRefXMLHook).
#[global] Arguments has_name : simpl never.

(** What a decoder of this package can have produced from a canonical update. *)
Definition content_ok (c : Content) : Prop :=
  match c with
  | ContentDeleted n => 0 <= n <= maxLen
  | ContentJSON vs => Z.of_nat (length vs) <= maxLen /\ Forall short vs
  | ContentBinary b | ContentString b | ContentEmbed b => short b
  | ContentFormat k v => short k /\ short v
  | ContentType tr name => 0 <= tr <= TypeRefXMLText /\ short name
                           /\ (has_name tr = false -> name = [])
  | ContentAny vs => Z.of_nat (length vs) <= maxLen /\ Forall (canon (S maxAnyDepth)) vs
  | ContentDoc g o => short g /\ canon (S maxAnyDepth) o
  end.

Definition content_bytes (c : Content) : bytes :=
  match c with
  | ContentDeleted n => varuint_bytes n
  | ContentJSON vs => varuint_bytes (Z.of_nat (length vs)) ++ list_bytes string_bytes vs
  | ContentBinary b | ContentString b | ContentEmbed b => string_bytes b
  | ContentFormat k v => string_bytes k ++ string_bytes v
  | ContentType tr name =>
      varuint_bytes tr ++ (if has_name tr then string_bytes name else [])
  | ContentAny vs => varuint_bytes (Z.of_nat (length vs)) ++ list_bytes any_bytes vs
  | ContentDoc g o => string_bytes g ++ any_bytes o
  end.

Lemma maxLen_safe n : 0 <= n <= maxLen -> safe n.
Proof. unfold safe, maxLen, MaxSafeInteger. lia. Qed.

Lemma u64_len n : 0 <= n <= maxLen -> u64 (n - 0) = n.
Proof. intros H. rewrite Z.sub_0_r. apply u64_small. unfold maxLen, two64 in *. lia. Qed.

Lemma readSafeVarUint_reads v : safe v -> reads readSafeVarUint (varuint_bytes v) v.
Proof.
  intros H d rest Hd. unfold readSafeVarUint. rewrite (ReadVarUint_reads v H d rest Hd).
  cbn. by rewrite (proj2 (Z.ltb_ge _ _)) by apply H.
Qed.

Lemma readLen_reads v : 0 <= v <= maxLen -> reads readLen (varuint_bytes v) v.
Proof.
  intros H d rest Hd. unfold readLen.
  rewrite (ReadVarUint_reads v (maxLen_safe v H) d rest Hd).
  cbn. by rewrite (proj2 (Z.ltb_ge _ _)) by lia.
Qed.

#[export] Hint Resolve readSafeVarUint_reads readLen_reads maxLen_safe : wire.

Lemma Content_Write_writes c :
  content_ok c -> writes (Content_Write c 0) (content_bytes c).
Proof.
  destruct c as [n|vs|b|s|j|k v|tr nm|vs|g o]; intros H buf; cbn in *.
  - rewrite u64_len by done. apply WriteVarUint_writes. by apply maxLen_safe.
  - destruct H as [Hl Hv]. rewrite u64_len by lia.
    rewrite WriteVarUint_writes by (apply maxLen_safe; lia).
    by rewrite (write_list_writes vs Hv), <- app_assoc.
  - by apply WriteVarUint8Array_writes.
  - by apply WriteVarString_writes.
  - by apply WriteVarString_writes.
  - destruct H. by rewrite !WriteVarString_writes, <- app_assoc.
  - destruct H as (Ht & Hs & Hn). unfold AbstractType_write. fold (has_name tr).
    assert (safe tr) by (unfold safe, MaxSafeInteger, TypeRefXMLText in *; lia).
    destruct (has_name tr).
    + by rewrite WriteVarUint_writes, WriteVarString_writes, <- app_assoc.
    + rewrite WriteVarUint_writes by done. by rewrite (app_nil_r (varuint_bytes tr)).
  - destruct H as [Hl Hv]. rewrite u64_len by lia.
    rewrite WriteVarUint_writes by (apply maxLen_safe; lia).
    by rewrite (write_list_writes vs Hv), <- app_assoc.
  - destruct H as [Hg Ho]. rewrite WriteVarString_writes by done.
    by rewrite (wire_put o Ho), <- app_assoc.
Qed.

(** A length-prefixed sequence, as [readContent] reads JSON and any values. *)
Lemma read_counted_reads {A B} put get enc ok `{!@Wire A put get enc ok}
    (f : list A -> B) l :
  Z.of_nat (length l) <= maxLen -> Forall ok l ->
  reads (fun d => '(n, d) ← readLen d;
           if Z.of_nat (Remaining d) <? n then Err ErrUnexpectedEOF
           else '(vs, d) ← read_n (Z.to_nat n) get d; Ok (f vs, d))
    (varuint_bytes (Z.of_nat (length l)) ++ list_bytes enc l) (f l).
Proof.
  intros Hl Hf d rest Hd. rewrite <- app_assoc in Hd.
  read_step (readLen_reads (Z.of_nat (length l)) ltac:(lia)).
  pose proof (list_bytes_ge l Hf). pose proof (remaining_ge _ _ _ Hd).
  rewrite (proj2 (Z.ltb_ge _ _)) by lia. rewrite Nat2Z.id.
  read_step (read_n_reads l Hf). read_done.
Qed.

Lemma readAbstractType_reads tr nm :
  content_ok (ContentType tr nm) ->
  reads readAbstractType (content_bytes (ContentType tr nm)) (tr, nm).
Proof.
  intros (Ht & Hs & Hn) d rest Hd. unfold readAbstractType. cbn in Hd |- *.
  unfold TypeRefXMLText in *. rewrite <- app_assoc in Hd.
  read_step (ReadVarUint_reads tr ltac:(unfold safe, MaxSafeInteger; lia)).
  unfold TypeRefXMLText. rewrite (proj2 (Z.ltb_ge _ _)) by lia. fold (has_name tr).
  destruct (has_name tr).
  - read_step (ReadVarString_reads nm Hs). read_done.
  - rewrite Hn by done. rewrite app_nil_r. done.
Qed.

Lemma readContent_reads c :
  content_ok c -> reads (readContent (Ref c)) (content_bytes c) c.
Proof.
  destruct c as [n|vs|b|s|j|k v|tr nm|vs|g o]; intros H; cbn in H; cbn [Ref content_bytes];
    match goal with |- reads (readContent ?r) _ _ =>
      unfold r, readContent, RefDeleted, RefJSON, RefBinary, RefString, RefEmbed,
        RefFormat, RefType, RefAny, RefDoc; cbn [Z.eqb Pos.eqb] end.
  - intros d rest Hd. read_step (readLen_reads n H). done.
  - destruct H. by apply (read_counted_reads _ _ _ _ ContentJSON).
  - intros d rest Hd. read_step (ReadVarUint8Array_reads b H). done.
  - intros d rest Hd. read_step (ReadVarString_reads s H). done.
  - intros d rest Hd. read_step (ReadVarString_reads j H). done.
  - destruct H as [Hk Hv]. intros d rest Hd. rewrite <- app_assoc in Hd.
    read_step (ReadVarString_reads k Hk). read_step (ReadVarString_reads v Hv). read_done.
  - intros d rest Hd. read_step (readAbstractType_reads tr nm H). done.
  - destruct H. by apply (read_counted_reads _ _ _ _ ContentAny).
  - destruct H as [Hg Ho]. intros d rest Hd. rewrite <- app_assoc in Hd.
    read_step (ReadVarString_reads g Hg). read_step (wire_get o Ho). read_done.
Qed.

Lemma content_bytes_ne c : content_ok c -> (1 <= length (content_bytes c))%nat.
Proof.
  destruct c as [n|vs|b|s|j|k v|tr nm|vs|g o]; intros _; cbn;
    rewrite ?length_app;
    (pose proof string_ne as Hs; pose proof varuint_ne as Hv);
    first [ specialize (Hs b) | specialize (Hs s) | specialize (Hs j)
          | specialize (Hs k) | specialize (Hs g) | idtac ];
    first [ specialize (Hv n) | specialize (Hv tr)
          | specialize (Hv (Z.of_nat (length vs))) | idtac ]; lia.
Qed.
