(* ===== verification/StateVector.v ===== *)
(** * State vectors

    [internal/crdt/statevector.go]: for each client the next expected clock, its
    wire form (highest client first) and the parser of that form. *)

From S2P Require Import Prelude Lib0 Any Content.

(** [type StateVector map[ClientID]Clock]. *)
Abbreviation StateVector := (gmap Z Z) (only parsing).

Definition NewStateVector : StateVector := ∅.

Definition SV_Get (sv : StateVector) (client : Z) : Z := default 0 (sv !! client).

Definition writeStateVector (sv : StateVector) (e : Encoder) : Encoder :=
  let clients := keys_desc sv in
  write_list (fun client e => WriteVarUint (SV_Get sv client) (WriteVarUint client e))
    clients (WriteVarUint (Z.of_nat (length clients)) e).

Definition EncodeStateVector (sv : StateVector) : res bytes :=
  finish (writeStateVector sv (NewEncoderSize (1 + Z.of_nat (size sv) * 6))).

Definition readStateVector (d : Decoder) : res (StateVector * Decoder) :=
  '(numClients, d) ← ReadVarUint d;
  if Z.of_nat (Remaining d) <? numClients then Err ErrUnexpectedEOF
  else
    '(entries, d) ← read_n (Z.to_nat numClients)
      (fun d => '(client, d) ← readSafeVarUint d;
                '(clock, d) ← readSafeVarUint d; Ok ((client, clock), d)) d;
    Ok (foldl (fun sv '(client, clock) => <[client:=clock]> sv) NewStateVector entries, d).

Definition DecodeStateVector (b : bytes) : res StateVector :=
  '(sv, d) ← readStateVector (NewDecoder b);
  if Done d then Ok sv else Err ErrCorruptUpdate.

(** ** Round trip *)

Definition sv_ok (sv : StateVector) : Prop :=
  map_Forall (fun client clock => safe client /\ safe clock) sv
  /\ Z.of_nat (size sv) <= MaxSafeInteger.

Definition entry_bytes (x : Z * Z) : bytes := varuint_bytes x.1 ++ varuint_bytes x.2.

(** The entries in the order they are written. *)
Definition sv_entries (sv : StateVector) : list (Z * Z) :=
  map (fun c => (c, SV_Get sv c)) (keys_desc sv).

Lemma foldl_insert_lookup {A} (l : list (Z * A)) (m : gmap Z A) k :
  NoDup l.*1 ->
  foldl (fun sv '(c, x) => <[c:=x]> sv) m l !! k
  = match (list_to_map l : gmap Z A) !! k with Some x => Some x | None => m !! k end.
Proof.
  revert m. induction l as [|[c x] l IH]; intros m Hn; cbn in *; [done|].
  apply NoDup_cons in Hn as [Hc Hn]. rewrite IH by done.
  rewrite !lookup_insert. destruct (decide (c = k)) as [->|]; [|done].
  rewrite not_elem_of_list_to_map_1; done.
Qed.

(** Rebuilding a Go map from its sorted entries. *)
Lemma foldl_insert_keys_desc {A} (m : gmap Z A) (f : Z -> A) :
  (forall k x, m !! k = Some x -> f k = x) ->
  foldl (fun sv '(c, x) => <[c:=x]> sv) ∅ (map (fun c => (c, f c)) (keys_desc m)) = m.
Proof.
  intros Hf. assert ((map (fun c => (c, f c)) (keys_desc m)).*1 = keys_desc m) as Hk.
  { change (fst <$> ?l) with (map fst l). rewrite map_map. apply map_id. }
  apply map_eq. intros k. rewrite foldl_insert_lookup by (rewrite Hk; apply NoDup_keys_desc).
  destruct (m !! k) as [x|] eqn:E.
  - rewrite (elem_of_list_to_map_1 _ k (f k)).
    + by rewrite (Hf _ _ E).
    + rewrite Hk. apply NoDup_keys_desc.
    + apply list_elem_of_fmap. exists k. split; [done|]. apply elem_of_keys_desc. eauto.
  - rewrite not_elem_of_list_to_map_1, lookup_empty; [done|].
    rewrite Hk, elem_of_keys_desc, E. by intros [? ?].
Qed.

#[export] Instance entry_wire :
  Wire (fun x e => WriteVarUint x.2 (WriteVarUint x.1 e))
    (fun d => '(client, d) ← readSafeVarUint d;
              '(clock, d) ← readSafeVarUint d; Ok ((client, clock), d))
    entry_bytes (fun x => safe x.1 /\ safe x.2).
Proof.
  split; intros [c k] [Hc Hk]; cbn [fst snd] in *.
  - intros buf. by rewrite !WriteVarUint_writes, <- app_assoc.
  - intros d rest Hd. unfold entry_bytes in *. cbn [fst snd] in *.
    rewrite <- app_assoc in Hd. read_step (readSafeVarUint_reads c Hc).
    read_step (readSafeVarUint_reads k Hk). read_done.
  - unfold entry_bytes. rewrite length_app. pose proof (varuint_ne c). cbn. lia.
Qed.

Lemma length_keys_desc {A} (m : gmap Z A) : length (keys_desc m) = size m.
Proof. rewrite keys_desc_perm, length_fmap. apply length_map_to_list. Qed.

Lemma sv_entries_ok sv : sv_ok sv -> Forall (fun x => safe x.1 /\ safe x.2) (sv_entries sv).
Proof.
  intros [Hs _]. apply Forall_forall. intros x Hx.
  apply list_elem_of_fmap in Hx as (c & -> & Hc). apply elem_of_keys_desc in Hc as [v Hv].
  unfold SV_Get. cbn. rewrite Hv. by apply Hs.
Qed.

Lemma write_entries sv l e :
  write_list (fun client e => WriteVarUint (SV_Get sv client) (WriteVarUint client e)) l e
  = write_list (fun x e => WriteVarUint x.2 (WriteVarUint x.1 e))
      (map (fun c => (c, SV_Get sv c)) l) e.
Proof. revert e. induction l as [|c l IH]; intros e; cbn; [done|]. apply IH. Qed.

Definition sv_bytes (sv : StateVector) : bytes :=
  varuint_bytes (Z.of_nat (size sv)) ++ list_bytes entry_bytes (sv_entries sv).

Lemma writeStateVector_writes sv : sv_ok sv -> writes (writeStateVector sv) (sv_bytes sv).
Proof.
  intros H buf. unfold writeStateVector, sv_bytes. rewrite length_keys_desc, write_entries.
  rewrite WriteVarUint_writes by (unfold safe; destruct H; lia).
  by rewrite (write_list_writes (sv_entries sv) (sv_entries_ok sv H)), <- app_assoc.
Qed.

Lemma readStateVector_reads sv : sv_ok sv -> reads readStateVector (sv_bytes sv) sv.
Proof.
  intros H d rest Hd. pose proof (sv_entries_ok sv H) as He.
  unfold sv_bytes in *. rewrite <- app_assoc in Hd. unfold readStateVector.
  read_step (ReadVarUint_reads (Z.of_nat (size sv)) ltac:(unfold safe; destruct H; lia)).
  pose proof (list_bytes_ge _ He) as Hge. pose proof (remaining_ge _ _ _ Hd).
  unfold sv_entries at 1 in Hge. rewrite length_map, length_keys_desc in Hge.
  rewrite (proj2 (Z.ltb_ge _ _)) by lia. rewrite Nat2Z.id.
  assert (size sv = length (sv_entries sv)) as Hsz
    by (unfold sv_entries; rewrite length_map, length_keys_desc; done).
  rewrite Hsz at 1. read_step (read_n_reads (sv_entries sv) He). cbn beta iota.
  unfold sv_entries at 1, NewStateVector. rewrite foldl_insert_keys_desc.
  - read_done.
  - intros k x Hx. unfold SV_Get. by rewrite Hx.
Qed.

(** [DecodeStateVector] inverts [EncodeStateVector] on every state vector
    whose ids and clocks lib0 can represent. *)
Theorem DecodeStateVector_EncodeStateVector sv :
  sv_ok sv ->
  exists b, EncodeStateVector sv = Ok b /\ DecodeStateVector b = Ok sv.
Proof.
  intros H. exists (sv_bytes sv). split.
  - by apply finish_writes, writeStateVector_writes.
  - unfold DecodeStateVector. rewrite (readStateVector_reads sv H _ []);
      [|by rewrite unread_new, app_nil_r]. cbn [mbind res_bind].
    by rewrite done_advance.
Qed.

Definition one_client : StateVector := {[7 := 300]}.

Lemma DecodeStateVector_EncodeStateVector_witness :
  exists b, EncodeStateVector one_client = Ok b /\ DecodeStateVector b = Ok one_client.
Proof.
  apply (DecodeStateVector_EncodeStateVector one_client). split; [|by vm_compute].
  intros c k H. unfold one_client in H. apply lookup_singleton_Some in H as [<- <-].
  unfold safe, MaxSafeInteger. lia.
Defined.
