(* ===== verification/DeleteSet.v ===== *)
(** * Delete sets

    [internal/crdt/deleteset.go]: deleted clock ranges per client, kept sorted
    and merged by [Add], queried by binary search, and their wire form. *)

From S2P Require Import Prelude Lib0 Any Content StateVector.

Record DeleteRange := MkRange { DR_Clock : Z; DR_Len : Z }.

#[export] Instance DeleteRange_eq_dec : EqDecision DeleteRange.
Proof. solve_decision. Defined.

Definition End (r : DeleteRange) : Z := u64 (DR_Clock r + DR_Len r).

(** [DeleteSet.Clients]. *)
Abbreviation DeleteSet := (gmap Z (list DeleteRange)) (only parsing).

Definition NewDeleteSet : DeleteSet := ∅.

(** The ranges recorded for a client: a missing map key reads as a nil slice. *)
Definition ranges_of (ds : DeleteSet) (client : Z) : list DeleteRange :=
  default [] (ds !! client).

Definition IsEmpty (ds : DeleteSet) : bool :=
  forallb (fun x => match x.2 with [] => true | _ => false end) (map_to_list ds).

(** The merging loop of [Add]: [last] is the last merged range so far. *)
Fixpoint merge_loop (last : DeleteRange) (rs : list DeleteRange) : list DeleteRange :=
  match rs with
  | [] => [last]
  | r :: rs =>
      if DR_Clock r <=? End last then
        let last :=
          if End last <? End r
          then MkRange (DR_Clock last) (s64 (u64 (End r - DR_Clock last)))
          else last in
        merge_loop last rs
      else last :: merge_loop r rs
  end.

Definition by_clock (a b : DeleteRange) : bool := DR_Clock a <? DR_Clock b.

Definition add_range (ranges : list DeleteRange) (r : DeleteRange) : list DeleteRange :=
  match sort_by by_clock (ranges ++ [r]) with
  | [] => []
  | first :: rest => merge_loop first rest
  end.

Definition DS_Add (ds : DeleteSet) (client clock length : Z) : DeleteSet :=
  if length <=? 0 then ds
  else <[client := add_range (ranges_of ds client) (MkRange clock length)]> ds.

Definition IsDeleted (ds : DeleteSet) (id : ID) : bool :=
  let ranges := ranges_of ds (Client id) in
  let i := search (length ranges) (fun i =>
    match ranges !! i with Some r => Clock id <? End r | None => false end) in
  match ranges !! i with
  | Some r => DR_Clock r <=? Clock id
  | None => false
  end.

Definition clientsDescending (ds : DeleteSet) : list Z := keys_desc ds.

Definition writeRange (r : DeleteRange) (e : Encoder) : Encoder :=
  WriteVarUint (u64 (DR_Len r)) (WriteVarUint (DR_Clock r) e).

Definition DS_write (ds : DeleteSet) (e : Encoder) : Encoder :=
  let clients := clientsDescending ds in
  write_list (fun client e =>
      let ranges := ranges_of ds client in
      write_list writeRange ranges
        (WriteVarUint (Z.of_nat (length ranges)) (WriteVarUint client e)))
    clients (WriteVarUint (Z.of_nat (length clients)) e).

Definition readRange (d : Decoder) : res (DeleteRange * Decoder) :=
  '(clock, d) ← readSafeVarUint d;
  '(length, d) ← readLen d;
  Ok (MkRange clock length, d).

(** One client's section of [readDeleteSet]. *)
Definition readClientRanges (d : Decoder) : res (Z * list DeleteRange * Decoder) :=
  '(client, d) ← readSafeVarUint d;
  '(numRanges, d) ← ReadVarUint d;
  if Z.of_nat (Remaining d) <? numRanges then Err ErrUnexpectedEOF
  else '(ranges, d) ← read_n (Z.to_nat numRanges) readRange d;
       Ok (client, ranges, d).

Definition readDeleteSet (d : Decoder) : res (DeleteSet * Decoder) :=
  '(numClients, d) ← ReadVarUint d;
  if Z.of_nat (Remaining d) <? numClients then Err ErrUnexpectedEOF
  else
    '(sections, d) ← read_n (Z.to_nat numClients) readClientRanges d;
    Ok (foldl (fun ds '(client, ranges) => <[client:=ranges]> ds) NewDeleteSet sections, d).

(** ** What a list of ranges deletes *)

Definition covers (rs : list DeleteRange) (c : Z) : Prop :=
  exists r, r ∈ rs /\ DR_Clock r <= c < DR_Clock r + DR_Len r.

(** A range whose clocks do not overflow: [Clock] is at most [2^53-1] plus
    lengths of at most [2^31], so [2^63] is out of reach of any real update. *)
Definition range_ok (r : DeleteRange) : Prop :=
  0 <= DR_Clock r /\ 0 < DR_Len r /\ DR_Clock r + DR_Len r < two63.

(** Sorted, separated by gaps, non-empty ranges starting at [lo] or later: the
    form [Add] promises. *)
Fixpoint normal_from (lo : Z) (rs : list DeleteRange) : Prop :=
  match rs with
  | [] => True
  | r :: rs => lo <= DR_Clock r /\ range_ok r /\ normal_from (DR_Clock r + DR_Len r + 1) rs
  end.

Definition normal (rs : list DeleteRange) : Prop := normal_from 0 rs.

Definition ds_normal (ds : DeleteSet) : Prop := map_Forall (fun _ rs => normal rs) ds.

Lemma End_ok r : range_ok r -> End r = DR_Clock r + DR_Len r.
Proof. intros (H1 & H2 & H3). apply u64_small. unfold two63, two64 in *. lia. Qed.

Lemma covers_cons r rs c :
  covers (r :: rs) c <-> DR_Clock r <= c < DR_Clock r + DR_Len r \/ covers rs c.
Proof.
  unfold covers. setoid_rewrite elem_of_cons. split.
  - intros (x & [->|Hx] & Hc); eauto.
  - intros [Hc|(x & Hx & Hc)]; eauto.
Qed.

Lemma covers_nil c : ~ covers [] c.
Proof. intros (r & Hr & _). by apply elem_of_nil in Hr. Qed.

#[export] Instance covers_perm : Proper ((≡ₚ) ==> (=) ==> iff) covers.
Proof. intros a b Hab c ? <-. unfold covers. by setoid_rewrite Hab. Qed.

Lemma normal_from_weaken lo lo' rs : lo' <= lo -> normal_from lo rs -> normal_from lo' rs.
Proof. destruct rs; cbn; [done|]. intros H (H1 & H2). split; [lia|done]. Qed.

Lemma normal_range_ok lo rs : normal_from lo rs -> Forall range_ok rs.
Proof.
  revert lo. induction rs as [|r rs IH]; intros lo H; [constructor|].
  destruct H as (_ & Hr & Hrs). constructor; eauto.
Qed.

(** The merging loop, on ranges sorted by clock, produces the normal form of the
    same set of clocks. *)
Lemma merge_loop_spec rs : forall last,
  range_ok last -> Forall range_ok rs ->
  StronglySorted (fun x y => by_clock y x = false) (last :: rs) ->
  normal_from (DR_Clock last) (merge_loop last rs)
  /\ (forall c, covers (merge_loop last rs) c <-> covers (last :: rs) c).
Proof.
  induction rs as [|r rs IH]; intros last Hl Hrs Hs.
  { split; [|done]. cbn. split; [lia|done]. }
  apply Forall_cons in Hrs as [Hr Hrs].
  apply StronglySorted_inv in Hs as [Hs Hlast].
  apply Forall_cons in Hlast as [Hlr Hlrs]. unfold by_clock in Hlr. bool_arith.
  apply StronglySorted_inv in Hs as [Hs Hrr].
  cbn [merge_loop]. rewrite !End_ok by done.
  destruct (DR_Clock r <=? _) eqn:E; bool_arith.
  - set (last' := if _ <? _ then _ else last).
    assert (range_ok last' /\ DR_Clock last' = DR_Clock last
            /\ DR_Len last' = Z.max (DR_Len last) (DR_Clock r + DR_Len r - DR_Clock last))
      as (Hl' & Hc' & Hn').
    { subst last'. destruct Hl as (?&?&?), Hr as (?&?&?). unfold two63 in *. case_if.
      - rewrite u64_small, s64_small by (unfold two63, two64; lia).
        unfold range_ok, two63. cbn. lia.
      - unfold range_ok, two63. lia. }
    destruct (IH last' Hl' Hrs) as [H1 H2].
    { constructor; [done|]. eapply Forall_impl; [exact Hlrs|]. intros x.
      unfold by_clock. by rewrite Hc'. }
    rewrite Hc' in H1. split; [done|]. intros c. rewrite H2, !covers_cons, Hc', Hn'.
    destruct Hl as (?&?&?), Hr as (?&?&?). split; intros Hcov.
    + destruct Hcov as [Hc|Hc]; [|tauto]. 
      destruct (decide (c < DR_Clock last + DR_Len last)); [left|right; left]; lia.
    + destruct Hcov as [Hc|[Hc|Hc]]; [left; lia|left; lia|tauto].
  - destruct (IH r Hr Hrs) as [H1 H2]; [by constructor|]. split.
    + cbn. split; [lia|]. split; [done|]. eapply normal_from_weaken; [|exact H1]. lia.
    + intros c. by rewrite covers_cons, H2, (covers_cons last).
Qed.

Lemma add_range_spec rs r :
  normal rs -> range_ok r ->
  normal (add_range rs r)
  /\ (forall c, covers (add_range rs r) c
                <-> covers rs c \/ DR_Clock r <= c < DR_Clock r + DR_Len r).
Proof.
  intros Hn Hr. unfold add_range.
  assert (Hp : sort_by by_clock (rs ++ [r]) ≡ₚ r :: rs)
    by (rewrite sort_by_perm, Permutation_app_comm; done).
  assert (Ho : ordered by_clock (sort_by by_clock (rs ++ [r]))).
  { apply sort_by_ordered; unfold by_clock; intros; bool_arith;
      rewrite ?Z.ltb_lt, ?Z.ltb_ge; lia. }
  assert (Hf : Forall range_ok (sort_by by_clock (rs ++ [r])))
    by (rewrite Hp; constructor; [done|by eapply normal_range_ok]).
  destruct (sort_by by_clock (rs ++ [r])) as [|x l]; [by apply Permutation_nil_l in Hp|].
  apply Forall_cons in Hf as [Hx Hf].
  destruct (merge_loop_spec l x Hx Hf Ho) as [H1 H2]. split.
  - eapply normal_from_weaken; [|exact H1]. apply Hx.
  - intros c. rewrite H2, Hp, covers_cons. tauto.
Qed.

Lemma ranges_of_normal ds client : ds_normal ds -> normal (ranges_of ds client).
Proof.
  intros H. unfold ranges_of. destruct (ds !! client) eqn:E; [by apply (H client)|done].
Qed.

Lemma ranges_of_insert ds client rs c :
  ranges_of (<[client:=rs]> ds) c = if decide (client = c) then rs else ranges_of ds c.
Proof. unfold ranges_of. rewrite lookup_insert. by case_decide. Qed.

Lemma DS_Add_ok ds client clock len :
  ds_normal ds -> 0 <= clock -> clock + len < two63 ->
  ds_normal (DS_Add ds client clock len)
  /\ forall c k, covers (ranges_of (DS_Add ds client clock len) c) k
       <-> covers (ranges_of ds c) k \/ (c = client /\ clock <= k < clock + len).
Proof.
  intros Hds Hc Hl. unfold DS_Add. case_if.
  { split; [done|]. intros c k. split; [tauto|]. intros [H|[_ H]]; [done|lia]. }
  destruct (add_range_spec (ranges_of ds client) (MkRange clock len)) as [H1 H2];
    [by apply ranges_of_normal|by unfold range_ok; cbn; lia|]. split.
  - by apply map_Forall_insert_2.
  - intros c k. rewrite ranges_of_insert. case_decide as Hd; subst.
    + rewrite H2. cbn. tauto.
    + split; [tauto|]. intros [H|[-> _]]; [done|by destruct Hd].
Qed.

(** [Add] keeps every client's ranges in normal form (sorted, non-empty, a
    gap between any two) and adds exactly the clocks of the new range. *)
Theorem Add_spec ds client clock len :
  ds_normal ds -> 0 <= clock -> clock + len < two63 ->
  ds_normal (DS_Add ds client clock len)
  /\ forall c k, covers (ranges_of (DS_Add ds client clock len) c) k
       <-> covers (ranges_of ds c) k \/ (c = client /\ clock <= k < clock + len).
Proof. apply DS_Add_ok. Qed.

Lemma normal_lookup_lt lo rs i j a b :
  normal_from lo rs -> rs !! i = Some a -> rs !! j = Some b -> (i < j)%nat ->
  DR_Clock a + DR_Len a < DR_Clock b.
Proof.
  revert lo i j. induction rs as [|r rs IH]; intros lo i j Hn Ha Hb Hij; [done|].
  destruct Hn as (_ & Hr & Hn). destruct j as [|j]; [lia|]. destruct i as [|i]; cbn in *.
  - simplify_eq. clear IH Hij. revert j Hb Hn.
    generalize (DR_Clock a + DR_Len a). induction rs as [|r rs IH]; intros z j Hb Hn; [done|].
    destruct Hn as (H1 & (H2 & H3 & H4) & H5). destruct j as [|j]; cbn in Hb.
    + simplify_eq. lia.
    + specialize (IH _ _ Hb H5). lia.
  - eapply (IH _ i j); eauto. lia.
Qed.

Lemma IsDeleted_covers ds id :
  ds_normal ds ->
  IsDeleted ds id = true <-> covers (ranges_of ds (Client id)) (Clock id).
Proof.
  intros Hds. apply (ranges_of_normal _ (Client id)) in Hds.
  unfold IsDeleted. set (rs := ranges_of ds (Client id)) in *.
  set (f := fun i => match rs !! i with Some r => Clock id <? End r | None => false end).
  pose proof (normal_range_ok _ _ Hds) as Hok.
  assert (Hf : forall i r, rs !! i = Some r -> f i = (Clock id <? DR_Clock r + DR_Len r)).
  { intros i r Hi. unfold f. rewrite Hi, End_ok; [done|].
    eapply Forall_lookup_1 in Hi; eauto. }
  destruct (search_spec (length rs) f) as (Hle & Hlow & Hhit).
  { intros a b Hab Ha. destruct (decide (a = b)) as [<-|]; [done|].
    destruct (lookup_lt_is_Some_2 rs b) as [rb Hb]; [lia|].
    destruct (lookup_lt_is_Some_2 rs a) as [ra Hra]; [lia|].
    rewrite (Hf _ _ Hra) in Ha. rewrite (Hf _ _ Hb). bool_arith. apply Z.ltb_lt.
    pose proof (normal_lookup_lt _ _ _ _ _ _ Hds Hra Hb ltac:(lia)).
    eapply Forall_lookup_1 in Hb; [|exact Hok]. destruct Hb as (_ & ? & _). lia. }
  set (i := search (length rs) f) in *. split.
  - intros H. destruct (rs !! i) as [r|] eqn:Hi; [|done]. bool_arith.
    exists r. split; [by eapply list_elem_of_lookup_2|].
    specialize (Hhit ltac:(by eapply lookup_lt_Some)). rewrite (Hf _ _ Hi) in Hhit.
    bool_arith. lia.
  - intros (r & Hr & Hc). apply list_elem_of_lookup in Hr as [j Hj].
    pose proof (lookup_lt_Some _ _ _ Hj).
    assert (i <= j)%nat as Hij.
    { destruct (decide (i <= j)%nat) as [?|Hgt]; [done|].
      specialize (Hlow j ltac:(lia)). rewrite (Hf _ _ Hj) in Hlow. bool_arith. lia. }
    destruct (lookup_lt_is_Some_2 rs i) as [ri Hri]; [lia|]. rewrite Hri.
    apply Z.leb_le. destruct (decide (i = j)) as [->|]; [by simplify_eq; lia|].
    pose proof (normal_lookup_lt _ _ _ _ _ _ Hds Hri Hj ltac:(lia)).
    eapply Forall_lookup_1 in Hri; [|exact Hok]. destruct Hri as (_ & ? & _). lia.
Qed.

(** On a normal delete set the binary search of [IsDeleted] answers exactly
    whether the id lies in a recorded range. *)
Theorem IsDeleted_spec ds id :
  ds_normal ds ->
  IsDeleted ds id = true <-> covers (ranges_of ds (Client id)) (Clock id).
Proof. apply IsDeleted_covers. Qed.

(** ** Wire form *)

Definition range_bytes (r : DeleteRange) : bytes :=
  varuint_bytes (DR_Clock r) ++ varuint_bytes (DR_Len r).

Definition range_wire_ok (r : DeleteRange) : Prop :=
  safe (DR_Clock r) /\ 0 <= DR_Len r <= maxLen.

Definition section_bytes (x : Z * list DeleteRange) : bytes :=
  varuint_bytes x.1 ++ varuint_bytes (Z.of_nat (length x.2)) ++ list_bytes range_bytes x.2.

Definition section_ok (x : Z * list DeleteRange) : Prop :=
  safe x.1 /\ Z.of_nat (length x.2) <= MaxSafeInteger /\ Forall range_wire_ok x.2.

Definition ds_wire_ok (ds : DeleteSet) : Prop :=
  map_Forall (fun client rs => section_ok (client, rs)) ds
  /\ Z.of_nat (size ds) <= MaxSafeInteger.

#[export] Instance range_wire : Wire writeRange readRange range_bytes range_wire_ok.
Proof.
  split; intros [c n] [Hc Hn]; cbn [DR_Clock DR_Len] in *.
  - intros buf. unfold writeRange. cbn [DR_Clock DR_Len].
    rewrite u64_small by (unfold maxLen, two64 in *; lia).
    rewrite !WriteVarUint_writes, <- app_assoc by auto with wire. done.
  - intros d rest Hd. unfold range_bytes in *. cbn [DR_Clock DR_Len] in *.
    rewrite <- app_assoc in Hd. unfold readRange. read_step (readSafeVarUint_reads c Hc).
    read_step (readLen_reads n Hn). read_done.
  - unfold range_bytes. rewrite length_app. pose proof (varuint_ne c). cbn. lia.
Qed.

Definition writeSection (x : Z * list DeleteRange) (e : Encoder) : Encoder :=
  write_list writeRange x.2
    (WriteVarUint (Z.of_nat (length x.2)) (WriteVarUint x.1 e)).

#[export] Instance section_wire :
  Wire writeSection readClientRanges section_bytes section_ok.
Proof.
  split; intros [c rs] (Hc & Hl & Hrs); cbn [fst snd] in *.
  - intros buf. unfold writeSection. cbn [fst snd].
    rewrite WriteVarUint_writes, WriteVarUint_writes by (done || unfold safe; lia).
    by rewrite (write_list_writes rs Hrs), <- !app_assoc.
  - intros d rest Hd. unfold section_bytes in *. cbn [fst snd] in *.
    rewrite <- !app_assoc in Hd. unfold readClientRanges.
    read_step (readSafeVarUint_reads c Hc).
    read_step (ReadVarUint_reads (Z.of_nat (length rs)) ltac:(unfold safe; lia)).
    pose proof (list_bytes_ge rs Hrs). pose proof (remaining_ge _ _ _ Hd).
    rewrite (proj2 (Z.ltb_ge _ _)) by lia. rewrite Nat2Z.id.
    read_step (read_n_reads rs Hrs). read_done.
  - unfold section_bytes. rewrite length_app. pose proof (varuint_ne c). cbn. lia.
Qed.

Definition ds_sections (ds : DeleteSet) : list (Z * list DeleteRange) :=
  map (fun c => (c, ranges_of ds c)) (keys_desc ds).

Definition ds_bytes (ds : DeleteSet) : bytes :=
  varuint_bytes (Z.of_nat (size ds)) ++ list_bytes section_bytes (ds_sections ds).

Lemma ds_sections_ok ds : ds_wire_ok ds -> Forall section_ok (ds_sections ds).
Proof.
  intros [Hs _]. apply Forall_forall. intros x Hx.
  apply list_elem_of_fmap in Hx as (c & -> & Hc). apply elem_of_keys_desc in Hc as [v Hv].
  unfold ranges_of. rewrite Hv. by apply (Hs c v).
Qed.

Lemma write_sections ds l e :
  write_list (fun client e => write_list writeRange (ranges_of ds client)
     (WriteVarUint (Z.of_nat (length (ranges_of ds client))) (WriteVarUint client e))) l e
  = write_list writeSection (map (fun c => (c, ranges_of ds c)) l) e.
Proof. revert e. induction l as [|c l IH]; intros e; cbn; [done|]. apply IH. Qed.

Lemma DS_write_writes ds : ds_wire_ok ds -> writes (DS_write ds) (ds_bytes ds).
Proof.
  intros H buf. unfold DS_write, ds_bytes, clientsDescending. cbn zeta.
  rewrite length_keys_desc, write_sections.
  rewrite WriteVarUint_writes by (unfold safe; destruct H; lia).
  by rewrite (write_list_writes (ds_sections ds) (ds_sections_ok ds H)), <- app_assoc.
Qed.

Lemma readDeleteSet_reads ds : ds_wire_ok ds -> reads readDeleteSet (ds_bytes ds) ds.
Proof.
  intros H d rest Hd. pose proof (ds_sections_ok ds H) as He.
  unfold ds_bytes in *. rewrite <- app_assoc in Hd. unfold readDeleteSet.
  read_step (ReadVarUint_reads (Z.of_nat (size ds)) ltac:(unfold safe; destruct H; lia)).
  pose proof (list_bytes_ge _ He) as Hge. pose proof (remaining_ge _ _ _ Hd).
  assert (size ds = length (ds_sections ds)) as Hsz
    by (unfold ds_sections; rewrite length_map, length_keys_desc; done).
  rewrite (proj2 (Z.ltb_ge _ _)) by lia. rewrite Nat2Z.id, Hsz at 1.
  read_step (read_n_reads (ds_sections ds) He). cbn beta iota.
  unfold ds_sections at 1, NewDeleteSet. rewrite foldl_insert_keys_desc.
  - read_done.
  - intros k x Hx. unfold ranges_of. by rewrite Hx.
Qed.

Lemma ds_bytes_ne ds : (1 <= length (ds_bytes ds))%nat.
Proof.
  unfold ds_bytes. rewrite length_app. pose proof (varuint_ne (Z.of_nat (size ds))). lia.
Qed.

Lemma readSafeVarUint_consumes : consumes 1 readSafeVarUint.
Proof. unfold readSafeVarUint. consumes_tac. Qed.

Lemma readLen_consumes : consumes 1 readLen.
Proof. unfold readLen. consumes_tac. Qed.

#[export] Hint Resolve readSafeVarUint_consumes readLen_consumes : wire.

Lemma readRange_consumes : consumes 1 readRange.
Proof. unfold readRange. consumes_tac. Qed.

#[export] Hint Resolve readRange_consumes : wire.

Lemma readClientRanges_consumes : consumes 1 readClientRanges.
Proof. unfold readClientRanges. consumes_tac. Qed.

#[export] Hint Resolve readClientRanges_consumes : wire.

Lemma readDeleteSet_consumes : consumes 1 readDeleteSet.
Proof. unfold readDeleteSet. consumes_tac. Qed.

#[export] Hint Resolve readDeleteSet_consumes : wire.

Lemma readSafeVarUint_range d v d' : readSafeVarUint d = Ok (v, d') -> safe v.
Proof.
  unfold readSafeVarUint. intros H. res_inv. case_if; [done|]. res_inv.
  apply varuint_read_range in Hm. unfold safe. lia.
Qed.

Lemma readLen_range d v d' : readLen d = Ok (v, d') -> 0 <= v <= maxLen.
Proof.
  unfold readLen. intros H. res_inv. case_if; [done|]. res_inv.
  apply varuint_read_range in Hm. lia.
Qed.

Definition two_ranges : DeleteSet := {[1 := [MkRange 0 1; MkRange 4 2]]}.

Lemma two_ranges_normal : ds_normal two_ranges.
Proof.
  intros c rs H. unfold two_ranges in H. apply lookup_singleton_Some in H as [<- <-].
  cbn. unfold range_ok, two63. cbn. lia.
Qed.

Lemma Add_spec_witness :
  ds_normal (DS_Add two_ranges 1 1 3) /\ covers (ranges_of (DS_Add two_ranges 1 1 3) 1) 2.
Proof.
  destruct (Add_spec two_ranges 1 1 3) as [H1 H2]; [apply two_ranges_normal|lia|unfold two63; lia|].
  split; [exact H1|]. apply H2. right. split; [reflexivity|lia].
Defined.

Lemma IsDeleted_spec_witness : IsDeleted two_ranges (NewID 1 5) = true.
Proof.
  apply (IsDeleted_spec two_ranges (NewID 1 5)); [apply two_ranges_normal|].
  exists (MkRange 4 2). split; [right; left|cbn; lia].
Defined.
