(* ===== verification/Struct.v ===== *)
(** * Structs: items, GC placeholders and skips

    [internal/crdt/struct.go]: the struct kinds of a client's clock space, the
    info byte that says which optional fields follow, and their wire form.

    An [*Item] of an update that has not been integrated is a value here; once
    integrated it lives in the store's heap and [left], [right] and [parent] are
    pointers into that heap (see StructStore). *)

From S2P Require Import Prelude Lib0 Any Content DeleteSet.

(** A pointer to an [Item]. *)
Abbreviation loc := positive (only parsing).

(** A pointer to an [AbstractType]: a root type is the one [Doc.share] holds
    under its name, a nested type the one the [ContentType] of its owner holds. *)
Inductive TypePtr :=
  | TRoot (name : bytes)
  | TNested (owner : loc).

#[export] Instance TypePtr_eq_dec : EqDecision TypePtr.
Proof. solve_decision. Defined.

#[export] Instance TypePtr_countable : Countable TypePtr.
Proof.
  refine (inj_countable' (fun t => match t with TRoot n => inl n | TNested l => inr l end)
    (fun s => match s with inl n => TRoot n | inr l => TNested l end) _).
  by intros [].
Defined.

Definition bitsContentRef : Z := 31.
Definition bitParentSub : Z := 32.
Definition bitRightOrigin : Z := 64.
Definition bitOrigin : Z := 128.

Record ParentInfo := MkParent { IsRoot : bool; PName : bytes; PItem : ID }.

Record Item := MkItem {
  it_ID : ID;
  Origin : option ID;
  RightOrigin : option ID;
  Parent : option ParentInfo;
  HasParentSub : bool;
  ParentSub : bytes;
  it_Content : Content;
  left : option loc;
  right : option loc;
  parent : option TypePtr;
  deleted : bool;
  keep : bool;
}.

Definition set_ID (id : ID) (it : Item) : Item :=
  MkItem id (Origin it) (RightOrigin it) (Parent it) (HasParentSub it) (ParentSub it)
    (it_Content it) (left it) (right it) (parent it) (deleted it) (keep it).
Definition set_Origin (o : option ID) (it : Item) : Item :=
  MkItem (it_ID it) o (RightOrigin it) (Parent it) (HasParentSub it) (ParentSub it)
    (it_Content it) (left it) (right it) (parent it) (deleted it) (keep it).
Definition set_Sub (h : bool) (s : bytes) (it : Item) : Item :=
  MkItem (it_ID it) (Origin it) (RightOrigin it) (Parent it) h s
    (it_Content it) (left it) (right it) (parent it) (deleted it) (keep it).
Definition set_Content (c : Content) (it : Item) : Item :=
  MkItem (it_ID it) (Origin it) (RightOrigin it) (Parent it) (HasParentSub it) (ParentSub it)
    c (left it) (right it) (parent it) (deleted it) (keep it).
Definition set_left (l : option loc) (it : Item) : Item :=
  MkItem (it_ID it) (Origin it) (RightOrigin it) (Parent it) (HasParentSub it) (ParentSub it)
    (it_Content it) l (right it) (parent it) (deleted it) (keep it).
Definition set_right (r : option loc) (it : Item) : Item :=
  MkItem (it_ID it) (Origin it) (RightOrigin it) (Parent it) (HasParentSub it) (ParentSub it)
    (it_Content it) (left it) r (parent it) (deleted it) (keep it).
Definition set_parent (p : option TypePtr) (it : Item) : Item :=
  MkItem (it_ID it) (Origin it) (RightOrigin it) (Parent it) (HasParentSub it) (ParentSub it)
    (it_Content it) (left it) (right it) p (deleted it) (keep it).
Definition set_deleted (b : bool) (it : Item) : Item :=
  MkItem (it_ID it) (Origin it) (RightOrigin it) (Parent it) (HasParentSub it) (ParentSub it)
    (it_Content it) (left it) (right it) (parent it) b (keep it).

Inductive Struct :=
  | SGC (id : ID) (len : Z)
  | SSkip (id : ID) (len : Z)
  | SItem (it : Item).

Definition Item_Len (it : Item) : Z := Len (it_Content it).

Definition StructID (s : Struct) : ID :=
  match s with SGC id _ => id | SSkip id _ => id | SItem it => it_ID it end.

Definition StructLen (s : Struct) : Z :=
  match s with SGC _ n => n | SSkip _ n => n | SItem it => Item_Len it end.

Definition Countable (it : Item) : bool :=
  negb (deleted it) && Content_Countable (it_Content it).

Definition LastID (it : Item) : ID :=
  NewID (Client (it_ID it)) (u64 (Clock (it_ID it) + Item_Len it - 1)).

(** ** Writing *)

Definition writeID (id : ID) (e : Encoder) : Encoder :=
  WriteVarUint (Clock id) (WriteVarUint (Client id) e).

(** The info byte of [Item.write]. *)
Definition info_byte (c : Content) (o r : option ID) (sub : bool) : Z :=
  let info := Z.land (Ref c) bitsContentRef in
  let info := match o with Some _ => Z.lor info bitOrigin | None => info end in
  let info := match r with Some _ => Z.lor info bitRightOrigin | None => info end in
  if sub then Z.lor info bitParentSub else info.

Section Write.
(** What a resolved parent pointer says on the wire: the owner's id, or the
    name of a root type. *)
Context (resolved : TypePtr -> ParentInfo).

Definition writeParentInfo (it : Item) (e : Encoder) : Encoder :=
  let put p :=
    if IsRoot p then WriteVarString (PName p) (WriteVarUint 1 e)
    else writeID (PItem p) (WriteVarUint 0 e) in
  match parent it with
  | Some t => put (resolved t)
  | None =>
      match Parent it with
      | Some p => put p
      | None => WriteVarString [] (WriteVarUint 1 e)
      end
  end.

Definition Item_write (it : Item) (offset : Z) (e : Encoder) : Encoder :=
  let origin :=
    if 0 <? offset
    then Some (NewID (Client (it_ID it)) (u64 (Clock (it_ID it) + offset - 1)))
    else Origin it in
  let e := WriteUint8 (info_byte (it_Content it) origin (RightOrigin it) (HasParentSub it)) e in
  let e := match origin with Some id => writeID id e | None => e end in
  let e := match RightOrigin it with Some id => writeID id e | None => e end in
  let e :=
    match origin, RightOrigin it with
    | None, None =>
        let e := writeParentInfo it e in
        if HasParentSub it then WriteVarString (ParentSub it) e else e
    | _, _ => e
    end in
  Content_Write (it_Content it) offset e.

Definition Struct_write (s : Struct) (offset : Z) (e : Encoder) : Encoder :=
  match s with
  | SGC _ n => WriteVarUint (u64 (n - offset)) (WriteUint8 RefGC e)
  | SSkip _ n => WriteVarUint (u64 (n - offset)) (WriteUint8 RefSkip e)
  | SItem it => Item_write it offset e
  end.
End Write.

(** ** Reading *)

Definition readID (d : Decoder) : res (ID * Decoder) :=
  '(client, d) ← readSafeVarUint d;
  '(clock, d) ← readSafeVarUint d;
  Ok (NewID client clock, d).

Definition zeroID : ID := NewID 0 0.

(** The neighbour ids, present when their info bit is. *)
Definition readOptID (present : bool) (d : Decoder) : res (option ID * Decoder) :=
  if present then '(id, d) ← readID d; Ok (Some id, d) else Ok (None, d).

Definition readParent (d : Decoder) : res (ParentInfo * Decoder) :=
  '(kind, d) ← ReadVarUint d;
  if kind =? 1 then '(name, d) ← ReadVarString d; Ok (MkParent true name zeroID, d)
  else if kind =? 0 then '(pid, d) ← readID d; Ok (MkParent false [] pid, d)
  else Err ErrCorruptUpdate.

(** Parent and parentSub are on the wire only when both neighbours are absent. *)
Definition readParentInfo (origin rightOrigin : option ID) (hasSub : bool) (d : Decoder)
    : res (option ParentInfo * bytes * Decoder) :=
  match origin, rightOrigin with
  | None, None =>
      '(p, d) ← readParent d;
      if hasSub then '(s, d) ← ReadVarString d; Ok (Some p, s, d)
      else Ok (Some p, [], d)
  | _, _ => Ok (None, [], d)
  end.

Definition bit (info mask : Z) : bool := negb (Z.land info mask =? 0).

Definition readStruct (client clock : Z) (d : Decoder) : res (Struct * Decoder) :=
  '(info, d) ← ReadUint8 d;
  let id := NewID client clock in
  let ref := Z.land info bitsContentRef in
  if ((ref =? RefGC) || (ref =? RefSkip))
     && negb (Z.land info (Z.lor bitParentSub (Z.lor bitRightOrigin bitOrigin)) =? 0)
  then Err ErrCorruptUpdate
  else if ref =? RefGC then '(n, d) ← readLen d; Ok (SGC id n, d)
  else if ref =? RefSkip then '(n, d) ← readLen d; Ok (SSkip id n, d)
  else
    '(origin, d) ← readOptID (bit info bitOrigin) d;
    '(rightOrigin, d) ← readOptID (bit info bitRightOrigin) d;
    let hasSub := bit info bitParentSub in
    '(par, sub, d) ← readParentInfo origin rightOrigin hasSub d;
    '(content, d) ← readContent ref d;
    Ok (SItem (MkItem id origin rightOrigin par hasSub sub content None None None false false), d).

(** ** Round trip *)

Definition id_ok (id : ID) : Prop := safe (Client id) /\ safe (Clock id).

Definition parent_ok (p : ParentInfo) : Prop :=
  if IsRoot p then short (PName p) /\ PItem p = zeroID
  else PName p = [] /\ id_ok (PItem p).

(** An item as [readStruct] builds it: no integration state, and parent
    information exactly when both neighbours are absent. *)
Definition item_wire_ok (it : Item) : Prop :=
  option_Forall id_ok (Origin it) /\ option_Forall id_ok (RightOrigin it)
  /\ content_ok (it_Content it)
  /\ match Origin it, RightOrigin it with
     | None, None => (exists p, Parent it = Some p /\ parent_ok p)
                     /\ short (ParentSub it) /\ (HasParentSub it = false -> ParentSub it = [])
     | _, _ => Parent it = None /\ ParentSub it = []
     end
  /\ left it = None /\ right it = None /\ parent it = None
  /\ deleted it = false /\ keep it = false.

Definition struct_wire_ok (s : Struct) : Prop :=
  match s with
  | SGC _ n | SSkip _ n => 0 <= n <= maxLen
  | SItem it => item_wire_ok it
  end.

Definition id_bytes (id : ID) : bytes := varuint_bytes (Client id) ++ varuint_bytes (Clock id).

Definition opt_id_bytes (o : option ID) : bytes :=
  match o with Some id => id_bytes id | None => [] end.

Definition parent_bytes (p : ParentInfo) : bytes :=
  if IsRoot p then varuint_bytes 1 ++ string_bytes (PName p)
  else varuint_bytes 0 ++ id_bytes (PItem p).

Definition item_bytes (it : Item) : bytes :=
  [info_byte (it_Content it) (Origin it) (RightOrigin it) (HasParentSub it)]
  ++ opt_id_bytes (Origin it) ++ opt_id_bytes (RightOrigin it)
  ++ match Origin it, RightOrigin it, Parent it with
     | None, None, Some p =>
         parent_bytes p ++ (if HasParentSub it then string_bytes (ParentSub it) else [])
     | _, _, _ => []
     end
  ++ content_bytes (it_Content it).

Definition struct_bytes (s : Struct) : bytes :=
  match s with
  | SGC _ n => [RefGC] ++ varuint_bytes n
  | SSkip _ n => [RefSkip] ++ varuint_bytes n
  | SItem it => item_bytes it
  end.

Definition present {A} (o : option A) : bool := match o with Some _ => true | None => false end.

(** The info byte carries the content ref and the three flags independently. *)
Lemma info_byte_spec c o r sub :
  let info := info_byte c o r sub in
  Z.land info bitsContentRef = Ref c /\ bit info bitOrigin = present o
  /\ bit info bitRightOrigin = present r /\ bit info bitParentSub = sub.
Proof. destruct c, o, r, sub; vm_compute; done. Qed.

Lemma Ref_item c : (Ref c =? RefGC) = false /\ (Ref c =? RefSkip) = false.
Proof. by destruct c. Qed.

Lemma writeID_writes id : id_ok id -> writes (writeID id) (id_bytes id).
Proof. intros [H1 H2] buf. unfold writeID. by rewrite !WriteVarUint_writes, <- app_assoc. Qed.

Lemma readID_reads id : id_ok id -> reads readID (id_bytes id) id.
Proof.
  destruct id as [c k]. intros [H1 H2] d rest Hd. cbn in H1, H2.
  unfold id_bytes in *. cbn [Client Clock] in *. rewrite <- app_assoc in Hd. unfold readID.
  read_step (readSafeVarUint_reads c H1). read_step (readSafeVarUint_reads k H2). read_done.
Qed.

Lemma readOptID_reads o :
  option_Forall id_ok o -> reads (readOptID (present o)) (opt_id_bytes o) o.
Proof.
  intros H d rest Hd. destruct o as [id|]; cbn in *; [|by rewrite advance_0].
  inversion H; subst. by rewrite (readID_reads id) with (rest := rest).
Qed.

Lemma readParent_reads p : parent_ok p -> reads readParent (parent_bytes p) p.
Proof.
  destruct p as [[] n id]; unfold parent_ok, parent_bytes; cbn [IsRoot PName PItem];
    intros [H1 H2] d rest Hd; rewrite <- app_assoc in Hd; unfold readParent.
  - read_step (ReadVarUint_reads 1 ltac:(done)). cbn [Z.eqb Pos.eqb].
    read_step (ReadVarString_reads n H1). subst. read_done.
  - read_step (ReadVarUint_reads 0 ltac:(done)). cbn [Z.eqb].
    read_step (readID_reads id H2). subst. read_done.
Qed.

Lemma writeParentInfo_writes resolved it p :
  parent it = None -> Parent it = Some p -> parent_ok p ->
  writes (writeParentInfo resolved it) (parent_bytes p).
Proof.
  intros Hn Hp Hok buf. unfold writeParentInfo. rewrite Hn, Hp.
  destruct p as [[] n id]; unfold parent_ok, parent_bytes in *; cbn [IsRoot PName PItem] in *;
    destruct Hok as [H1 H2].
  - by rewrite WriteVarUint_writes, WriteVarString_writes, <- app_assoc by done.
  - by rewrite WriteVarUint_writes, writeID_writes, <- app_assoc by done.
Qed.

Lemma opt_writeID_writes o :
  option_Forall id_ok o ->
  writes (fun e => match o with Some id => writeID id e | None => e end) (opt_id_bytes o).
Proof.
  intros H. destruct o as [id|]; cbn; [|apply writes_nil].
  inversion H; subst. by apply writeID_writes.
Qed.

Lemma Item_write_writes resolved it :
  item_wire_ok it -> writes (Item_write resolved it 0) (item_bytes it).
Proof.
  intros (Ho & Hr & Hc & Hp & _ & _ & Hn & _) buf. unfold Item_write, item_bytes.
  cbn [Z.ltb Z.compare]. rewrite WriteUint8_writes.
  rewrite (opt_writeID_writes _ Ho), (opt_writeID_writes _ Hr).
  destruct (Origin it) as [o|], (RightOrigin it) as [r|]; cbn zeta;
    rewrite ?(Content_Write_writes _ Hc), <- ?app_assoc; try done.
  destruct Hp as ((p & Hpi & Hpok) & Hs & _). rewrite Hpi.
  rewrite (writeParentInfo_writes resolved it p Hn Hpi Hpok).
  destruct (HasParentSub it); cbn iota.
  - by rewrite WriteVarString_writes, (Content_Write_writes _ Hc), <- !app_assoc by done.
  - rewrite (writeParentInfo_writes resolved it p Hn Hpi Hpok).
    by rewrite (Content_Write_writes _ Hc), <- !app_assoc.
Qed.

Lemma Struct_write_writes resolved s :
  struct_wire_ok s -> writes (Struct_write resolved s 0) (struct_bytes s).
Proof.
  intros H buf. destruct s as [id n|id n|it]; cbn [Struct_write struct_bytes].
  - by rewrite u64_len, WriteUint8_writes, WriteVarUint_writes, <- app_assoc
      by auto with wire.
  - by rewrite u64_len, WriteUint8_writes, WriteVarUint_writes, <- app_assoc
      by auto with wire.
  - by apply Item_write_writes.
Qed.

Lemma readItem_reads it :
  item_wire_ok it ->
  reads (readStruct (Client (it_ID it)) (Clock (it_ID it))) (item_bytes it) (SItem it).
Proof.
  intros (Ho & Hr & Hc & Hp & Hl & Hri & Hn & Hdel & Hk) d rest Hd.
  unfold item_bytes in *. rewrite <- !app_assoc in Hd. unfold readStruct.
  read_step (ReadUint8_reads (info_byte (it_Content it) (Origin it) (RightOrigin it)
                                (HasParentSub it))). cbn zeta.
  destruct (info_byte_spec (it_Content it) (Origin it) (RightOrigin it) (HasParentSub it))
    as (-> & -> & -> & ->).
  destruct (Ref_item (it_Content it)) as [-> ->]. cbn [orb andb].
  read_step (readOptID_reads _ Ho). read_step (readOptID_reads _ Hr).
  destruct it as [[cl ck] o r p hs sub c lf rt par del kp]; cbn in *. subst.
  unfold readParentInfo.
  destruct o as [o|], r as [r|]; try (destruct Hp as [-> ->]); cbn [app] in *;
    try (cbn [mbind res_bind]; read_step (readContent_reads c Hc); read_done).
  destruct Hp as ((p' & -> & Hpok) & Hs & Hsub). rewrite <- !app_assoc in *.
  read_step (readParent_reads p' Hpok). destruct hs.
  - read_step (ReadVarString_reads sub Hs). read_step (readContent_reads c Hc). read_done.
  - rewrite (Hsub eq_refl). cbn [app mbind res_bind] in *.
    read_step (readContent_reads c Hc). read_done.
Qed.

Lemma readStruct_reads s :
  struct_wire_ok s ->
  reads (readStruct (Client (StructID s)) (Clock (StructID s))) (struct_bytes s) s.
Proof.
  intros H. destruct s as [[c k] n|[c k] n|it]; [| |by apply readItem_reads];
    intros d rest Hd; cbn [struct_bytes] in *; rewrite <- app_assoc in Hd; unfold readStruct.
  - read_step (ReadUint8_reads RefGC). cbn -[readLen]. cbn in Hd.
    read_step (readLen_reads n H). read_done.
  - read_step (ReadUint8_reads RefSkip). cbn -[readLen]. cbn in Hd.
    read_step (readLen_reads n H). read_done.
Qed.

Lemma struct_bytes_ne s : (1 <= length (struct_bytes s))%nat.
Proof. destruct s; cbn; lia. Qed.

(** ** Readers stay inside the buffer *)

Lemma readAbstractType_consumes : consumes 1 readAbstractType.
Proof. unfold readAbstractType. consumes_tac. Qed.

#[export] Hint Resolve readAbstractType_consumes : wire.

Lemma readContent_consumes ref : consumes 1 (readContent ref).
Proof. unfold readContent. consumes_tac. Qed.

Lemma readID_consumes : consumes 1 readID.
Proof. unfold readID. consumes_tac. Qed.

#[export] Hint Resolve readContent_consumes readID_consumes : wire.

Lemma readOptID_consumes b : consumes 0 (readOptID b).
Proof. unfold readOptID. consumes_tac. Qed.

Lemma readParent_consumes : consumes 1 readParent.
Proof. unfold readParent. consumes_tac. Qed.

#[export] Hint Resolve readOptID_consumes readParent_consumes : wire.

Lemma readParentInfo_consumes o r b : consumes 0 (readParentInfo o r b).
Proof. unfold readParentInfo. destruct o, r; consumes_tac. Qed.

#[export] Hint Resolve readParentInfo_consumes : wire.

Lemma readStruct_consumes client clock : consumes 1 (readStruct client clock).
Proof. unfold readStruct. cbn zeta. consumes_tac. Qed.

#[export] Hint Resolve readStruct_consumes : wire.

(** ** What the decoder guarantees for any input *)

Lemma readContent_Len ref d c d' :
  readContent ref d = Ok (c, d') -> (dec_pos d <= length (dec_buf d))%nat ->
  Z.of_nat (length (dec_buf d)) <= maxLen -> 0 <= Len c <= maxLen.
Proof.
  intros H Hp Hb. unfold readContent in H. repeat case_if; try done; res_inv;
    cbn [Len]; try (unfold maxLen; lia).
  - by eapply readLen_range.
  - case_if; [done|]. res_inv. cbn [Len]. apply read_n_length in Hm0 as ->.
    apply readLen_range in Hm. lia.
  - apply ReadVarString_length in Hm; [|done]. pose proof (UTF16Length_le x).
    pose proof (UTF16Length_nonneg x). lia.
  - case_if; [done|]. res_inv. cbn [Len]. apply read_n_length in Hm0 as ->.
    apply readLen_range in Hm. lia.
Qed.

(** A struct as it leaves the decoder: the ids it refers to are clocks, and an
    item is not linked, not resolved and not deleted. *)
Definition ref_ok (o : option ID) : Prop := forall id, o = Some id -> 0 <= Clock id.

Definition parent_item (it : Item) : option ID :=
  match Parent it with
  | Some p => if IsRoot p then None else Some (PItem p)
  | None => None
  end.

Definition fresh_struct (s : Struct) : Prop :=
  match s with
  | SItem it =>
      ref_ok (Origin it) /\ ref_ok (RightOrigin it) /\ ref_ok (parent_item it)
      /\ left it = None /\ right it = None /\ parent it = None /\ deleted it = false
  | _ => True
  end.

Lemma readID_clock d id d' : readID d = Ok (id, d') -> 0 <= Clock id.
Proof. unfold readID. intros H. res_inv. apply readSafeVarUint_range in Hm0. apply Hm0. Qed.

Lemma readOptID_ref b d o d' : readOptID b d = Ok (o, d') -> ref_ok o.
Proof.
  unfold readOptID. intros H id ->. destruct b; res_inv. by eapply readID_clock.
Qed.

Lemma readParentInfo_ref o r h d p sub d' :
  readParentInfo o r h d = Ok (p, sub, d') ->
  ref_ok (match p with Some p => if IsRoot p then None else Some (PItem p) | None => None end).
Proof.
  unfold readParentInfo, readParent. intros H id Hid.
  destruct o, r; res_inv; try discriminate Hid.
  repeat case_if; res_inv; cbn in *; simplify_eq; by eapply readID_clock.
Qed.

Lemma readStruct_spec client clock d s d' :
  readStruct client clock d = Ok (s, d') -> (dec_pos d <= length (dec_buf d))%nat ->
  Z.of_nat (length (dec_buf d)) <= maxLen ->
  StructID s = NewID client clock /\ 0 <= StructLen s <= maxLen /\ fresh_struct s.
Proof.
  intros H Hp Hb. unfold readStruct in H. res_inv. cbn zeta in *.
  apply ReadUint8_consumes in Hm as [Hb0 Hp0]; [done|].
  repeat case_if; try done; res_inv; cbn [StructID StructLen Item_Len].
  - split_and!; [done|by eapply readLen_range..|done].
  - split_and!; [done|by eapply readLen_range..|done].
  - pose proof (readOptID_ref _ _ _ _ Hm) as Ho. pose proof (readOptID_ref _ _ _ _ Hm0) as Hr.
    pose proof (readParentInfo_ref _ _ _ _ _ _ _ Hm1) as Hpr.
    apply readOptID_consumes in Hm as [Hb1 Hp1]; [rewrite Hb0; lia|].
    apply readOptID_consumes in Hm0 as [Hb2 Hp2]; [rewrite Hb1, Hb0 in *; lia|].
    apply readParentInfo_consumes in Hm1 as [Hb3 Hp3]; [rewrite Hb2, Hb1, Hb0 in *; lia|].
    rewrite ?Hb2, ?Hb1, ?Hb0 in *.
    split; [done|]. split; [|by split_and!].
    apply (readContent_Len _ _ _ _ Hm2); rewrite ?Hb3; lia.
Qed.
