(* ===== verification/Update.v ===== *)
(** * Updates

    [internal/crdt/update.go]: a decoded v1 update is client blocks, each a
    contiguous run of structs, then a delete set.  [DecodeUpdate] rejects
    trailing bytes; [Encode] writes client blocks highest client first. *)

From S2P Require Import Prelude Lib0 Any Content StateVector DeleteSet Struct.

Record ClientBlock := MkBlock { CB_Client : Z; StartClock : Z; Structs : list Struct }.

(** [Deletes] is a pointer in Go and may be nil. *)
Record Update := MkUpdate { Clients : list ClientBlock; Deletes : option DeleteSet }.

(** ** Reading *)

(** The inner loop of [readUpdate]: each struct starts where the last ended. *)
Fixpoint read_structs (n : nat) (client clock : Z) (d : Decoder)
    : res (list Struct * Decoder) :=
  match n with
  | O => Ok ([], d)
  | S n =>
      '(s, d) ← readStruct client clock d;
      '(l, d) ← read_structs n client (u64 (clock + StructLen s)) d;
      Ok (s :: l, d)
  end.

Definition readBlock (d : Decoder) : res (ClientBlock * Decoder) :=
  '(numStructs, d) ← ReadVarUint d;
  if Z.of_nat (Remaining d) <? numStructs then Err ErrUnexpectedEOF
  else
    '(client, d) ← readSafeVarUint d;
    '(startClock, d) ← readSafeVarUint d;
    '(structs, d) ← read_structs (Z.to_nat numStructs) client startClock d;
    Ok (MkBlock client startClock structs, d).

Definition readUpdate (d : Decoder) : res (Update * Decoder) :=
  '(numClients, d) ← ReadVarUint d;
  if Z.of_nat (Remaining d) <? numClients then Err ErrUnexpectedEOF
  else
    '(blocks, d) ← read_n (Z.to_nat numClients) readBlock d;
    '(ds, d) ← readDeleteSet d;
    Ok (MkUpdate blocks (Some ds), d).

Definition DecodeUpdate (b : bytes) : res Update :=
  '(u, d) ← readUpdate (NewDecoder b);
  if Done d then Ok u else Err ErrCorruptUpdate.

(** ** Writing *)

Fixpoint isDescendingByClient (blocks : list ClientBlock) : bool :=
  match blocks with
  | a :: ((b :: _) as rest) =>
      if CB_Client a <=? CB_Client b then false else isDescendingByClient rest
  | _ => true
  end.

Section Write.
Context (resolved : TypePtr -> ParentInfo).

(** Only the first struct of a block can start mid-struct. *)
Definition writeBlock (block : ClientBlock) (e : Encoder) : Encoder :=
  let e := WriteVarUint (Z.of_nat (length (Structs block))) e in
  let e := WriteVarUint (CB_Client block) e in
  let e := WriteVarUint (StartClock block) e in
  match Structs block with
  | [] => e
  | s :: rest =>
      let offset := s64 (u64 (StartClock block - Clock (StructID s))) in
      write_list (fun s e => Struct_write resolved s 0 e) rest
        (Struct_write resolved s offset e)
  end.

Definition Update_write (u : Update) (e : Encoder) : Encoder :=
  let blocks :=
    if isDescendingByClient (Clients u) then Clients u
    else sort_by (fun a b => CB_Client b <? CB_Client a) (Clients u) in
  let e := WriteVarUint (Z.of_nat (length blocks)) e in
  let e := write_list writeBlock blocks e in
  match Deletes u with
  | None => WriteVarUint 0 e
  | Some ds => DS_write ds e
  end.

Definition Encode (u : Update) : res bytes := finish (Update_write u NewEncoder).
End Write.

(** The clocks an update carries: [Update.StateVector]. *)
Definition Update_StateVector (u : Update) : gmap Z Z :=
  foldl (fun sv block =>
      let clock := foldl (fun clock s => u64 (clock + StructLen s))
                     (StartClock block) (Structs block) in
      if SV_Get sv (CB_Client block) <? clock
      then <[CB_Client block := clock]> sv else sv)
    NewStateVector (Clients u).

(** An item that was never integrated has no resolved parent, so writing a
    decoded update never asks for one. *)
Definition no_parent (t : TypePtr) : ParentInfo := MkParent true [] zeroID.

(** ** Round trip *)

(** Structs that follow each other without a gap, starting at [clock], without
    overflowing the clock. *)
Fixpoint chain (client clock : Z) (l : list Struct) : Prop :=
  match l with
  | [] => 0 <= clock < two63
  | s :: l =>
      StructID s = NewID client clock /\ 0 <= StructLen s
      /\ chain client (clock + StructLen s) l
  end.

Definition block_ok (b : ClientBlock) : Prop :=
  safe (CB_Client b) /\ safe (StartClock b)
  /\ Z.of_nat (length (Structs b)) <= MaxSafeInteger
  /\ chain (CB_Client b) (StartClock b) (Structs b)
  /\ Forall struct_wire_ok (Structs b).

Definition update_ok (u : Update) : Prop :=
  Forall block_ok (Clients u) /\ isDescendingByClient (Clients u) = true
  /\ Z.of_nat (length (Clients u)) <= MaxSafeInteger
  /\ exists ds, Deletes u = Some ds /\ ds_wire_ok ds.

Definition block_bytes (b : ClientBlock) : bytes :=
  varuint_bytes (Z.of_nat (length (Structs b))) ++ varuint_bytes (CB_Client b)
  ++ varuint_bytes (StartClock b) ++ list_bytes struct_bytes (Structs b).

Definition update_bytes (u : Update) : bytes :=
  varuint_bytes (Z.of_nat (length (Clients u))) ++ list_bytes block_bytes (Clients u)
  ++ match Deletes u with Some ds => ds_bytes ds | None => varuint_bytes 0 end.

Lemma chain_start client clock l : 0 <= clock -> chain client clock l -> 0 <= clock < two63.
Proof.
  revert clock. induction l as [|s l IH]; intros clock H0 H; [done|].
  destruct H as (_ & H1 & H2). specialize (IH (clock + StructLen s) ltac:(lia) H2). lia.
Qed.

Lemma read_structs_reads l : forall client clock,
  0 <= clock -> chain client clock l -> Forall struct_wire_ok l ->
  reads (read_structs (length l) client clock) (list_bytes struct_bytes l) l.
Proof.
  induction l as [|s l IH]; intros client clock H0 Hc Hf d rest Hd;
    [by rewrite advance_0|].
  apply Forall_cons in Hf as [Hs Hf]. destruct Hc as (Hid & Hl & Hc).
  unfold list_bytes in *. cbn [map concat] in *. rewrite <- app_assoc in Hd.
  cbn [read_structs length]. pose proof (readStruct_reads s Hs) as Hr.
  rewrite Hid in Hr. cbn [Client Clock] in Hr. read_step Hr. cbn beta iota.
  pose proof (chain_start client (clock + StructLen s) l ltac:(lia) Hc) as Hb.
  rewrite u64_small by (unfold two63, two64 in *; lia).
  rewrite (IH client (clock + StructLen s) ltac:(lia) Hc Hf _ _ Hd). cbn [mbind res_bind]. read_done.
Qed.

Lemma structs_bytes_ge l : (length l <= length (list_bytes struct_bytes l))%nat.
Proof.
  induction l as [|s l IH]; [done|]. unfold list_bytes in *. cbn.
  rewrite length_app. pose proof (struct_bytes_ne s). lia.
Qed.

Lemma write_structs resolved l :
  Forall struct_wire_ok l ->
  writes (write_list (fun s e => Struct_write resolved s 0 e) l) (list_bytes struct_bytes l).
Proof.
  induction 1 as [|s l Hs Hl IH]; [apply writes_nil|]. intros buf. cbn.
  rewrite (Struct_write_writes resolved s Hs). unfold writes, write_list in IH.
  rewrite IH. unfold list_bytes. cbn. by rewrite <- app_assoc.
Qed.

#[export] Instance block_wire resolved :
  Wire (writeBlock resolved) readBlock block_bytes block_ok.
Proof.
  split; intros [c k l] (Hc & Hk & Hn & Hch & Hf); cbn [CB_Client StartClock Structs] in *.
  - intros buf. unfold writeBlock, block_bytes. cbn [CB_Client StartClock Structs].
    rewrite !WriteVarUint_writes by (done || unfold safe; lia).
    destruct l as [|s l]; [by rewrite app_nil_r, <- !app_assoc|].
    apply Forall_cons in Hf as [Hs Hf]. destruct Hch as (Hid & _). rewrite Hid.
    cbn [Clock]. rewrite Z.sub_diag. change (s64 (u64 0)) with 0.
    rewrite (Struct_write_writes resolved s Hs), (write_structs resolved l Hf).
    unfold list_bytes. cbn. by rewrite <- !app_assoc.
  - intros d rest Hd. unfold block_bytes in *. cbn [CB_Client StartClock Structs] in *.
    rewrite <- !app_assoc in Hd. unfold readBlock.
    read_step (ReadVarUint_reads (Z.of_nat (length l)) ltac:(unfold safe; lia)).
    pose proof (structs_bytes_ge l) as Hge. pose proof (remaining_ge _ _ _ Hd).
    pose proof (f_equal length Hd) as Hlen. rewrite length_unread, !length_app in Hlen.
    rewrite (proj2 (Z.ltb_ge _ _)) by lia. rewrite Nat2Z.id.
    read_step (readSafeVarUint_reads c Hc). read_step (readSafeVarUint_reads k Hk).
    read_step (read_structs_reads l c k ltac:(apply Hk) Hch Hf). read_done.
  - unfold block_bytes. cbn. rewrite length_app.
    pose proof (varuint_ne (Z.of_nat (length l))). lia.
Qed.

Lemma Update_write_writes resolved u :
  update_ok u -> writes (Update_write resolved u) (update_bytes u).
Proof.
  intros (Hb & Hd & Hn & ds & Hds & Hok) buf. unfold Update_write, update_bytes.
  rewrite Hd, Hds. cbn zeta. rewrite WriteVarUint_writes by (unfold safe; lia).
  rewrite (write_list_writes (Clients u) Hb), (DS_write_writes ds Hok).
  by rewrite <- !app_assoc.
Qed.

Lemma readUpdate_reads u : update_ok u -> reads readUpdate (update_bytes u) u.
Proof.
  destruct u as [blocks del]. intros (Hb & Hd & Hn & ds & Hds & Hok) d rest Hrd.
  cbn [Clients Deletes] in *. subst del.
  unfold update_bytes in *. cbn [Clients Deletes] in *. rewrite <- !app_assoc in Hrd.
  unfold readUpdate.
  read_step (ReadVarUint_reads (Z.of_nat (length blocks)) ltac:(unfold safe; lia)).
  pose proof (list_bytes_ge (W := block_wire no_parent) blocks Hb) as Hge.
  pose proof (remaining_ge _ _ _ Hrd).
  rewrite (proj2 (Z.ltb_ge _ _)) by lia. rewrite Nat2Z.id.
  read_step (read_n_reads (W := block_wire no_parent) blocks Hb).
  read_step (readDeleteSet_reads ds Hok). read_done.
Qed.

Lemma DecodeUpdate_Encode_ok u :
  update_ok u -> exists b, Encode no_parent u = Ok b /\ DecodeUpdate b = Ok u.
Proof.
  intros H. exists (update_bytes u). split.
  - by apply finish_writes, Update_write_writes.
  - unfold DecodeUpdate. rewrite (readUpdate_reads u H _ []);
      [|by rewrite unread_new, app_nil_r]. cbn [mbind res_bind].
    by rewrite done_advance.
Qed.

(** C32. A canonical update survives encoding and decoding: [Encode] succeeds and
    [DecodeUpdate] of its bytes is the same update. *)
Theorem DecodeUpdate_Encode u :
  update_ok u ->
  exists b, Encode no_parent u = Ok b /\ DecodeUpdate b = Ok u.
Proof. apply DecodeUpdate_Encode_ok. Qed.

(** ** What decoding guarantees for any input *)

Lemma read_structs_consumes n : forall client clock,
  consumes n (read_structs n client clock).
Proof.
  induction n as [|n IH]; intros client clock; [apply consumes_ret|].
  apply (consumes_bind _ _ 1 n (readStruct_consumes client clock)). intros s.
  eapply consumes_bind0; [apply IH|]. intros l. apply consumes_ret.
Qed.

Lemma read_structs_chain n : forall client clock d l d',
  read_structs n client clock d = Ok (l, d') ->
  (dec_pos d <= length (dec_buf d))%nat -> Z.of_nat (length (dec_buf d)) <= maxLen ->
  0 <= clock -> clock + Z.of_nat n * maxLen < two63 ->
  chain client clock l /\ Forall fresh_struct l /\ length l = n.
Proof.
  induction n as [|n IH]; intros client clock d l d' H Hp Hb H0 Hn; cbn in H; res_inv.
  { split_and!; [|done..]. cbn. unfold maxLen in *. lia. }
  destruct (readStruct_spec _ _ _ _ _ Hm Hp Hb) as (Hid & Hl & Hfs).
  apply readStruct_consumes in Hm as [Hb1 Hp1]; [done|].
  rewrite u64_small in Hm0 by (unfold maxLen, two63, two64 in *; lia).
  apply IH in Hm0 as (Hc & Hfl & Hlen); rewrite ?Hb1 in *; try lia.
  cbn. split_and!; [done|lia|done|by constructor|by rewrite Hlen].
Qed.

(** What every block of a decoded update satisfies. *)
Definition block_decoded (b : ClientBlock) : Prop :=
  safe (CB_Client b) /\ safe (StartClock b)
  /\ chain (CB_Client b) (StartClock b) (Structs b)
  /\ Forall fresh_struct (Structs b).

Lemma readBlock_consumes : consumes 1 readBlock.
Proof.
  unfold readBlock. eapply consumes_bind0; [apply ReadVarUint_consumes|]. intros n.
  apply consumes_if; [apply consumes_err|].
  eapply consumes_bind0; [eauto using consumes_0 with wire|]. intros c.
  eapply consumes_bind0; [eauto using consumes_0 with wire|]. intros k.
  eapply consumes_bind0; [eapply consumes_0, read_structs_consumes|].
  intros l. apply consumes_ret.
Qed.

Lemma readBlock_decoded d b d' :
  readBlock d = Ok (b, d') -> (dec_pos d <= length (dec_buf d))%nat ->
  Z.of_nat (length (dec_buf d)) < maxLen ->
  block_decoded b /\ (dec_pos d + length (Structs b) < dec_pos d')%nat.
Proof.
  unfold readBlock. intros H Hp Hb. res_inv. case_if; [done|]. res_inv.
  pose proof (varuint_read_range _ _ _ _ _ _ Hm) as Hr.
  apply ReadVarUint_consumes in Hm as [Hb1 Hp1]; [done|].
  pose proof (readSafeVarUint_range _ _ _ Hm0) as Hsc.
  pose proof (readSafeVarUint_range _ _ _ Hm1) as Hsk.
  apply readSafeVarUint_consumes in Hm0 as [Hb2 Hp2]; [rewrite Hb1; lia|].
  apply readSafeVarUint_consumes in Hm1 as [Hb3 Hp3]; [rewrite Hb2, Hb1 in *; lia|].
  unfold Remaining in E. rewrite ?Hb2, ?Hb1 in *.
  assert (Hbuf : Z.of_nat (length (dec_buf y1)) <= maxLen) by (rewrite Hb3; lia).
  pose proof (read_structs_consumes _ _ _ _ _ _ Hm2 ltac:(rewrite Hb3; lia)) as [_ Hp4].
  apply read_structs_chain in Hm2 as (Hc & Hfs & Hl); [| |done|apply Hsk|].
  - split; [done|]. cbn [Structs]. rewrite Hl. lia.
  - rewrite Hb3. lia.
  - unfold safe, MaxSafeInteger, maxLen, two63 in *. nia.
Qed.

Definition struct_count (bs : list ClientBlock) : nat :=
  sum_list_with (fun b => length (Structs b)) bs.

Lemma read_blocks_decoded n : forall d bs d',
  read_n n readBlock d = Ok (bs, d') -> (dec_pos d <= length (dec_buf d))%nat ->
  Z.of_nat (length (dec_buf d)) < maxLen ->
  Forall block_decoded bs
  /\ (dec_pos d + length bs + struct_count bs <= dec_pos d')%nat.
Proof.
  induction n as [|n IH]; intros d bs d' H Hp Hb; unfold read_n in H; fold @read_n in H;
    res_inv; [split; [constructor|cbn; lia]|].
  destruct (readBlock_decoded _ _ _ Hm Hp Hb) as [Hd Hc].
  apply readBlock_consumes in Hm as [Hb1 Hp1]; [done|].
  apply IH in Hm0 as [Hds Hcs]; rewrite ?Hb1; try lia.
  split; [by constructor|]. unfold struct_count in *. cbn. lia.
Qed.

Lemma DecodeUpdate_blocks b u :
  Z.of_nat (length b) < maxLen -> DecodeUpdate b = Ok u ->
  Forall block_decoded (Clients u)
  /\ (length (Clients u) + struct_count (Clients u) < length b)%nat.
Proof.
  intros Hb H. unfold DecodeUpdate, readUpdate in H. res_inv. case_if; [|done]. res_inv.
  case_if; [done|]. res_inv. cbn [Clients].
  apply ReadVarUint_consumes in Hm0 as [Hb1 Hp1]; [cbn; lia|]. cbn in Hb1, Hp1.
  pose proof (read_n_consumes _ _ readBlock_consumes _ _ _ Hm ltac:(rewrite Hb1; lia))
    as [Hb2 Hp2].
  apply read_blocks_decoded in Hm as [Hd Hc]; rewrite ?Hb1; try lia.
  apply readDeleteSet_consumes in Hm1 as [_ Hp3]; [rewrite Hb2, Hb1 in *; lia|].
  split; [done|]. rewrite Hb2, Hb1 in *. lia.
Qed.

(** Decoding is bounded and well formed on every input below 2 GiB: an
    accepted update holds no more blocks and structs together than there are
    input bytes, and in each block the structs carry consecutive clock ranges
    starting at the block's clock, none of which overflows. *)
Theorem DecodeUpdate_bounded b u :
  Z.of_nat (length b) < maxLen -> DecodeUpdate b = Ok u ->
  Forall block_decoded (Clients u)
  /\ (length (Clients u) + struct_count (Clients u) < length b)%nat.
Proof. apply DecodeUpdate_blocks. Qed.

(** A skip, a garbage-collected run and an item, and one deleted range. *)
Definition small_update : Update :=
  MkUpdate [MkBlock 1 0 [SSkip (NewID 1 0) 2; SGC (NewID 1 2) 3;
      SItem (MkItem (NewID 1 5) None None (Some (MkParent true [116] zeroID)) false []
        (ContentString [104; 105]) None None None false false)]]
    (Some {[1 := [MkRange 2 3]]}).

Lemma small_update_ok : update_ok small_update.
Proof.
  split_and!; [|done..|].
  - repeat constructor; try done. exists (MkParent true [116] zeroID). by repeat constructor.
  - eexists. split; [done|]. split; [|by vm_compute]. intros c rs H.
    apply lookup_singleton_Some in H as [<- <-]. by repeat constructor.
Qed.

Lemma DecodeUpdate_Encode_witness :
  exists b, Encode no_parent small_update = Ok b /\ DecodeUpdate b = Ok small_update.
Proof. apply (DecodeUpdate_Encode small_update). apply small_update_ok. Defined.

Lemma DecodeUpdate_bounded_witness :
  exists u, DecodeUpdate [1; 1; 1; 0; 4; 1; 1; 116; 2; 104; 105; 0] = Ok u /\ Forall block_decoded (Clients u).
Proof.
  eexists. split; [vm_compute; reflexivity|].
  eapply (DecodeUpdate_bounded [1; 1; 1; 0; 4; 1; 1; 116; 2; 104; 105; 0]); [done|vm_compute; reflexivity].
Defined.
