(* ===== verification/StructStore.v ===== *)
(** * The struct store

    [internal/crdt/structstore.go] and the [AbstractType] of
    [internal/crdt/type.go]: every integrated struct, per client in clock order,
    found by binary search and split at clock boundaries.

    Items and shared types are mutable objects reached through pointers, so the
    store carries the heap they live in: [heap] for items, [types] for shared
    types.  A dangling pointer would be a nil dereference in Go; it reads as an
    empty struct here and the invariant [store_wf] rules it out. *)

From S2P Require Import Prelude Lib0 Any Content StateVector DeleteSet Struct Update.

(** [type AbstractType struct]. *)
Record AbstractType := MkType {
  T_TypeRef : Z;
  T_Name : bytes;
  start : option loc;
  mapItems : gmap bytes loc;
  t_item : option loc;
  rootName : bytes;
}.

Definition newAbstractType (typeRef : Z) : AbstractType :=
  MkType typeRef [] None ∅ None [].

(** One entry of a client's slice: a GC or skip, or a pointer to an item. *)
Inductive StructRef :=
  | RGC (id : ID) (len : Z)
  | RSkip (id : ID) (len : Z)
  | RItem (l : loc).

Record Store := MkStore {
  clients : gmap Z (list StructRef);
  heap : gmap loc Item;
  next : loc;
  types : gmap TypePtr AbstractType;
}.

Definition NewStructStore : Store := MkStore ∅ ∅ 1%positive ∅.

Definition set_clients (c : gmap Z (list StructRef)) (st : Store) : Store :=
  MkStore c (heap st) (next st) (types st).
Definition upd_item (l : loc) (f : Item -> Item) (st : Store) : Store :=
  MkStore (clients st) (alter f l (heap st)) (next st) (types st).
Definition upd_type (t : TypePtr) (f : AbstractType -> AbstractType) (st : Store) : Store :=
  MkStore (clients st) (heap st) (next st) (alter f t (types st)).
Definition new_type (t : TypePtr) (a : AbstractType) (st : Store) : Store :=
  MkStore (clients st) (heap st) (next st) (<[t:=a]> (types st)).
(** [&Item{...}]: the item gets the next address. *)
Definition alloc (it : Item) (st : Store) : Store :=
  MkStore (clients st) (<[next st := it]> (heap st)) (Pos.succ (next st)) (types st).

Definition set_start (o : option loc) (t : AbstractType) : AbstractType :=
  MkType (T_TypeRef t) (T_Name t) o (mapItems t) (t_item t) (rootName t).
Definition set_mapItem (k : bytes) (l : loc) (t : AbstractType) : AbstractType :=
  MkType (T_TypeRef t) (T_Name t) (start t) (<[k:=l]> (mapItems t)) (t_item t) (rootName t).

Definition view (h : gmap loc Item) (r : StructRef) : Struct :=
  match r with
  | RGC id n => SGC id n
  | RSkip id n => SSkip id n
  | RItem l => match h !! l with Some it => SItem it | None => SSkip zeroID 0 end
  end.

Definition refs (st : Store) (client : Z) : list StructRef := default [] (clients st !! client).

(** [Structs]: the structs of one client in clock order. *)
Definition Store_Structs (st : Store) (client : Z) : list Struct :=
  map (view (heap st)) (refs st client).

Definition struct_end (s : Struct) : Z := u64 (Clock (StructID s) + StructLen s).

Definition State (st : Store) (client : Z) : Z :=
  match last (Store_Structs st client) with
  | None => 0
  | Some s => struct_end s
  end.

Definition Store_StateVector (st : Store) : gmap Z Z :=
  map_imap (fun client _ => Some (State st client)) (clients st).

(** [StructStore.Clients]: the client ids present, highest first. *)
Definition Store_Clients (st : Store) : list Z := keys_desc (clients st).

Definition ref_id (st : Store) (r : StructRef) : ID := StructID (view (heap st) r).

Definition Append (r : StructRef) (st : Store) : res Store :=
  let id := ref_id st r in
  if State st (Client id) =? Clock id
  then Ok (set_clients (<[Client id := refs st (Client id) ++ [r]]> (clients st)) st)
  else Err ErrClockGap.

Definition find (st : Store) (id : ID) : res nat :=
  let structs := Store_Structs st (Client id) in
  match structs with
  | [] => Err ErrMissingStruct
  | _ =>
      let i := search (length structs) (fun i =>
        match structs !! i with Some s => Clock id <? struct_end s | None => false end) in
      match structs !! i with
      | None => Err ErrMissingStruct
      | Some s => if Clock id <? Clock (StructID s) then Err ErrMissingStruct else Ok i
      end
  end.

Definition Store_Get (st : Store) (id : ID) : res StructRef :=
  i ← find st id;
  match refs st (Client id) !! i with
  | Some r => Ok r
  | None => Err ErrMissingStruct
  end.

Definition GetItem (st : Store) (id : ID) : res loc :=
  r ← Store_Get st id;
  match r with RItem l => Ok l | _ => Err ErrMissingStruct end.

(** The tail [splitItem] creates; [it] is the item before the split. *)
Definition split_right (it : Item) (l : loc) (offset : Z) (tail : Content) : Item :=
  MkItem
    (NewID (Client (it_ID it)) (u64 (Clock (it_ID it) + offset)))
    (Some (NewID (Client (it_ID it)) (u64 (Clock (it_ID it) + offset - 1))))
    (RightOrigin it) (Parent it) (HasParentSub it) (ParentSub it) tail
    (Some l) (right it) (parent it) (deleted it) (keep it).

Definition splitItem (l : loc) (offset : Z) (index : nat) (st : Store) : res (loc * Store) :=
  match heap st !! l with
  | None => Err ErrMissingStruct
  | Some it =>
      '(head, tail) ← Splice (it_Content it) offset;
      let rt := split_right it l offset tail in
      let n := next st in
      let st := upd_item l (set_Content head) st in
      let st := alloc rt st in
      let st := match right it with
                | Some rr => upd_item rr (set_left (Some n)) st
                | None => st
                end in
      let st := upd_item l (set_right (Some n)) st in
      let st := match right it, parent it with
                | None, Some p =>
                    if HasParentSub it then upd_type p (set_mapItem (ParentSub it) n) st else st
                | _, _ => st
                end in
      let client := Client (it_ID it) in
      let structs := refs st client in
      Ok (n, set_clients
               (<[client := take (S index) structs ++ RItem n :: drop (S index) structs]>
                  (clients st)) st)
  end.

(** The item at index [i] of the client of [id], as both clean lookups start. *)
Definition item_at_index (st : Store) (client : Z) (i : nat) : res (loc * Item) :=
  match refs st client !! i with
  | Some (RItem l) =>
      match heap st !! l with Some it => Ok (l, it) | None => Err ErrMissingStruct end
  | _ => Err ErrMissingStruct
  end.

Definition GetItemCleanStart (id : ID) (st : Store) : res (loc * Store) :=
  i ← find st id;
  '(l, it) ← item_at_index st (Client id) i;
  let offset := s64 (u64 (Clock id - Clock (it_ID it))) in
  if offset =? 0 then Ok (l, st)
  else splitItem l offset i st.

Definition GetItemCleanEnd (id : ID) (st : Store) : res (loc * Store) :=
  i ← find st id;
  '(l, it) ← item_at_index st (Client id) i;
  let offset := s64 (u64 (Clock id - Clock (it_ID it))) in
  if offset =? Item_Len it - 1 then Ok (l, st)
  else '(_, st) ← splitItem l (offset + 1) i st; Ok (l, st).

(** ** The invariant *)

(** Each struct starts where the previous one ended and occupies at least one
    clock. *)
Fixpoint contig (client clock : Z) (l : list Struct) : Prop :=
  match l with
  | [] => True
  | s :: l =>
      StructID s = NewID client clock /\ 0 < StructLen s
      /\ contig client (clock + StructLen s) l
  end.

(** The clock units a list of structs occupies. *)
Definition slen (l : list Struct) : Z := foldr (fun s n => StructLen s + n) 0 l.

(** Per client the structs are contiguous and gapless from clock zero, and the
    clock does not overflow. *)
Definition gapless (client : Z) (l : list Struct) : Prop :=
  contig client 0 l /\ slen l < two63.

Record store_wf (st : Store) : Prop := {
  wf_gapless : forall client, gapless client (Store_Structs st client);
  wf_next : forall l, is_Some (heap st !! l) -> (l < next st)%positive;
  wf_ne : forall client, clients st !! client <> Some [];
}.

(** ** Shapes: the clock range each entry occupies *)

Definition shape (s : Struct) : ID * Z := (StructID s, StructLen s).

Definition shapes (st : Store) (client : Z) : list (ID * Z) :=
  map shape (Store_Structs st client).

(** A GC is deleted content by definition; a skip is not content. *)
Definition dead (s : Struct) : bool :=
  match s with SGC _ _ => true | SSkip _ _ => false | SItem it => deleted it end.

(** The clock range of an entry and whether it is deleted. *)
Definition mark (s : Struct) : ID * Z * bool := (shape s, dead s).

Definition marks (st : Store) (client : Z) : list (ID * Z * bool) :=
  map mark (Store_Structs st client).

Lemma shapes_marks st c : shapes st c = (marks st c).*1.
Proof. unfold shapes, marks. change (map ?f ?l) with (f <$> l). by rewrite <- list_fmap_compose. Qed.

(** [contig] and [slen] on clock ranges. *)
Fixpoint contig_s (client clock : Z) (l : list (ID * Z)) : Prop :=
  match l with
  | [] => True
  | x :: l => x.1 = NewID client clock /\ 0 < x.2 /\ contig_s client (clock + x.2) l
  end.

Definition slen_s (l : list (ID * Z)) : Z := foldr (fun x n => x.2 + n) 0 l.

Lemma contig_shapes client l : forall clock,
  contig client clock l <-> contig_s client clock (map shape l).
Proof. induction l as [|s l IH]; intros clock; cbn; [done|]. by rewrite IH. Qed.

Lemma slen_shapes l : slen l = slen_s (map shape l).
Proof. induction l as [|s l IH]; cbn; [done|]. unfold slen, slen_s in *. lia. Qed.

Lemma slen_s_app a b : slen_s (a ++ b) = slen_s a + slen_s b.
Proof. induction a as [|x a IH]; cbn; [done|]. unfold slen_s in *. lia. Qed.

Lemma contig_s_app client a b : forall clock,
  contig_s client clock (a ++ b)
  <-> contig_s client clock a /\ contig_s client (clock + slen_s a) b.
Proof.
  induction a as [|x a IH]; intros clock; cbn [app contig_s].
  - change (slen_s []) with 0. rewrite Z.add_0_r. tauto.
  - rewrite IH. change (slen_s (x :: a)) with (x.2 + slen_s a). rewrite Z.add_assoc. tauto.
Qed.

Lemma slen_cons s l : slen (s :: l) = StructLen s + slen l.
Proof. done. Qed.

Lemma slen_app a b : slen (a ++ b) = slen a + slen b.
Proof. induction a as [|x a IH]; cbn; [done|]. unfold slen in *. lia. Qed.

Lemma contig_app client a b clock :
  contig client clock (a ++ b) <-> contig client clock a /\ contig client (clock + slen a) b.
Proof.
  revert clock. induction a as [|s a IH]; intros clock; cbn [app contig].
  - change (slen []) with 0. rewrite Z.add_0_r. tauto.
  - rewrite IH, slen_cons. replace (clock + (StructLen s + slen a)) with (clock + StructLen s + slen a) by lia.
    tauto.
Qed.

Lemma contig_slen client clock l : contig client clock l -> 0 <= slen l.
Proof.
  revert clock. induction l as [|s l IH]; intros clock H; cbn; [done|].
  destruct H as (_ & H1 & H2). apply IH in H2. unfold slen in *. lia.
Qed.

Lemma contig_shape client l1 l2 clock :
  map shape l1 = map shape l2 -> contig client clock l1 -> contig client clock l2.
Proof. intros He. by rewrite !contig_shapes, He. Qed.

Lemma slen_shape l1 l2 : map shape l1 = map shape l2 -> slen l1 = slen l2.
Proof. intros He. by rewrite !slen_shapes, He. Qed.

Lemma gapless_shape client l1 l2 :
  map shape l1 = map shape l2 -> gapless client l1 -> gapless client l2.
Proof.
  intros He [H1 H2]. split; [by eapply contig_shape|]. by rewrite <- (slen_shape _ _ He).
Qed.

(** The struct at index [i] starts at the sum of the lengths before it. *)
Lemma contig_lookup client clock l i s :
  contig client clock l -> l !! i = Some s ->
  StructID s = NewID client (clock + slen (take i l)) /\ 0 < StructLen s
  /\ slen (take i l) + StructLen s <= slen l.
Proof.
  intros H Hi. rewrite <- (take_drop_middle l i s Hi) in H.
  apply contig_app in H as [_ (H1 & H2 & H3)]. split_and!; [done..|].
  apply contig_slen in H3. rewrite <- (take_drop_middle l i s Hi) at 2.
  rewrite slen_app, slen_cons. lia.
Qed.

Lemma slen_take_mono client clock l i j :
  contig client clock l -> (i <= j)%nat -> slen (take i l) <= slen (take j l).
Proof.
  intros H Hij. replace (take i l) with (take i (take j l)) by (rewrite take_take; f_equal; lia).
  rewrite <- (take_drop i (take j l)) at 2. rewrite slen_app.
  enough (0 <= slen (drop i (take j l))) by lia.
  rewrite <- (take_drop j l) in H. apply contig_app in H as [H _].
  rewrite <- (take_drop i (take j l)) in H. apply contig_app in H as [_ H].
  by apply contig_slen in H.
Qed.

Section Store.
Context (st : Store) (Hwf : store_wf st).

Lemma struct_end_lookup client i s :
  Store_Structs st client !! i = Some s ->
  struct_end s = slen (take i (Store_Structs st client)) + StructLen s
  /\ 0 <= slen (take i (Store_Structs st client))
  /\ 0 < StructLen s
  /\ slen (take i (Store_Structs st client)) + StructLen s < two63
  /\ StructID s = NewID client (slen (take i (Store_Structs st client))).
Proof.
  intros Hi. destruct (wf_gapless st Hwf client) as [Hc Hb].
  destruct (contig_lookup _ _ _ _ _ Hc Hi) as (Hid & Hl & Hs). cbn in Hid.
  assert (0 <= slen (take i (Store_Structs st client))).
  { rewrite <- (take_drop i (Store_Structs st client)) in Hc.
    apply contig_app in Hc as [Hc _]. by apply contig_slen in Hc. }
  unfold struct_end. rewrite Hid. cbn [Clock].
  rewrite u64_small by (unfold two63, two64 in *; lia). split_and!; [lia..|done].
Qed.

(** [State] is one past the last clock: the total length. *)
Lemma State_slen client : State st client = slen (Store_Structs st client).
Proof.
  unfold State. destruct (last _) as [s|] eqn:E.
  - rewrite last_lookup in E.
    destruct (struct_end_lookup _ _ _ E) as (-> & _).
    pose proof (f_equal slen (take_drop_middle _ _ _ E)) as Ht.
    rewrite slen_app, slen_cons in Ht.
    rewrite (drop_ge _ (S _)) in Ht by (pose proof (lookup_lt_Some _ _ _ E); lia).
    change (slen []) with 0 in Ht. lia.
  - apply last_None in E. by rewrite E.
Qed.

Lemma State_range client : 0 <= State st client < two63.
Proof.
  rewrite State_slen. destruct (wf_gapless st Hwf client) as [Hc Hb].
  split; [by eapply contig_slen|done].
Qed.

Lemma find_search client k :
  let structs := Store_Structs st client in
  let f := fun i => match structs !! i with Some s => k <? struct_end s | None => false end in
  let i := search (length structs) f in
  (forall s, structs !! i = Some s -> k < slen (take i structs) + StructLen s)
  /\ (0 <= k -> slen (take i structs) <= k \/ i = 0%nat)
  /\ (0 <= k < slen structs -> (i < length structs)%nat).
Proof.
  cbn zeta. set (structs := Store_Structs st client).
  set (f := fun i => match structs !! i with Some s => k <? struct_end s | None => false end).
  destruct (wf_gapless st Hwf client) as [Hc _]. fold structs in Hc.
  assert (Hf : forall i s, structs !! i = Some s ->
            f i = (k <? slen (take i structs) + StructLen s)).
  { intros i s Hi. unfold f. rewrite Hi. by destruct (struct_end_lookup _ _ _ Hi) as [-> _]. }
  assert (Ht : forall i s, structs !! i = Some s ->
            slen (take (S i) structs) = slen (take i structs) + StructLen s).
  { intros i s Hi. rewrite (take_S_r _ _ _ Hi), slen_app. cbn. lia. }
  clearbody f. clearbody structs.
  destruct (search_spec (length structs) f) as (Hle & Hlow & Hhit).
  { intros a b Hab Ha.
    destruct (lookup_lt_is_Some_2 structs a) as [sa Hsa]; [lia|].
    destruct (lookup_lt_is_Some_2 structs b) as [sb Hsb]; [lia|].
    rewrite (Hf _ _ Hsa) in Ha. rewrite (Hf _ _ Hsb). bool_arith. apply Z.ltb_lt.
    rewrite <- (Ht _ _ Hsa) in Ha. rewrite <- (Ht _ _ Hsb).
    pose proof (slen_take_mono _ _ _ (S a) (S b) Hc ltac:(lia)). lia. }
  set (i := search (length structs) f) in *. split_and!.
  - intros s Hs. specialize (Hhit ltac:(by eapply lookup_lt_Some)).
    rewrite (Hf _ _ Hs) in Hhit. by bool_arith.
  - intros _. destruct i as [|i]; [by right|left].
    destruct (lookup_lt_is_Some_2 structs i) as [s Hs]; [lia|].
    specialize (Hlow i ltac:(lia)). rewrite (Hf _ _ Hs) in Hlow. bool_arith.
    by rewrite (Ht _ _ Hs).
  - intros Hk. destruct (decide (i < length structs)%nat) as [?|Hge]; [done|].
    destruct (decide (length structs = 0%nat)) as [El|El].
    { apply nil_length_inv in El. subst structs. cbn in Hk. lia. }
    destruct (lookup_lt_is_Some_2 structs (length structs - 1)) as [s Hs]; [lia|].
    specialize (Hlow (length structs - 1)%nat ltac:(lia)).
    rewrite (Hf _ _ Hs) in Hlow. bool_arith. rewrite <- (Ht _ _ Hs) in Hlow.
    rewrite take_ge in Hlow by lia. lia.
Qed.

(** [find] succeeds exactly on the clocks the store has, with the index of the
    struct that covers them. *)
Lemma find_Ok id i :
  0 <= Clock id -> find st id = Ok i ->
  exists s, Store_Structs st (Client id) !! i = Some s
    /\ Clock (StructID s) <= Clock id < Clock (StructID s) + StructLen s.
Proof.
  intros H0 H. unfold find in H.
  destruct (find_search (Client id) (Clock id)) as (H1 & H2 & H3). cbn zeta in *.
  destruct (Store_Structs st (Client id)) as [|s0 l0] eqn:Es; [done|].
  rewrite <- Es in *. set (i' := search _ _) in *.
  destruct (Store_Structs st (Client id) !! i') as [s|] eqn:Hs; [|done].
  case_if; [done|]. simplify_eq. exists s. split; [done|].
  destruct (struct_end_lookup _ _ _ Hs) as (_ & _ & _ & _ & Hid). rewrite Hid in *.
  cbn [Clock] in *. split; [done|]. by apply H1.
Qed.

Lemma find_total id :
  0 <= Clock id < State st (Client id) -> exists i, find st id = Ok i.
Proof.
  intros Hk. rewrite State_slen in Hk. unfold find.
  destruct (find_search (Client id) (Clock id)) as (H1 & H2 & H3). cbn zeta in *.
  destruct (Store_Structs st (Client id)) as [|s0 l0] eqn:Es; [cbn in Hk; lia|].
  rewrite <- Es in *. set (i' := search _ _) in *.
  destruct (lookup_lt_is_Some_2 (Store_Structs st (Client id)) i') as [s Hs]; [by apply H3|].
  rewrite Hs. destruct (struct_end_lookup _ _ _ Hs) as (_ & _ & _ & _ & Hid).
  rewrite Hid. cbn [Clock]. rewrite (proj2 (Z.ltb_ge _ _)); [eauto|].
  destruct H2 as [H2|H2]; [lia|done|]. rewrite H2, take_0. apply Hk.
Qed.

Lemma find_missing id :
  State st (Client id) <= Clock id -> find st id = Err ErrMissingStruct.
Proof.
  intros Hk. pose proof (State_range (Client id)) as Hr.
  destruct (find st id) as [i|e] eqn:E.
  - apply find_Ok in E as (s & Hs & Hc); [|lia].
    destruct (struct_end_lookup _ _ _ Hs) as (_ & _ & _ & _ & Hid). rewrite Hid in Hc.
    destruct (wf_gapless st Hwf (Client id)) as [Hcg _].
    destruct (contig_lookup _ _ _ _ _ Hcg Hs) as (_ & _ & Hle).
    rewrite State_slen in Hk. cbn in Hc. lia.
  - unfold find in E. repeat case_match; congruence.
Qed.
End Store.

(** ** Deleted clocks *)

(** The clock [k] of client [c] belongs to a deleted struct of the store. *)
Definition dead_at (st : Store) (c k : Z) : Prop :=
  exists id len, (id, len, true) ∈ marks st c /\ Clock id <= k < Clock id + len.

(** ** Preservation *)

(** Same clock ranges for every client: what a change that only relinks or
    deletes items preserves. *)
Definition same_shapes (st st' : Store) : Prop := forall c, shapes st' c = shapes st c.

Lemma same_shapes_refl st : same_shapes st st.
Proof. done. Qed.

Lemma same_shapes_trans a b c : same_shapes a b -> same_shapes b c -> same_shapes a c.
Proof. intros H1 H2 x. by rewrite H2, H1. Qed.

Lemma State_last st c :
  State st c = match last (shapes st c) with None => 0 | Some (id, n) => u64 (Clock id + n) end.
Proof.
  unfold State, shapes. change (map ?f ?l) with (f <$> l). rewrite fmap_last.
  by destruct (last _).
Qed.

Lemma State_shapes st st' c : shapes st' c = shapes st c -> State st' c = State st c.
Proof.
  intros H. by rewrite !State_last, H.
Qed.

(** Field updates that keep an item's clock range, and those that keep its
    deleted bit too. *)
Definition keeps_shape (f : Item -> Item) : Prop :=
  forall it, shape (SItem (f it)) = shape (SItem it).
Definition keeps_mark (f : Item -> Item) : Prop :=
  forall it, mark (SItem (f it)) = mark (SItem it).

(** Same clock ranges and deleted bits for every client. *)
Definition same_marks (st st' : Store) : Prop := forall c, marks st' c = marks st c.

Lemma same_marks_refl st : same_marks st st.
Proof. done. Qed.

Lemma same_marks_trans a b c : same_marks a b -> same_marks b c -> same_marks a c.
Proof. intros H1 H2 x. by rewrite H2, H1. Qed.

Lemma same_marks_shapes st st' : same_marks st st' -> same_shapes st st'.
Proof. intros H c. by rewrite !shapes_marks, H. Qed.

Lemma keeps_mark_shape f : keeps_mark f -> keeps_shape f.
Proof. intros H it. exact (f_equal fst (H it)). Qed.

Section View.
(** A property [g] of structs that [f] does not change. *)
Context {X : Type} (g : Struct -> X) (f : Item -> Item).
Context (Hf : forall it, g (SItem (f it)) = g (SItem it)).

Lemma view_upd h l r : g (view (alter f l h) r) = g (view h r).
Proof.
  destruct r as [| |k]; cbn; try done. rewrite lookup_alter.
  case_decide as Hd; [subst k|done]. by destruct (h !! l) as [it|]; [apply Hf|].
Qed.

Lemma upd_item_view l st c :
  map g (Store_Structs (upd_item l f st) c) = map g (Store_Structs st c).
Proof.
  unfold Store_Structs, refs. cbn [clients heap upd_item].
  rewrite !map_map. apply map_ext. intros r. apply view_upd.
Qed.
End View.

Lemma upd_item_shapes l f st : keeps_shape f -> same_shapes st (upd_item l f st).
Proof. intros Hf c. by apply upd_item_view. Qed.

Lemma upd_item_marks l f st : keeps_mark f -> same_marks st (upd_item l f st).
Proof. intros Hf c. by apply upd_item_view. Qed.

Lemma upd_item_wf l f st : keeps_shape f -> store_wf st -> store_wf (upd_item l f st).
Proof.
  intros Hf Hwf. split.
  - intros c. eapply gapless_shape; [symmetry; by apply (upd_item_shapes l f st)|].
    apply (wf_gapless _ Hwf).
  - intros k. cbn. rewrite lookup_alter_is_Some. apply (wf_next _ Hwf).
  - apply (wf_ne _ Hwf).
Qed.

Lemma set_left_keeps o : keeps_mark (set_left o).
Proof. done. Qed.
Lemma set_right_keeps o : keeps_mark (set_right o).
Proof. done. Qed.
Lemma set_deleted_keeps b : keeps_shape (set_deleted b).
Proof. done. Qed.

Lemma upd_type_shapes t f st : same_shapes st (upd_type t f st).
Proof. done. Qed.
Lemma upd_type_wf t f st : store_wf st -> store_wf (upd_type t f st).
Proof. intros [H1 H2 H3]. by split. Qed.
Lemma new_type_shapes t a st : same_shapes st (new_type t a st).
Proof. done. Qed.
Lemma upd_type_marks t f st : same_marks st (upd_type t f st).
Proof. done. Qed.
Lemma new_type_marks t a st : same_marks st (new_type t a st).
Proof. done. Qed.
Lemma new_type_wf t a st : store_wf st -> store_wf (new_type t a st).
Proof. intros [H1 H2 H3]. by split. Qed.

#[export] Hint Resolve upd_item_wf upd_item_shapes upd_item_marks set_left_keeps
  set_right_keeps set_deleted_keeps keeps_mark_shape upd_type_wf upd_type_shapes
  upd_type_marks new_type_wf new_type_shapes new_type_marks
  same_shapes_refl same_marks_refl : store_inv.

(** An entry of a well-formed store points at a live item of its own client. *)
Lemma ref_item st c i l :
  store_wf st -> refs st c !! i = Some (RItem l) ->
  exists it, heap st !! l = Some it /\ Client (it_ID it) = c
    /\ Store_Structs st c !! i = Some (SItem it).
Proof.
  intros Hwf Hi.
  assert (Store_Structs st c !! i = Some (view (heap st) (RItem l))) as Hs.
  { unfold Store_Structs. change (map ?f ?l) with (f <$> l). by rewrite list_lookup_fmap, Hi. }
  destruct (struct_end_lookup st Hwf _ _ _ Hs) as (_ & _ & Hpos & _ & Hid).
  cbn in *. destruct (heap st !! l) as [it|]; [|cbn in Hpos; lia].
  exists it. split_and!; [done| |done]. cbn in Hid. by rewrite Hid.
Qed.

Lemma ref_unique st c c' i j l :
  store_wf st -> refs st c !! i = Some (RItem l) -> refs st c' !! j = Some (RItem l) ->
  c = c' /\ i = j.
Proof.
  intros Hwf Hi Hj. destruct (ref_item _ _ _ _ Hwf Hi) as (it & Hl & Hc & Hsi).
  destruct (ref_item _ _ _ _ Hwf Hj) as (it' & Hl' & Hc' & Hsj). simplify_eq.
  split; [done|].
  destruct (struct_end_lookup st Hwf _ _ _ Hsi) as (_ & _ & H1 & _ & Hid1).
  destruct (struct_end_lookup st Hwf _ _ _ Hsj) as (_ & _ & H2 & _ & Hid2).
  rewrite Hid1 in Hid2. injection Hid2 as Hs.
  destruct (wf_gapless st Hwf (Client (it_ID it))) as [Hcg _].
  set (S := Store_Structs st (Client (it_ID it))) in *.
  assert (forall a b x, S !! a = Some x -> 0 < StructLen x -> (a < b)%nat ->
            slen (take a S) < slen (take b S)) as Hlt.
  { intros a b x Ha Hx Hab.
    pose proof (slen_take_mono _ _ _ (Datatypes.S a) b Hcg ltac:(lia)) as Hm.
    rewrite (take_S_r _ _ _ Ha), slen_app in Hm. cbn in Hm. lia. }
  destruct (lt_eq_lt_dec i j) as [[H|H]|H]; [|done|].
  - pose proof (Hlt _ _ _ Hsi H1 H). lia.
  - pose proof (Hlt _ _ _ Hsj H2 H). lia.
Qed.

Lemma ref_lt_next st c i l :
  store_wf st -> refs st c !! i = Some (RItem l) -> (l < next st)%positive.
Proof.
  intros Hwf Hi. destruct (ref_item _ _ _ _ Hwf Hi) as (it & Hl & _).
  apply (wf_next _ Hwf). eauto.
Qed.

Lemma alloc_structs it st c :
  store_wf st -> Store_Structs (alloc it st) c = Store_Structs st c.
Proof.
  intros Hwf. unfold Store_Structs. cbn [refs clients alloc]. unfold refs at 1. cbn.
  apply map_ext_in. intros r Hr. apply list_elem_of_In, list_elem_of_lookup in Hr as [i Hi].
  destruct r as [| |l]; try done. cbn.
  pose proof (ref_lt_next _ _ _ _ Hwf Hi). rewrite lookup_insert_ne by lia. done.
Qed.

Lemma alloc_wf it st : store_wf st -> store_wf (alloc it st).
Proof.
  intros Hwf. split.
  - intros c. rewrite alloc_structs by done. apply (wf_gapless _ Hwf).
  - intros l. cbn. rewrite lookup_insert. case_decide; [lia|].
    intros Hl. apply (wf_next _ Hwf) in Hl. lia.
  - apply (wf_ne _ Hwf).
Qed.

Lemma alloc_shapes it st : store_wf st -> same_shapes st (alloc it st).
Proof. intros Hwf c. unfold shapes. by rewrite alloc_structs. Qed.

Lemma alloc_marks it st : store_wf st -> same_marks st (alloc it st).
Proof. intros Hwf c. unfold marks. by rewrite alloc_structs. Qed.

#[export] Hint Resolve alloc_wf alloc_shapes alloc_marks : store_inv.

Lemma refs_set_clients st c rs c' :
  refs (set_clients (<[c:=rs]> (clients st)) st) c' = if decide (c = c') then rs else refs st c'.
Proof. unfold refs. cbn. rewrite lookup_insert. by case_decide. Qed.

Lemma Append_inv r st st' :
  Append r st = Ok st' ->
  State st (Client (ref_id st r)) = Clock (ref_id st r)
  /\ st' = set_clients (<[Client (ref_id st r) :=
       refs st (Client (ref_id st r)) ++ [r]]> (clients st)) st.
Proof.
  unfold Append. destruct (_ =? _) eqn:E; [|done]. intros H. bool_arith. by simplify_eq.
Qed.

(** [Append] extends one client by the appended struct and nothing else. *)
Lemma Append_structs r st st' c :
  Append r st = Ok st' ->
  Store_Structs st' c
  = if decide (Client (ref_id st r) = c)
    then Store_Structs st c ++ [view (heap st) r] else Store_Structs st c.
Proof.
  intros [_ ->]%Append_inv. unfold Store_Structs. rewrite refs_set_clients. cbn [heap set_clients].
  case_decide as Hd; [|done]. rewrite Hd, map_app. done.
Qed.

Lemma Append_wf r st st' :
  store_wf st -> Append r st = Ok st' ->
  0 < StructLen (view (heap st) r) ->
  Clock (ref_id st r) + StructLen (view (heap st) r) < two63 ->
  store_wf st'.
Proof.
  intros Hwf H Hlen Hend. split.
  - intros c. rewrite (Append_structs r st st' c H). case_decide as Hd; [|apply (wf_gapless _ Hwf)].
    destruct (wf_gapless _ Hwf c) as [Hc Hb]. apply Append_inv in H as [E _].
    pose proof (State_slen st Hwf c) as Hs. rewrite Hd in E. split.
    + apply contig_app. split; [done|]. cbn [contig]. split_and!; [|done..].
      unfold ref_id in *. destruct (StructID (view (heap st) r)) as [cl ck]. cbn in *.
      subst. f_equal. lia.
    + rewrite slen_app. cbn. lia.
  - intros l. apply Append_inv in H as [_ ->]. apply (wf_next _ Hwf).
  - intros c. apply Append_inv in H as [_ ->]. cbn.
    rewrite lookup_insert. case_decide; [|apply (wf_ne _ Hwf)].
    intros [=He]. by apply app_nil in He as [_ ?].
Qed.

Lemma Append_State r st st' c :
  store_wf st -> store_wf st' -> Append r st = Ok st' ->
  State st' c = if decide (Client (ref_id st r) = c)
                then State st c + StructLen (view (heap st) r) else State st c.
Proof.
  intros Hwf Hwf' H. rewrite !State_slen by done. rewrite (Append_structs r st st' c H).
  case_decide; [|done]. rewrite slen_app. cbn. lia.
Qed.

(** What [splitItem] does to the heap: the split item keeps its head, the new
    item holds the tail, every other keeps its clock range and deleted bit. *)
Lemma splitItem_view l off i st n st' it h t :
  heap st !! l = Some it -> Splice (it_Content it) off = Ok (h, t) ->
  splitItem l off i st = Ok (n, st') -> l <> next st ->
  n = next st /\ next st' = Pos.succ (next st)
  /\ clients st' = <[Client (it_ID it) :=
       take (S i) (refs st (Client (it_ID it)))
       ++ RItem n :: drop (S i) (refs st (Client (it_ID it)))]> (clients st)
  /\ (forall r, r <> RItem l -> r <> RItem n ->
        mark (view (heap st') r) = mark (view (heap st) r))
  /\ mark (view (heap st') (RItem l)) = (it_ID it, Len h, deleted it)
  /\ mark (view (heap st') (RItem n))
      = (NewID (Client (it_ID it)) (u64 (Clock (it_ID it) + off)), Len t, deleted it)
  /\ (forall k, is_Some (heap st' !! k) <-> is_Some (heap st !! k) \/ k = n).
Proof.
  intros Hl Hs H Hne. unfold splitItem in H. rewrite Hl, Hs in H. cbn [mbind res_bind] in H.
  injection H as <- <-. set (rt := split_right it l off t).
  set (h1 := alter (set_Content h) l (heap st)).
  assert (Hv : forall r,
    mark (view (alter (set_right (Some (next st))) l
       (match right it with
        | Some rr => alter (set_left (Some (next st))) rr (<[next st:=rt]> h1)
        | None => <[next st:=rt]> h1 end)) r)
    = mark (view (<[next st:=rt]> h1) r)).
  { intros r. rewrite (view_upd mark) by done. destruct (right it); [|done].
    by rewrite (view_upd mark). }
  match goal with |- context [view (heap ?s) _] =>
    assert (Hh : heap s = alter (set_right (Some (next st))) l
       (match right it with
        | Some rr => alter (set_left (Some (next st))) rr (<[next st:=rt]> h1)
        | None => <[next st:=rt]> h1 end))
      by (destruct (right it), (parent it), (HasParentSub it); reflexivity) end.
  split_and!; [done|destruct (right it), (parent it), (HasParentSub it); reflexivity
              |destruct (right it), (parent it), (HasParentSub it); reflexivity| | | |].
  - intros r H1 H2. rewrite Hh, Hv. destruct r as [| |k]; try done. cbn.
    rewrite lookup_insert_ne by congruence. unfold h1. by rewrite lookup_alter_ne by congruence.
  - rewrite Hh, Hv. cbn. rewrite lookup_insert_ne by congruence. unfold h1.
    by rewrite lookup_alter_eq, Hl.
  - rewrite Hh, Hv. cbn. by rewrite lookup_insert_eq.
  - intros k. rewrite Hh, lookup_alter_is_Some. assert (is_Some (heap st !! l)) by eauto.
    destruct (right it); rewrite ?lookup_alter_is_Some;
      unfold h1; rewrite lookup_insert_is_Some, lookup_alter_is_Some;
      destruct (decide (next st = k)); split; intuition congruence.
Qed.

(** The entries of a client after its entry at [i] was split at [off]. *)
Definition split_marks (i : nat) (off : Z) (l : list (ID * Z * bool)) : list (ID * Z * bool) :=
  match l !! i with
  | Some (id, len, b) =>
      take i l ++ [(id, off, b); (NewID (Client id) (Clock id + off), len - off, b)]
      ++ drop (S i) l
  | None => l
  end.

(** Splitting changes no clock: none is gained or lost, none is deleted or
    revived. *)
Definition same_clocks (st st' : Store) : Prop :=
  (forall c, State st' c = State st c) /\ (forall c k, dead_at st' c k <-> dead_at st c k).

Lemma same_clocks_refl st : same_clocks st st.
Proof. done. Qed.

Section Split.
Context (l : loc) (off : Z) (i : nat) (st : Store) (n : loc) (st' : Store) (it : Item) (c : Z).
Context (Hwf : store_wf st) (Hi : refs st c !! i = Some (RItem l)).
Context (Hl : heap st !! l = Some it) (Hoff : 0 < off < Item_Len it).
Context (Hsplit : splitItem l off i st = Ok (n, st')).

Lemma split_item_client : c = Client (it_ID it).
Proof. destruct (ref_item _ _ _ _ Hwf Hi) as (it' & Hl' & Hc & _). by simplify_eq. Qed.

Lemma split_splice : exists h t, Splice (it_Content it) off = Ok (h, t)
  /\ Len h = off /\ Len t = Item_Len it - off.
Proof.
  unfold splitItem in Hsplit. rewrite Hl in Hsplit.
  destruct (Splice _ _) as [[h t]|] eqn:E; [|done]. exists h, t. split; [done|].
  apply Splice_Len in E; [done|]. unfold Item_Len in *. lia.
Qed.

Lemma split_facts :
  n = next st /\ next st' = Pos.succ (next st)
  /\ (forall c', refs st' c' = if decide (c = c')
        then take (S i) (refs st c) ++ RItem n :: drop (S i) (refs st c) else refs st c')
  /\ (forall c' j r, refs st c' !! j = Some r -> c' <> c \/ j <> i ->
        mark (view (heap st') r) = mark (view (heap st) r))
  /\ mark (view (heap st') (RItem l)) = (it_ID it, off, deleted it)
  /\ mark (view (heap st') (RItem n))
     = (NewID c (u64 (Clock (it_ID it) + off)), Item_Len it - off, deleted it)
  /\ (forall k, is_Some (heap st' !! k) <-> is_Some (heap st !! k) \/ k = n).
Proof.
  pose proof (ref_lt_next _ _ _ _ Hwf Hi) as Hlt.
  destruct split_splice as (h & t & Hsp & <- & <-).
  destruct (splitItem_view l _ i st n st' it h t Hl Hsp Hsplit ltac:(lia))
    as (Hn & Hnext & Hcl & Hother & Hvl & Hvn & Hdom).
  rewrite <- split_item_client in Hcl, Hvn.
  split_and!; [done..| | | | |done].
  - intros c'. unfold refs at 1. rewrite Hcl, lookup_insert. case_decide; by subst.
  - intros c' j r Hj Hne. apply Hother.
    + intros ->. pose proof (ref_unique _ _ _ _ _ _ Hwf Hj Hi). tauto.
    + intros ->. pose proof (ref_lt_next _ _ _ _ Hwf Hj). lia.
  - by rewrite Hvl.
  - by rewrite Hvn.
Qed.

Lemma split_clients c' : clients st' !! c' = if decide (c = c')
    then Some (take (S i) (refs st c) ++ RItem n :: drop (S i) (refs st c))
    else clients st !! c'.
Proof.
  pose proof (ref_lt_next _ _ _ _ Hwf Hi) as Hlt.
  destruct split_splice as (h & t & Hsp & _).
  destruct (splitItem_view l _ i st n st' it h t Hl Hsp Hsplit ltac:(lia))
    as (_ & _ & Hcl & _).
  rewrite <- split_item_client in Hcl. rewrite Hcl, lookup_insert. by case_decide.
Qed.

Lemma split_clock : u64 (Clock (it_ID it) + off) = Clock (it_ID it) + off
  /\ it_ID it = NewID c (Clock (it_ID it)) /\ 0 <= Clock (it_ID it)
  /\ Clock (it_ID it) + Item_Len it < two63.
Proof.
  destruct (ref_item _ _ _ _ Hwf Hi) as (it' & Hl' & Hc & Hsi). simplify_eq.
  destruct (struct_end_lookup st Hwf _ _ _ Hsi) as (_ & H1 & H2 & H3 & Hid).
  cbn [StructID StructLen] in *. rewrite Hid. cbn [Clock Client].
  split_and!; [|done|lia..]. apply u64_small. unfold two63, two64 in *. lia.
Qed.

Lemma split_marks_eq : marks st' c = split_marks i off (marks st c).
Proof.
  destruct split_facts as (Hn & _ & Hrefs & Hsame & Hvl & Hvn & _).
  unfold marks, Store_Structs, split_marks. rewrite (Hrefs c), decide_True by done.
  rewrite !map_map, map_app, map_cons.
  change (map ?f ?l) with (f <$> l). rewrite list_lookup_fmap, Hi.
  cbn [fmap option_fmap option_map].
  assert (view (heap st) (RItem l) = SItem it) as -> by (cbn; by rewrite Hl).
  cbn [mark shape StructID StructLen dead].
  rewrite (take_S_r _ _ _ Hi), fmap_app, <- fmap_take, <- fmap_drop, <- app_assoc.
  cbn [fmap list_fmap app]. rewrite Hvl, Hvn.
  destruct split_clock as (-> & Hid & _). rewrite Hid. cbn [Client Clock].
  assert (forall g : list StructRef -> list StructRef,
    (forall j r, g (refs st c) !! j = Some r -> exists j', j' <> i /\ refs st c !! j' = Some r) ->
    (fun x => mark (view (heap st') x)) <$> g (refs st c)
    = (fun x => mark (view (heap st) x)) <$> g (refs st c)) as Hg.
  { intros g Hg. apply list_fmap_ext. intros j r Hj. destruct (Hg _ _ Hj) as (j' & Hne & Hj').
    eapply Hsame; [exact Hj'|by right]. }
  rewrite (Hg (take i)), (Hg (drop (S i))); [done|..].
  - intros j r Hj. rewrite lookup_drop in Hj. exists (S i + j)%nat. split; [lia|done].
  - intros j r Hj. apply lookup_take_Some in Hj as [Hj ?]. exists j. split; [lia|done].
Qed.

Lemma split_marks_ex : exists a b,
  marks st c = a ++ [(it_ID it, Item_Len it, deleted it)] ++ b
  /\ marks st' c = a ++ [(it_ID it, off, deleted it);
       (NewID c (Clock (it_ID it) + off), Item_Len it - off, deleted it)] ++ b.
Proof.
  assert (Hm : marks st c !! i = Some (it_ID it, Item_Len it, deleted it)).
  { unfold marks, Store_Structs. rewrite map_map. change (map ?f ?l) with (f <$> l).
    rewrite list_lookup_fmap, Hi. cbn. by rewrite Hl. }
  exists (take i (marks st c)), (drop (S i) (marks st c)).
  rewrite split_marks_eq. unfold split_marks. rewrite Hm, <- split_item_client.
  split; [|done]. by rewrite <- (take_drop_middle _ _ _ Hm) at 1.
Qed.

Lemma split_shapes_eq : exists a b,
  shapes st c = a ++ [(it_ID it, Item_Len it)] ++ b
  /\ shapes st' c = a ++ [(it_ID it, off);
       (NewID c (Clock (it_ID it) + off), Item_Len it - off)] ++ b.
Proof.
  destruct split_marks_ex as (a & b & H1 & H2). exists a.*1, b.*1.
  by rewrite !shapes_marks, H1, H2, !fmap_app.
Qed.

Lemma split_marks_other c' : c' <> c -> marks st' c' = marks st c'.
Proof.
  intros Hc'. destruct split_facts as (_ & _ & Hrefs & Hsame & _).
  unfold marks, Store_Structs. rewrite (Hrefs c'), decide_False by done.
  rewrite !map_map. change (map ?f ?l) with (f <$> l). apply list_fmap_ext.
  intros j r Hj. eapply Hsame; [exact Hj|by left].
Qed.

Lemma splitItem_State c' : State st' c' = State st c'.
Proof.
  destruct (decide (c' = c)) as [->|Hne].
  - destruct split_shapes_eq as (a & b & H1 & H2).
    destruct split_clock as (_ & Hid & H0 & H3).
    rewrite !State_last, H1, H2, !last_app. destruct (last b); [done|]. cbn. f_equal. lia.
  - apply State_shapes. rewrite !shapes_marks. by rewrite split_marks_other.
Qed.

Lemma splitItem_dead c' k : dead_at st' c' k <-> dead_at st c' k.
Proof.
  unfold dead_at. destruct (decide (c' = c)) as [->|Hne]; [|by rewrite split_marks_other].
  destruct split_marks_ex as (a & b & -> & ->). cbn [app].
  split; intros (id & len & Hin & Hk);
    repeat rewrite ?elem_of_app, ?elem_of_cons in Hin.
  - destruct Hin as [?|[He|[He|?]]]; [set_solver| | |set_solver].
    + injection He as -> -> Hd. exists (it_ID it), (Item_Len it). rewrite <- Hd. split; [set_solver|lia].
    + injection He as -> -> Hd. cbn in Hk. exists (it_ID it), (Item_Len it). rewrite <- Hd.
      split; [set_solver|lia].
  - destruct Hin as [?|[He|?]]; [set_solver| |set_solver].
    injection He as -> -> Hd. rewrite <- Hd.
    destruct (decide (k < Clock (it_ID it) + off)).
    + exists (it_ID it), off. split; [set_solver|lia].
    + exists (NewID c (Clock (it_ID it) + off)), (Item_Len it - off). cbn. split; [set_solver|lia].
Qed.

Lemma splitItem_same_clocks : same_clocks st st'.
Proof. split; [apply splitItem_State|apply splitItem_dead]. Qed.

Lemma splitItem_wf : store_wf st'.
Proof.
  destruct split_facts as (Hn & Hnext & Hrefs & _ & _ & _ & Hdom). split.
  - intros c'. destruct (decide (c' = c)) as [->|Hne].
    + destruct split_shapes_eq as (a & b & H1 & H2).
      destruct (wf_gapless _ Hwf c) as [Hg Hs]. unfold gapless.
      rewrite contig_shapes, slen_shapes in *. fold (shapes st c) (shapes st' c) in *.
      rewrite H1 in Hg, Hs. rewrite H2.
      rewrite !contig_s_app, !slen_s_app in *. cbn in *. split; [|lia].
      destruct Hg as (Ha & (He & Hp & _) & Hb). rewrite He in *. cbn in *.
      split_and!; try done; try lia.
      by replace (off + (Item_Len it - off + 0)) with (Item_Len it + 0) by lia.
    + eapply gapless_shape; [|apply (wf_gapless _ Hwf)].
      fold (shapes st c') (shapes st' c'). by rewrite !shapes_marks, split_marks_other.
  - intros k [Hk| ->]%Hdom; rewrite Hnext; [apply (wf_next _ Hwf) in Hk|]; lia.
  - intros c'. rewrite split_clients. case_decide; [|apply (wf_ne _ Hwf)].
    intros [=He]. by apply app_nil in He as [_ ?].
Qed.
End Split.

Lemma item_at_index_Ok st c i l it :
  item_at_index st c i = Ok (l, it) -> refs st c !! i = Some (RItem l) /\ heap st !! l = Some it.
Proof.
  unfold item_at_index. destruct (refs st c !! i) as [[| |k]|] eqn:E; try done.
  destruct (heap st !! k) eqn:Ek; [|done]. intros [= -> ->]. done.
Qed.

(** What both clean lookups find before splitting. *)
Lemma find_item st id i l it :
  store_wf st -> 0 <= Clock id -> find st id = Ok i -> item_at_index st (Client id) i = Ok (l, it) ->
  refs st (Client id) !! i = Some (RItem l) /\ heap st !! l = Some it
  /\ Client (it_ID it) = Client id
  /\ s64 (u64 (Clock id - Clock (it_ID it))) = Clock id - Clock (it_ID it)
  /\ 0 <= Clock id - Clock (it_ID it) < Item_Len it.
Proof.
  intros Hwf H0 Hf Hi. apply item_at_index_Ok in Hi as [Hr Hl].
  destruct (ref_item _ _ _ _ Hwf Hr) as (it' & Hl' & Hc & Hs). simplify_eq.
  apply (find_Ok st Hwf) in Hf as (s & Hs' & Hk); [|done].
  rewrite Hs in Hs'. injection Hs' as <-.
  destruct (struct_end_lookup st Hwf _ _ _ Hs) as (_ & H1 & H2 & H3 & Hid).
  cbn [StructID StructLen] in *. rewrite Hid in *. cbn [Clock] in *.
  split_and!; [done..| |lia|lia].
  rewrite u64_small, s64_small; unfold two63, two64 in *; lia.
Qed.

(** The clean lookups change no clock, and the item found starts (or ends)
    exactly at the clock asked for. *)
Lemma GetItemCleanStart_spec id st l st' :
  store_wf st -> 0 <= Clock id -> GetItemCleanStart id st = Ok (l, st') ->
  store_wf st' /\ same_clocks st st'
  /\ exists it i, heap st' !! l = Some it /\ it_ID it = id
     /\ refs st' (Client id) !! i = Some (RItem l).
Proof.
  intros Hwf H0 H. unfold GetItemCleanStart in H. res_inv.
  destruct (find_item _ _ _ _ _ Hwf H0 Hm Hm0) as (Hr & Hl & Hc & He & Hrange).
  rewrite He in Hk0. destruct id as [c k]. cbn [Client Clock] in *. case_if; res_inv.
  { split_and!; [done..|]. exists y, a. split_and!; [done| |done].
    destruct (it_ID y). cbn in *. f_equal; lia. }
  assert (Hoff : 0 < k - Clock (it_ID y) < Item_Len y) by lia.
  destruct (split_facts _ _ _ _ _ _ _ _ Hwf Hr Hl Hoff Hk0) as (-> & _ & Hrefs & _ & _ & Hv & _).
  split_and!.
  - by eapply splitItem_wf.
  - by eapply splitItem_same_clocks.
  - destruct (split_clock _ _ _ _ _ _ Hwf Hr Hl Hoff) as (Hu & _). rewrite Hu in Hv.
    cbn in Hv. destruct (heap st' !! next st) as [rt|] eqn:Ert; [|cbn in Hv; injection Hv; lia].
    exists rt, (S a). split_and!; [done| |].
    + injection Hv as -> _ _. f_equal. lia.
    + rewrite Hrefs, decide_True by done. pose proof (lookup_lt_Some _ _ _ Hr).
      rewrite lookup_app_r, length_take_le; rewrite ?length_take_le; try lia.
      by rewrite Nat.sub_diag.
Qed.

Lemma GetItemCleanEnd_spec id st l st' :
  store_wf st -> 0 <= Clock id -> GetItemCleanEnd id st = Ok (l, st') ->
  store_wf st' /\ same_clocks st st'
  /\ exists it i, heap st' !! l = Some it /\ LastID it = id
     /\ refs st' (Client id) !! i = Some (RItem l).
Proof.
  intros Hwf H0 H. unfold GetItemCleanEnd in H. res_inv.
  destruct (find_item _ _ _ _ _ Hwf H0 Hm Hm0) as (Hr & Hl & Hc & He & Hrange).
  rewrite He in Hk0. destruct id as [c k]. cbn [Client Clock] in *. case_if; res_inv.
  { split_and!; [done..|]. exists y, a. split_and!; [done| |done].
    unfold LastID. f_equal. rewrite u64_small; [lia|].
    destruct (ref_item _ _ _ _ Hwf Hr) as (it' & Hl' & _ & Hs). simplify_eq.
    destruct (struct_end_lookup _ Hwf _ _ _ Hs) as (_ & H1 & H2 & H3 & Hid).
    cbn in *. rewrite Hid in *. cbn in *. unfold two63, two64 in *. lia. }
  assert (Hoff : 0 < k - Clock (it_ID y) + 1 < Item_Len y) by lia.
  destruct (split_facts _ _ _ _ _ _ _ _ Hwf Hr Hl Hoff Hm1) as (-> & _ & Hrefs & _ & Hv & _).
  split_and!.
  - by eapply splitItem_wf.
  - by eapply splitItem_same_clocks.
  - destruct (split_clock _ _ _ _ _ _ Hwf Hr Hl Hoff) as (_ & Hid & Hp & Hb).
    cbn in Hv. destruct (heap st' !! l) as [rt|] eqn:Ert; [|cbn in Hv; injection Hv; lia].
    exists rt, a. split_and!; [done| |].
    + injection Hv as Hi Hn _. unfold LastID. rewrite Hi, Hn, Hid. cbn. f_equal.
      rewrite u64_small; unfold two63, two64 in *; lia.
    + rewrite Hrefs, decide_True by done. pose proof (lookup_lt_Some _ _ _ Hr).
      rewrite lookup_app_l, lookup_take; rewrite ?length_take_le; try lia.
      by rewrite decide_True by lia.
Qed.
