(* ===== verification/Doc.v ===== *)
(** * Documents

    [internal/crdt/doc.go]: integration of updates into the struct store.  An
    update's structs are consumed in clock order per client; what refers to
    structs not received yet is held back and retried; deletions of clocks not
    received yet are held back too.  Items are placed among their siblings by the
    YATA rule ([resolveConflict]).

    Loops over linked items take the size of the heap as fuel: the chains are
    acyclic in every reachable document (see Links), so a walk visits an item at
    most once.  The loops of [integrate] and [retryPending] take the number of
    structs left as fuel: every further round consumes one. *)

From S2P Require Import Prelude Lib0 Any Content StateVector DeleteSet Struct Update StructStore.

Definition typeRefUnknown : Z := 255.

Record Doc := MkDoc {
  Doc_ClientID : Z;
  store : Store;
  pending : list Update;
  pendingDeletes : DeleteSet;
}.

Definition set_store (st : Store) (d : Doc) : Doc :=
  MkDoc (Doc_ClientID d) st (pending d) (pendingDeletes d).
Definition set_pending (p : list Update) (d : Doc) : Doc :=
  MkDoc (Doc_ClientID d) (store d) p (pendingDeletes d).
Definition set_pendingDeletes (ds : DeleteSet) (d : Doc) : Doc :=
  MkDoc (Doc_ClientID d) (store d) (pending d) ds.

Definition NewDoc (clientID : Z) : Doc := MkDoc clientID NewStructStore [] NewDeleteSet.

Definition Doc_StateVector (d : Doc) : gmap Z Z := Store_StateVector (store d).
Definition Doc_EncodeStateVector (d : Doc) : res bytes :=
  EncodeStateVector (Store_StateVector (store d)).
Definition PendingCount (d : Doc) : nat := length (pending d).

(** [Get]: the root type called [name], created if needed. *)
Definition new_root (name : bytes) : AbstractType :=
  MkType typeRefUnknown [] None ∅ None name.

Definition Get (name : bytes) (st : Store) : TypePtr * Store :=
  match types st !! TRoot name with
  | Some _ => (TRoot name, st)
  | None => (TRoot name, new_type (TRoot name) (new_root name) st)
  end.

(** ** Resolving an item's neighbours *)

(** A dependency of another client that has not been received. *)
Definition missing (st : Store) (it : Item) (dep : option ID) : bool :=
  match dep with
  | None => false
  | Some id =>
      negb (Client id =? Client (it_ID it)) && (State st (Client id) <=? Clock id)
  end.

Definition resolve_left (it : Item) (st : Store) : option (Item * Store) :=
  match Origin it with
  | None => Some (it, st)
  | Some id =>
      match GetItemCleanEnd id st with
      | Err _ => None
      | Ok (l, st) =>
          let last := match heap st !! l with Some x => LastID x | None => id end in
          Some (set_Origin (Some last) (set_left (Some l) it), st)
      end
  end.

Definition resolve_right (it : Item) (st : Store) : option (Item * Store) :=
  match RightOrigin it with
  | None => Some (it, st)
  | Some id =>
      match GetItemCleanStart id st with
      | Err _ => None
      | Ok (r, st) => Some (set_right (Some r) it, st)
      end
  end.

(** The parent and parent key of a neighbour. *)
Definition inherit (l : loc) (st : Store) (it : Item) : Item :=
  match heap st !! l with
  | Some x => set_Sub (HasParentSub x) (ParentSub x) (set_parent (parent x) it)
  | None => it
  end.

Definition resolve_parent (it : Item) (st : Store) : Item * Store :=
  match Parent it with
  | None =>
      match left it, right it with
      | Some l, _ => (inherit l st it, st)
      | None, Some r => (inherit r st it, st)
      | None, None => (it, st)
      end
  | Some p =>
      if IsRoot p then
        let '(t, st) := Get (PName p) st in (set_parent (Some t) it, st)
      else
        match GetItem st (PItem p) with
        | Err _ => (set_parent None it, st)
        | Ok l =>
            match heap st !! l with
            | Some owner =>
                match it_Content owner with
                | ContentType _ _ => (set_parent (Some (TNested l)) it, st)
                | _ => (set_parent None it, st)
                end
            | None => (set_parent None it, st)
            end
        end
  end.

(** [None] is the result [false]: a dependency is missing, nothing changed. *)
Definition resolve_item (it : Item) (st : Store) : option (Item * Store) :=
  if missing st it (Origin it) || missing st it (RightOrigin it)
     || missing st it (parent_item it)
  then None
  else Some
    match resolve_left it st with
    | None => (set_parent None (set_left None it), st)
    | Some (it, st) =>
        match resolve_right it st with
        | None => (set_parent None (set_right None it), st)
        | Some (it, st) => resolve_parent it st
        end
    end.

Definition resolve (s : Struct) (st : Store) : option (Struct * Store) :=
  match s with
  | SItem it =>
      match resolve_item it st with
      | Some (it, st) => Some (SItem it, st)
      | None => None
      end
  | _ => Some (s, st)
  end.

(** ** Conflict resolution *)

Definition itemAt (st : Store) (id : ID) : option loc :=
  match GetItem st id with Ok l => Some l | Err _ => None end.

Definition left_of (st : Store) (l : loc) : option loc := heap st !! l ≫= left.
Definition right_of (st : Store) (l : loc) : option loc := heap st !! l ≫= right.

Fixpoint leftmost_loop (fuel : nat) (st : Store) (l : loc) : loc :=
  match fuel, left_of st l with
  | S fuel, Some l' => leftmost_loop fuel st l'
  | _, _ => l
  end.

Definition leftmost (st : Store) (o : option loc) : option loc :=
  match o with
  | Some l => Some (leftmost_loop (size (heap st)) st l)
  | None => None
  end.

Definition sameID (a b : option ID) : bool := bool_decide (a = b).

(** Membership of the item the origin of [o] names: a nil item is in no set. *)
Definition origin_in (st : Store) (o : Item) (s : gset loc) : bool :=
  match Origin o with
  | None => false
  | Some id => match itemAt st id with Some l => bool_decide (l ∈ s) | None => false end
  end.

Fixpoint conflict_loop (fuel : nat) (st : Store) (it : Item) (lft o : option loc)
    (conflicting before : gset loc) : option loc :=
  match fuel, o with
  | S fuel, Some ol =>
      if bool_decide (o = right it) then lft
      else
        match heap st !! ol with
        | None => lft
        | Some oi =>
            let before := {[ol]} ∪ before in
            let conflicting := {[ol]} ∪ conflicting in
            if sameID (Origin it) (Origin oi) then
              if Client (it_ID oi) <? Client (it_ID it)
              then conflict_loop fuel st it (Some ol) (right oi) ∅ before
              else if sameID (RightOrigin it) (RightOrigin oi) then lft
              else conflict_loop fuel st it lft (right oi) conflicting before
            else if origin_in st oi before then
              if negb (origin_in st oi conflicting)
              then conflict_loop fuel st it (Some ol) (right oi) ∅ before
              else conflict_loop fuel st it lft (right oi) conflicting before
            else lft
        end
  | _, _ => lft
  end.

Definition map_item (st : Store) (p : TypePtr) (key : bytes) : option loc :=
  types st !! p ≫= fun t => mapItems t !! key.
Definition type_start (st : Store) (p : TypePtr) : option loc :=
  types st !! p ≫= start.

Definition resolveConflict (st : Store) (it : Item) (p : TypePtr) : option loc :=
  let o :=
    match left it with
    | Some l => right_of st l
    | None =>
        if HasParentSub it then leftmost st (map_item st p (ParentSub it))
        else type_start st p
    end in
  conflict_loop (size (heap st)) st it (left it) o ∅ ∅.

(** ** Integration *)

Definition deleteItem (l : loc) (st : Store) : Store :=
  match heap st !! l with
  | Some it => if deleted it then st else upd_item l (set_deleted true) st
  | None => st
  end.

(** [_ = d.store.Append(s)]. *)
Definition append_ (r : StructRef) (st : Store) : Store :=
  match Append r st with Ok st => st | Err _ => st end.

(** The neighbourhood is not already exactly left|this|right. *)
Definition in_conflict (st : Store) (it : Item) : bool :=
  match left it with
  | None =>
      match right it with
      | None => true
      | Some r => bool_decide (left_of st r <> None)
      end
  | Some l => bool_decide (right_of st l <> right it)
  end.

(** The first half of the relinking: what is to the right of the new item [n],
    and the left neighbour or list head pointing at it. *)
Definition link_left (it : Item) (p : TypePtr) (n : loc) (st : Store) : option loc * Store :=
  match left it with
  | Some l => (right_of st l, upd_item l (set_right (Some n)) st)
  | None =>
      if HasParentSub it then (leftmost st (map_item st p (ParentSub it)), st)
      else (type_start st p, upd_type p (set_start (Some n)) st)
  end.

(** The second half: the right neighbour pointing back, or, for the new last
    entry of a key, the key's current value. *)
Definition link_right (it : Item) (p : TypePtr) (n : loc) (st : Store) : Store :=
  match right it with
  | Some r => upd_item r (set_left (Some n)) st
  | None =>
      if HasParentSub it then
        let st := upd_type p (set_mapItem (ParentSub it) n) st in
        match left it with Some l => deleteItem l st | None => st end
      else st
  end.

Definition owner_deleted (st : Store) (p : TypePtr) : bool :=
  match (types st !! p ≫= t_item) ≫= (fun l => heap st !! l) with
  | Some o => deleted o
  | None => false
  end.

(** What [integrateItem] does once the item is linked and appended. *)
Definition settle (it : Item) (p : TypePtr) (n : loc) (st : Store) : Store :=
  let st :=
    match it_Content it with
    | ContentDeleted _ => upd_item n (set_deleted true) st
    | ContentType tr name => new_type (TNested n) (MkType tr name None ∅ (Some n) []) st
    | _ => st
    end in
  if owner_deleted st p || (HasParentSub it && bool_decide (right it <> None))
  then deleteItem n st else st.

(** From the nil-parent check of [integrateItem] on. *)
Definition place (it : Item) (st : Store) : Store :=
  match parent it with
  | None => append_ (RGC (it_ID it) (Item_Len it)) st
  | Some p =>
      let it := if in_conflict st it then set_left (resolveConflict st it p) it else it in
      let n := next st in
      let '(r, st) := link_left it p n st in
      let it := set_right r it in
      let st := alloc it st in
      let st := link_right it p n st in
      let st := append_ (RItem n) st in
      settle it p n st
  end.

(** The part of the item already present is dropped; [None] when the code
    returns early. *)
Definition trim (it : Item) (offset : Z) (st : Store) : option Item * Store :=
  let clock := u64 (Clock (it_ID it) + offset) in
  let it := set_ID (NewID (Client (it_ID it)) clock) it in
  match GetItemCleanEnd (NewID (Client (it_ID it)) (u64 (clock - 1))) st with
  | Err _ => (None, st)
  | Ok (l, st) =>
      let last := match heap st !! l with Some x => LastID x | None => it_ID it end in
      let it := set_Origin (Some last) (set_left (Some l) it) in
      match Splice (it_Content it) offset with
      | Err _ => (None, st)
      | Ok (_, tail) => (Some (set_Content tail it), st)
      end
  end.

Definition integrateItem (it : Item) (offset : Z) (st : Store) : Store :=
  if 0 <? offset then
    match trim it offset st with
    | (None, st) => st
    | (Some it, st) => place it st
    end
  else place it st.

Definition integrateStruct (s : Struct) (offset : Z) (st : Store) : Store :=
  match s with
  | SGC id n =>
      append_ (if 0 <? offset
               then RGC (NewID (Client id) (u64 (Clock id + offset))) (n - offset)
               else RGC id n) st
  | SItem it => integrateItem it offset st
  | SSkip _ _ => st
  end.

(** ** The integration loops *)

(** The inner loop of [integrate] on one client's queue: what is left of the
    queue, the store, and whether anything was consumed. *)
Fixpoint drain (queue : list Struct) (st : Store) : list Struct * Store * bool :=
  match queue with
  | [] => ([], st, false)
  | head :: rest =>
      let consume st := let '(q, st, _) := drain rest st in (q, st, true) in
      match head with
      | SSkip _ _ => consume st
      | _ =>
          let id := StructID head in
          let state := State st (Client id) in
          if state <? Clock id then (queue, st, false)
          else
            let offset := s64 (u64 (state - Clock id)) in
            if StructLen head <=? offset then consume st
            else
              match resolve head st with
              | None => (queue, st, false)
              | Some (head, st) => consume (integrateStruct head offset st)
              end
      end
  end.

Abbreviation Queues := (gmap Z (list Struct)) (only parsing).

Definition queue_of (qs : Queues) (client : Z) : list Struct := default [] (qs !! client).

(** One pass over the clients in the order of the update. *)
Fixpoint round (order : list Z) (qs : Queues) (st : Store) : Queues * Store * bool :=
  match order with
  | [] => (qs, st, false)
  | client :: order =>
      let '(q, st, progress) := drain (queue_of qs client) st in
      let '(qs, st, more) := round order (<[client := q]> qs) st in
      (qs, st, progress || more)
  end.

Fixpoint rounds (fuel : nat) (order : list Z) (qs : Queues) (st : Store) : Queues * Store :=
  match fuel with
  | O => (qs, st)
  | S fuel =>
      let '(qs, st, progress) := round order qs st in
      if progress then rounds fuel order qs st else (qs, st)
  end.

(** The queues of an update and the order its clients appear in. *)
Definition enqueue (acc : list Z * Queues) (block : ClientBlock) : list Z * Queues :=
  let '(order, qs) := acc in
  let order := match qs !! CB_Client block with Some _ => order
               | None => order ++ [CB_Client block] end in
  (order, <[CB_Client block := queue_of qs (CB_Client block) ++ Structs block]> qs).

Definition queues (blocks : list ClientBlock) : list Z * Queues :=
  foldl enqueue ([], ∅) blocks.

(** What is left waits for an update that has not arrived. *)
Definition leftover (order : list Z) (qs : Queues) : list ClientBlock :=
  omap (fun client =>
      match queue_of qs client with
      | [] => None
      | (s :: _) as queue => Some (MkBlock client (Clock (StructID s)) queue)
      end) order.

Definition integrate (u : Update) (d : Doc) : Doc :=
  let '(order, qs) := queues (Clients u) in
  let '(qs, st) := rounds (S (struct_count (Clients u))) order qs (store d) in
  let d := set_store st d in
  match leftover order qs with
  | [] => d
  | rest => set_pending (pending d ++ [MkUpdate rest (Some NewDeleteSet)]) d
  end.

(** ** Deletions *)

(** The loop of [deleteRange] from index [idx] on. *)
Fixpoint delete_loop (fuel : nat) (client to : Z) (idx : nat) (st : Store) : Store :=
  match fuel, refs st client !! idx with
  | S fuel, Some r =>
      if to <=? Clock (ref_id st r) then st
      else
        match r with
        | RItem l =>
            match heap st !! l with
            | None => st
            | Some it =>
                if deleted it then delete_loop fuel client to (S idx) st
                else if to <? u64 (Clock (it_ID it) + Item_Len it) then
                  match splitItem l (s64 (u64 (to - Clock (it_ID it)))) idx st with
                  | Err _ => delete_loop fuel client to (S idx) st
                  | Ok (_, st) => delete_loop fuel client to (S idx) (deleteItem l st)
                  end
                else delete_loop fuel client to (S idx) (deleteItem l st)
            end
        | _ => delete_loop fuel client to (S idx) st
        end
  | _, _ => st
  end.

Definition deleteRange (client from to : Z) (st : Store) : Store :=
  if to <=? from then st
  else
    let id := NewID client from in
    let go st :=
      match find st id with
      | Err _ => st
      | Ok idx => delete_loop (S (S (length (refs st client)))) client to idx st
      end in
    match GetItemCleanStart id st with
    | Ok (_, st) => go st
    | Err _ => match Store_Get st id with Err _ => st | Ok _ => go st end
    end.

(** One range of [applyDeleteSet]; [state] is read once per client. *)
Definition apply_range (client state : Z) (d : Doc) (r : DeleteRange) : Doc :=
  if state <=? DR_Clock r then
    set_pendingDeletes (DS_Add (pendingDeletes d) client (DR_Clock r) (DR_Len r)) d
  else if state <? End r then
    let d := set_pendingDeletes
      (DS_Add (pendingDeletes d) client state (s64 (u64 (End r - state)))) d in
    set_store (deleteRange client (DR_Clock r) state (store d)) d
  else set_store (deleteRange client (DR_Clock r) (End r) (store d)) d.

Definition apply_client (d : Doc) (x : Z * list DeleteRange) : Doc :=
  let '(client, ranges) := x in
  foldl (apply_range client (State (store d) client)) d ranges.

Section Order.
Context `{!MapOrder}.

Definition applyDeleteSet (ds : option DeleteSet) (d : Doc) : Doc :=
  match ds with
  | None => d
  | Some ds => foldl apply_client d (iter ds)
  end.

(** ** Retrying *)

Definition pending_structs (us : list Update) : nat :=
  sum_list_with (fun u => struct_count (Clients u)) us.

Fixpoint retry_loop (fuel : nat) (d : Doc) : Doc :=
  match fuel, pending d with
  | S fuel, (_ :: _) as us =>
      let before := pending_structs us in
      let d := foldl (fun d u => integrate u d) (set_pending [] d) us in
      let after := pending_structs (pending d) in
      if (before <=? after)%nat then d else retry_loop fuel d
  | _, _ => d
  end.

Definition retryPending (d : Doc) : Doc :=
  let d := retry_loop (S (pending_structs (pending d))) d in
  if IsEmpty (pendingDeletes d) then d
  else applyDeleteSet (Some (pendingDeletes d)) (set_pendingDeletes NewDeleteSet d).

Definition ApplyDecodedUpdate (u : Update) (d : Doc) : Doc :=
  retryPending (applyDeleteSet (Deletes u) (integrate u d)).

Definition ApplyUpdate (b : bytes) (d : Doc) : res Doc :=
  u ← DecodeUpdate b; Ok (ApplyDecodedUpdate u d).

(** ** Encoding *)

Definition add_struct (client : Z) (ds : DeleteSet) (s : Struct) : DeleteSet :=
  if dead s then DS_Add ds client (Clock (StructID s)) (StructLen s) else ds.

Definition Doc_DeleteSet (d : Doc) : DeleteSet :=
  foldl (fun ds x => foldl (add_struct x.1) ds (map (view (heap (store d))) x.2))
    NewDeleteSet (iter (clients (store d))).

Definition deleteSetForUpdate (d : Doc) : DeleteSet :=
  foldl (fun ds x => foldl (fun ds r => DS_Add ds x.1 (DR_Clock r) (DR_Len r)) ds x.2)
    (Doc_DeleteSet d) (iter (pendingDeletes d)).

(** What a resolved parent pointer is on the wire: the id of the item that
    owns the type, or the name of a root type. *)
Definition resolved (st : Store) (t : TypePtr) : ParentInfo :=
  match types st !! t with
  | Some a =>
      match t_item a ≫= (fun l => heap st !! l) with
      | Some owner => MkParent false [] (it_ID owner)
      | None => MkParent true (rootName a) zeroID
      end
  | None => MkParent true [] zeroID
  end.

(** The block of one client for a peer that has it up to [clock]. *)
Definition client_block (st : Store) (sv : gmap Z Z) (client : Z) : option ClientBlock :=
  match Store_Structs st client with
  | [] => None
  | (first :: _) as structs =>
      let clock := SV_Get sv client in
      if State st client <=? clock then None
      else
        let clock := if clock <? Clock (StructID first) then Clock (StructID first) else clock in
        match find st (NewID client clock) with
        | Err _ => None
        | Ok idx => Some (MkBlock client clock (drop idx structs))
        end
  end.

Definition state_update (sv : gmap Z Z) (d : Doc) : Update :=
  MkUpdate (omap (client_block (store d) sv) (Store_Clients (store d)))
    (Some (deleteSetForUpdate d)).

Definition EncodeStateAsUpdate (sv : gmap Z Z) (d : Doc) : res bytes :=
  Encode (resolved (store d)) (state_update sv d).

Definition EncodeDiff (encodedSV : bytes) (d : Doc) : res bytes :=
  sv ← DecodeStateVector encodedSV; EncodeStateAsUpdate sv d.
End Order.
