(* ===== verification/Links.v ===== *)
(** * The item chains are acyclic

    Items are chained through [left] and [right].  Integration and splitting only
    ever insert a new item, either between a left neighbour and whatever follows
    it, or in front of a list, so there is always one order of all items along
    which every [right] goes forward and every [left] goes back.  That order is
    the invariant; it makes every walk over a chain visit each item at most once,
    whatever updates were received, and so the fuel of [leftmost] and
    [resolveConflict] is never the reason they stop. *)

From S2P Require Import Prelude Lib0 Any Content StateVector DeleteSet Struct Update StructStore Doc.

(** [x] comes before [y] in [ord]. *)
Definition before (ord : list loc) (x y : loc) : Prop := [x; y] `sublist_of` ord.

(** The neighbours of every item. *)
Definition lview (it : Item) : option loc * option loc := (left it, right it).
Abbreviation Chains := (gmap loc (option loc * option loc)) (only parsing).
Definition chains (st : Store) : Chains := lview <$> heap st.

Record linked (ord : list loc) (L : Chains) : Prop := {
  lk_nodup : NoDup ord;
  lk_dom : forall l, l ∈ ord <-> is_Some (L !! l);
  lk_right : forall l a r, L !! l = Some (a, Some r) -> before ord l r;
  lk_left : forall l y b, L !! l = Some (Some y, b) -> before ord y l;
}.

Definition acyclic (st : Store) : Prop := exists ord, linked ord (chains st).

(** ** Order *)

Lemma before_mono ord ord' x y : ord `sublist_of` ord' -> before ord x y -> before ord' x y.
Proof. unfold before. intros H1 H2. by etrans. Qed.

Lemma before_elem ord x y : before ord x y -> x ∈ ord /\ y ∈ ord.
Proof.
  unfold before. intros H. split; eapply elem_of_sublist; try exact H; set_solver.
Qed.

Lemma NoDup_split_unique (a b k1 k2 : list loc) l :
  NoDup (a ++ l :: b) -> a ++ l :: b = k1 ++ l :: k2 -> a = k1 /\ b = k2.
Proof.
  intros Hn He.
  assert (length a = length k1) as Hl.
  { eapply (NoDup_lookup (a ++ l :: b)); [done|by apply list_lookup_middle|].
    rewrite He. by apply list_lookup_middle. }
  apply app_inj_1 in He as [-> He]; [|done]. by injection He as ->.
Qed.

Lemma before_r a l b y : NoDup (a ++ l :: b) -> before (a ++ l :: b) l y <-> y ∈ b.
Proof.
  intros Hn. unfold before. rewrite sublist_cons_l. split.
  - intros (k1 & k2 & He & Hs). apply NoDup_split_unique in He as [-> ->]; [|done].
    by apply singleton_sublist_l.
  - intros Hy. exists a, b. by rewrite singleton_sublist_l.
Qed.

Lemma before_l a l b y : NoDup (a ++ l :: b) -> before (a ++ l :: b) y l <-> y ∈ a.
Proof.
  intros Hn. unfold before. change [y; l] with ([y] ++ l :: []). rewrite sublist_app_cons_l. split.
  - intros (k1 & k2 & He & Hs & _). apply NoDup_split_unique in He as [-> ->]; [|done].
    by apply singleton_sublist_l.
  - intros Hy. exists a, b. rewrite singleton_sublist_l. split_and!; [done..|apply sublist_nil_l].
Qed.

Lemma before_irrefl ord x y : NoDup ord -> before ord x y -> x <> y.
Proof.
  intros Hn H ->. unfold before in H. apply (sublist_NoDup _ _ Hn) in H.
  apply NoDup_cons in H as [H _]. set_solver.
Qed.

(** ** Inserting an item *)

Definition to_right (n : loc) (p : option loc * option loc) := (p.1, Some n).
Definition to_left (n : loc) (p : option loc * option loc) := (Some n, p.2).

(** A new item [n] between [lft] and [rgt]. *)
Definition insert_link (n : loc) (lft rgt : option loc) (L : Chains) : Chains :=
  let L := match lft with Some l => alter (to_right n) l L | None => L end in
  let L := <[n := (lft, rgt)]> L in
  match rgt with Some r => alter (to_left n) r L | None => L end.

(** [rgt] is what follows [lft]; without [lft] it is any item. *)
Definition fits (lft rgt : option loc) (L : Chains) : Prop :=
  match lft with
  | Some l => exists a, L !! l = Some (a, rgt)
  | None => forall r, rgt = Some r -> is_Some (L !! r)
  end.

Lemma insert_link_lookup n lft rgt L k x y :
  insert_link n lft rgt L !! k = Some (x, y) -> L !! n = None -> lft <> Some n -> rgt <> Some n ->
  k = n /\ x = lft /\ y = rgt
  \/ k <> n /\ exists x' y', L !! k = Some (x', y')
     /\ (lft = Some k /\ y = Some n \/ lft <> Some k /\ y = y')
     /\ (rgt = Some k /\ x = Some n \/ rgt <> Some k /\ x = x').
Proof.
  intros H Hn Hl Hr. unfold insert_link in H.
  assert (Halt : forall (f : _ -> option loc * option loc) (o : option loc) (M : Chains) j,
    match o with Some l => alter f l M | None => M end !! j
    = if decide (o = Some j) then f <$> M !! j else M !! j).
  { intros f [l|] M j; [|by rewrite decide_False].
    rewrite lookup_alter. destruct (decide (l = j)) as [->|?].
    - by rewrite decide_True.
    - by rewrite decide_False by congruence. }
  rewrite Halt in H. destruct (decide (k = n)) as [->|Hk].
  - rewrite decide_False, lookup_insert_eq in H by done. left. by simplify_eq.
  - right. split; [done|]. rewrite lookup_insert_ne, Halt in H by done.
    destruct (L !! k) as [[x' y']|]; [|by repeat case_decide].
    exists x', y'. split; [done|].
    repeat case_decide; cbn in H; unfold to_left, to_right in H; cbn in H; simplify_eq;
      split; ((by left) || (by right)).
Qed.

Lemma insert_link_dom n lft rgt L k :
  fits lft rgt L -> is_Some (insert_link n lft rgt L !! k) <-> is_Some (L !! k) \/ k = n.
Proof.
  intros _. unfold insert_link.
  destruct lft, rgt; rewrite ?lookup_alter_is_Some, lookup_insert_is_Some,
    ?lookup_alter_is_Some; destruct (decide (n = k)); split; intuition congruence.
Qed.

(** The order after the insertion: [n] right after [lft], or first of all. *)
Lemma insert_order ord L n lft rgt :
  linked ord L -> L !! n = None -> fits lft rgt L ->
  exists ord', ord `sublist_of` ord' /\ NoDup ord'
    /\ (forall l, l ∈ ord' <-> l ∈ ord \/ l = n)
    /\ (forall l, lft = Some l -> before ord' l n)
    /\ (forall r, rgt = Some r -> before ord' n r).
Proof.
  intros [Hn Hd Hr Hl] Hfresh Hfit.
  assert (n ∉ ord) as Hno by (rewrite Hd, Hfresh; by intros [? ?]).
  destruct lft as [l|].
  - destruct Hfit as [a Ha].
    assert (l ∈ ord) as Hin by (apply Hd; eauto).
    apply list_elem_of_split in Hin as (o1 & o2 & ->).
    assert (NoDup (o1 ++ l :: n :: o2)) as Hn'.
    { replace (o1 ++ l :: n :: o2) with ((o1 ++ [l]) ++ n :: o2) by (by rewrite <- app_assoc).
      rewrite <- Permutation_middle, <- app_assoc. by constructor. }
    exists (o1 ++ l :: n :: o2). split_and!; [|done|set_solver| |].
    + apply sublist_app; [done|]. apply sublist_skip. by apply sublist_cons.
    + intros ? [= <-]. apply before_r; [done|]. set_solver.
    + intros r ->. replace (o1 ++ l :: n :: o2) with ((o1 ++ [l]) ++ n :: o2) in *
        by (by rewrite <- app_assoc).
      apply before_r; [done|]. apply Hr in Ha. by apply before_r in Ha.
  - exists (n :: ord). split_and!; [by apply sublist_cons|by constructor|set_solver|done|].
    intros r ->. apply (before_r []); [by constructor|]. apply Hd. by apply Hfit.
Qed.

Lemma insert_linked ord L n lft rgt :
  linked ord L -> L !! n = None -> fits lft rgt L ->
  exists ord', linked ord' (insert_link n lft rgt L).
Proof.
  intros Hlk Hfresh Hfit.
  destruct (insert_order ord L n lft rgt Hlk Hfresh Hfit) as (ord' & Hsub & Hnd & Hel & Hbl & Hbr).
  destruct Hlk as [Hn Hd Hr Hl]. exists ord'.
  assert (lft <> Some n) as H1.
  { intros ->. destruct Hfit as [a Ha]. by rewrite Hfresh in Ha. }
  assert (rgt <> Some n) as H2.
  { intros ->. by eapply (before_irrefl ord' n n); [|apply Hbr|]. }
  split; [done| | |].
  - intros l. by rewrite Hel, insert_link_dom, Hd.
  - intros k x r H. destruct (insert_link_lookup _ _ _ _ _ _ _ H Hfresh H1 H2)
      as [(-> & -> & <-)|(_ & x' & y' & HL & [[-> [= ->]]|[_ <-]] & _)];
      [by apply Hbr|by apply Hbl|]. by eapply before_mono, Hr.
  - intros k y b H. destruct (insert_link_lookup _ _ _ _ _ _ _ H Hfresh H1 H2)
      as [(-> & <- & ->)|(_ & x' & y' & HL & _ & [[-> [= ->]]|[_ <-]])];
      [by apply Hbl|by apply Hbr|]. by eapply before_mono, Hl.
Qed.

(** ** Walks *)

Lemma size_chains st : size (chains st) = size (heap st).
Proof. apply map_size_fmap. Qed.

Lemma linked_size ord L : linked ord L -> size L = length ord.
Proof.
  intros [Hn Hd _ _]. rewrite <- (size_list_to_set (C := gset loc) ord Hn), <- size_dom. f_equal.
  apply leibniz_equiv. intros l. rewrite elem_of_dom, elem_of_list_to_set. by rewrite Hd.
Qed.

Lemma chains_lookup st l it : heap st !! l = Some it -> chains st !! l = Some (left it, right it).
Proof. intros H. unfold chains. by rewrite lookup_fmap, H. Qed.

Section Walk.
Context (st : Store) (ord : list loc) (Hlk : linked ord (chains st)).

(** At most [k] items lie to the right (to the left) of [o]. *)
Definition right_bound (o : option loc) (k : nat) : Prop :=
  match o with None => True | Some l => exists a b, ord = a ++ l :: b /\ (length b < k)%nat end.
Definition left_bound (l : loc) (k : nat) : Prop :=
  exists a b, ord = a ++ l :: b /\ (length a <= k)%nat.

Lemma right_bound_step l it k :
  heap st !! l = Some it -> right_bound (Some l) (S k) -> right_bound (right it) k.
Proof.
  intros Hl (a & b & He & Hb). destruct (right it) as [r|] eqn:Er; [|done].
  pose proof (lk_nodup _ _ Hlk) as Hn.
  pose proof (chains_lookup _ _ _ Hl) as Hc. rewrite Er in Hc.
  apply (lk_right _ _ Hlk) in Hc. rewrite He in Hn, Hc. apply before_r in Hc; [|done].
  apply list_elem_of_split in Hc as (b1 & b2 & ->).
  exists (a ++ l :: b1), b2. rewrite He, <- app_assoc. split; [done|].
  rewrite length_app in Hb. cbn in Hb. lia.
Qed.

Lemma left_bound_step l l' k :
  left_of st l = Some l' -> left_bound l k -> exists k', k = S k' /\ left_bound l' k'.
Proof.
  unfold left_of. intros Hl (a & b & He & Ha).
  destruct (heap st !! l) as [it|] eqn:Eit; [|done]. cbn in Hl.
  pose proof (lk_nodup _ _ Hlk) as Hn.
  pose proof (chains_lookup _ _ _ Eit) as Hc. rewrite Hl in Hc.
  apply (lk_left _ _ Hlk) in Hc. rewrite He in Hn, Hc. apply before_l in Hc; [|done].
  apply list_elem_of_split in Hc as (a1 & a2 & ->). rewrite length_app in Ha. cbn in Ha.
  exists (k - 1)%nat. split; [lia|]. exists a1, (a2 ++ l :: b).
  rewrite He, <- app_assoc. split; [done|lia].
Qed.

Lemma item_bounds l : is_Some (heap st !! l) ->
  right_bound (Some l) (size (heap st)) /\ left_bound l (size (heap st)).
Proof.
  intros [it Hl]. rewrite <- size_chains, (linked_size _ _ Hlk).
  assert (l ∈ ord) as Hin.
  { apply (lk_dom _ _ Hlk). rewrite (chains_lookup _ _ _ Hl). eauto. }
  apply list_elem_of_split in Hin as (a & b & He).
  split; exists a, b; rewrite He, length_app; cbn; (split; [done|lia]).
Qed.

(** [leftmost] stops at the head of the chain. *)
Lemma leftmost_loop_head k : forall f l, left_bound l k -> (k <= f)%nat ->
  left_of st (leftmost_loop f st l) = None.
Proof.
  induction k as [|k IH]; intros f l Hb Hf; destruct f as [|f]; cbn; try lia;
    destruct (left_of st l) as [l'|] eqn:El; try done;
    destruct (left_bound_step _ _ _ El Hb) as (k' & Hk & Hb'); simplify_eq.
  apply IH; [done|lia].
Qed.

(** More fuel changes nothing: the scan of [resolveConflict] ends by itself. *)
Lemma conflict_loop_fuel it k : forall o lft cf bf f f',
  right_bound o k -> (k <= f)%nat -> (k <= f')%nat ->
  conflict_loop f st it lft o cf bf = conflict_loop f' st it lft o cf bf.
Proof.
  induction k as [|k IH]; intros [l|] lft cf bf f f' Hb Hf Hf';
    [by destruct Hb as (? & ? & _ & ?); lia|by destruct f, f'| |by destruct f, f'].
  destruct f as [|f]; [lia|]. destruct f' as [|f']; [lia|]. cbn [conflict_loop].
  destruct (bool_decide _); [done|]. destruct (heap st !! l) as [oi|] eqn:El; [|done].
  pose proof (right_bound_step _ _ _ El Hb).
  repeat case_if; auto with lia.
Qed.
End Walk.

(** ** The operations keep the chains acyclic *)

Lemma chains_alter f g l (h : gmap loc Item) :
  (forall it, lview (f it) = g (lview it)) -> lview <$> alter f l h = alter g l (lview <$> h).
Proof.
  intros Hf. apply map_eq. intros k. rewrite lookup_fmap, !lookup_alter, !lookup_fmap.
  case_decide; [|done]. destruct (h !! l); cbn; [by rewrite Hf|done].
Qed.

Lemma chains_upd_same l f st :
  (forall it, lview (f it) = lview it) -> chains (upd_item l f st) = chains st.
Proof.
  intros Hf. unfold chains. cbn. rewrite (chains_alter f (fun p => p)) by done.
  apply map_eq. intros k. rewrite lookup_alter. case_decide; [subst|done].
  by destruct (_ !! k).
Qed.

Lemma chains_upd_right l n st :
  chains (upd_item l (set_right (Some n)) st) = alter (to_right n) l (chains st).
Proof. by apply chains_alter. Qed.

Lemma chains_upd_left l n st :
  chains (upd_item l (set_left (Some n)) st) = alter (to_left n) l (chains st).
Proof. by apply chains_alter. Qed.

Lemma chains_alloc it st : chains (alloc it st) = <[next st := lview it]> (chains st).
Proof. unfold chains. cbn. by rewrite fmap_insert. Qed.

Lemma chains_fresh st : store_wf st -> chains st !! next st = None.
Proof.
  intros Hwf. unfold chains. rewrite lookup_fmap.
  destruct (heap st !! next st) eqn:E; [|done].
  assert (next st < next st)%positive by (apply (wf_next _ Hwf); eauto). lia.
Qed.

Lemma chains_deleteItem l st : chains (deleteItem l st) = chains st.
Proof.
  unfold deleteItem. destruct (heap st !! l) as [it|]; [|done].
  destruct (deleted it); [done|]. by apply chains_upd_same.
Qed.

Lemma heap_append_ r st : heap (append_ r st) = heap st.
Proof. unfold append_, Append. by case_if. Qed.

Lemma chains_append_ r st : chains (append_ r st) = chains st.
Proof. unfold chains. by rewrite heap_append_. Qed.

Lemma chains_settle it p n st : chains (settle it p n st) = chains st.
Proof.
  unfold settle. case_if; [rewrite chains_deleteItem|];
    (destruct (it_Content it); [by apply chains_upd_same|done..]).
Qed.

Lemma splitItem_chains l off i st n st' it ord :
  store_wf st -> linked ord (chains st) -> heap st !! l = Some it ->
  splitItem l off i st = Ok (n, st') ->
  chains st' = insert_link (next st) (Some l) (right it) (chains st).
Proof.
  intros Hwf Hlk Hl H. unfold splitItem in H. rewrite Hl in H. res_inv.
  set (rt := split_right it l off _).
  match goal with |- chains ?s = _ =>
    assert (chains s = chains (upd_item l (set_right (Some (next st)))
       (match right it with
        | Some rr => upd_item rr (set_left (Some (next st)))
                       (alloc rt (upd_item l (set_Content x) st))
        | None => alloc rt (upd_item l (set_Content x) st) end))) as ->
      by (destruct (right it), (parent it), (HasParentSub it); reflexivity) end.
  assert (l <> next st) as Hne.
  { assert (l < next st)%positive by (apply (wf_next _ Hwf); eauto). lia. }
  pose proof (chains_lookup _ _ _ Hl) as Hcl.
  assert (Hc : chains (alloc rt (upd_item l (set_Content x) st))
    = <[next st := (Some l, right it)]> (chains st)).
  { rewrite chains_alloc, chains_upd_same by done. done. }
  rewrite chains_upd_right. unfold insert_link. destruct (right it) as [rr|].
  - rewrite chains_upd_left, Hc. rewrite alter_comm by (eapply before_irrefl;
      [apply Hlk|by eapply (lk_right _ _ Hlk)]).
    by rewrite alter_insert_ne.
  - by rewrite Hc, alter_insert_ne.
Qed.

Lemma splitItem_acyclic l off i st n st' :
  store_wf st -> acyclic st -> splitItem l off i st = Ok (n, st') -> acyclic st'.
Proof.
  intros Hwf [ord Hlk] H.
  destruct (heap st !! l) as [it|] eqn:Hl; [|unfold splitItem in H; by rewrite Hl in H].
  unfold acyclic. rewrite (splitItem_chains _ _ _ _ _ _ _ _ Hwf Hlk Hl H).
  eapply insert_linked; [done|by apply chains_fresh|].
  exists (left it). by apply chains_lookup.
Qed.

Lemma GetItemCleanStart_acyclic id st l st' :
  store_wf st -> acyclic st -> GetItemCleanStart id st = Ok (l, st') -> acyclic st'.
Proof.
  intros Hwf Ha H. unfold GetItemCleanStart in H. res_inv. case_if; res_inv; [done|].
  by eapply splitItem_acyclic.
Qed.

Lemma GetItemCleanEnd_acyclic id st l st' :
  store_wf st -> acyclic st -> GetItemCleanEnd id st = Ok (l, st') -> acyclic st'.
Proof.
  intros Hwf Ha H. unfold GetItemCleanEnd in H. res_inv. case_if; res_inv; [done|].
  by eapply splitItem_acyclic.
Qed.
