(* ===== verification/Invariant.v ===== *)
(** * The invariant of a document's store

    [store_inv] collects what integration relies on: the clocks of every client
    are gapless ([store_wf]), the item chains are acyclic, no pointer dangles,
    and every linked item is in the store under its own id.  Every operation of
    [internal/crdt/doc.go] and [structstore.go] keeps it, and only ever moves a
    store forward in the order [grows]: clocks are added and deleted, never
    removed or revived. *)

From S2P Require Import Prelude Lib0 Any Content StateVector DeleteSet Struct Update StructStore Doc Links.

(** ** Well-formed pointers *)

Definition type_ok (h : gmap loc Item) (p : TypePtr) (t : AbstractType) : Prop :=
  (forall l, start t = Some l -> is_Some (h !! l))
  /\ (forall k l, mapItems t !! k = Some l -> is_Some (h !! l))
  /\ (forall l, t_item t = Some l -> is_Some (h !! l))
  /\ (forall l, p = TNested l -> is_Some (h !! l)).

Definition item_ok (st : Store) (l : loc) (x : Item) : Prop :=
  (forall p, parent x = Some p -> is_Some (types st !! p))
  /\ RItem l ∈ refs st (Client (it_ID x))
  /\ (forall tr nm, it_Content x = ContentType tr nm -> is_Some (types st !! TNested l)).

Record store_inv (st : Store) : Prop := {
  inv_wf : store_wf st;
  inv_acyclic : acyclic st;
  inv_items : forall l x, heap st !! l = Some x -> item_ok st l x;
  inv_types : forall p t, types st !! p = Some t -> type_ok (heap st) p t;
  inv_noskip : forall c r, r ∈ refs st c -> match r with RSkip _ _ => False | _ => True end;
}.

(** ** Growth *)

Record grows (st st' : Store) : Prop := {
  gr_state : forall c, State st c <= State st' c;
  gr_dead : forall c k, dead_at st c k -> dead_at st' c k;
  gr_heap : forall l, is_Some (heap st !! l) -> is_Some (heap st' !! l);
  gr_types : forall p, is_Some (types st !! p) -> is_Some (types st' !! p);
}.

#[export] Instance grows_preorder : PreOrder grows.
Proof.
  split; [by split|]. intros a b c [H1 H2 H3 H4] [K1 K2 K3 K4]. split; auto.
  intros x. specialize (H1 x). specialize (K1 x). lia.
Qed.

(** The parts of an item that linking and splitting do not change. *)
Definition core (x x' : Item) : Prop :=
  it_ID x' = it_ID x /\ parent x' = parent x
  /\ (forall tr nm, it_Content x' = ContentType tr nm -> it_Content x = ContentType tr nm).

Lemma core_refl x : core x x.
Proof. done. Qed.

Lemma item_ok_mono st st' l x x' :
  item_ok st l x -> core x x' ->
  (forall p, is_Some (types st !! p) -> is_Some (types st' !! p)) ->
  (forall c r, r ∈ refs st c -> r ∈ refs st' c) ->
  item_ok st' l x'.
Proof.
  intros (H1 & H2 & H3) (E1 & E2 & E3) Ht Hr. unfold item_ok. rewrite E1, E2. split_and!; eauto.
Qed.

Lemma type_ok_mono h h' p t :
  type_ok h p t -> (forall l, is_Some (h !! l) -> is_Some (h' !! l)) -> type_ok h' p t.
Proof. intros (H1 & H2 & H3 & H4) Hh. split_and!; eauto. Qed.

Lemma type_ok_start h p t l :
  type_ok h p t -> is_Some (h !! l) -> type_ok h p (set_start (Some l) t).
Proof. intros (H1 & H2 & H3 & H4) Hl. split_and!; [|done..]. cbn. by intros ? [= <-]. Qed.

Lemma type_ok_mapItem h p t k l :
  type_ok h p t -> is_Some (h !! l) -> type_ok h p (set_mapItem k l t).
Proof.
  intros (H1 & H2 & H3 & H4) Hl. split_and!; [done| |done..]. cbn. intros k' l'.
  rewrite lookup_insert. case_decide; [by intros [= <-]|apply H2].
Qed.

(** Updating one type of the store. *)
Lemma types_alter_ok h f p (T : gmap TypePtr AbstractType) :
  (forall q t, T !! q = Some t -> type_ok h q t) ->
  (forall t, type_ok h p t -> type_ok h p (f t)) ->
  forall q t, alter f p T !! q = Some t -> type_ok h q t.
Proof.
  intros H Hf q t. rewrite lookup_alter. case_decide; [|apply H]. subst.
  destruct (T !! q) as [t0|] eqn:E; [|done]. intros [= <-]. eauto.
Qed.

Lemma core_trans x y z : core x y -> core y z -> core x z.
Proof. intros (H1 & H2 & H3) (K1 & K2 & K3). split_and!; [congruence..|]. eauto. Qed.

(** Every item of [h'] is one of [h], up to its links, deleted bit and the
    truncation of its content; [evolves] allows one new item [n]. *)
Definition olds (h h' : gmap loc Item) : Prop :=
  forall k x', h' !! k = Some x' -> exists x, h !! k = Some x /\ core x x'.
Definition evolves (n : loc) (rt : Item) (h h' : gmap loc Item) : Prop :=
  forall k x', h' !! k = Some x' ->
    k = n /\ core rt x' \/ exists x, h !! k = Some x /\ core x x'.

Lemma olds_refl h : olds h h.
Proof. intros k x Hk. eauto using core_refl. Qed.

Lemma olds_alter h h' f l : (forall x, core x (f x)) -> olds h h' -> olds h (alter f l h').
Proof.
  intros Hf H k x'. rewrite lookup_alter. case_decide; [subst|apply H].
  destruct (h' !! k) as [y|] eqn:E; [|done]. intros [= <-].
  destruct (H _ _ E) as (x & Hx & Hc). eauto using core_trans.
Qed.

Lemma evolves_insert h h' n rt : olds h h' -> evolves n rt h (<[n := rt]> h').
Proof.
  intros H k x'. rewrite lookup_insert. case_decide; [|right; by apply H].
  intros [= <-]. left. by subst.
Qed.

Lemma evolves_alter h h' n rt f l :
  (forall x, core x (f x)) -> evolves n rt h h' -> evolves n rt h (alter f l h').
Proof.
  intros Hf H k x'. rewrite lookup_alter. case_decide; [subst|apply H].
  destruct (h' !! k) as [y|] eqn:E; [|done]. intros [= <-].
  destruct (H _ _ E) as [[-> Hc]|(x & Hx & Hc)]; eauto using core_trans.
Qed.

Lemma core_set_left o x : core x (set_left o x).
Proof. done. Qed.
Lemma core_set_right o x : core x (set_right o x).
Proof. done. Qed.
Lemma core_set_deleted b x : core x (set_deleted b x).
Proof. done. Qed.

#[export] Hint Resolve olds_refl olds_alter evolves_insert evolves_alter
  core_set_left core_set_right core_set_deleted : store_inv.

(** ** Splitting *)

Section SplitInv.
Context (l : loc) (off : Z) (i : nat) (st : Store) (n : loc) (st' : Store) (it : Item) (c : Z).
Context (Hinv : store_inv st) (Hi : refs st c !! i = Some (RItem l)).
Context (Hl : heap st !! l = Some it) (Hoff : 0 < off < Item_Len it).
Context (Hsplit : splitItem l off i st = Ok (n, st')).

Lemma split_evolves : exists rt, evolves n rt (heap st) (heap st')
  /\ Client (it_ID rt) = Client (it_ID it) /\ parent rt = parent it
  /\ forall tr nm, it_Content rt <> ContentType tr nm.
Proof.
  pose proof Hsplit as H. unfold splitItem in H. rewrite Hl in H.
  apply bind_Ok_inv in H as ([hd tl] & Hs & H).
  assert (Hkind : forall tr nm, hd <> ContentType tr nm /\ tl <> ContentType tr nm).
  { intros tr nm. destruct (it_Content it); cbn in Hs; try discriminate;
      repeat case_match; simplify_eq; done. }
  injection H as <- <-. exists (split_right it l off tl).
  split_and!; [|done..|intros; apply Hkind].
  assert (forall x, core x (set_Content hd x)) as Hc.
  { intros x. split_and!; [done..|]. cbn. intros tr nm He. by destruct (Hkind tr nm). }
  destruct (right it), (parent it), (HasParentSub it); cbn; auto 10 with store_inv.
Qed.

Lemma split_types :
  types st' = types st \/ exists p k, types st' = alter (set_mapItem k n) p (types st).
Proof.
  pose proof Hsplit as H. unfold splitItem in H. rewrite Hl in H.
  apply bind_Ok_inv in H as ([hd tl] & Hs & H). injection H as <- <-.
  destruct (right it), (parent it), (HasParentSub it); cbn; eauto.
Qed.

Lemma splitItem_inv : store_inv st'.
Proof.
  pose proof (inv_wf _ Hinv) as Hwf.
  destruct (split_facts _ _ _ _ _ _ _ _ Hwf Hi Hl Hoff Hsplit)
    as (Hn & _ & Hrefs & _ & _ & _ & Hdom).
  pose proof (split_item_client _ _ _ _ _ Hwf Hi Hl) as Hc.
  assert (Hr : forall c' r, r ∈ refs st' c' <-> r ∈ refs st c' \/ c' = c /\ r = RItem n).
  { intros c' r. rewrite Hrefs. case_decide; [subst c'|naive_solver].
    rewrite elem_of_app, elem_of_cons. rewrite <- (take_drop (S i) (refs st c)) at 3.
    rewrite elem_of_app. naive_solver. }
  assert (Ht : forall p, is_Some (types st !! p) -> is_Some (types st' !! p)).
  { intros p Hp. destruct split_types as [->|(q & k & ->)]; [done|].
    by rewrite lookup_alter_is_Some. }
  split.
  - by eapply splitItem_wf.
  - eapply splitItem_acyclic; [done|apply Hinv|exact Hsplit].
  - intros k x' Hk. destruct split_evolves as (rt & He & H1 & H2 & H3).
    destruct (He _ _ Hk) as [(-> & K1 & K2 & K3)|(x & Hx & Hcore)].
    + split_and!.
      * rewrite K2, H2. intros p Hp. apply Ht. by apply (inv_items _ Hinv l it Hl).
      * rewrite K1, H1, <- Hc. apply Hr. by right.
      * intros tr nm He'. exfalso. by eapply H3, K3.
    + eapply item_ok_mono; [by apply (inv_items _ Hinv)|done..|].
      intros c' r ?. apply Hr. by left.
  - assert (forall p t, types st !! p = Some t -> type_ok (heap st') p t) as H0.
    { intros p t Hp. eapply type_ok_mono; [by eapply inv_types|]. intros k ?.
      apply Hdom. by left. }
    destruct split_types as [->|(q & k & ->)]; [done|].
    apply types_alter_ok; [done|]. intros t Hok. apply type_ok_mapItem; [done|].
    apply Hdom. by right.
  - intros c' r [Hin|[_ ->]]%Hr; [by apply (inv_noskip _ Hinv c')|done].
Qed.

Lemma splitItem_grows : grows st st'.
Proof.
  pose proof (inv_wf _ Hinv) as Hwf. split.
  - intros c'. by rewrite (splitItem_State _ _ _ _ _ _ _ _ Hwf Hi Hl Hoff Hsplit).
  - intros c' k. by rewrite (splitItem_dead _ _ _ _ _ _ _ _ Hwf Hi Hl Hoff Hsplit).
  - intros k Hk. apply (split_facts _ _ _ _ _ _ _ _ Hwf Hi Hl Hoff Hsplit). by left.
  - intros p Hp. destruct split_types as [->|(q & k & ->)]; [done|].
    by rewrite lookup_alter_is_Some.
Qed.
End SplitInv.

(** What resolving a neighbour does to the store. *)
Record settles (st st' : Store) : Prop := {
  se_inv : store_inv st';
  se_grows : grows st st';
  se_clocks : same_clocks st st';
}.

Lemma settles_refl st : store_inv st -> settles st st.
Proof. by split. Qed.

Lemma settles_trans a b c : settles a b -> settles b c -> settles a c.
Proof.
  intros [H1 H2 [H3 H4]] [K1 K2 [K3 K4]]. split; [done|by etrans|]. split; intros.
  - by rewrite K3.
  - by rewrite K4.
Qed.

Lemma GetItemCleanStart_settles id st l st' :
  store_inv st -> 0 <= Clock id -> GetItemCleanStart id st = Ok (l, st') ->
  settles st st' /\ exists it, heap st' !! l = Some it /\ it_ID it = id.
Proof.
  intros Hinv H0 H. pose proof (inv_wf _ Hinv) as Hwf.
  destruct (GetItemCleanStart_spec _ _ _ _ Hwf H0 H) as (_ & Hs & it & i & Hl & Hid & _).
  split; [|eauto]. unfold GetItemCleanStart in H. res_inv.
  destruct (find_item _ _ _ _ _ Hwf H0 Hm Hm0) as (Hr & Hl' & Hc & He & Hrange).
  rewrite He in Hk0. case_if; res_inv; [by split|].
  assert (0 < Clock id - Clock (it_ID y) < Item_Len y) by lia.
  split; [by eapply splitItem_inv|by eapply splitItem_grows|done].
Qed.

Lemma GetItemCleanEnd_settles id st l st' :
  store_inv st -> 0 <= Clock id -> GetItemCleanEnd id st = Ok (l, st') ->
  settles st st' /\ exists it, heap st' !! l = Some it /\ LastID it = id.
Proof.
  intros Hinv H0 H. pose proof (inv_wf _ Hinv) as Hwf.
  destruct (GetItemCleanEnd_spec _ _ _ _ Hwf H0 H) as (_ & Hs & it & i & Hl & Hid & _).
  split; [|eauto]. unfold GetItemCleanEnd in H. res_inv.
  destruct (find_item _ _ _ _ _ Hwf H0 Hm Hm0) as (Hr & Hl' & Hc & He & Hrange).
  rewrite He in Hk0. case_if; res_inv; [by split|].
  assert (0 < Clock (LastID it) - Clock (it_ID y) + 1 < Item_Len y) by lia.
  split; [by eapply splitItem_inv|by eapply splitItem_grows|done].
Qed.

(** ** Resolving *)

(** The neighbours and the parent of an item exist. *)
Record ready (st : Store) (it : Item) : Prop := {
  rd_left : forall l, left it = Some l -> is_Some (heap st !! l);
  rd_right : forall l, right it = Some l -> is_Some (heap st !! l);
  rd_parent : forall p, parent it = Some p -> is_Some (types st !! p);
}.

Lemma ready_grows st st' it : grows st st' -> ready st it -> ready st' it.
Proof. intros [_ _ Hh Ht] [H1 H2 H3]. split; eauto. Qed.

(** What resolving keeps of an item. *)
Definition same_item (x x' : Item) : Prop :=
  it_ID x' = it_ID x /\ it_Content x' = it_Content x /\ RightOrigin x' = RightOrigin x
  /\ Parent x' = Parent x /\ deleted x' = deleted x.

Lemma new_type_inv t a st :
  store_inv st -> type_ok (heap st) t a -> types st !! t = None ->
  store_inv (new_type t a st) /\ grows st (new_type t a st) /\ same_clocks st (new_type t a st).
Proof.
  intros Hinv Ha Hnew.
  assert (forall p, is_Some (types st !! p) -> is_Some (<[t:=a]> (types st) !! p)) as Ht.
  { intros p Hp. rewrite lookup_insert_is_Some. destruct (decide (t = p)); auto. }
  split; [|by split]. split.
  - apply new_type_wf, Hinv.
  - apply Hinv.
  - intros l x Hx. eapply item_ok_mono; [by apply (inv_items _ Hinv)|done..].
  - intros p b. cbn. rewrite lookup_insert. case_decide; [subst; by intros [= <-]|apply Hinv].
  - apply Hinv.
Qed.

Lemma Get_settles name st t st' :
  store_inv st -> Get name st = (t, st') -> settles st st' /\ is_Some (types st' !! t).
Proof.
  intros Hinv. unfold Get. destruct (types st !! TRoot name) eqn:E; intros [= <- <-].
  - split; [by split|eauto].
  - destruct (new_type_inv (TRoot name) (new_root name) st) as (H1 & H2 & H3); [done..|].
    split; [by split|]. cbn. by rewrite lookup_insert_eq.
Qed.

Lemma resolve_left_ok it st it' st' :
  store_inv st -> ready st it -> ref_ok (Origin it) -> resolve_left it st = Some (it', st') ->
  settles st st' /\ ready st' it' /\ same_item it it'.
Proof.
  intros Hinv Hrd Href H. unfold resolve_left in H. destruct (Origin it) as [id|] eqn:Eo.
  - destruct (GetItemCleanEnd id st) as [[l st1]|] eqn:Eg; [|done]. injection H as <- <-.
    destruct (GetItemCleanEnd_settles _ _ _ _ Hinv (Href id eq_refl) Eg) as (Hs & x & Hx & _).
    split; [done|]. split; [|done]. apply (ready_grows _ _ _ (se_grows _ _ Hs)) in Hrd as [H1 H2 H3].
    split; [|done..]. cbn. intros ? [= <-]. eauto.
  - injection H as <- <-. split; [by apply settles_refl|done].
Qed.

Lemma resolve_right_ok it st it' st' :
  store_inv st -> ready st it -> ref_ok (RightOrigin it) -> resolve_right it st = Some (it', st') ->
  settles st st' /\ ready st' it' /\ same_item it it'.
Proof.
  intros Hinv Hrd Href H. unfold resolve_right in H. destruct (RightOrigin it) as [id|] eqn:Eo.
  - destruct (GetItemCleanStart id st) as [[l st1]|] eqn:Eg; [|done]. injection H as <- <-.
    destruct (GetItemCleanStart_settles _ _ _ _ Hinv (Href id eq_refl) Eg) as (Hs & x & Hx & _).
    split; [done|]. split; [|done]. apply (ready_grows _ _ _ (se_grows _ _ Hs)) in Hrd as [H1 H2 H3].
    split; [done| |done]. cbn. intros ? [= <-]. eauto.
  - injection H as <- <-. split; [by apply settles_refl|done].
Qed.

Lemma inherit_ready st l it : store_inv st -> ready st it -> ready st (inherit l st it).
Proof.
  intros Hinv [H1 H2 H3]. unfold inherit. destruct (heap st !! l) as [x|] eqn:E; [|done].
  split; [done..|]. cbn. by apply (inv_items _ Hinv _ _ E).
Qed.

Lemma resolve_parent_ok it st it' st' :
  store_inv st -> ready st it -> resolve_parent it st = (it', st') ->
  settles st st' /\ ready st' it' /\ same_item it it'.
Proof.
  intros Hinv Hrd H. unfold resolve_parent in H.
  assert (Hsame : forall l, same_item it (inherit l st it)).
  { intros l. unfold inherit. by destruct (heap st !! l). }
  assert (Hnone : ready st (set_parent None it)) by (destruct Hrd; by split).
  destruct (Parent it) as [p|].
  - destruct (IsRoot p).
    + destruct (Get (PName p) st) as [t st1] eqn:Eg. injection H as <- <-.
      destruct (Get_settles _ _ _ _ Hinv Eg) as [Hs Ht]. split; [done|]. split; [|done].
      apply (ready_grows _ _ _ (se_grows _ _ Hs)) in Hrd as [H1 H2 H3].
      split; [done..|]. cbn. by intros ? [= <-].
    + pose proof (settles_refl _ Hinv). destruct (GetItem st (PItem p)) as [l|]; [|by simplify_eq].
      destruct (heap st !! l) as [o|] eqn:Eo; [|by simplify_eq].
      destruct (it_Content o) eqn:Ec; simplify_eq; try done.
      split; [done|]. split; [|done]. destruct Hrd as [H1 H2 H3]. split; [done..|].
      cbn. intros ? [= <-]. by eapply (inv_items _ Hinv _ _ Eo).
  - pose proof (settles_refl _ Hinv).
    destruct (left it), (right it); simplify_eq;
      (split; [done|]; split; [auto using inherit_ready|done || apply Hsame]).
Qed.

(** [resolve] on an item just decoded: the store settles, the item is ready. *)
Lemma resolve_item_ok it st it' st' :
  store_inv st -> fresh_struct (SItem it) -> resolve_item it st = Some (it', st') ->
  settles st st' /\ ready st' it' /\ same_item it it'.
Proof.
  intros Hinv (Ho & Hr & Hp & Hl & Hri & Hpa & Hd) H. unfold resolve_item in H.
  case_if; [done|]. injection H as H.
  assert (Hrd : ready st it) by (split; congruence).
  destruct (resolve_left it st) as [[it1 st1]|] eqn:E1.
  - apply resolve_left_ok in E1 as (Hs1 & Hrd1 & Hi1); [|done..].
    destruct (resolve_right it1 st1) as [[it2 st2]|] eqn:E2.
    + apply resolve_right_ok in E2 as (Hs2 & Hrd2 & Hi2);
        [|apply Hs1|done|destruct Hi1 as (_ & _ & -> & _); done].
      apply resolve_parent_ok in H as (Hs3 & Hrd3 & Hi3); [|apply Hs2|done].
      split; [eauto using settles_trans|]. split; [done|].
      unfold same_item in *. intuition congruence.
    + simplify_eq. split; [done|]. split; [|done]. destruct Hrd1. by split.
  - simplify_eq. split; [by apply settles_refl|]. split; [|done]. destruct Hrd. by split.
Qed.

(** ** Deleting *)

Lemma dead_at_refs st c k :
  dead_at st c k <-> exists r, r ∈ refs st c /\ dead (view (heap st) r) = true
    /\ Clock (ref_id st r) <= k < Clock (ref_id st r) + StructLen (view (heap st) r).
Proof.
  unfold dead_at, marks, Store_Structs, ref_id. rewrite map_map.
  change (map ?f ?l) with (f <$> l). split.
  - intros (id & len & (r & He & Hr)%list_elem_of_fmap & Hk). injection He as -> -> Hd. eauto.
  - intros (r & Hr & Hd & Hk). eexists _, _. split; [|exact Hk].
    apply list_elem_of_fmap. exists r. split; [|done]. unfold mark, shape. by rewrite Hd.
Qed.

Lemma same_marks_dead st st' c k : same_marks st st' -> dead_at st c k <-> dead_at st' c k.
Proof. intros H. unfold dead_at. by rewrite H. Qed.

Lemma set_deleted_dead l st c k :
  dead_at st c k -> dead_at (upd_item l (set_deleted true) st) c k.
Proof.
  rewrite !dead_at_refs. intros (r & Hr & Hd & Hk). exists r. split; [done|].
  unfold ref_id in *. cbn [heap upd_item].
  pose proof (view_upd shape (set_deleted true) ltac:(done) (heap st) l r) as Hs.
  injection Hs as -> ->. split; [|done].
  destruct r as [| |q]; try done. cbn in *. rewrite lookup_alter.
  case_decide; [subst|done]. by destruct (heap st !! q).
Qed.

(** Marking an item deleted is the only change [deleteItem] makes. *)
Lemma deleteItem_cases l st :
  deleteItem l st = st \/ deleteItem l st = upd_item l (set_deleted true) st.
Proof.
  unfold deleteItem. destruct (heap st !! l) as [it|]; [|by left].
  destruct (deleted it); [by left|by right].
Qed.

Section Delete.
Context (l : loc) (st : Store).
Let st' := deleteItem l st.

Lemma deleteItem_wf : store_wf st -> store_wf st'.
Proof. intros. unfold st'. destruct (deleteItem_cases l st) as [->| ->]; auto with store_inv. Qed.

Lemma deleteItem_shapes : same_shapes st st'.
Proof. unfold st'. destruct (deleteItem_cases l st) as [->| ->]; auto with store_inv. Qed.

Lemma deleteItem_dead c k : dead_at st c k -> dead_at st' c k.
Proof. unfold st'. destruct (deleteItem_cases l st) as [->| ->]; [done|apply set_deleted_dead]. Qed.

Lemma deleteItem_frame :
  clients st' = clients st /\ next st' = next st /\ types st' = types st
  /\ (forall k, is_Some (heap st' !! k) <-> is_Some (heap st !! k)).
Proof.
  unfold st'. destruct (deleteItem_cases l st) as [->| ->]; [done|]. split_and!; try done.
  intros k. cbn. by rewrite lookup_alter_is_Some.
Qed.

Lemma deleteItem_olds : olds (heap st) (heap st').
Proof.
  unfold st'. destruct (deleteItem_cases l st) as [->| ->]; cbn; auto with store_inv.
Qed.

Lemma deleteItem_evolves n rt h : evolves n rt h (heap st) -> evolves n rt h (heap st').
Proof.
  unfold st'. destruct (deleteItem_cases l st) as [->| ->]; cbn; auto with store_inv.
Qed.

Lemma deleteItem_inv : store_inv st -> store_inv st' /\ grows st st'.
Proof.
  intros Hinv. destruct deleteItem_frame as (Hc & Hn & Ht & Hd). split; split.
  - apply deleteItem_wf, Hinv.
  - unfold acyclic, st'. rewrite chains_deleteItem. apply Hinv.
  - intros k x' Hx'. destruct (deleteItem_olds k x' Hx') as (x & Hx & Hcore).
    eapply item_ok_mono; [by apply (inv_items _ Hinv)|done|by rewrite Ht|].
    intros c r. unfold refs. by rewrite Hc.
  - intros p t. rewrite Ht. intros Hp. eapply type_ok_mono; [by eapply inv_types|].
    intros k. by rewrite Hd.
  - intros c r. unfold refs. rewrite Hc. apply (inv_noskip _ Hinv).
  - intros c. by rewrite (State_shapes _ _ c (deleteItem_shapes c)).
  - apply deleteItem_dead.
  - intros k. by rewrite Hd.
  - by rewrite Ht.
Qed.
End Delete.

(** ** Placing an item *)

Lemma left_of_dom st l l' :
  acyclic st -> left_of st l = Some l' -> is_Some (heap st !! l').
Proof.
  intros [ord Hlk] H. unfold left_of in H. destruct (heap st !! l) as [x|] eqn:E; [|done].
  cbn in H. pose proof (chains_lookup _ _ _ E) as Hc. rewrite H in Hc.
  apply (lk_left _ _ Hlk), before_elem, proj1, (lk_dom _ _ Hlk) in Hc.
  unfold chains in Hc. by rewrite lookup_fmap, fmap_is_Some in Hc.
Qed.

Lemma right_of_dom st l l' :
  acyclic st -> right_of st l = Some l' -> is_Some (heap st !! l').
Proof.
  intros [ord Hlk] H. unfold right_of in H. destruct (heap st !! l) as [x|] eqn:E; [|done].
  cbn in H. pose proof (chains_lookup _ _ _ E) as Hc. rewrite H in Hc.
  apply (lk_right _ _ Hlk), before_elem, proj2, (lk_dom _ _ Hlk) in Hc.
  unfold chains in Hc. by rewrite lookup_fmap, fmap_is_Some in Hc.
Qed.

Lemma leftmost_loop_dom st f : forall l,
  acyclic st -> is_Some (heap st !! l) -> is_Some (heap st !! leftmost_loop f st l).
Proof.
  induction f as [|f IH]; intros l Ha Hl; cbn; [done|].
  destruct (left_of st l) eqn:E; [|done]. apply IH; [done|]. by eapply left_of_dom.
Qed.

Lemma leftmost_dom st o l :
  acyclic st -> (forall x, o = Some x -> is_Some (heap st !! x)) ->
  leftmost st o = Some l -> is_Some (heap st !! l).
Proof.
  intros Ha Ho. destruct o as [x|]; [|done]. intros [= <-]. apply leftmost_loop_dom; auto.
Qed.

Lemma map_item_dom st p k l :
  store_inv st -> map_item st p k = Some l -> is_Some (heap st !! l).
Proof.
  intros Hinv H. unfold map_item in H. destruct (types st !! p) as [t|] eqn:E; [|done].
  by apply (inv_types _ Hinv _ _ E) in H.
Qed.

Lemma type_start_dom st p l :
  store_inv st -> type_start st p = Some l -> is_Some (heap st !! l).
Proof.
  intros Hinv H. unfold type_start in H. destruct (types st !! p) as [t|] eqn:E; [|done].
  by apply (inv_types _ Hinv _ _ E) in H.
Qed.

Lemma conflict_loop_dom st it f : forall lft o cf bf l,
  conflict_loop f st it lft o cf bf = Some l -> lft = Some l \/ is_Some (heap st !! l).
Proof.
  induction f as [|f IH]; intros lft o cf bf l H; cbn in H; [by left|].
  destruct o as [ol|]; [|by left]. case_if; [by left|].
  destruct (heap st !! ol) as [oi|] eqn:Eo; [|by left].
  repeat case_if; try (by left);
    apply IH in H as [H|H]; (by left) || (by right) || (injection H as <-; right; eauto).
Qed.

(** What [settle] may change: deleted bits, and the type an item owns. *)
Record settled (n : loc) (s s' : Store) : Prop := {
  sd_clients : clients s' = clients s;
  sd_shapes : same_shapes s s';
  sd_wf : store_wf s -> store_wf s';
  sd_dead : forall c k, dead_at s c k -> dead_at s' c k;
  sd_olds : olds (heap s) (heap s');
  sd_dom : forall k, is_Some (heap s' !! k) <-> is_Some (heap s !! k);
  sd_chains : chains s' = chains s;
  sd_types : forall q, is_Some (types s !! q) -> is_Some (types s' !! q);
  sd_type : forall q t, types s' !! q = Some t ->
    types s !! q = Some t
    \/ start t = None /\ mapItems t = ∅ /\ t_item t = Some n /\ q = TNested n;
}.

Lemma settled_refl n s : settled n s s.
Proof. split; auto with store_inv. Qed.

Lemma settled_deleteItem n l s s' : settled n s s' -> settled n s (deleteItem l s').
Proof.
  intros [H1 H2 H3 H4 H5 H6 H7 H8 H9]. destruct (deleteItem_frame l s') as (D1 & D2 & D3 & D4).
  split.
  - by rewrite D1.
  - eapply same_shapes_trans; [exact H2|apply deleteItem_shapes].
  - intros Hwf. by apply deleteItem_wf, H3.
  - intros c k Hk. by apply deleteItem_dead, H4.
  - destruct (deleteItem_cases l s') as [->| ->]; cbn; auto with store_inv.
  - intros k. by rewrite D4.
  - by rewrite chains_deleteItem.
  - by rewrite D3.
  - by rewrite D3.
Qed.

Lemma settled_mark n s : settled n s (upd_item n (set_deleted true) s).
Proof.
  split; auto with store_inv.
  - apply set_deleted_dead.
  - cbn. auto with store_inv.
  - intros k. cbn. by rewrite lookup_alter_is_Some.
  - by apply chains_upd_same.
Qed.

Lemma settled_type n tr nm s :
  settled n s (new_type (TNested n) (MkType tr nm None ∅ (Some n) []) s).
Proof.
  split; auto with store_inv; cbn.
  - intros q Hq. rewrite lookup_insert_is_Some. destruct (decide (TNested n = q)); auto.
  - intros q t. rewrite lookup_insert. case_decide; [|by left]. intros [= <-]. by right.
Qed.

Lemma settle_settled it p n s :
  settled n s (settle it p n s)
  /\ forall tr nm, it_Content it = ContentType tr nm ->
       is_Some (types (settle it p n s) !! TNested n).
Proof.
  unfold settle. set (s1 := match it_Content it with ContentDeleted _ => _ | _ => _ end).
  assert (H1 : settled n s s1 /\ forall tr nm, it_Content it = ContentType tr nm ->
            is_Some (types s1 !! TNested n)).
  { unfold s1. destruct (it_Content it); (split; [|intros ? ? [= -> ->]]);
      auto using settled_refl, settled_mark, settled_type. cbn. by rewrite lookup_insert_eq. }
  destruct H1 as [H1 H2]. case_if; [|done]. split; [by apply settled_deleteItem|].
  by destruct (deleteItem_frame n s1) as (_ & _ & -> & _).
Qed.

(** Appending keeps what is deleted. *)
Lemma append_dead r st c k : dead_at st c k -> dead_at (append_ r st) c k.
Proof.
  unfold append_. destruct (Append r st) as [st'|] eqn:E; [|done].
  unfold dead_at, marks. rewrite (Append_structs _ _ _ c E). case_decide; [|done].
  intros (id & len & Hin & Hk). exists id, len. split; [|done].
  rewrite map_app. apply elem_of_app. by left.
Qed.

Section Place.
Context (st : Store) (it : Item) (p : TypePtr) (r : option loc) (st1 : Store).
Context (Hinv : store_inv st) (Hrd : ready st it) (Hp : parent it = Some p).
Context (Hid : Clock (it_ID it) = State st (Client (it_ID it))).
Context (Hlen : 0 < Item_Len it) (Hend : Clock (it_ID it) + Item_Len it < two63).
Context (Hlink : link_left it p (next st) st = (r, st1)).

Let n := next st.
Let it' := set_right r it.
Let st2 := alloc it' st1.
Let st3 := link_right it' p n st2.
Let st4 := append_ (RItem n) st3.
Let st5 := settle it' p n st4.

Lemma link_left_frame :
  clients st1 = clients st /\ next st1 = next st /\ same_marks st st1 /\ store_wf st1
  /\ heap st1 = match left it with Some l => alter (set_right (Some n)) l (heap st)
                | None => heap st end.
Proof.
  pose proof (inv_wf _ Hinv) as Hwf. unfold link_left in Hlink.
  destruct (left it) as [l|]; [|destruct (HasParentSub it)]; injection Hlink as <- <-;
    split_and!; auto with store_inv.
Qed.

Lemma link_fits : fits (left it) r (chains st).
Proof.
  unfold link_left in Hlink. destruct (left it) as [l|] eqn:El.
  - injection Hlink as <- <-. destruct (rd_left _ _ Hrd l El) as [x Hx].
    exists (left x). unfold right_of. rewrite Hx. by apply chains_lookup.
  - intros x ->. unfold chains. rewrite lookup_fmap, fmap_is_Some.
    destruct (HasParentSub it); injection Hlink as Hr _.
    + eapply leftmost_dom; [apply Hinv| |exact Hr]. intros y Hy.
      by eapply map_item_dom.
    + by eapply type_start_dom.
Qed.

Lemma n_fresh : heap st !! n = None.
Proof.
  destruct (heap st !! n) eqn:E; [|done].
  assert (n < next st)%positive by (apply (wf_next _ (inv_wf _ Hinv)); eauto).
  unfold n in *. lia.
Qed.

Lemma alloc_frame :
  clients st2 = clients st /\ store_wf st2 /\ same_marks st st2
  /\ evolves n it' (heap st) (heap st2)
  /\ (forall k, is_Some (heap st2 !! k) <-> is_Some (heap st !! k) \/ k = n)
  /\ chains st2 = <[n := (left it, r)]>
      (match left it with Some l => alter (to_right n) l (chains st) | None => chains st end).
Proof.
  destruct link_left_frame as (Hc1 & Hn1 & Hm1 & Hwf1 & Hh1). split_and!.
  - done.
  - unfold st2. auto with store_inv.
  - eapply same_marks_trans; [exact Hm1|]. unfold st2. auto with store_inv.
  - unfold st2, n. cbn. rewrite Hn1, Hh1. destruct (left it); auto with store_inv.
  - intros k. unfold st2, n. cbn. rewrite Hn1, Hh1, lookup_insert_is_Some.
    destruct (left it); rewrite ?lookup_alter_is_Some;
      destruct (decide (next st = k)); split; intuition congruence.
  - unfold st2. rewrite chains_alloc, Hn1. f_equal. unfold chains. rewrite Hh1.
    destruct (left it); [|done]. by apply chains_alter.
Qed.

(** Linking, before the item is appended to its client. *)
Lemma link_right_frame :
  clients st3 = clients st /\ same_shapes st st3 /\ store_wf st3
  /\ (forall c k, dead_at st c k -> dead_at st3 c k)
  /\ evolves n it' (heap st) (heap st3)
  /\ (forall k, is_Some (heap st3 !! k) <-> is_Some (heap st !! k) \/ k = n)
  /\ chains st3 = insert_link n (left it) r (chains st).
Proof.
  destruct alloc_frame as (K1 & K3 & Hm2 & He2 & Hd2 & Hc2).
  assert (K2 : same_shapes st st2) by (by apply same_marks_shapes).
  assert (K4 : forall c k, dead_at st c k -> dead_at st2 c k)
    by (intros c k; by rewrite (same_marks_dead st st2)).
  assert (right it' = r /\ HasParentSub it' = HasParentSub it
    /\ ParentSub it' = ParentSub it /\ left it' = left it) as (E1 & E2 & E3 & E4) by done.
  unfold st3, link_right, insert_link. rewrite E1, E2, E3, E4. clear E1 E2 E3 E4.
  destruct r as [x|].
  - split_and!.
    + done.
    + eapply same_shapes_trans; [exact K2|]. auto with store_inv.
    + auto with store_inv.
    + intros c k Hk. apply (same_marks_dead st2 _ c k); auto with store_inv.
    + cbn. auto with store_inv.
    + intros k. cbn. by rewrite lookup_alter_is_Some.
    + by rewrite chains_upd_left, Hc2.
  - destruct (HasParentSub it); [|done].
    set (s := upd_type p (set_mapItem (ParentSub it) n) st2).
    assert (Hs : clients s = clients st /\ same_shapes st s /\ store_wf s
      /\ (forall c k, dead_at st c k -> dead_at s c k)
      /\ evolves n it' (heap st) (heap s))
      by (split_and!; [exact K1|exact K2|by apply upd_type_wf|exact K4|exact He2]).
    destruct Hs as (L1 & L2 & L3 & L4 & L5).
    destruct (left it) as [y|]; [|done].
    destruct (deleteItem_frame y s) as (D1 & D2 & D3 & D4).
    split_and!.
    + by rewrite D1.
    + eapply same_shapes_trans; [exact L2|apply deleteItem_shapes].
    + by apply deleteItem_wf.
    + intros c k Hk. apply deleteItem_dead. auto.
    + by apply deleteItem_evolves.
    + intros k. rewrite D4. apply Hd2.
    + rewrite chains_deleteItem. exact Hc2.
Qed.

Lemma link_shape : shape (view (heap st3) (RItem n)) = (it_ID it, Item_Len it).
Proof.
  assert (H2 : shape (view (heap st2) (RItem n)) = (it_ID it, Item_Len it)).
  { destruct link_left_frame as (_ & Hn1 & _). unfold st2, n. cbn.
    rewrite Hn1, lookup_insert_eq. done. }
  unfold st3, link_right. destruct (right it'); [by rewrite <- H2; apply (view_upd shape)|].
  destruct (HasParentSub it'); [|done]. destruct (left it') as [y|]; [|done].
  set (s := upd_type _ _ _).
  destruct (deleteItem_cases y s) as [->| ->]; [done|].
  rewrite <- H2. by apply (view_upd shape).
Qed.

Lemma link_types :
  (forall q, is_Some (types st3 !! q) <-> is_Some (types st !! q))
  /\ (forall q t, types st3 !! q = Some t -> type_ok (heap st3) q t).
Proof.
  destruct link_right_frame as (_ & _ & _ & _ & _ & Hd & _).
  assert (Hn : is_Some (heap st3 !! n)) by (apply Hd; by right).
  assert (H0 : forall q t, types st !! q = Some t -> type_ok (heap st3) q t).
  { intros q t Ht. eapply type_ok_mono; [by eapply inv_types|]. intros k ?. apply Hd. by left. }
  assert (H1 : (forall q, is_Some (types st1 !! q) <-> is_Some (types st !! q))
    /\ (forall q t, types st1 !! q = Some t -> type_ok (heap st3) q t)).
  { pose proof Hlink as Hl. unfold link_left in Hl.
    destruct (left it); [|destruct (HasParentSub it)]; injection Hl as _ <-; [done..|].
    split; [intros q; cbn; by rewrite lookup_alter_is_Some|].
    apply types_alter_ok; [done|]. intros t Ht. by apply type_ok_start. }
  assert (types st3 = types st1 \/ types st3 = alter (set_mapItem (ParentSub it) n) p (types st1))
    as [->| ->]; [|done|].
  { unfold st3, link_right. destruct (right it'); [by left|].
    destruct (HasParentSub it'); [right|by left].
    destruct (left it') as [y|]; [|done].
    by destruct (deleteItem_frame y (upd_type p (set_mapItem (ParentSub it') n) st2))
      as (_ & _ & -> & _). }
  split; [intros q; rewrite lookup_alter_is_Some; apply H1|].
  apply types_alter_ok; [apply H1|]. intros t Ht. by apply type_ok_mapItem.
Qed.

Lemma append_item_Ok :
  st4 = set_clients (<[Client (it_ID it) := refs st (Client (it_ID it)) ++ [RItem n]]>
          (clients st3)) st3
  /\ store_wf st4
  /\ forall c, State st4 c = if decide (Client (it_ID it) = c)
                            then State st c + Item_Len it else State st c.
Proof.
  destruct link_right_frame as (Hc & Hs & Hwf & _).
  assert (Hrid : ref_id st3 (RItem n) = it_ID it) by exact (f_equal fst link_shape).
  assert (Hslen : StructLen (view (heap st3) (RItem n)) = Item_Len it)
    by exact (f_equal snd link_shape).
  assert (HA : Append (RItem n) st3 = Ok (set_clients
    (<[Client (it_ID it) := refs st3 (Client (it_ID it)) ++ [RItem n]]> (clients st3)) st3)).
  { unfold Append. rewrite Hrid, (State_shapes _ _ _ (Hs _)), Hid, Z.eqb_refl. done. }
  assert (E4 : st4 = set_clients
    (<[Client (it_ID it) := refs st3 (Client (it_ID it)) ++ [RItem n]]> (clients st3)) st3)
    by (unfold st4, append_; by rewrite HA).
  rewrite <- E4 in HA.
  assert (Hwf4 : store_wf st4).
  { eapply Append_wf; [exact Hwf|exact HA|by rewrite Hslen|by rewrite Hrid, Hslen]. }
  split_and!; [|done|].
  - rewrite E4. unfold refs. by rewrite Hc.
  - intros c. rewrite (Append_State _ _ _ c Hwf Hwf4 HA), Hrid, Hslen.
    by rewrite !(State_shapes _ _ _ (Hs _)).
Qed.

Lemma place_inv :
  store_inv st5 /\ grows st st5
  /\ forall c, State st5 c = if decide (Client (it_ID it) = c)
                            then State st c + Item_Len it else State st c.
Proof.
  destruct link_right_frame as (Hc & Hs & Hwf3 & Hd3 & He3 & Hdom & Hch).
  destruct link_types as [Ht3 Hto3]. destruct append_item_Ok as (E4 & Hwf4 & HS4).
  destruct (settle_settled it' p n st4) as [[D1 D2 D3 D4 D5 D6 D7 D8 D9] Hnest].
  fold st5 in D1, D2, D3, D4, D5, D6, D7, D8, D9, Hnest.
  assert (Hh4 : heap st4 = heap st3) by (by rewrite E4).
  assert (Hty4 : types st4 = types st3) by (by rewrite E4).
  assert (Hr : forall c x, x ∈ refs st5 c <->
            x ∈ refs st c \/ c = Client (it_ID it) /\ x = RItem n).
  { intros c x. unfold refs at 1. rewrite D1, E4. cbn. rewrite lookup_insert, Hc.
    fold (refs st c). case_decide; [subst; cbn|by intuition congruence].
    rewrite elem_of_app, list_elem_of_singleton. naive_solver. }
  assert (HT : forall q, is_Some (types st !! q) -> is_Some (types st5 !! q)).
  { intros q Hq. apply D8. rewrite Hty4. by apply Ht3. }
  split_and!.
  - split.
    + auto.
    + destruct (inv_acyclic _ Hinv) as [ord Hlk]. unfold acyclic.
      rewrite D7. unfold chains. rewrite Hh4. fold (chains st3). rewrite Hch.
      eapply insert_linked; [exact Hlk|apply chains_fresh, Hinv|apply link_fits].
    + intros k x5 Hx5. destruct (D5 _ _ Hx5) as (x4 & Hx4 & Hc45). rewrite Hh4 in Hx4.
      destruct (He3 _ _ Hx4) as [[-> Hc3]|(x & Hx & Hc3)].
      * destruct (core_trans _ _ _ Hc3 Hc45) as (C1 & C2 & C3). split_and!.
        -- rewrite C2. intros q Hq. apply HT. by apply (rd_parent _ _ Hrd).
        -- rewrite C1. apply Hr. by right.
        -- intros tr nm Hcx. by eapply Hnest, C3.
      * eapply item_ok_mono; [by apply (inv_items _ Hinv)|by eapply core_trans|exact HT|].
        intros c y Hy. apply Hr. by left.
    + intros q t Hq. destruct (D9 _ _ Hq) as [H4|(H1 & H2 & H3 & ->)].
      * rewrite Hty4 in H4. eapply type_ok_mono; [by eapply Hto3|].
        intros k. by rewrite D6, Hh4.
      * unfold type_ok. rewrite H1, H2, H3. split_and!; [done|by intros ? ?; rewrite lookup_empty|..];
          (intros ? [= <-]; rewrite D6, Hh4; apply Hdom; by right).
    + intros c x [Hin|[_ ->]]%Hr; [by apply (inv_noskip _ Hinv c)|done].
  - split.
    + intros c. rewrite (State_shapes _ _ _ (D2 c)), HS4. case_decide; lia.
    + intros c k Hk. apply D4, append_dead, Hd3, Hk.
    + intros k Hk. rewrite D6, Hh4. apply Hdom. by left.
    + exact HT.
  - intros c. by rewrite (State_shapes _ _ _ (D2 c)), HS4.
Qed.
End Place.
