(* ===== verification/Integrate.v ===== *)
(** * Integration keeps the invariant and makes all the progress it can

    The loops of [integrate] and [retryPending]: they keep [store_inv], only grow
    the store, and stop exactly when every struct left over is blocked. *)

From S2P Require Import Prelude Lib0 Any Content StateVector DeleteSet Struct Update StructStore Doc Links Invariant.

(** ** One struct *)

(** A decoded struct whose clock range does not overflow. *)
Definition struct_fits (s : Struct) : Prop :=
  fresh_struct s /\ 0 <= Clock (StructID s) /\ 0 <= StructLen s
  /\ Clock (StructID s) + StructLen s < two63.

(** The effect of integrating [len] clocks of client [c]. *)
Definition extends (c len : Z) (st st' : Store) : Prop :=
  store_inv st' /\ grows st st'
  /\ forall c', State st' c' = if decide (c = c') then State st c' + len else State st c'.

Lemma append_gc_ok id len st :
  store_inv st -> Clock id = State st (Client id) -> 0 < len -> Clock id + len < two63 ->
  extends (Client id) len st (append_ (RGC id len) st).
Proof.
  intros Hinv Hid Hlen Hend. pose proof (inv_wf _ Hinv) as Hwf.
  assert (HA : Append (RGC id len) st = Ok (append_ (RGC id len) st)).
  { unfold append_, Append. cbn. by rewrite Hid, Z.eqb_refl. }
  assert (Hwf' : store_wf (append_ (RGC id len) st)) by (by eapply Append_wf).
  destruct (Append_inv _ _ _ HA) as [_ E].
  assert (Hr : forall c x, x ∈ refs (append_ (RGC id len) st) c <->
            x ∈ refs st c \/ c = Client id /\ x = RGC id len).
  { intros c x. rewrite E, refs_set_clients. cbn. case_decide; [subst c|intuition congruence].
    rewrite elem_of_app, list_elem_of_singleton. naive_solver. }
  split_and!; [split|split|].
  - done.
  - rewrite E. apply Hinv.
  - intros l x Hx. eapply item_ok_mono; [apply (inv_items _ Hinv); by rewrite E in Hx
      |apply core_refl|by rewrite E|]. intros c r Hin. apply Hr. by left.
  - rewrite E. apply Hinv.
  - intros c x [Hin|[_ ->]]%Hr; [by apply (inv_noskip _ Hinv c)|done].
  - intros c. rewrite (Append_State _ _ _ c Hwf Hwf' HA). cbn. case_decide; lia.
  - apply append_dead.
  - by rewrite E.
  - by rewrite E.
  - intros c. by rewrite (Append_State _ _ _ c Hwf Hwf' HA).
Qed.

Lemma place_ok it st :
  store_inv st -> ready st it -> Clock (it_ID it) = State st (Client (it_ID it)) ->
  0 < Item_Len it -> Clock (it_ID it) + Item_Len it < two63 ->
  extends (Client (it_ID it)) (Item_Len it) st (place it st).
Proof.
  intros Hinv Hrd Hid Hlen Hend. unfold place. destruct (parent it) as [p|] eqn:Hp;
    [|by apply append_gc_ok].
  set (it1 := if in_conflict st it then _ else it).
  assert (H1 : ready st it1 /\ it_ID it1 = it_ID it /\ Item_Len it1 = Item_Len it
            /\ parent it1 = Some p).
  { unfold it1. destruct (in_conflict st it); [|done]. split_and!; try done.
    destruct Hrd as [R1 R2 R3]. split; [|done..]. cbn. intros l Hl.
    apply conflict_loop_dom in Hl as [Hl|Hl]; auto. }
  destruct H1 as (Hrd1 & Hid1 & Hlen1 & Hp1). clearbody it1.
  destruct (link_left it1 p (next st) st) as [r st1] eqn:El.
  rewrite <- Hid1, <- Hlen1 in *.
  exact (place_inv st it1 p r st1 Hinv Hrd1 Hid Hlen Hend El).
Qed.

Lemma trim_ok it off st o st' :
  store_inv st -> ready st it -> 0 <= Clock (it_ID it) -> 0 < off < Item_Len it ->
  Clock (it_ID it) + off = State st (Client (it_ID it)) -> trim it off st = (o, st') ->
  settles st st'
  /\ forall it', o = Some it' ->
       ready st' it' /\ it_ID it' = NewID (Client (it_ID it)) (Clock (it_ID it) + off)
       /\ Item_Len it' = Item_Len it - off.
Proof.
  intros Hinv Hrd H0 Hoff Hst H. unfold trim in H.
  pose proof (State_range _ (inv_wf _ Hinv) (Client (it_ID it))) as Hrange.
  rewrite (u64_small (Clock (it_ID it) + off)) in H by (unfold two63, two64 in *; lia).
  rewrite (u64_small (Clock (it_ID it) + off - 1)) in H by (unfold two63, two64 in *; lia).
  cbn [it_ID set_ID Client] in H.
  destruct (GetItemCleanEnd _ _) as [[l st1]|] eqn:Eg.
  - apply GetItemCleanEnd_settles in Eg as (Hs & x & Hx & _); [|done|cbn; lia].
    cbn [it_Content set_Origin set_left set_ID] in H.
    destruct (Splice (it_Content it) off) as [[hd tl]|] eqn:Esp; simplify_eq; (split; [done|]).
    + intros it' [= <-]. destruct (Splice_Len _ _ _ _ Esp) as [_ Ht]; [unfold Item_Len in *; lia|].
      split_and!; [|done|exact Ht].
      apply (ready_grows _ _ _ (se_grows _ _ Hs)) in Hrd as [R1 R2 R3].
      split; [|done..]. cbn. intros ? [= <-]. eauto.
    + done.
  - simplify_eq. split; [by apply settles_refl|done].
Qed.

(** Integrating a struct adds its clocks from [off] on, or, where the code gives
    up on a split, nothing. *)
Lemma integrateStruct_ok s off st :
  store_inv st -> (forall it, s = SItem it -> ready st it) ->
  (match s with SSkip _ _ => False | _ => True end) ->
  0 <= Clock (StructID s) -> 0 <= off < StructLen s ->
  Clock (StructID s) + StructLen s < two63 ->
  Clock (StructID s) + off = State st (Client (StructID s)) ->
  let st' := integrateStruct s off st in
  extends (Client (StructID s)) (StructLen s - off) st st'
  \/ settles st st' /\ 0 < off.
Proof.
  intros Hinv Hrd Hns H0 Hoff Hend Hst. destruct s as [id len|id len|it]; [|done|];
    cbn [integrateStruct StructID StructLen] in *.
  - left. case_if.
    + rewrite u64_small by (unfold two63, two64 in *; lia).
      apply (append_gc_ok (NewID (Client id) (Clock id + off))); cbn; [done|lia..].
    + replace off with 0 in * by lia. rewrite Z.sub_0_r. apply append_gc_ok; [done|lia..].
  - specialize (Hrd it eq_refl). unfold integrateItem. case_if.
    + assert (Hoff' : 0 < off < Item_Len it) by lia.
      destruct (trim it off st) as [[it'|] st1] eqn:Et;
        destruct (trim_ok _ _ _ _ _ Hinv Hrd H0 Hoff' Hst Et) as [Hs Ho].
      * left. destruct (Ho it' eq_refl) as (Hrd' & Hid' & Hlen').
        destruct Hs as [S1 S2 [S3 S4]].
        assert (extends (Client (it_ID it')) (Item_Len it') st1 (place it' st1)) as (E1 & E2 & E3).
        { apply place_ok; try done; rewrite ?Hid', ?Hlen', ?S3; cbn; lia. }
        rewrite Hid', Hlen' in E3. cbn in E3. split_and!; [done|by etrans|].
        intros c. by rewrite E3, S3.
      * right. split; [done|lia].
    + left. replace off with 0 in * by lia. rewrite Z.sub_0_r. apply place_ok; (done || lia).
Qed.

(** ** One queue *)

(** Nothing of the queue can be consumed now. *)
Definition blocked (st : Store) (q : list Struct) : Prop := drain q st = (q, st, false).

(** What [resolve] does to a decoded struct: the same range, ready to place. *)
Lemma resolve_ok s st s' st' :
  store_inv st -> fresh_struct s -> resolve s st = Some (s', st') ->
  settles st st' /\ (forall it, s' = SItem it -> ready st' it)
  /\ StructID s' = StructID s /\ StructLen s' = StructLen s
  /\ (match s with SSkip _ _ => False | _ => True end ->
      match s' with SSkip _ _ => False | _ => True end).
Proof.
  intros Hinv Hf H. destruct s as [id len|id len|it]; cbn in H;
    [injection H as <- <-; split_and!; [by apply settles_refl|done..]..|].
  destruct (resolve_item it st) as [[it' st1]|] eqn:E; [|done]. injection H as <- <-.
  apply resolve_item_ok in E as (Hs & Hrd & Hi1 & Hi2 & _); [|done..].
  split_and!; [done|by intros ? [= <-]|done| |done]. cbn. unfold Item_Len. by rewrite Hi2.
Qed.

(** The outcome of consuming structs: the store moved forward, a prefix of the
    queue is gone. *)
Record drained (q : list Struct) (st : Store) (q' : list Struct) (st' : Store) (b : bool) : Prop := {
  dr_inv : store_inv st';
  dr_grows : grows st st';
  dr_suffix : q' `suffix_of` q;
  dr_progress : if b then (length q' < length q)%nat else q' = q /\ st' = st;
  dr_blocked : blocked st' q';
}.

Lemma drained_consume s rest st st1 q' st' b :
  grows st st1 -> drained rest st1 q' st' b -> drained (s :: rest) st q' st' true.
Proof.
  intros Hg [H1 H2 H3 H4 H5]. split; [done|by etrans|by apply suffix_cons_r| |done].
  apply suffix_length in H3. cbn. lia.
Qed.

Lemma drained_stop q st : store_inv st -> blocked st q -> drained q st q st false.
Proof. by split. Qed.

Lemma head_offset st s :
  store_inv st -> 0 <= Clock (StructID s) ->
  Clock (StructID s) <= State st (Client (StructID s)) ->
  s64 (u64 (State st (Client (StructID s)) - Clock (StructID s)))
  = State st (Client (StructID s)) - Clock (StructID s).
Proof.
  intros Hinv H0 H. pose proof (State_range _ (inv_wf _ Hinv) (Client (StructID s))).
  rewrite u64_small, s64_small; unfold two63, two64 in *; lia.
Qed.

Lemma drain_ok q : forall st q' st' b,
  store_inv st -> Forall struct_fits q -> drain q st = (q', st', b) -> drained q st q' st' b.
Proof.
  induction q as [|s rest IH]; intros st q' st' b Hinv Hfit H.
  { cbn in H. simplify_eq. by apply drained_stop. }
  apply Forall_cons in Hfit as [(Hf & H0 & Hl & He) Hrest].
  assert (Hgo : forall st1, store_inv st1 -> grows st st1 ->
    (let '(q, s2, _) := drain rest st1 in (q, s2, true)) = (q', st', b) ->
    drained (s :: rest) st q' st' b).
  { intros st1 Hi1 Hg1 Hd. destruct (drain rest st1) as [[q2 st2] b2] eqn:Ed. simplify_eq.
    by eapply drained_consume, IH. }
  pose proof H as Hall. cbn [drain] in H.
  assert (Hskip : (match s with SSkip _ _ => False | _ => True end) \/
                  exists id n, s = SSkip id n) by (destruct s; eauto).
  destruct Hskip as [Hns|(id & n & ->)]; [|by eapply Hgo].
  assert (Hif : forall (A : Type) (a c : A),
    match s with SSkip _ _ => a | _ => c end = c) by (by destruct s).
  rewrite Hif in H. clear Hif. cbn zeta in H. case_if.
  { simplify_eq. by apply drained_stop. }
  rewrite (head_offset _ _ Hinv H0 E) in H. case_if; [by eapply Hgo|].
  destruct (resolve s st) as [[s1 st1]|] eqn:Er; [|simplify_eq; by apply drained_stop].
  destruct (resolve_ok _ _ _ _ Hinv Hf Er) as ([S1 S2 [S3 S4]] & Hrd & Hid & Hlen & Hns').
  destruct (integrateStruct_ok s1 (State st (Client (StructID s)) - Clock (StructID s)) st1)
    as [(K1 & K2 & _)|[[K1 K2 _] _]]; rewrite ?Hid, ?Hlen, ?S3; try done; try lia.
  - by apply Hns'.
  - eapply Hgo; [done|by etrans|done].
  - eapply Hgo; [done|by etrans|done].
Qed.

(** ** Rounds over all the queues *)

Definition total (order : list Z) (qs : Queues) : nat :=
  sum_list_with (fun c => length (queue_of qs c)) order.

Definition queues_fit (qs : Queues) : Prop := forall c, Forall struct_fits (queue_of qs c).

Record rounded (order : list Z) (qs : Queues) (st : Store) (qs' : Queues) (st' : Store) (b : bool)
    : Prop := {
  ro_inv : store_inv st';
  ro_grows : grows st st';
  ro_suffix : forall c, queue_of qs' c `suffix_of` queue_of qs c;
  ro_other : forall c, c ∉ order -> queue_of qs' c = queue_of qs c;
  ro_total : (total order qs' <= total order qs)%nat;
  ro_progress : if b then (total order qs' < total order qs)%nat
    else (forall c, queue_of qs' c = queue_of qs c) /\ st' = st
         /\ forall c, c ∈ order -> blocked st (queue_of qs c);
}.

Lemma queue_of_insert qs c q c' :
  queue_of (<[c := q]> qs) c' = if decide (c = c') then q else queue_of qs c'.
Proof. unfold queue_of. rewrite lookup_insert. by case_decide. Qed.

Lemma suffix_fits q q' : q' `suffix_of` q -> Forall struct_fits q -> Forall struct_fits q'.
Proof. intros [k ->] H. by apply Forall_app in H as [_ ?]. Qed.

Lemma suffix_queues_fit qs qs' :
  (forall c, queue_of qs' c `suffix_of` queue_of qs c) -> queues_fit qs -> queues_fit qs'.
Proof. intros Hs H c. eapply suffix_fits; [apply Hs|apply H]. Qed.

Lemma total_ext order qs qs' :
  (forall c, c ∈ order -> queue_of qs' c = queue_of qs c) -> total order qs' = total order qs.
Proof.
  unfold total. induction order as [|c order IH]; intros H; cbn; [done|].
  rewrite H by set_solver. f_equal. apply IH. intros. apply H. set_solver.
Qed.

Lemma round_ok order : forall qs st qs' st' b,
  NoDup order -> store_inv st -> queues_fit qs -> round order qs st = (qs', st', b) ->
  rounded order qs st qs' st' b.
Proof.
  induction order as [|c order IH]; intros qs st qs' st' b Hnd Hinv Hfit H; cbn in H.
  { simplify_eq. split; try done. set_solver. }
  apply NoDup_cons in Hnd as [Hc Hnd].
  destruct (drain (queue_of qs c) st) as [[q st1] b1] eqn:Ed.
  destruct (round order (<[c:=q]> qs) st1) as [[qs2 st2] b2] eqn:Er. simplify_eq.
  apply drain_ok in Ed as [D1 D2 D3 D4 D5]; [|done..].
  assert (Hs : forall c', queue_of (<[c:=q]> qs) c' `suffix_of` queue_of qs c').
  { intros c'. rewrite queue_of_insert. by case_decide; subst. }
  apply IH in Er as [R1 R2 R3 R4 R5 R6]; [|done..|by eapply suffix_queues_fit].
  assert (Ht : total order (<[c:=q]> qs) = total order qs).
  { apply total_ext. intros c' Hc'. rewrite queue_of_insert, decide_False; [done|].
    by intros ->. }
  assert (Hq : queue_of qs' c = q).
  { rewrite R4 by done. by rewrite queue_of_insert, decide_True. }
  pose proof (suffix_length _ _ D3) as Hlen.
  split; [done|by etrans| | | |].
  - intros c'. etrans; [apply R3|apply Hs].
  - intros c' [Hne Hc']%not_elem_of_cons. rewrite R4 by done.
    by rewrite queue_of_insert, decide_False.
  - unfold total in *. cbn. rewrite Hq. lia.
  - destruct b1; cbn [orb].
    + unfold total in *. cbn. rewrite Hq. lia.
    + destruct D4 as [-> ->]. destruct b2.
      * unfold total in *. cbn. rewrite Hq. lia.
      * destruct R6 as (R6 & -> & R7).
        assert (Hsame : forall c', queue_of (<[c:=queue_of qs c]> qs) c' = queue_of qs c').
        { intros c'. rewrite queue_of_insert. by case_decide; subst. }
        split_and!; [intros c'; by rewrite R6|done|].
        intros c' [->|Hc']%elem_of_cons; [done|]. rewrite <- Hsame. auto.
Qed.

Lemma rounds_ok fuel order : forall qs st qs' st',
  NoDup order -> store_inv st -> queues_fit qs -> (total order qs < fuel)%nat ->
  rounds fuel order qs st = (qs', st') ->
  store_inv st' /\ grows st st' /\ (forall c, queue_of qs' c `suffix_of` queue_of qs c)
  /\ (forall c, c ∈ order -> blocked st' (queue_of qs' c))
  /\ (total order qs' <= total order qs)%nat
  /\ (total order qs' = total order qs -> st' = st /\ forall c, queue_of qs' c = queue_of qs c).
Proof.
  induction fuel as [|fuel IH]; intros qs st qs' st' Hnd Hinv Hfit Hf H; [lia|].
  cbn in H. destruct (round order qs st) as [[qs1 st1] b] eqn:Er.
  apply round_ok in Er as [R1 R2 R3 R4 R5 R6]; [|done..]. destruct b.
  - apply IH in H as (K1 & K2 & K3 & K4 & K5 & K6);
      [|done..|by eapply suffix_queues_fit|lia].
    split_and!; [done|by etrans|intros c; etrans; [apply K3|apply R3]|done|lia..].
  - simplify_eq. destruct R6 as (R6 & -> & R7). split_and!; try done.
    intros c Hc. rewrite R6. auto.
Qed.

(** ** [integrate] *)

Definition blocks_fit (bs : list ClientBlock) : Prop :=
  Forall (fun b => Forall struct_fits (Structs b)) bs.
Definition update_fits (u : Update) : Prop := blocks_fit (Clients u).

Definition update_blocked (st : Store) (u : Update) : Prop :=
  Forall (fun b => blocked st (Structs b)) (Clients u).

Lemma total_insert order qs c q :
  NoDup order -> c ∈ order ->
  (total order (<[c := q]> qs) + length (queue_of qs c) = total order qs + length q)%nat.
Proof.
  unfold total. induction order as [|x order IH]; intros Hnd Hc; [set_solver|].
  apply NoDup_cons in Hnd as [Hx Hnd]. cbn. rewrite queue_of_insert.
  destruct (decide (c = x)) as [->|Hne].
  - pose proof (total_ext order qs (<[x:=q]> qs)) as Ht. unfold total in Ht.
    rewrite Ht; [lia|]. intros c' Hc'. rewrite queue_of_insert, decide_False; [done|].
    by intros ->.
  - apply elem_of_cons in Hc as [?|Hc]; [done|]. specialize (IH Hnd Hc). lia.
Qed.

Lemma struct_count_app a b : struct_count (a ++ b) = (struct_count a + struct_count b)%nat.
Proof. unfold struct_count. by rewrite sum_list_with_app. Qed.

Lemma queues_ok blocks order qs :
  queues blocks = (order, qs) -> blocks_fit blocks ->
  NoDup order /\ (forall c, c ∈ order <-> is_Some (qs !! c)) /\ queues_fit qs
  /\ total order qs = struct_count blocks.
Proof.
  unfold queues. revert order qs.
  induction blocks as [|b blocks IH] using rev_ind; intros order qs H Hfit.
  { cbn in H. simplify_eq. split_and!; [constructor| |by intros c|done].
    intros c. rewrite lookup_empty, elem_of_nil. split; [done|by intros [? ?]]. }
  rewrite foldl_snoc in H. destruct (foldl enqueue ([], ∅) blocks) as [order0 qs0].
  apply Forall_app in Hfit as [Hfit [Hb _]%Forall_cons].
  destruct (IH _ _ eq_refl Hfit) as (Hnd & Hdom & Hq & Ht). clear IH. cbn in H.
  set (c := CB_Client b) in *. set (o := match qs0 !! c with Some _ => _ | None => _ end) in H.
  assert (Ho : NoDup o /\ c ∈ o /\ (forall x, x ∈ o <-> x ∈ order0 \/ x = c)
            /\ total o qs0 = total order0 qs0).
  { unfold o. destruct (qs0 !! c) as [q|] eqn:E.
    - assert (c ∈ order0) by (apply Hdom; eauto). split_and!; [done..| |done]. set_solver.
    - assert (c ∉ order0) by (rewrite Hdom, E; by intros [? ?]). split_and!; try set_solver.
      + apply NoDup_app. split_and!; [done|set_solver|apply NoDup_singleton].
      + unfold total. rewrite sum_list_with_app. cbn. unfold queue_of at 2. rewrite E. cbn. lia. }
  destruct Ho as (Hndo & Hco & Hin & Hto). injection H as <- <-. split_and!; [done| | |].
  - intros x. rewrite Hin, Hdom, lookup_insert_is_Some. destruct (decide (c = x)); subst; naive_solver.
  - intros x. rewrite queue_of_insert. case_decide; [|apply Hq]. apply Forall_app. split; [apply Hq|exact Hb].
  - pose proof (total_insert o qs0 c (queue_of qs0 c ++ Structs b) Hndo Hco) as Hti.
    rewrite length_app in Hti. rewrite struct_count_app. unfold struct_count at 2. cbn. lia.
Qed.

Lemma leftover_ok order qs st :
  queues_fit qs -> (forall c, c ∈ order -> blocked st (queue_of qs c)) ->
  blocks_fit (leftover order qs) /\ struct_count (leftover order qs) = total order qs
  /\ Forall (fun b => blocked st (Structs b)) (leftover order qs).
Proof.
  intros Hfit. unfold leftover, total, blocks_fit.
  induction order as [|c order IH]; intros Hb; cbn; [done|].
  specialize (Hfit c) as Hc. specialize (Hb c ltac:(set_solver)) as Hbc.
  destruct IH as (H1 & H2 & H3); [intros; apply Hb; set_solver|].
  destruct (queue_of qs c) as [|s q] eqn:E; [done|].
  split_and!; [by constructor| |by constructor].
  unfold struct_count in *. cbn. lia.
Qed.

(** What [integrate] does to the document: the store grows, and at most one
    update, all of whose queues are blocked, joins the pending ones.  When no
    struct was consumed the store is unchanged. *)
Record integrated (u : Update) (d d' : Doc) : Prop := {
  in_inv : store_inv (store d');
  in_grows : grows (store d) (store d');
  in_deletes : pendingDeletes d' = pendingDeletes d;
  in_pending : exists new, pending d' = pending d ++ new
    /\ Forall update_fits new /\ Forall (update_blocked (store d')) new
    /\ (pending_structs new <= struct_count (Clients u))%nat
    /\ (pending_structs new = struct_count (Clients u) -> store d' = store d);
}.

Lemma integrate_ok u d :
  store_inv (store d) -> update_fits u -> integrated u d (integrate u d).
Proof.
  intros Hinv Hfit. unfold integrate.
  destruct (queues (Clients u)) as [order qs] eqn:Eq.
  destruct (queues_ok _ _ _ Eq Hfit) as (Hnd & Hdom & Hq & Ht).
  destruct (rounds _ order qs (store d)) as [qs' st'] eqn:Er.
  apply rounds_ok in Er as (R1 & R2 & R3 & R4 & R5 & R6); [|done..|lia].
  pose proof (leftover_ok order qs' st' (suffix_queues_fit _ _ R3 Hq) R4) as (L1 & L2 & L3).
  destruct (leftover order qs') as [|b bs] eqn:El.
  - split; [done..|]. exists []. rewrite app_nil_r. split_and!; [done..|cbn; lia|].
    cbn. intros H0. apply R6. cbn in L2. lia.
  - split; [done..|]. exists [MkUpdate (b :: bs) (Some NewDeleteSet)]. unfold pending_structs.
    cbn [sum_list_with Clients]. rewrite Nat.add_0_r, L2.
    split_and!; [done|(constructor; [done|constructor])..|lia|]. intros H0. apply R6. lia.
Qed.
