(* ===== verification/Deletion.v ===== *)
(** * Deletions

    What [deleteRange] and [applyDeleteSet] of [internal/crdt/doc.go] do to the
    set of deleted clocks, and that the delete set the document reports is that
    set. *)

From S2P Require Import Prelude Lib0 Any Content StateVector DeleteSet Struct Update StructStore Doc Links Invariant Integrate.

(** ** Split points *)

(** An item's id, content and deleted bit. *)
Definition body (it : Item) : ID * Content * bool := (it_ID it, it_Content it, deleted it).
Definition bodies (st : Store) : gmap loc (ID * Content * bool) := body <$> heap st.

(** Clock [k] of client [c] is not strictly inside a live item that cannot be
    split there, which is an item whose text has a surrogate pair across [k]. *)
Definition splits (st : Store) (c k : Z) : Prop :=
  forall l id content b,
    RItem l ∈ refs st c -> bodies st !! l = Some (id, content, b) ->
    Clock id < k < Clock id + Len content ->
    b = true \/ is_ok (Splice content (k - Clock id)) = true.

Lemma bodies_alter_same f l (h : gmap loc Item) :
  (forall it, body (f it) = body it) -> body <$> alter f l h = body <$> h.
Proof.
  intros Hf. apply map_eq. intros k. rewrite !lookup_fmap, lookup_alter.
  case_decide; [subst|done]. destruct (h !! k); cbn; [by rewrite Hf|done].
Qed.

Lemma bodies_split l off i st n st' it hd tl :
  heap st !! l = Some it -> Splice (it_Content it) off = Ok (hd, tl) ->
  splitItem l off i st = Ok (n, st') ->
  bodies st' = <[n := (NewID (Client (it_ID it)) (u64 (Clock (it_ID it) + off)), tl, deleted it)]>
                 (<[l := (it_ID it, hd, deleted it)]> (bodies st)).
Proof.
  intros Hl Hs H. unfold splitItem in H. rewrite Hl, Hs in H. cbn [mbind res_bind] in H.
  injection H as <- <-. unfold bodies.
  match goal with |- body <$> heap ?s = _ =>
    assert (body <$> heap s = body <$> <[next st := split_right it l off tl]>
              (alter (set_Content hd) l (heap st))) as -> end.
  { destruct (right it), (parent it), (HasParentSub it); cbn;
      rewrite ?(bodies_alter_same (set_right _)), ?(bodies_alter_same (set_left _)) by done; done. }
  rewrite fmap_insert. f_equal. apply map_eq. intros k.
  rewrite lookup_fmap, lookup_alter, lookup_insert, lookup_fmap.
  case_decide; [subst|done]. by rewrite Hl.
Qed.

Section SplitPoints.
Context (l : loc) (off : Z) (i : nat) (st : Store) (n : loc) (st' : Store) (it : Item) (c : Z).
Context (Hwf : store_wf st) (Hi : refs st c !! i = Some (RItem l)).
Context (Hl : heap st !! l = Some it) (Hoff : 0 < off < Item_Len it).
Context (Hsplit : splitItem l off i st = Ok (n, st')).

Lemma splits_split c' k : splits st c' k -> splits st' c' k.
Proof.
  intros Hsp l' id content b Hin Hb Hk.
  destruct (split_facts _ _ _ _ _ _ _ _ Hwf Hi Hl Hoff Hsplit) as (Hn & _ & Hrefs & _).
  destruct (split_clock _ _ _ _ _ _ Hwf Hi Hl Hoff) as (Hu & Hid & H0 & H1).
  destruct (split_splice _ _ _ _ _ _ _ Hl Hoff Hsplit) as (hd & tl & Hs & Hh & Ht).
  rewrite (bodies_split _ _ _ _ _ _ _ _ _ Hl Hs Hsplit), Hu in Hb.
  assert (Hold : RItem l' ∈ refs st c' \/ c' = c /\ l' = n).
  { rewrite Hrefs in Hin. case_decide; [subst c'|by left].
    apply elem_of_app in Hin as [Hin|Hin].
    - left. rewrite <- (take_drop (S i) (refs st c)), elem_of_app. by left.
    - apply elem_of_cons in Hin as [Hin|Hin]; [right; naive_solver|].
      left. rewrite <- (take_drop (S i) (refs st c)), elem_of_app. by right. }
  assert (Hlc : RItem l ∈ refs st c) by (by eapply list_elem_of_lookup_2).
  assert (Hit : bodies st !! l = Some (it_ID it, it_Content it, deleted it))
    by (unfold bodies; by rewrite lookup_fmap, Hl).
  pose proof (Hsp l (it_ID it) (it_Content it) (deleted it)) as Hspl.
  unfold Item_Len in *. rewrite !lookup_insert in Hb. repeat case_decide; simplify_eq.
  - destruct Hold as [Hold|[-> _]].
    { apply list_elem_of_lookup in Hold as [j Hj]. pose proof (ref_lt_next _ _ _ _ Hwf Hj). lia. }
    cbn in Hk. destruct (Hspl Hlc Hit) as [Hd|Hok]; [lia|by left|right].
    destruct (Splice_again _ _ (k - Clock (it_ID it)) _ _ Hs) as [_ Hag]; [lia..|done|].
    cbn. replace (k - (Clock (it_ID it) + Len hd)) with (k - Clock (it_ID it) - Len hd) by lia.
    apply Hag. lia.
  - assert (c' = c) as ->.
    { destruct Hold as [Hold|[-> ->]]; [|done].
      apply list_elem_of_lookup in Hold as [j Hj].
      by destruct (ref_unique _ _ _ _ _ _ Hwf Hj Hi). }
    destruct (Hspl Hlc Hit) as [Hd|Hok]; [lia|by left|right].
    destruct (Splice_again _ _ (k - Clock (it_ID it)) _ _ Hs) as [Hag _]; [lia..|done|].
    apply Hag. lia.
  - destruct Hold as [Hold|[_ ->]]; [|done]. by eapply Hsp.
Qed.
End SplitPoints.

(** Deleting an item changes no content. *)
Lemma splits_delete l st c k : splits st c k -> splits (deleteItem l st) c k.
Proof.
  intros Hsp l' id content b Hin Hb Hk.
  destruct (deleteItem_frame l st) as (D1 & _).
  unfold refs in Hin. rewrite D1 in Hin. fold (refs st c) in Hin.
  destruct (deleteItem_cases l st) as [E|E]; rewrite E in Hb; [exact (Hsp l' id content b Hin Hb Hk)|].
  unfold bodies in Hb. cbn in Hb. rewrite lookup_fmap, lookup_alter in Hb.
  case_decide; [subst|apply (Hsp l' id content b); [done|unfold bodies; by rewrite lookup_fmap|done]].
  destruct (heap st !! l') as [x|]; [|done]. injection Hb as <- <- <-. by left.
Qed.

(** ** Deleting one item, exactly *)

Lemma deleteItem_dead_iff l st it c k :
  heap st !! l = Some it ->
  dead_at (deleteItem l st) c k
  <-> dead_at st c k
      \/ RItem l ∈ refs st c /\ Clock (it_ID it) <= k < Clock (it_ID it) + Item_Len it.
Proof.
  intros Hl. unfold deleteItem. rewrite Hl, !dead_at_refs. destruct (deleted it) eqn:Ed.
  - split; [auto|]. intros [?|[Hin Hk]]; [done|]. exists (RItem l).
    unfold ref_id. cbn. rewrite Hl. done.
  - assert (Hsh : forall r, shape (view (heap (upd_item l (set_deleted true) st)) r)
                            = shape (view (heap st) r)) by (intros r; by apply view_upd).
    assert (E1 : forall r, StructID (view (heap (upd_item l (set_deleted true) st)) r)
      = StructID (view (heap st) r)) by (intros r; exact (f_equal fst (Hsh r))).
    assert (E2 : forall r, StructLen (view (heap (upd_item l (set_deleted true) st)) r)
      = StructLen (view (heap st) r)) by (intros r; exact (f_equal snd (Hsh r))).
    assert (Hd : forall r, dead (view (heap (upd_item l (set_deleted true) st)) r) = true
              <-> dead (view (heap st) r) = true \/ r = RItem l).
    { intros [| |q]; cbn; [split; [by left|by intros [?|?]]..|]. rewrite lookup_alter.
      destruct (decide (l = q)) as [->|Hne]; [rewrite Hl; cbn; split; [by right|done]|].
      split; [by left|]. intros [?|?]; [done|congruence]. }
    unfold ref_id. split.
    + intros (r & Hr & Hdr & Hk). rewrite E1, E2 in Hk.
      apply Hd in Hdr as [Hdr| ->]; [left; eauto|]. right. split; [done|].
      cbn in Hk. by rewrite Hl in Hk.
    + intros [(r & Hr & Hdr & Hk)|[Hin Hk]].
      * exists r. rewrite E1, E2. split_and!; [done|by apply Hd; left|lia..].
      * exists (RItem l). rewrite E1, E2.
        split_and!; [done|by apply Hd; right|..]; cbn; rewrite Hl; cbn; lia.
Qed.

Lemma slen_take_shapes st c i :
  slen (take i (Store_Structs st c)) = slen_s (take i (shapes st c)).
Proof. rewrite slen_shapes. unfold shapes. by rewrite !firstn_map. Qed.

(** ** A range *)

(** Deleting the clocks of [client] from [lo] up to [hi]: exact when [hi] is a
    split point. *)
Record range_deleted (client lo hi : Z) (st st' : Store) : Prop := {
  rg_inv : store_inv st';
  rg_grows : grows st st';
  rg_state : forall c, State st' c = State st c;
  rg_splits : forall c k, splits st c k -> splits st' c k;
  rg_dead : splits st client hi -> forall c k,
    dead_at st' c k <-> dead_at st c k \/ c = client /\ lo <= k < hi /\ k < State st client;
}.

Lemma range_deleted_none client lo hi st :
  store_inv st -> (forall k, lo <= k < hi -> k < State st client -> dead_at st client k) ->
  range_deleted client lo hi st st.
Proof.
  intros Hinv Hd. split; try done. intros _ c k. split; [by left|].
  intros [?|(-> & H1 & H2)]; auto.
Qed.

(** The first part of a range and the rest. *)
Lemma range_deleted_seq client lo mid hi st st1 st2 :
  lo <= mid ->
  store_inv st1 -> grows st st1 -> (forall c, State st1 c = State st c) ->
  (forall c k, splits st c k -> splits st1 c k) ->
  (splits st client hi -> forall c k, dead_at st1 c k <->
     dead_at st c k \/ c = client /\ lo <= k < hi /\ k < mid /\ k < State st client) ->
  range_deleted client mid hi st1 st2 -> range_deleted client lo hi st st2.
Proof.
  intros Hm Hinv Hg Hs Hsp Hd [R1 R2 R3 R4 R5]. split; auto.
  - by etrans.
  - intros c. by rewrite R3.
  - intros Hh c k. rewrite (R5 (Hsp _ _ Hh)), (Hd Hh), Hs.
    destruct (decide (k < mid)); split; intuition lia.
Qed.

Lemma entry_at st c i r :
  store_wf st -> refs st c !! i = Some r ->
  Clock (ref_id st r) = slen (take i (Store_Structs st c)) /\ Client (ref_id st r) = c
  /\ slen (take (S i) (Store_Structs st c))
     = slen (take i (Store_Structs st c)) + StructLen (view (heap st) r)
  /\ 0 < StructLen (view (heap st) r)
  /\ 0 <= slen (take i (Store_Structs st c))
  /\ slen (take i (Store_Structs st c)) + StructLen (view (heap st) r) <= State st c.
Proof.
  intros Hwf Hi.
  assert (Hs : Store_Structs st c !! i = Some (view (heap st) r)).
  { unfold Store_Structs. change (map ?f ?l) with (f <$> l). by rewrite list_lookup_fmap, Hi. }
  destruct (struct_end_lookup st Hwf _ _ _ Hs) as (_ & H1 & H2 & H3 & Hid).
  destruct (contig_lookup _ _ _ _ _ (proj1 (wf_gapless _ Hwf c)) Hs) as (_ & _ & Hle).
  unfold ref_id. rewrite Hid. cbn. rewrite (take_S_r _ _ _ Hs), slen_app, State_slen by done.
  cbn. split_and!; try done; lia.
Qed.

(** Skipping an entry that is already deleted, or lies past the range. *)
Lemma skip_dead client lo to st st2 i r :
  store_inv st -> refs st client !! i = Some r ->
  lo = slen (take i (Store_Structs st client)) ->
  dead (view (heap st) r) = true ->
  range_deleted client (slen (take (S i) (Store_Structs st client))) to st st2 ->
  range_deleted client lo to st st2.
Proof.
  intros Hinv Hi -> Hd Hr. pose proof (inv_wf _ Hinv) as Hwf.
  destruct (entry_at _ _ _ _ Hwf Hi) as (H1 & H2 & H3 & H4 & H5 & H6).
  apply (range_deleted_seq _ _ (slen (take (S i) (Store_Structs st client))) _ _ st);
    [lia|done..| |exact Hr].
  intros _ c k. split; [by left|]. intros [?|(-> & K1 & K2 & K3)]; [done|].
  apply dead_at_refs. exists r. split_and!; [by eapply list_elem_of_lookup_2|done|lia..].
Qed.

(** Deleting an item that ends inside the range. *)
Lemma delete_whole client lo to st st2 i l it :
  store_inv st -> refs st client !! i = Some (RItem l) -> heap st !! l = Some it ->
  lo = slen (take i (Store_Structs st client)) -> Clock (it_ID it) + Item_Len it <= to ->
  range_deleted client (slen (take (S i) (Store_Structs (deleteItem l st) client))) to
    (deleteItem l st) st2 ->
  range_deleted client lo to st st2.
Proof.
  intros Hinv Hi Hl -> Hle Hr. pose proof (inv_wf _ Hinv) as Hwf.
  destruct (entry_at _ _ _ _ Hwf Hi) as (H1 & H2 & H3 & H4 & H5 & H6).
  destruct (deleteItem_inv l st Hinv) as [D1 D2].
  unfold ref_id in *. cbn [view] in *. rewrite Hl in *. cbn [StructID StructLen] in *.
  rewrite slen_take_shapes, (deleteItem_shapes l st client), <- slen_take_shapes in Hr.
  eapply range_deleted_seq; [|exact D1|exact D2|..|exact Hr].
  - lia.
  - intros c. apply State_shapes, deleteItem_shapes.
  - intros c k. apply splits_delete.
  - intros _ c k. rewrite (deleteItem_dead_iff _ _ _ _ _ Hl).
    split; (intros [?|K]; [by left|right]).
    + destruct K as [Hin K]. apply list_elem_of_lookup in Hin as [j Hj].
      destruct (ref_unique _ _ _ _ _ _ Hwf Hj Hi) as [-> ->]. lia.
    + destruct K as (-> & K1 & K2 & K3). split; [by eapply list_elem_of_lookup_2|lia].
Qed.

(** Splitting the item that straddles the end, and deleting its head. *)
Lemma delete_head client lo to st i l it n st1 :
  store_inv st -> refs st client !! i = Some (RItem l) -> heap st !! l = Some it ->
  lo = slen (take i (Store_Structs st client)) ->
  Clock (it_ID it) < to < Clock (it_ID it) + Item_Len it ->
  splitItem l (to - Clock (it_ID it)) i st = Ok (n, st1) ->
  range_deleted client lo to st (deleteItem l st1)
  /\ exists r, refs (deleteItem l st1) client !! S i = Some r
     /\ Clock (ref_id (deleteItem l st1) r) = to.
Proof.
  intros Hinv Hi Hl -> Hto Hsp. pose proof (inv_wf _ Hinv) as Hwf.
  set (off := to - Clock (it_ID it)) in *. assert (Hoff : 0 < off < Item_Len it) by lia.
  destruct (entry_at _ _ _ _ Hwf Hi) as (H1 & H2 & H3 & H4 & H5 & H6).
  unfold ref_id in H1, H2. cbn [view] in *. rewrite Hl in *. cbn [StructID StructLen] in *.
  destruct (split_facts _ _ _ _ _ _ _ _ Hwf Hi Hl Hoff Hsp) as (Hn & _ & Hrefs & _ & Hvl & Hvn & _).
  destruct (split_clock _ _ _ _ _ _ Hwf Hi Hl Hoff) as (Hu & _).
  pose proof (splitItem_inv _ _ _ _ _ _ _ _ Hinv Hi Hl Hoff Hsp) as Hinv1.
  pose proof (splitItem_grows _ _ _ _ _ _ _ _ Hinv Hi Hl Hoff Hsp) as Hg1.
  destruct (deleteItem_inv l st1 Hinv1) as [D1 D2].
  cbn in Hvl. destruct (heap st1 !! l) as [x|] eqn:Ex; [|cbn in Hvl; injection Hvl; lia].
  injection Hvl as Hxid Hxlen _.
  assert (Hlen : (i < length (refs st client))%nat) by (by eapply lookup_lt_Some).
  split.
  - split; [done|by etrans| | |].
    + intros c. rewrite (State_shapes _ _ _ (deleteItem_shapes l st1 c)). by eapply splitItem_State.
    + intros c k Hk. apply splits_delete. by eapply splits_split.
    + intros _ c k. rewrite (deleteItem_dead_iff _ _ _ _ _ Ex).
      rewrite (splitItem_dead _ _ _ _ _ _ _ _ Hwf Hi Hl Hoff Hsp), Hxid, Hxlen.
      split; (intros [?|K]; [by left|right]).
      * destruct K as [Hin K]. apply list_elem_of_lookup in Hin as [j Hj].
        assert (refs st1 client !! i = Some (RItem l)) as Hi1.
        { rewrite Hrefs, decide_True, lookup_app_l, lookup_take, decide_True; try done; try lia.
          rewrite length_take_le; lia. }
        destruct (ref_unique _ _ _ _ _ _ (inv_wf _ Hinv1) Hj Hi1) as [-> ->]. lia.
      * destruct K as (-> & K1 & K2). split; [|lia].
        rewrite Hrefs, decide_True by done. apply elem_of_app. left.
        apply list_elem_of_lookup. exists i. rewrite lookup_take, decide_True by lia. done.
  - exists (RItem n). destruct (deleteItem_frame l st1) as (F1 & _). split.
    + unfold refs. rewrite F1. fold (refs st1 client). rewrite Hrefs, decide_True by done.
      rewrite lookup_app_r, length_take_le; rewrite ?length_take_le; try lia.
      by rewrite Nat.sub_diag.
    + assert (Hs : shape (view (heap (deleteItem l st1)) (RItem n))
        = shape (view (heap st1) (RItem n))).
      { destruct (deleteItem_cases l st1) as [->| ->]; [done|by apply (view_upd shape)]. }
      unfold ref_id. rewrite (f_equal fst Hs : StructID _ = StructID _).
      rewrite (f_equal (fun m => m.1.1) Hvn : StructID _ = _), Hu. cbn. unfold off. lia.
Qed.

Lemma delete_loop_stops fuel client to idx st r :
  refs st client !! idx = Some r -> to <= Clock (ref_id st r) ->
  delete_loop fuel client to idx st = st.
Proof.
  intros Hi Hle. destruct fuel; cbn; [done|]. by rewrite Hi, (proj2 (Z.leb_le _ _) Hle).
Qed.

(** A live item that straddles a split point can be split there. *)
Lemma splits_item st client to i l it :
  splits st client to -> refs st client !! i = Some (RItem l) -> heap st !! l = Some it ->
  deleted it = false -> Clock (it_ID it) < to < Clock (it_ID it) + Item_Len it ->
  exists n st1, splitItem l (to - Clock (it_ID it)) i st = Ok (n, st1).
Proof.
  intros Hs Hi Hl Hd Hto.
  destruct (Hs l (it_ID it) (it_Content it) (deleted it)) as [H|H]; [|..|congruence|].
  - by eapply list_elem_of_lookup_2.
  - unfold bodies. by rewrite lookup_fmap, Hl.
  - done.
  - unfold splitItem. rewrite Hl. destruct (Splice _ _) as [[h t]|]; [|done]. cbn. eauto.
Qed.

Lemma delete_loop_ok fuel client to : forall idx st,
  store_inv st -> 0 <= to < two63 -> (length (refs st client) - idx <= fuel)%nat ->
  range_deleted client (slen (take idx (Store_Structs st client))) to st
    (delete_loop fuel client to idx st).
Proof.
  induction fuel as [|fuel IH]; intros idx st Hinv Hto Hf; pose proof (inv_wf _ Hinv) as Hwf.
  all: assert (Hend : refs st client !! idx = None ->
    range_deleted client (slen (take idx (Store_Structs st client))) to st st).
  1,3: intros Hn%lookup_ge_None; apply range_deleted_none; [done|]; intros k Hk Hst;
    rewrite take_ge in Hk by (unfold Store_Structs; by rewrite length_map);
    rewrite State_slen in Hst by done; lia.
  { apply Hend, lookup_ge_None. lia. }
  cbn. destruct (refs st client !! idx) as [r|] eqn:Hi; [|auto].
  destruct (entry_at _ _ _ _ Hwf Hi) as (H1 & H2 & H3 & H4 & H5 & H6).
  pose proof (State_range _ Hwf client) as Hrange. case_if.
  { apply range_deleted_none; [done|]. lia. }
  specialize (IH (S idx)) as IHS. destruct r as [id n|id n|l].
  - eapply skip_dead; [done|exact Hi|done..|]. apply IHS; [done..|lia].
  - by destruct (inv_noskip _ Hinv client (RSkip id n) (list_elem_of_lookup_2 _ _ _ Hi)).
  - destruct (ref_item _ _ _ _ Hwf Hi) as (it & Hl & _ & _). rewrite Hl.
    unfold ref_id in *. cbn [view] in *. rewrite Hl in *. cbn [StructID StructLen] in *.
    destruct (deleted it) eqn:Ed.
    { eapply skip_dead; [done|exact Hi|done|cbn; by rewrite Hl|]. apply IHS; [done..|lia]. }
    rewrite u64_small by (unfold two63, two64 in *; lia). case_if.
    + rewrite u64_small, s64_small by (unfold two63, two64 in *; lia).
      destruct (splitItem l _ idx st) as [[n st1]|] eqn:Esp.
      * destruct (delete_head client _ to st idx l it n st1 Hinv Hi Hl eq_refl ltac:(lia) Esp)
          as [Hd (r & Hr & Hc)].
        rewrite (delete_loop_stops _ _ _ _ _ _ Hr); [done|lia].
      * destruct (IHS st Hinv Hto ltac:(lia)) as [R1 R2 R3 R4 _]. split; try done.
        intros Hs. destruct (splits_item _ _ _ _ _ _ Hs Hi Hl Ed ltac:(lia)) as (? & ? & E').
        congruence.
    + eapply delete_whole; [done|exact Hi|exact Hl|done|lia|]. apply IHS; [|done|].
      * by apply deleteItem_inv.
      * unfold refs. destruct (deleteItem_frame l st) as [-> _]. fold (refs st client). lia.
Qed.

(** ** [deleteRange] *)

Lemma find_entry st c k i :
  store_wf st -> 0 <= k -> find st (NewID c k) = Ok i ->
  exists r, refs st c !! i = Some r
    /\ slen (take i (Store_Structs st c)) <= k < slen (take (S i) (Store_Structs st c)).
Proof.
  intros Hwf H0 Hf. apply (find_Ok st Hwf) in Hf as (s & Hs & Hk); [|done]. cbn [Client Clock] in *.
  unfold Store_Structs in Hs. change (map ?f ?l) with (f <$> l) in Hs.
  apply list_lookup_fmap_Some in Hs as (r & -> & Hr). exists r. split; [done|].
  destruct (entry_at _ _ _ _ Hwf Hr) as (H1 & _ & H3 & _). unfold ref_id in H1. lia.
Qed.

(** The clocks of the entry at [i] before [k] are dead, so deleting from the
    entry on is deleting from [k] on. *)
Lemma range_deleted_from client lo k hi st st' :
  lo <= k -> (forall x, lo <= x < k -> dead_at st client x) ->
  range_deleted client lo hi st st' -> range_deleted client k hi st st'.
Proof.
  intros Hle Hd [R1 R2 R3 R4 R5]. split; auto. intros Hs c x. rewrite (R5 Hs).
  split; (intros [?|(-> & Hx)]; [by left|]); [|right; split; [done|lia]].
  destruct (decide (x < k)); [left; apply Hd; lia|right; split; [done|lia]].
Qed.

Lemma clean_start_index st c k l it i idx :
  store_wf st -> heap st !! l = Some it -> it_ID it = NewID c k ->
  refs st c !! i = Some (RItem l) -> find st (NewID c k) = Ok idx ->
  slen (take idx (Store_Structs st c)) = k.
Proof.
  intros Hwf Hl Hid Hi Hf. destruct (entry_at _ _ _ _ Hwf Hi) as (H1 & _ & H3 & H4 & H5 & _).
  unfold ref_id in H1. cbn [view] in *. rewrite Hl in *. cbn [StructID] in H1. rewrite Hid in H1.
  cbn in H1. apply find_entry in Hf as (r & Hr & Hk); [|done|lia].
  pose proof (proj1 (wf_gapless _ Hwf c)) as Hc.
  destruct (lt_eq_lt_dec i idx) as [[Hlt| <-]|Hlt]; [|done|].
  - pose proof (slen_take_mono _ _ _ (S i) idx Hc ltac:(lia)). lia.
  - pose proof (slen_take_mono _ _ _ (S idx) i Hc ltac:(lia)). lia.
Qed.

(** Splitting at the start of a range, then deleting from there. *)
Lemma range_deleted_settled client lo hi st st1 st2 :
  settles st st1 -> (forall c k, splits st c k -> splits st1 c k) ->
  range_deleted client lo hi st1 st2 -> range_deleted client lo hi st st2.
Proof.
  intros [S1 S2 [S3 S4]] Hsp [R1 R2 R3 R4 R5]. split; auto.
  - by etrans.
  - intros c. by rewrite R3.
  - intros Hh c k. by rewrite (R5 (Hsp _ _ Hh)), S4, S3.
Qed.

Lemma GetItemCleanStart_splits id st l st' c k :
  store_wf st -> 0 <= Clock id -> GetItemCleanStart id st = Ok (l, st') ->
  splits st c k -> splits st' c k.
Proof.
  intros Hwf H0 H. unfold GetItemCleanStart in H. res_inv.
  destruct (find_item _ _ _ _ _ Hwf H0 Hm Hm0) as (Hr & Hl' & Hc & He & Hrange).
  rewrite He in Hk0. case_if; res_inv; [done|].
  assert (0 < Clock id - Clock (it_ID y) < Item_Len y) by lia. by eapply splits_split.
Qed.

(** Where the start cannot be split off, the entry holding it is deleted. *)
Lemma no_clean_start_dead st c k e idx :
  store_inv st -> 0 <= k -> GetItemCleanStart (NewID c k) st = Err e ->
  find st (NewID c k) = Ok idx -> splits st c k ->
  forall x, slen (take idx (Store_Structs st c)) <= x < k -> dead_at st c x.
Proof.
  intros Hinv H0 Hg Hf Hs x Hx. pose proof (inv_wf _ Hinv) as Hwf.
  pose proof (find_entry _ _ _ _ Hwf H0 Hf) as (r & Hr & Hk).
  destruct (entry_at _ _ _ _ Hwf Hr) as (H1 & _ & H3 & _).
  apply dead_at_refs. exists r. split; [by eapply list_elem_of_lookup_2|]. split; [|lia].
  destruct r as [| |l]; [done| |].
  { by destruct (inv_noskip _ Hinv c _ (list_elem_of_lookup_2 _ _ _ Hr)). }
  destruct (ref_item _ _ _ _ Hwf Hr) as (it & Hl & _ & _). cbn. rewrite Hl. cbn.
  unfold ref_id in *. cbn [view] in *. rewrite Hl in *. cbn [StructID StructLen] in *.
  destruct (deleted it) eqn:Ed; [done|]. exfalso. pose proof (State_range _ Hwf c) as Hrange.
  unfold GetItemCleanStart, item_at_index in Hg. rewrite Hf in Hg. cbn [mbind res_bind] in Hg.
  cbn [Client Clock] in Hg. rewrite Hr, Hl in Hg. cbn [mbind res_bind] in Hg.
  destruct (find_item st (NewID c k) idx l it Hwf H0 Hf) as (_ & _ & _ & He & _).
  { unfold item_at_index. cbn. by rewrite Hr, Hl. }
  cbn [Clock] in He. rewrite He in Hg. case_if; [done|].
  destruct (splits_item _ _ _ _ _ _ Hs Hr Hl Ed) as (? & ? & E'); [lia|congruence].
Qed.

(** [deleteRange] keeps the invariant whatever the boundaries, and deletes
    exactly the clocks of the range when both boundaries are split points. *)
Lemma deleteRange_ok client from to st :
  store_inv st -> 0 <= from -> to < two63 ->
  exists lo, lo <= from
    /\ range_deleted client lo to st (deleteRange client from to st)
    /\ (splits st client from ->
        range_deleted client from to st (deleteRange client from to st)).
Proof.
  intros Hinv H0 Hto. pose proof (inv_wf _ Hinv) as Hwf. unfold deleteRange. case_if.
  { exists from. assert (range_deleted client from to st st) by (apply range_deleted_none; [done|lia]).
    done. }
  destruct (GetItemCleanStart (NewID client from) st) as [[l st1]|e] eqn:Eg.
  - destruct (GetItemCleanStart_settles (NewID client from) _ _ _ Hinv H0 Eg) as (Hs & _).
    destruct (GetItemCleanStart_spec (NewID client from) _ _ _ Hwf H0 Eg) as (Hwf1 & [HS _] & it & i & Hl & Hid & Hi).
    exists from. split; [done|].
    enough (range_deleted client from to st (match find st1 (NewID client from) with
      | Ok idx => delete_loop (S (S (length (refs st1 client)))) client to idx st1
      | Err _ => st1 end)) by done.
    assert (Hsp : forall c k, splits st c k -> splits st1 c k)
      by (intros c k; by eapply (GetItemCleanStart_splits (NewID client from))).
    eapply range_deleted_settled; [done|done|].
    destruct (find st1 (NewID client from)) as [idx|] eqn:Ef.
    + rewrite <- (clean_start_index _ _ _ _ _ _ _ Hwf1 Hl Hid Hi Ef).
      apply delete_loop_ok; [apply Hs|lia|lia].
    + destruct (decide (from < State st1 client)).
      * destruct (find_total st1 Hwf1 (NewID client from)) as [? ?]; [cbn; lia|congruence].
      * apply range_deleted_none; [apply Hs|lia].
  - unfold Store_Get. destruct (find st (NewID client from)) as [idx|] eqn:Ef.
    + pose proof (find_entry _ _ _ _ Hwf H0 Ef) as (r & Hr & Hk).
      cbn [mbind res_bind Client]. rewrite Hr.
      pose proof (delete_loop_ok (S (S (length (refs st client)))) client to idx st
        Hinv ltac:(lia) ltac:(lia)) as Hd.
      exists (slen (take idx (Store_Structs st client))). split_and!; [lia|done|].
      intros Hs. eapply range_deleted_from; [|by eapply no_clean_start_dead|exact Hd]. lia.
    + cbn. assert (range_deleted client from to st st); [|by exists from].
      apply range_deleted_none; [done|]. intros k Hk Hst.
      destruct (find_total st Hwf (NewID client from)) as [? ?]; [cbn; lia|congruence].
Qed.

(** ** Delete sets applied to a document *)

(** A range a decoder can produce: empty ranges are possible. *)
Definition range_fits (r : DeleteRange) : Prop :=
  0 <= DR_Clock r /\ 0 <= DR_Len r /\ DR_Clock r + DR_Len r < two63.
Definition ds_fits (ds : DeleteSet) : Prop := map_Forall (fun _ rs => Forall range_fits rs) ds.

Record doc_inv (d : Doc) : Prop := {
  di_store : store_inv (store d);
  di_pending : Forall update_fits (pending d);
  di_deletes : ds_normal (pendingDeletes d);
}.

(** Clock [k] of client [c] is held in [pendingDeletes]. *)
Definition held (d : Doc) (c k : Z) : Prop := covers (ranges_of (pendingDeletes d) c) k.

(** The effect of deleting a set [P] of clocks: those received are deleted, the
    others are held. *)
Record deletes (P : Z -> Z -> Prop) (d d' : Doc) : Prop := {
  de_inv : doc_inv d';
  de_grows : grows (store d) (store d');
  de_state : forall c, State (store d') c = State (store d) c;
  de_pending : pending d' = pending d;
  de_splits : forall c k, splits (store d) c k -> splits (store d') c k;
  de_held : forall c k, held d' c k <-> held d c k \/ P c k /\ State (store d) c <= k;
}.

Definition deletes_exactly (P : Z -> Z -> Prop) (d d' : Doc) : Prop :=
  forall c k, dead_at (store d') c k
    <-> dead_at (store d) c k \/ P c k /\ k < State (store d) c.

Lemma splits_State st c k : store_wf st -> State st c <= k -> splits st c k.
Proof.
  intros Hwf Hk l id content b Hin Hb Hr. exfalso.
  apply list_elem_of_lookup in Hin as [i Hi].
  destruct (entry_at _ _ _ _ Hwf Hi) as (H1 & _ & _ & _ & _ & H6).
  unfold ref_id in *. cbn [view] in *. unfold bodies in Hb. rewrite lookup_fmap in Hb.
  destruct (heap st !! l) as [it|]; [|done]. cbn in Hb. injection Hb as <- <- <-.
  cbn [StructID StructLen] in *. unfold Item_Len in *. lia.
Qed.

Lemma End_fits r : range_fits r -> End r = DR_Clock r + DR_Len r.
Proof. intros (H1 & H2 & H3). apply u64_small. unfold two63, two64 in *. lia. Qed.

Lemma apply_range_ok client d r :
  doc_inv d -> range_fits r ->
  let P c k := c = client /\ DR_Clock r <= k < DR_Clock r + DR_Len r in
  let d' := apply_range client (State (store d) client) d r in
  deletes P d d'
  /\ (splits (store d) client (DR_Clock r) ->
      splits (store d) client (DR_Clock r + DR_Len r) -> deletes_exactly P d d').
Proof.
  intros [Hinv Hpend Hds] Hr P d'. pose proof Hr as (H0 & Hlen & Hend).
  pose proof (State_range _ (inv_wf _ Hinv) client) as Hst.
  subst d'. unfold apply_range. rewrite (End_fits r Hr).
  set (state := State (store d) client) in *. case_if.
  - destruct (DS_Add_ok (pendingDeletes d) client (DR_Clock r) (DR_Len r)) as [A1 A2];
      [done..|]. split; [split; [by split|done..|]|].
    + intros c k. unfold held. cbn. rewrite A2. unfold P. split; (intros [?|K]; [by left|right]).
      * destruct K as [-> K]. fold state. lia.
      * tauto.
    + intros _ _ c k. cbn. split; [by left|]. intros [?|[[-> K] Hk]]; [done|]. fold state in Hk. lia.
  - case_if.
    + rewrite u64_small, s64_small by (unfold two63, two64 in *; lia).
      destruct (DS_Add_ok (pendingDeletes d) client state (DR_Clock r + DR_Len r - state))
        as [A1 A2]; [done|lia..|].
      destruct (deleteRange_ok client (DR_Clock r) state (store d) Hinv H0 ltac:(lia))
        as (lo & _ & [R1 R2 R3 R4 _] & Hex). cbn [store set_pendingDeletes].
      split; [split; [by split|done..|]|].
      * intros c k. unfold held. cbn. rewrite A2. unfold P. split; (intros [?|K]; [by left|right]).
        -- destruct K as [-> K]. fold state. lia.
        -- destruct K as [[-> K] Hk]. fold state in Hk. lia.
      * intros Hs1 _ c k. cbn. destruct (Hex Hs1) as [_ _ _ _ Rd].
        rewrite Rd by (by apply splits_State; [apply Hinv|]). unfold P.
        fold state. split; (intros [?|K]; [by left|right]); [|destruct K as [[-> K] K2]; fold state in K2; lia].
        destruct K as [-> K]. fold state. lia.
    + destruct (deleteRange_ok client (DR_Clock r) (DR_Clock r + DR_Len r) (store d) Hinv H0 Hend)
        as (lo & _ & [R1 R2 R3 R4 _] & Hex).
      split; [split; [by split|done..|]|].
      * intros c k. unfold held. cbn. split; [by left|]. unfold P.
        intros [?|[[-> K] Hk]]; [done|]. fold state in Hk. lia.
      * intros Hs1 Hs2 c k. cbn. destruct (Hex Hs1) as [_ _ _ _ Rd].
        rewrite Rd by done. unfold P. naive_solver.
Qed.

(** Deleting one set of clocks and then another. *)
Lemma deletes_none d : doc_inv d -> deletes (fun _ _ => False) d d.
Proof. intros H. split; try done. intros c k. tauto. Qed.

Lemma deletes_seq P Q d d1 d2 :
  deletes P d d1 -> deletes Q d1 d2 -> deletes (fun c k => P c k \/ Q c k) d d2.
Proof.
  intros [H1 H2 H3 H4 H5 H6] [K1 K2 K3 K4 K5 K6]. split; auto.
  - by etrans.
  - intros c. by rewrite K3.
  - congruence.
  - intros c k. rewrite K6, H6, H3. tauto.
Qed.

Lemma deletes_exactly_seq P Q d d1 d2 :
  deletes P d d1 -> deletes_exactly P d d1 -> deletes_exactly Q d1 d2 ->
  deletes_exactly (fun c k => P c k \/ Q c k) d d2.
Proof.
  unfold deletes_exactly. intros [_ _ Hs _ _ _] H K c k. rewrite K, H, Hs. tauto.
Qed.

Lemma deletes_iff P Q d d' : (forall c k, P c k <-> Q c k) -> deletes P d d' -> deletes Q d d'.
Proof. intros Hi [H1 H2 H3 H4 H5 H6]. split; auto. intros c k. by rewrite H6, Hi. Qed.

Lemma deletes_exactly_iff P Q d d' :
  (forall c k, P c k <-> Q c k) -> deletes_exactly P d d' -> deletes_exactly Q d d'.
Proof. unfold deletes_exactly. intros Hi H c k. by rewrite H, Hi. Qed.

(** The boundaries of the ranges of one client are split points. *)
Definition ranges_split (st : Store) (client : Z) (rs : list DeleteRange) : Prop :=
  Forall (fun r => splits st client (DR_Clock r) /\ splits st client (DR_Clock r + DR_Len r)) rs.

Lemma ranges_split_mono st st' client rs :
  (forall c k, splits st c k -> splits st' c k) ->
  ranges_split st client rs -> ranges_split st' client rs.
Proof. intros H Hr. eapply Forall_impl; [exact Hr|]. intros r [? ?]. auto. Qed.

Lemma apply_ranges_ok client state rs : forall d,
  state = State (store d) client -> doc_inv d -> Forall range_fits rs ->
  let P c k := c = client /\ covers rs k in
  let d' := foldl (apply_range client state) d rs in
  deletes P d d' /\ (ranges_split (store d) client rs -> deletes_exactly P d d').
Proof.
  induction rs as [|r rs IH]; intros d -> Hinv Hfit P d'; subst P d'.
  { cbn [foldl]. assert (forall c k, False <-> c = client /\ covers [] k) as Hi.
    { intros c k. split; [done|]. by intros [_ ?%covers_nil]. }
    split; [by eapply deletes_iff, deletes_none|].
    intros _ c k. rewrite <- Hi. tauto. }
  apply Forall_cons in Hfit as [Hr Hfit]. cbn [foldl].
  destruct (apply_range_ok client d r Hinv Hr) as [H1 H1e].
  set (d1 := apply_range client (State (store d) client) d r) in *.
  destruct (IH d1) as [H2 H2e]; [by rewrite (de_state _ _ _ H1)|apply H1|done|].
  assert (Hi : forall c k, (c = client /\ DR_Clock r <= k < DR_Clock r + DR_Len r)
    \/ (c = client /\ covers rs k) <-> c = client /\ covers (r :: rs) k).
  { intros c k. rewrite covers_cons. tauto. }
  split; [eapply deletes_iff; [exact Hi|by eapply deletes_seq]|].
  intros [[Hs1 Hs2] Hs]%Forall_cons. eapply deletes_exactly_iff; [exact Hi|].
  eapply deletes_exactly_seq; [exact H1|by apply H1e|].
  apply H2e. eapply ranges_split_mono; [apply H1|done].
Qed.

(** The clocks a list of client sections names. *)
Definition sections_cover (l : list (Z * list DeleteRange)) (c k : Z) : Prop :=
  exists rs, (c, rs) ∈ l /\ covers rs k.

Lemma apply_sections_ok l : forall d,
  doc_inv d -> Forall (fun x => Forall range_fits x.2) l ->
  let d' := foldl apply_client d l in
  deletes (sections_cover l) d d'
  /\ (Forall (fun x => ranges_split (store d) x.1 x.2) l ->
      deletes_exactly (sections_cover l) d d').
Proof.
  induction l as [|[client rs] l IH]; intros d Hinv Hfit d'; subst d'.
  { cbn [foldl]. assert (forall c k, False <-> sections_cover [] c k) as Hi.
    { intros c k. split; [done|]. by intros (? & ?%elem_of_nil & _). }
    split; [by eapply deletes_iff, deletes_none|]. intros _ c k. rewrite <- Hi. tauto. }
  apply Forall_cons in Hfit as [Hr Hfit]. cbn [foldl apply_client].
  destruct (apply_ranges_ok client _ rs d eq_refl Hinv Hr) as [H1 H1e].
  set (d1 := foldl _ d rs) in *.
  destruct (IH d1) as [H2 H2e]; [apply H1|done|].
  assert (Hi : forall c k, (c = client /\ covers rs k) \/ sections_cover l c k
    <-> sections_cover ((client, rs) :: l) c k).
  { intros c k. unfold sections_cover. setoid_rewrite elem_of_cons. naive_solver. }
  split; [eapply deletes_iff; [exact Hi|by eapply deletes_seq]|].
  intros [Hs1 Hs]%Forall_cons. eapply deletes_exactly_iff; [exact Hi|].
  eapply deletes_exactly_seq; [exact H1|by apply H1e|].
  apply H2e. eapply Forall_impl; [exact Hs|]. intros x. apply ranges_split_mono, H1.
Qed.

Section Order.
Context `{Hord : !MapOrder}.

Lemma sections_cover_iter ds c k : sections_cover (iter ds) c k <-> covers (ranges_of ds c) k.
Proof.
  unfold sections_cover, ranges_of. setoid_rewrite elem_of_iter. split.
  - intros (rs & -> & Hc). done.
  - destruct (ds !! c) as [rs|]; [eauto|]. by intros ?%covers_nil.
Qed.

Definition ds_split (st : Store) (ds : DeleteSet) : Prop :=
  forall c, ranges_split st c (ranges_of ds c).

Lemma applyDeleteSet_ok ds d :
  doc_inv d -> ds_fits ds ->
  let P c k := covers (ranges_of ds c) k in
  let d' := applyDeleteSet (Some ds) d in
  deletes P d d' /\ (ds_split (store d) ds -> deletes_exactly P d d').
Proof.
  intros Hinv Hfit P d'. subst d'. cbn [applyDeleteSet].
  destruct (apply_sections_ok (iter ds) d Hinv) as [H1 H2].
  { rewrite Forall_forall. intros [c rs] Hin%elem_of_iter. by apply (Hfit c). }
  split; [eapply deletes_iff; [apply sections_cover_iter|done]|].
  intros Hs. eapply deletes_exactly_iff; [apply sections_cover_iter|]. apply H2.
  rewrite Forall_forall. intros [c rs] Hin%elem_of_iter. cbn.
  specialize (Hs c). unfold ranges_of in Hs. by rewrite Hin in Hs.
Qed.
End Order.
