(* ===== verification/Apply.v ===== *)
(** * Applying updates

    The entry points of [internal/crdt/doc.go] ([ApplyUpdate], [retryPending],
    [DeleteSet], [EncodeStateAsUpdate]) on top of the lemmas about integration and
    deletion, and the documents they can reach. *)

From S2P Require Import Prelude Lib0 Any Content StateVector DeleteSet Struct Update StructStore Doc Links Invariant Integrate Deletion.

(** ** What the decoder hands over *)

Lemma readRange_fits d r d' : readRange d = Ok (r, d') -> range_fits r.
Proof.
  unfold readRange. intros H. res_inv. apply readSafeVarUint_range in Hm.
  apply readLen_range in Hm0. unfold range_fits, safe, MaxSafeInteger, maxLen, two63 in *. cbn. lia.
Qed.

Lemma read_n_Forall {A} (get : Decoder -> res (A * Decoder)) (P : A -> Prop) n :
  (forall d a d', get d = Ok (a, d') -> P a) ->
  forall d l d', read_n n get d = Ok (l, d') -> Forall P l.
Proof.
  intros Hg. induction n as [|n IH]; intros d l d' H; unfold read_n in H; fold @read_n in H; res_inv;
    [constructor|]. constructor; eauto.
Qed.

Lemma readDeleteSet_fits d ds d' : readDeleteSet d = Ok (ds, d') -> ds_fits ds.
Proof.
  unfold readDeleteSet. intros H. res_inv. case_if; [done|]. res_inv.
  assert (Hf : Forall (fun x : Z * list DeleteRange => Forall range_fits x.2) x0).
  { eapply read_n_Forall; [|exact Hm0]. intros d0 [c rs] d1 Hr. unfold readClientRanges in Hr.
    res_inv. case_if; [done|]. res_inv. cbn. eapply read_n_Forall; [|eassumption].
    intros. by eapply readRange_fits. }
  clear -Hf. unfold NewDeleteSet.
  assert (H0 : ds_fits ∅) by apply map_Forall_empty. revert H0. generalize (∅ : DeleteSet).
  induction Hf as [|[c rs] l Hx Hl IH]; intros ds H0; cbn; [done|].
  apply IH. by apply map_Forall_insert_2.
Qed.

Lemma chain_fits client l : forall clock,
  0 <= clock -> chain client clock l -> Forall fresh_struct l -> Forall struct_fits l.
Proof.
  induction l as [|s l IH]; intros clock H0 Hc Hf; [constructor|].
  destruct Hc as (Hid & Hl & Hc). apply Forall_cons in Hf as [Hfs Hf].
  pose proof (chain_start client (clock + StructLen s) l ltac:(lia) Hc) as Hs.
  constructor; [|by eapply (IH (clock + StructLen s)); [lia|..]].
  unfold struct_fits. rewrite Hid. cbn. split_and!; [done|lia..].
Qed.

Lemma DecodeUpdate_fits b u :
  Z.of_nat (length b) < maxLen -> DecodeUpdate b = Ok u ->
  update_fits u /\ exists ds, Deletes u = Some ds /\ ds_fits ds.
Proof.
  intros Hb H. pose proof (DecodeUpdate_blocks _ _ Hb H) as [Hd _]. split.
  - eapply Forall_impl; [exact Hd|]. intros blk (_ & Hs & Hc & Hf).
    eapply chain_fits; [apply Hs|done..].
  - unfold DecodeUpdate, readUpdate in H. res_inv. case_if; [|done]. res_inv.
    case_if; [done|]. res_inv. eexists. split; [done|]. by eapply readDeleteSet_fits.
Qed.

(** ** Retrying *)

Lemma blocked_states st st' q :
  (forall c, State st' c = State st c) -> blocked st q -> blocked st' q.
Proof.
  unfold blocked. intros Hs H. destruct q as [|s q]; [done|]. cbn in H |- *.
  assert (Hmiss : forall it o, missing st' it o = missing st it o)
    by (intros it [id|]; cbn; [by rewrite Hs|done]).
  assert (Hres : resolve s st = None -> resolve s st' = None).
  { destruct s as [| |it]; cbn; try done. unfold resolve_item. rewrite !Hmiss.
    destruct (_ || _); [done|]. destruct (resolve_left it st) as [[i1 s1]|]; [|done].
    destruct (resolve_right i1 s1) as [[i2 s2]|]; [|done]. by destruct (resolve_parent i2 s2). }
  assert (Hcons : forall st0, (let '(q0, s1, _) := drain q st0 in (q0, s1, true)).2 = true)
    by (intros st0; by destruct (drain q st0) as [[? ?] ?]).
  destruct s as [id n|id n|it]; [|by specialize (Hcons st); rewrite H in Hcons|]; rewrite Hs.
  all: destruct (_ <? _) eqn:E1; [done|].
  all: destruct (_ <=? _) eqn:E2; [by specialize (Hcons st); rewrite H in Hcons|].
  all: destruct (resolve _ st) as [[s1 st1]|] eqn:Er; [|by rewrite Hres].
  all: match type of H with context [drain _ ?x] => specialize (Hcons x) end;
    by rewrite H in Hcons.
Qed.

Lemma pending_structs_app a b :
  pending_structs (a ++ b) = (pending_structs a + pending_structs b)%nat.
Proof. unfold pending_structs. by rewrite sum_list_with_app. Qed.

(** One pass of [retryPending] over the updates held back: what is still
    pending is at most what was, and if nothing was consumed the store is
    unchanged and every queue is blocked. *)
Lemma fold_integrate_ok us : forall d,
  store_inv (store d) -> Forall update_fits us ->
  let d' := foldl (fun d u => integrate u d) d us in
  store_inv (store d') /\ grows (store d) (store d') /\ pendingDeletes d' = pendingDeletes d
  /\ exists new, pending d' = pending d ++ new /\ Forall update_fits new
     /\ (pending_structs new <= pending_structs us)%nat
     /\ (pending_structs new = pending_structs us ->
         store d' = store d /\ Forall (update_blocked (store d)) new).
Proof.
  induction us as [|u us IH]; intros d Hinv Hfit d'; subst d'; cbn [foldl].
  { split_and!; try done. exists []. rewrite app_nil_r. done. }
  apply Forall_cons in Hfit as [Hu Hfit].
  destruct (integrate_ok u d Hinv Hu) as [I1 I2 I3 (n1 & J1 & J2 & J3 & J4 & J5)].
  destruct (IH (integrate u d) I1 Hfit) as (K1 & K2 & K3 & n2 & L1 & L2 & L3 & L4).
  split_and!; [done|by etrans|congruence|]. exists (n1 ++ n2).
  rewrite L1, J1, <- app_assoc, pending_structs_app. unfold pending_structs at 3 6. cbn.
  fold (pending_structs us). split_and!; [done|by apply Forall_app|lia|].
  intros He. destruct L4 as [L4 L5]; [lia|]. specialize (J5 ltac:(lia)).
  rewrite L4, J5 in *. split; [done|]. by apply Forall_app.
Qed.

Definition all_blocked (d : Doc) : Prop := Forall (update_blocked (store d)) (pending d).

(** The loop of [retryPending] ends on its own, with every update blocked. *)
Lemma retry_loop_ok fuel : forall d,
  doc_inv d -> (pending_structs (pending d) < fuel)%nat ->
  let d' := retry_loop fuel d in
  doc_inv d' /\ grows (store d) (store d') /\ pendingDeletes d' = pendingDeletes d
  /\ all_blocked d'.
Proof.
  induction fuel as [|fuel IH]; intros d [Hinv Hfit Hds] Hf d'; [lia|]. subst d'. cbn [retry_loop].
  destruct (pending d) as [|u us] eqn:Ep.
  { split_and!; [split; rewrite ?Ep; done|done..|]. unfold all_blocked. by rewrite Ep. }
  destruct (fold_integrate_ok (u :: us) (set_pending [] d) Hinv) as (K1 & K2 & K3 & new & L1 & L2 & L3 & L4).
  { done. }
  set (d1 := foldl _ _ _) in *. cbn [pending set_pending app store pendingDeletes] in *.
  assert (Hd1 : doc_inv d1) by (split; [done|by rewrite L1|by rewrite K3]).
  rewrite L1. destruct (_ <=? _)%nat eqn:El.
  - apply Nat.leb_le in El. split_and!; try done. unfold all_blocked. rewrite L1.
    destruct L4 as [-> L4]; [lia|done].
  - apply Nat.leb_gt in El. destruct (IH d1 Hd1) as (M1 & M2 & M3 & M4); [rewrite L1; lia|].
    split_and!; [done|by etrans|congruence|done].
Qed.

Lemma update_blocked_states st st' u :
  (forall c, State st' c = State st c) -> update_blocked st u -> update_blocked st' u.
Proof. intros Hs Hb. eapply Forall_impl; [exact Hb|]. intros b. by apply blocked_states. Qed.

Lemma ds_normal_fits ds : ds_normal ds -> ds_fits ds.
Proof.
  intros H. eapply map_Forall_impl; [exact H|]. intros c rs Hn. apply normal_range_ok in Hn.
  eapply Forall_impl; [exact Hn|]. intros r (? & ? & ?). split_and!; [done|lia|done].
Qed.

Section Order.
Context `{Hord : !MapOrder}.

Lemma retryPending_ok d :
  doc_inv d ->
  let d' := retryPending d in
  doc_inv d' /\ grows (store d) (store d') /\ all_blocked d'.
Proof.
  intros Hinv d'. subst d'. unfold retryPending.
  destruct (retry_loop_ok _ d Hinv (Nat.lt_succ_diag_r _)) as (H1 & H2 & H3 & H4).
  set (d1 := retry_loop _ d) in *. destruct (IsEmpty _); [done|].
  set (d2 := set_pendingDeletes NewDeleteSet d1).
  assert (doc_inv d2) as Hd2.
  { destruct H1 as [K1 K2 K3]. split; [done..|apply map_Forall_empty]. }
  destruct (applyDeleteSet_ok (pendingDeletes d1) d2 Hd2) as [[D1 D2 D3 D4 D5 D6] _].
  { apply ds_normal_fits, H1. }
  split_and!; [done|by etrans|]. unfold all_blocked. rewrite D4.
  eapply Forall_impl; [exact H4|]. intros u. by apply update_blocked_states.
Qed.

Definition update_ok_for (u : Update) : Prop :=
  update_fits u /\ forall ds, Deletes u = Some ds -> ds_fits ds.

Lemma ApplyDecodedUpdate_ok u d :
  doc_inv d -> update_ok_for u ->
  let d' := ApplyDecodedUpdate u d in
  doc_inv d' /\ grows (store d) (store d') /\ all_blocked d'.
Proof.
  intros [Hinv Hfit Hds] [Hu Hdu] d'. subst d'. unfold ApplyDecodedUpdate.
  destruct (integrate_ok u d Hinv Hu) as [I1 I2 I3 (n1 & J1 & J2 & J3 & _)].
  set (d1 := integrate u d) in *.
  assert (Hd1 : doc_inv d1).
  { split; [done| |by rewrite I3]. rewrite J1. by apply Forall_app. }
  assert (Hd2 : doc_inv (applyDeleteSet (Deletes u) d1)
            /\ grows (store d1) (store (applyDeleteSet (Deletes u) d1))).
  { destruct (Deletes u) as [ds|] eqn:Ed; [|done].
    destruct (applyDeleteSet_ok ds d1 Hd1 (Hdu ds eq_refl)) as [[D1 D2 _ _ _ _] _]. done. }
  destruct Hd2 as [Hd2 Hg2].
  destruct (retryPending_ok _ Hd2) as (R1 & R2 & R3).
  split_and!; [done| |done]. etrans; [exact I2|]. by etrans.
Qed.

Lemma ApplyUpdate_ok b d d' :
  doc_inv d -> Z.of_nat (length b) < maxLen -> ApplyUpdate b d = Ok d' ->
  doc_inv d' /\ grows (store d) (store d') /\ all_blocked d'.
Proof.
  intros Hinv Hb H. unfold ApplyUpdate in H. res_inv.
  apply DecodeUpdate_fits in Hm as (Hu & ds & Hds & Hf); [|done].
  apply ApplyDecodedUpdate_ok; [done|]. split; [done|]. intros ds'. rewrite Hds. by intros [= <-].
Qed.
End Order.

Lemma NewDoc_inv c : doc_inv (NewDoc c).
Proof.
  split; [|constructor|apply map_Forall_empty]. split; cbn.
  - split; cbn.
    + intros client. done.
    + intros l [x Hx]. by rewrite lookup_empty in Hx.
    + intros client. by rewrite lookup_empty.
  - exists []. split; [constructor|..]; unfold chains; cbn; intros *;
      rewrite ?fmap_empty, lookup_empty; try done.
    split; [by intros ?%elem_of_nil|by intros [? ?]].
  - intros l x. by rewrite lookup_empty.
  - intros p t. by rewrite lookup_empty.
  - intros c0 r. unfold refs. cbn. rewrite lookup_empty. cbn. by intros ?%elem_of_nil.
Qed.

(** ** The delete set a document reports *)

(** The clock [k] of a client belongs to a deleted struct of the list. *)
Definition dead_in (l : list Struct) (k : Z) : Prop :=
  exists s, s ∈ l /\ dead s = true /\ Clock (StructID s) <= k < Clock (StructID s) + StructLen s.

Lemma dead_at_in st c k : dead_at st c k <-> dead_in (Store_Structs st c) k.
Proof.
  rewrite dead_at_refs. unfold dead_in, Store_Structs, ref_id. change (map ?f ?l) with (f <$> l).
  split.
  - intros (r & Hr & H). exists (view (heap st) r). split; [|done]. apply list_elem_of_fmap. eauto.
  - intros (s & (r & -> & Hr)%list_elem_of_fmap & H). eauto.
Qed.

Definition struct_bounded (s : Struct) : Prop :=
  0 <= Clock (StructID s) /\ Clock (StructID s) + StructLen s < two63.

Lemma add_structs_ok client l : forall ds,
  ds_normal ds -> Forall struct_bounded l ->
  let ds' := foldl (add_struct client) ds l in
  ds_normal ds'
  /\ forall c k, covers (ranges_of ds' c) k
       <-> covers (ranges_of ds c) k \/ c = client /\ dead_in l k.
Proof.
  induction l as [|s l IH]; intros ds Hds Hb ds'; subst ds'; cbn [foldl].
  { split; [done|]. intros c k. unfold dead_in. setoid_rewrite elem_of_nil. naive_solver. }
  apply Forall_cons in Hb as [[H0 H1] Hb].
  assert (Ha : ds_normal (add_struct client ds s) /\ forall c k,
    covers (ranges_of (add_struct client ds s) c) k <-> covers (ranges_of ds c) k
      \/ c = client /\ dead s = true /\ Clock (StructID s) <= k < Clock (StructID s) + StructLen s).
  { unfold add_struct. destruct (dead s); [|split; [done|]; naive_solver].
    destruct (DS_Add_ok ds client (Clock (StructID s)) (StructLen s)) as [A1 A2]; [done..|].
    split; [done|]. intros c k. rewrite A2. naive_solver. }
  destruct Ha as [A1 A2]. destruct (IH _ A1 Hb) as [B1 B2]. split; [done|].
  intros c k. rewrite B2, A2. unfold dead_in. setoid_rewrite elem_of_cons. naive_solver.
Qed.

Lemma Store_Structs_bounded st c : store_wf st -> Forall struct_bounded (Store_Structs st c).
Proof.
  intros Hwf. apply Forall_lookup. intros i s Hi.
  destruct (struct_end_lookup st Hwf _ _ _ Hi) as (_ & H1 & H2 & H3 & Hid).
  unfold struct_bounded. rewrite Hid. cbn. lia.
Qed.

Section DeleteSets.
Context `{Hord : !MapOrder}.

Lemma add_clients_ok st l : forall ds,
  store_wf st -> ds_normal ds -> (forall c rs, (c, rs) ∈ l -> clients st !! c = Some rs) ->
  let ds' := foldl (fun ds x => foldl (add_struct x.1) ds (map (view (heap st)) x.2)) ds l in
  ds_normal ds'
  /\ forall c k, covers (ranges_of ds' c) k
       <-> covers (ranges_of ds c) k \/ (exists rs, (c, rs) ∈ l) /\ dead_at st c k.
Proof.
  induction l as [|[client rs] l IH]; intros ds Hwf Hds Hl ds'; subst ds'; cbn [foldl].
  { split; [done|]. intros c k. setoid_rewrite elem_of_nil. naive_solver. }
  assert (Hrs : map (view (heap st)) rs = Store_Structs st client).
  { unfold Store_Structs, refs. rewrite (Hl client rs) by (by left). done. }
  cbn [fst snd]. rewrite Hrs.
  destruct (add_structs_ok client (Store_Structs st client) ds Hds) as [A1 A2];
    [by apply Store_Structs_bounded|].
  destruct (IH _ Hwf A1) as [B1 B2]; [intros c r ?; apply Hl; by right|].
  split; [done|]. intros c k. rewrite B2, A2, dead_at_in. setoid_rewrite elem_of_cons.
  naive_solver.
Qed.

(** The delete set the document reports names exactly the deleted clocks. *)
Lemma Doc_DeleteSet_ok d :
  store_wf (store d) ->
  ds_normal (Doc_DeleteSet d)
  /\ forall c k, covers (ranges_of (Doc_DeleteSet d) c) k <-> dead_at (store d) c k.
Proof.
  intros Hwf.
  destruct (add_clients_ok (store d) (iter (clients (store d))) NewDeleteSet Hwf) as [A1 A2].
  { apply map_Forall_empty. }
  { intros c rs. by rewrite elem_of_iter. }
  split; [done|]. intros c k. unfold Doc_DeleteSet. rewrite A2. split.
  - intros [H|[_ H]]; [|done]. unfold ranges_of, NewDeleteSet in H.
    rewrite lookup_empty in H. by apply covers_nil in H.
  - intros H. right. split; [|done]. apply dead_at_refs in H as (r & Hr & _).
    unfold refs in Hr. destruct (clients (store d) !! c) as [rs|] eqn:E;
      [|by apply elem_of_nil in Hr]. exists rs. by apply elem_of_iter.
Qed.

Lemma add_held_ok (l : list (Z * list DeleteRange)) : forall ds,
  ds_normal ds -> Forall (fun x => Forall range_fits x.2) l ->
  let ds' := foldl (fun ds x =>
               foldl (fun ds r => DS_Add ds x.1 (DR_Clock r) (DR_Len r)) ds x.2) ds l in
  ds_normal ds'
  /\ forall c k, covers (ranges_of ds' c) k
       <-> covers (ranges_of ds c) k \/ sections_cover l c k.
Proof.
  induction l as [|[client rs] l IH]; intros ds Hds Hl ds'; subst ds'; cbn [foldl].
  { split; [done|]. intros c k. unfold sections_cover. setoid_rewrite elem_of_nil. naive_solver. }
  apply Forall_cons in Hl as [Hrs Hl]. cbn [fst snd] in *.
  assert (Ha : forall ds, ds_normal ds ->
    let ds' := foldl (fun ds r => DS_Add ds client (DR_Clock r) (DR_Len r)) ds rs in
    ds_normal ds' /\ forall c k, covers (ranges_of ds' c) k
       <-> covers (ranges_of ds c) k \/ c = client /\ covers rs k).
  { clear IH Hds ds. induction Hrs as [|r rs (R1 & R2 & R3) Hrs IH]; intros ds Hds; cbn [foldl].
    { split; [done|]. intros c k. split; [by left|]. by intros [?|[_ ?%covers_nil]]. }
    destruct (DS_Add_ok ds client (DR_Clock r) (DR_Len r)) as [A1 A2]; [done..|].
    destruct (IH _ A1) as [B1 B2]. split; [done|]. intros c k.
    rewrite B2, A2, covers_cons. naive_solver. }
  destruct (Ha ds Hds) as [A1 A2]. destruct (IH _ A1 Hl) as [B1 B2]. split; [done|].
  intros c k. rewrite B2, A2. unfold sections_cover. setoid_rewrite elem_of_cons. naive_solver.
Qed.

Lemma deleteSetForUpdate_ok d :
  doc_inv d ->
  ds_normal (deleteSetForUpdate d)
  /\ forall c k, covers (ranges_of (deleteSetForUpdate d) c) k
       <-> dead_at (store d) c k \/ held d c k.
Proof.
  intros [Hinv _ Hds]. destruct (Doc_DeleteSet_ok d (inv_wf _ Hinv)) as [A1 A2].
  destruct (add_held_ok (iter (pendingDeletes d)) (Doc_DeleteSet d) A1) as [B1 B2].
  { rewrite Forall_forall. intros [c rs] Hin%elem_of_iter.
    by apply (ds_normal_fits _ Hds c). }
  split; [done|]. intros c k. unfold deleteSetForUpdate. by rewrite B2, A2, sections_cover_iter.
Qed.
End DeleteSets.
