(* ===== verification/Sync.v ===== *)
(** * Synchronisation

    The theorems about applying updates and answering a peer: the invariant of
    every reachable document, growth, maximal progress, exact deletion, what
    [EncodeStateAsUpdate] carries, and that delivering an update again changes
    nothing. *)

From S2P Require Import Prelude Lib0 Any Content StateVector DeleteSet Struct Update StructStore Doc Links Invariant Integrate Deletion Apply.

(** ** What a peer is sent *)

Lemma find_drop st c k i :
  store_wf st -> 0 <= k -> find st (NewID c k) = Ok i ->
  exists pre s rest, Store_Structs st c = pre ++ s :: rest /\ drop i (Store_Structs st c) = s :: rest
    /\ Clock (StructID s) = slen pre /\ slen pre <= k < slen pre + StructLen s.
Proof.
  intros Hwf H0 Hf. apply (find_Ok st Hwf) in Hf as (s & Hs & Hk); [|done]. cbn [Client Clock] in *.
  destruct (struct_end_lookup st Hwf _ _ _ Hs) as (_ & H1 & H2 & H3 & Hid).
  exists (take i (Store_Structs st c)), s, (drop (S i) (Store_Structs st c)).
  rewrite Hid in *. cbn in *. split_and!; [|by apply drop_S|done|lia..].
  symmetry. by apply take_drop_middle.
Qed.

Lemma client_block_ok st sv c :
  store_wf st -> 0 <= SV_Get sv c ->
  match client_block st sv c with
  | None => State st c <= SV_Get sv c
  | Some b =>
      SV_Get sv c < State st c /\ CB_Client b = c /\ StartClock b = SV_Get sv c
      /\ exists pre s rest, Structs b = s :: rest /\ Store_Structs st c = pre ++ s :: rest
         /\ Clock (StructID s) = slen pre
         /\ slen pre <= SV_Get sv c < slen pre + StructLen s
  end.
Proof.
  intros Hwf H0. unfold client_block.
  destruct (Store_Structs st c) as [|first l] eqn:Es.
  { rewrite State_slen, Es by done. done. }
  case_if; [done|].
  assert (Clock (StructID first) = 0) as ->.
  { destruct (wf_gapless _ Hwf c) as [Hc _]. rewrite Es in Hc. destruct Hc as (-> & _). done. }
  rewrite (proj2 (Z.ltb_ge _ 0)) by done.
  destruct (find_total st Hwf (NewID c (SV_Get sv c))) as [i Hi]; [cbn; lia|].
  rewrite Hi. destruct (find_drop _ _ _ _ Hwf H0 Hi) as (pre & s & rest & H1 & H2 & H3 & H4).
  rewrite <- Es, H2. cbn. split_and!; [done..|]. exists pre, s, rest. done.
Qed.

(** ** Redelivery *)

(** Every clock of the update has been integrated. *)
Definition struct_covered (st : Store) (s : Struct) : Prop :=
  match s with
  | SSkip _ _ => True
  | _ => 0 <= Clock (StructID s) <= State st (Client (StructID s))
         /\ Clock (StructID s) + StructLen s <= State st (Client (StructID s))
  end.

Lemma drain_covered st q :
  store_inv st -> Forall (struct_covered st) q ->
  drain q st = ([], st, match q with [] => false | _ => true end).
Proof.
  intros Hinv Hc. induction Hc as [|s q Hs Hc IH]; [done|]. cbn [drain].
  rewrite IH. destruct s as [id n|id n|it]; [|done|]; destruct Hs as [H1 H2];
    rewrite (proj2 (Z.ltb_ge _ _)) by lia; rewrite head_offset by (done || lia);
    rewrite (proj2 (Z.leb_le _ _)) by lia; done.
Qed.

Definition queues_covered (st : Store) (qs : Queues) : Prop :=
  forall c, Forall (struct_covered st) (queue_of qs c).

Lemma round_covered order : forall qs st,
  store_inv st -> queues_covered st qs ->
  exists qs' b, round order qs st = (qs', st, b) /\ queues_covered st qs'.
Proof.
  induction order as [|c order IH]; intros qs st Hinv Hq; cbn; [eauto|].
  rewrite drain_covered by done.
  destruct (IH (<[c:=[]]> qs) st Hinv) as (qs' & b & -> & H1); [|eauto].
  intros c'. rewrite queue_of_insert. case_decide; [constructor|apply Hq].
Qed.

Lemma rounds_covered fuel order : forall qs st,
  store_inv st -> queues_covered st qs ->
  exists qs', rounds fuel order qs st = (qs', st) /\ queues_covered st qs'.
Proof.
  induction fuel as [|fuel IH]; intros qs st Hinv Hq; cbn; [eauto|].
  destruct (round_covered order qs st Hinv Hq) as (qs' & b & -> & H1).
  destruct b; [by apply IH|eauto].
Qed.

Lemma queues_covered_of blocks order qs st :
  queues blocks = (order, qs) ->
  Forall (fun b => Forall (struct_covered st) (Structs b)) blocks -> queues_covered st qs.
Proof.
  unfold queues. revert order qs.
  induction blocks as [|b blocks IH] using rev_ind; intros order qs H Hc.
  { cbn in H. simplify_eq. by intros c. }
  rewrite foldl_snoc in H. destruct (foldl enqueue ([], ∅) blocks) as [order0 qs0].
  apply Forall_app in Hc as [Hc [Hb _]%Forall_cons].
  cbn in H. injection H as <- <-. specialize (IH _ _ eq_refl Hc).
  intros c. rewrite queue_of_insert. case_decide; [|apply IH]. apply Forall_app.
  split; [apply IH|done].
Qed.

Lemma integrate_covered u d :
  store_inv (store d) -> update_fits u ->
  Forall (fun b => Forall (struct_covered (store d)) (Structs b)) (Clients u) ->
  integrate u d = d.
Proof.
  intros Hinv Hfit Hc. unfold integrate. destruct (queues (Clients u)) as [order qs] eqn:Eq.
  destruct (queues_ok _ _ _ Eq Hfit) as (Hnd & _ & Hq & Ht).
  pose proof (queues_covered_of _ _ _ _ Eq Hc) as Hcov.
  destruct (rounds_covered (S (struct_count (Clients u))) order qs _ Hinv Hcov) as (qs' & Er & Hcov').
  rewrite Er. apply rounds_ok in Er as (_ & _ & _ & Hb & _); [|done..|lia].
  assert (leftover order qs' = []) as ->; [|by destruct d].
  unfold leftover. clear Hnd Eq Ht. induction order as [|c order IH]; cbn; [done|].
  assert (queue_of qs' c = []) as ->.
  { specialize (Hb c ltac:(set_solver)). unfold blocked in Hb.
    rewrite drain_covered in Hb by (done || apply Hcov'). by injection Hb. }
  apply IH. intros. apply Hb. set_solver.
Qed.

(** A range all of whose clocks are deleted has its boundaries at split points. *)
Lemma dead_splits st c lo hi :
  store_wf st -> lo < hi -> (forall k, lo <= k < hi -> dead_at st c k) ->
  splits st c lo /\ splits st c hi.
Proof.
  intros Hwf Hlt Hd.
  assert (Hlive : forall k l id content b, dead_at st c k -> RItem l ∈ refs st c ->
    bodies st !! l = Some (id, content, b) -> Clock id <= k < Clock id + Len content -> b = true).
  { intros k l id content b Hk Hin Hb Hr. apply dead_at_refs in Hk as (r & Hr1 & Hr2 & Hr3).
    apply list_elem_of_lookup in Hin as [i Hi]. apply list_elem_of_lookup in Hr1 as [j Hj].
    destruct (entry_at _ _ _ _ Hwf Hi) as (A1 & _ & A3 & _).
    destruct (entry_at _ _ _ _ Hwf Hj) as (B1 & _ & B3 & _).
    unfold bodies in Hb. rewrite lookup_fmap in Hb.
    destruct (heap st !! l) as [it|] eqn:El; [|done]. injection Hb as <- <- <-.
    unfold ref_id in *. cbn [view] in A1, A3. rewrite El in A1, A3. cbn [StructID StructLen] in *.
    unfold Item_Len in *. pose proof (proj1 (wf_gapless _ Hwf c)) as Hg.
    assert (i = j) as <-.
    { destruct (lt_eq_lt_dec i j) as [[Hij|?]|Hij]; [|done|].
      - pose proof (slen_take_mono _ _ _ (S i) j Hg ltac:(lia)). lia.
      - pose proof (slen_take_mono _ _ _ (S j) i Hg ltac:(lia)). lia. }
    rewrite Hi in Hj. injection Hj as <-. cbn in Hr2. by rewrite El in Hr2. }
  split; intros l id content b Hin Hb Hr; left.
  - eapply (Hlive lo); [apply Hd; lia|done..|lia].
  - eapply (Hlive (hi - 1)); [apply Hd; lia|done..|lia].
Qed.

Lemma IsEmpty_no_covers ds :
  ds_normal ds -> (forall c k, ~ covers (ranges_of ds c) k) -> IsEmpty ds = true.
Proof.
  intros Hn Hc. unfold IsEmpty. apply forallb_forall. intros [c rs] Hin.
  apply list_elem_of_In, elem_of_map_to_list in Hin. cbn. destruct rs as [|r rs]; [done|].
  specialize (Hn c _ Hin). destruct Hn as (_ & (H1 & H2 & H3) & _).
  exfalso. apply (Hc c (DR_Clock r)). unfold ranges_of. rewrite Hin. exists r.
  split; [set_solver|lia].
Qed.

Lemma dead_lt_State st c k : store_inv st -> dead_at st c k -> k < State st c.
Proof.
  intros Hinv Hd. apply dead_at_refs in Hd as (r & Hr & _ & Hk).
  apply list_elem_of_lookup in Hr as [i Hi].
  destruct (entry_at _ _ _ _ (inv_wf _ Hinv) Hi) as (H1 & _ & _ & _ & _ & H6). lia.
Qed.

Lemma elem_of_Store_Clients st c : store_wf st -> 0 < State st c -> c ∈ Store_Clients st.
Proof.
  intros Hwf H. unfold Store_Clients. apply elem_of_keys_desc.
  destruct (clients st !! c) as [rs|] eqn:E; [eauto|]. exfalso.
  rewrite State_slen in H by done. unfold Store_Structs, refs in H. rewrite E in H. cbn in H. lia.
Qed.

(** The blocks of one client among those of a state update: at most one. *)
Lemma filter_blocks st sv c :
  store_wf st -> 0 <= SV_Get sv c ->
  (SV_Get sv c < State st c -> c ∈ Store_Clients st) ->
  filter (fun b => CB_Client b = c) (omap (client_block st sv) (Store_Clients st))
  = match client_block st sv c with Some b => [b] | None => [] end.
Proof.
  intros Hwf H0 Hin.
  assert (Hcl : forall c' b, client_block st sv c' = Some b -> CB_Client b = c').
  { intros c' b. unfold client_block. destruct (Store_Structs st c'); [done|].
    case_if; [done|]. by destruct (find _ _); intros [= <-]. }
  pose proof (client_block_ok st sv c Hwf H0) as Hcb.
  assert (Hmem : is_Some (client_block st sv c) -> c ∈ Store_Clients st).
  { intros [b Hb]. rewrite Hb in Hcb. apply Hin, Hcb. }
  clear Hcb Hin. pose proof (NoDup_keys_desc (clients st)) as Hnd. fold (Store_Clients st) in Hnd.
  assert (Hnone : forall l, c ∉ l ->
    filter (fun b => CB_Client b = c) (omap (client_block st sv) l) = []).
  { induction l as [|c' l IH]; intros Hc; cbn; [done|].
    destruct (client_block st sv c') as [b|] eqn:Eb; [|apply IH; set_solver].
    rewrite filter_cons_False; [apply IH; set_solver|]. rewrite (Hcl _ _ Eb). set_solver. }
  destruct (decide (c ∈ Store_Clients st)) as [Hc|Hc].
  - apply list_elem_of_split in Hc as (l1 & l2 & E). rewrite E in *.
    apply NoDup_app in Hnd as (_ & H1 & [H2 _]%NoDup_cons).
    rewrite omap_app, filter_app, Hnone by (intros ?; eapply H1; [done|set_solver]). cbn.
    destruct (client_block st sv c) as [b|] eqn:Eb; [|by apply Hnone].
    rewrite filter_cons_True by (by apply Hcl). by rewrite Hnone.
  - rewrite Hnone by done. destruct (client_block st sv c); [|done].
    destruct Hc. apply Hmem. eauto.
Qed.

(** ** Reachable documents *)

Section Order.
Context `{Hord : !MapOrder}.

(** [Doc.Get] on the document: reading a root type may create it. *)
Definition Doc_Get (name : bytes) (d : Doc) : Doc := set_store (Get name (store d)).2 d.

(** The documents a server can hold: a new one, and what applying an update
    (of any content, below 2 GiB) or naming a root type makes of one. *)
Inductive reachable : Doc -> Prop :=
  | reach_new c : reachable (NewDoc c)
  | reach_apply b d d' :
      reachable d -> Z.of_nat (length b) < maxLen -> ApplyUpdate b d = Ok d' -> reachable d'
  | reach_get name d : reachable d -> reachable (Doc_Get name d).

Lemma Doc_Get_inv name d : doc_inv d -> doc_inv (Doc_Get name d) /\ grows (store d) (store (Doc_Get name d)).
Proof.
  intros [H1 H2 H3]. unfold Doc_Get. destruct (Get name (store d)) as [t st] eqn:E.
  destruct (Get_settles _ _ _ _ H1 E) as [[K1 K2 _] _]. by split; [split|].
Qed.

Lemma reachable_doc_inv d : reachable d -> doc_inv d.
Proof.
  induction 1 as [c|b d d' Hd IH Hb Ha|name d Hd IH].
  - apply NewDoc_inv.
  - by eapply ApplyUpdate_ok.
  - by apply Doc_Get_inv.
Qed.

(** C4. Every reachable document satisfies the document invariant: clocks of each
    client gapless from zero and below 2^63, item chains acyclic, no dangling
    pointer, every linked item stored under its own id, held-back updates and
    deletions well formed. *)
Theorem reachable_inv d : reachable d -> doc_inv d.
Proof. apply reachable_doc_inv. Qed.

(** C6. Applying any accepted update only moves a document forward: no client's
    clock decreases, no deleted clock is revived, no item or type is lost. *)
Theorem ApplyUpdate_grows b d d' :
  reachable d -> Z.of_nat (length b) < maxLen -> ApplyUpdate b d = Ok d' ->
  grows (store d) (store d').
Proof. intros Hd Hb H. eapply ApplyUpdate_ok; [by apply reachable_doc_inv|done..]. Qed.

(** C7. Maximal progress: after applying an update every struct still held back is
    blocked, so no order of retrying could integrate more of what has been
    received. *)
Theorem ApplyUpdate_maximal b d d' :
  reachable d -> Z.of_nat (length b) < maxLen -> ApplyUpdate b d = Ok d' -> all_blocked d'.
Proof. intros Hd Hb H. eapply ApplyUpdate_ok; [by apply reachable_doc_inv|done..]. Qed.

(** A rejected update leaves the document as it was: [ApplyUpdate] fails
    exactly when decoding does. *)
Theorem ApplyUpdate_error b d e :
  ApplyUpdate b d = Err e <-> DecodeUpdate b = Err e.
Proof. unfold ApplyUpdate. destruct (DecodeUpdate b); cbn; split; congruence. Qed.

(** The walks of conflict resolution end by themselves in every reachable
    document: more fuel than the number of items changes nothing, and
    [leftmost] stops at an item without a left neighbour. *)
Theorem resolveConflict_terminates d it p fuel :
  reachable d -> (forall l, left it = Some l -> is_Some (heap (store d) !! l)) ->
  (size (heap (store d)) <= fuel)%nat ->
  let st := store d in
  let o := match left it with
           | Some l => right_of st l
           | None => if HasParentSub it then leftmost st (map_item st p (ParentSub it))
                     else type_start st p end in
  conflict_loop fuel st it (left it) o ∅ ∅ = resolveConflict st it p
  /\ forall x l, leftmost st (Some x) = Some l -> is_Some (heap st !! x) -> left_of st l = None.
Proof.
  intros Hd Hl Hf st o. apply reachable_doc_inv in Hd as [Hinv _ _]. fold st in Hinv, Hf.
  destruct (inv_acyclic _ Hinv) as [ord Hlk]. split.
  - unfold resolveConflict. fold o. destruct o as [x|] eqn:Eo; [|by destruct fuel, (size (heap st))].
    assert (is_Some (heap st !! x)) as Hx.
    { subst o. destruct (left it) as [l|]; [by eapply right_of_dom, Eo; apply Hinv|].
      destruct (HasParentSub it); [|by eapply type_start_dom].
      eapply leftmost_dom; [apply Hinv| |exact Eo]. intros y. by apply map_item_dom. }
    destruct (item_bounds st ord Hlk x Hx) as [Hb _]. by eapply conflict_loop_fuel.
  - intros x l [= <-] Hx. destruct (item_bounds st ord Hlk x Hx) as [_ Hb].
    by eapply leftmost_loop_head.
Qed.

(** C8. What [applyDeleteSet] does with the clocks it names.  Those not received are held
    and nothing else is; no clock moves and nothing deleted is revived.  Those received
    become deleted and nothing else does, provided no boundary of a range lies inside a
    live item that cannot be split there: one of a single clock has no inside, so that is
    the middle of a surrogate pair ([delete_inside_surrogate] shows what happens then). *)
Theorem applyDeleteSet_exact ds d :
  reachable d -> ds_fits ds ->
  let d' := applyDeleteSet (Some ds) d in
  forall c k,
    (held d' c k <-> held d c k \/ covers (ranges_of ds c) k /\ State (store d) c <= k)
    /\ State (store d') c = State (store d) c
    /\ (dead_at (store d) c k -> dead_at (store d') c k)
    /\ (ds_split (store d) ds ->
        dead_at (store d') c k <-> dead_at (store d) c k
          \/ covers (ranges_of ds c) k /\ k < State (store d) c).
Proof.
  intros Hd Hf d' c k. apply reachable_doc_inv in Hd.
  destruct (applyDeleteSet_ok ds d Hd Hf) as [[D1 [_ D2 _ _] D3 D4 D5 D6] De].
  split_and!; [done|done|apply D2|intros Hs; by apply De].
Qed.

(** The delete set sent to peers names exactly the clocks that are deleted in
    the store or held for structs not received yet. *)
Theorem deleteSetForUpdate_exact d c k :
  reachable d ->
  IsDeleted (deleteSetForUpdate d) (NewID c k) = true
  <-> dead_at (store d) c k \/ held d c k.
Proof.
  intros Hd. apply reachable_doc_inv in Hd.
  destruct (deleteSetForUpdate_ok d Hd) as [H1 H2]. by rewrite IsDeleted_covers, H2.
Qed.

(** What a peer with state vector [sv] is sent for client [c]: nothing when it
    is up to date, and otherwise one block that starts at the peer's clock and
    holds every struct from the one covering that clock to the last. *)
Theorem state_update_complete d sv c :
  reachable d -> 0 <= SV_Get sv c ->
  let bs := filter (fun b => CB_Client b = c) (Clients (state_update sv d)) in
  if State (store d) c <=? SV_Get sv c then bs = []
  else exists pre s rest,
    bs = [MkBlock c (SV_Get sv c) (s :: rest)]
    /\ Store_Structs (store d) c = pre ++ s :: rest
    /\ slen pre <= SV_Get sv c < slen pre + StructLen s
    /\ slen (pre ++ s :: rest) = State (store d) c.
Proof.
  intros Hd H0 bs. apply reachable_doc_inv in Hd as [Hinv _ _]. pose proof (inv_wf _ Hinv) as Hwf.
  assert (Hbs : bs = match client_block (store d) sv c with Some b => [b] | None => [] end).
  { unfold bs. cbn [Clients state_update]. apply filter_blocks; [done|done|].
    intros Hst. apply elem_of_Store_Clients; [done|]. lia. }
  pose proof (client_block_ok (store d) sv c Hwf H0) as Hcb. rewrite Hbs. clear Hbs.
  destruct (client_block (store d) sv c) as [b|]; case_if; [lia| |done|lia].
  destruct Hcb as (_ & Hc & Hstart & pre & s & rest & H1 & H2 & H3 & H4).
  exists pre, s, rest. split_and!; try done; try lia.
  - destruct b. cbn in *. by subst.
  - by rewrite <- H2, State_slen.
Qed.

(** Redelivery: an update whose structs have all been integrated and whose
    deletions have all been applied changes no clock, deletes nothing and leaves
    nothing pending. *)
Theorem redelivery u ds d :
  reachable d -> pending d = [] -> (forall c k, ~ held d c k) ->
  update_fits u -> Deletes u = Some ds -> ds_normal ds ->
  Forall (fun b => Forall (struct_covered (store d)) (Structs b)) (Clients u) ->
  (forall c k, covers (ranges_of ds c) k -> dead_at (store d) c k) ->
  let d' := ApplyDecodedUpdate u d in
  (forall c, State (store d') c = State (store d) c)
  /\ (forall c k, dead_at (store d') c k <-> dead_at (store d) c k)
  /\ pending d' = [] /\ (forall c k, ~ held d' c k).
Proof.
  intros Hd Hp Hh Hfit Hds Hn Hcov Hdead d'. apply reachable_doc_inv in Hd as Hinv.
  subst d'. unfold ApplyDecodedUpdate. rewrite Hds.
  rewrite integrate_covered by (done || apply Hinv).
  destruct (applyDeleteSet_ok ds d Hinv (ds_normal_fits _ Hn)) as [[D1 D2 D3 D4 D5 D6] De].
  set (d1 := applyDeleteSet (Some ds) d) in *.
  assert (Hheld : forall c k, ~ held d1 c k).
  { intros c k [?|[Hk Hge]]%D6; [by eapply Hh|].
    apply Hdead, dead_lt_State in Hk; [lia|apply Hinv]. }
  assert (retryPending d1 = d1) as ->.
  { unfold retryPending. rewrite D4, Hp. cbn [retry_loop pending_structs sum_list_with].
    rewrite D4, Hp. by rewrite IsEmpty_no_covers by (apply D1 || done). }
  split_and!; [done| |by rewrite D4|done].
  intros c k. unfold deletes_exactly in De. rewrite De.
  - split; [|by left]. intros [?|[Hk _]]; [done|by apply Hdead].
  - intros c'. unfold ranges_split. rewrite Forall_forall. intros r Hr.
    assert (range_ok r) as (R1 & R2 & R3).
    { pose proof (normal_range_ok _ _ (ranges_of_normal _ c' Hn)) as Hf.
      rewrite Forall_forall in Hf. by apply Hf. }
    apply dead_splits; [apply Hinv|lia|]. intros k' Hk'. apply Hdead. by exists r.
Qed.
End Order.
