(* ===== verification/Skeleton.v ===== *)
(** * The skeleton of a document

    What a document's structs say on the wire (ids, contents, neighbours, and the parent
    of items without neighbours), leaving out links and deleted bits.  A skeleton is
    built in two ways only: a struct whose neighbours and parent are present is appended
    to its client, or an item is split.  [built] is that abstract machine; Build shows
    that every document's store implements it.  From the machine alone follows that the
    structs can be ordered so that each comes after everything it refers to
    ([built_causal]), which is why a peer can always integrate a snapshot (Transfer). *)

From S2P Require Import Prelude Lib0 Any Content StateVector DeleteSet Struct Update StructStore Doc Links Invariant Integrate Deletion Apply Sync.

(** ** The abstract machine *)

Abbreviation Skel := (Z -> list Struct) (only parsing).

(** An item of the skeleton ends at, starts at, or is the shared type of [id]. *)
Definition ends_at (s : Skel) (id : ID) : Prop :=
  exists it, SItem it ∈ s (Client id) /\ Clock (it_ID it) + Item_Len it = Clock id + 1.
Definition starts_at (s : Skel) (id : ID) : Prop :=
  exists it, SItem it ∈ s (Client id) /\ it_ID it = id.
Definition type_at (s : Skel) (id : ID) : Prop :=
  exists it tr nm, SItem it ∈ s (Client id) /\ it_ID it = id /\ it_Content it = ContentType tr nm.

(** Everything a new item refers to is there. *)
Record anchored (s : Skel) (it : Item) : Prop := {
  an_left : forall id, Origin it = Some id -> ends_at s id;
  an_right : forall id, RightOrigin it = Some id -> starts_at s id;
  an_parent : forall p, Parent it = Some p -> IsRoot p = false -> type_at s (PItem p);
  an_some : Origin it = None -> RightOrigin it = None -> is_Some (Parent it);
}.

(** The tail of a split item: its left neighbour is the clock before it. *)
Definition bare_tail (it : Item) (off : Z) (tail : Content) : Item :=
  MkItem (NewID (Client (it_ID it)) (Clock (it_ID it) + off))
    (Some (NewID (Client (it_ID it)) (Clock (it_ID it) + off - 1))) (RightOrigin it)
    None false [] tail None None None false false.

Definition appends (k : Struct) (s s' : Skel) : Prop :=
  forall c, s' c = if decide (Client (StructID k) = c) then s c ++ [k] else s c.

Definition split_at (c : Z) (pre : list Struct) (it : Item) (post : list Struct) (off : Z)
    (h t : Content) (s s' : Skel) : Prop :=
  s c = pre ++ SItem it :: post
  /\ forall c', s' c' = if decide (c = c')
       then pre ++ SItem (set_Content h it) :: SItem (bare_tail it off t) :: post else s c'.

Inductive split_step (s s' : Skel) : Prop :=
  | split_none : (forall c, s' c = s c) -> split_step s s'
  | split_item c pre it post off h t : 0 < off < Item_Len it -> Splice (it_Content it) off = Ok (h, t) ->
      split_at c pre it post off h t s s' -> split_step s s'.

Inductive built : Skel -> Prop :=
  | built_nil s : (forall c, s c = []) -> built s
  | built_split s s' : built s -> split_step s s' -> built s'
  | built_append s s' k : built s -> appends k s s' ->
      Clock (StructID k) = slen (s (Client (StructID k))) -> 0 < StructLen k ->
      (match k with SGC _ _ => True | SSkip _ _ => False | SItem it => anchored s it end) ->
      built s'.

Lemma built_ext s s' : built s -> (forall c, s' c = s c) -> built s'.
Proof. intros H Hs. eapply built_split; [exact H|by apply split_none]. Qed.

(** ** Positions are kept *)

Lemma split_elem c pre it post off h t s s' c' k :
  split_at c pre it post off h t s s' ->
  k ∈ s' c' <-> (c' = c /\ (k ∈ pre \/ k ∈ post \/ k = SItem (set_Content h it) \/ k = SItem (bare_tail it off t)))
                \/ (c' <> c /\ k ∈ s c').
Proof.
  intros [_ H]. rewrite H. case_decide; [subst|].
  - rewrite elem_of_app, !elem_of_cons. naive_solver.
  - naive_solver.
Qed.

Lemma split_elem_old c pre it post off h t s s' c' k :
  split_at c pre it post off h t s s' -> k ∈ s c' -> k ∈ s' c' \/ c' = c /\ k = SItem it.
Proof.
  intros H Hk. rewrite (split_elem _ _ _ _ _ _ _ _ _ _ _ H). destruct (decide (c' = c)) as [->|]; [|naive_solver].
  rewrite (proj1 H), elem_of_app, elem_of_cons in Hk. naive_solver.
Qed.

Lemma split_slen c pre it post off h t s s' c' :
  0 < off < Item_Len it -> Splice (it_Content it) off = Ok (h, t) ->
  split_at c pre it post off h t s s' -> slen (s' c') = slen (s c').
Proof.
  intros Ho Hs [H1 H2]. rewrite H2. case_decide; [subst|done]. rewrite H1, !slen_app, !slen_cons.
  destruct (Splice_Len _ _ _ _ Hs) as [Hh Ht]; [unfold Item_Len in *; lia|]. cbn [StructLen]. unfold Item_Len in *. cbn. lia.
Qed.

Lemma split_step_slen s s' c : split_step s s' -> slen (s' c) = slen (s c).
Proof. intros [H|c0 pre it post off h t Ho Hs H]; [by rewrite H|by eapply split_slen]. Qed.

Section Kept.
Context (s s' : Skel) (id : ID).

Lemma split_ends : split_step s s' -> ends_at s id -> ends_at s' id.
Proof.
  intros [H|c pre it post off h t Ho Hs H] (x & Hx & He).
  - exists x. by rewrite H.
  - destruct (split_elem_old _ _ _ _ _ _ _ _ _ _ _ H Hx) as [Hx'|[<- [= ->]]]; [by exists x|].
    exists (bare_tail it off t). split; [apply (split_elem _ _ _ _ _ _ _ _ _ _ _ H); left; auto|].
    destruct (Splice_Len _ _ _ _ Hs) as [_ Ht]; [unfold Item_Len in *; lia|]. unfold Item_Len in *. cbn. lia.
Qed.

Lemma split_starts : split_step s s' -> starts_at s id -> starts_at s' id.
Proof.
  intros [H|c pre it post off h t Ho Hs H] (x & Hx & He).
  - exists x. by rewrite H.
  - destruct (split_elem_old _ _ _ _ _ _ _ _ _ _ _ H Hx) as [Hx'|[<- [= ->]]]; [by exists x|].
    exists (set_Content h it). split; [apply (split_elem _ _ _ _ _ _ _ _ _ _ _ H); left; auto|done].
Qed.

Lemma split_type : split_step s s' -> type_at s id -> type_at s' id.
Proof.
  intros [H|c pre it post off h t Ho Hs H] (x & tr & nm & Hx & He & Ht).
  - exists x, tr, nm. by rewrite H.
  - destruct (split_elem_old _ _ _ _ _ _ _ _ _ _ _ H Hx) as [Hx'|[_ [= ->]]]; [by exists x, tr, nm|].
    by rewrite Ht in Hs.
Qed.
End Kept.

Lemma split_anchored s s' it :
  split_step s s' -> anchored s it -> anchored s' it.
Proof. intros H [H1 H2 H3 H4]. split; eauto using split_ends, split_starts, split_type. Qed.

Lemma appends_elem k s s' c x : appends k s s' -> x ∈ s c -> x ∈ s' c.
Proof. intros H Hx. rewrite H. case_decide; [|done]. apply elem_of_app. by left. Qed.

Lemma appends_anchored k s s' it : appends k s s' -> anchored s it -> anchored s' it.
Proof.
  intros H [H1 H2 H3 H4]. split; [| | |done].
  - intros id Hid. destruct (H1 id Hid) as (x & Hx & He). exists x. split; [by eapply appends_elem|done].
  - intros id Hid. destruct (H2 id Hid) as (x & Hx & He). exists x. split; [by eapply appends_elem|done].
  - intros p Hp Hr. destruct (H3 p Hp Hr) as (x & tr & nm & Hx & He). exists x, tr, nm. split; [by eapply appends_elem|done].
Qed.

(** ** Causality *)

Definition opt_ids (o : option ID) : list ID := match o with Some id => [id] | None => [] end.

Lemma elem_of_opt_ids o id : id ∈ opt_ids o <-> o = Some id.
Proof. destruct o as [x|]; cbn; [rewrite list_elem_of_singleton|rewrite elem_of_nil]; naive_solver. Qed.

(** The ids an item refers to. *)
Definition deps (it : Item) : list ID :=
  opt_ids (Origin it) ++ opt_ids (RightOrigin it)
  ++ match Parent it with Some p => if IsRoot p then [] else [PItem p] | None => [] end.

(** [rank] orders the clocks received: within a client by clock, and every item after
    everything it refers to. *)
Record ranked (s : Skel) (rank : Z -> Z -> nat) (bound : nat) : Prop := {
  rk_bound : forall c k, 0 <= k < slen (s c) -> (rank c k < bound)%nat;
  rk_mono : forall c k k', 0 <= k < k' -> k' < slen (s c) -> (rank c k < rank c k')%nat;
  rk_deps : forall c it id, SItem it ∈ s c -> id ∈ deps it ->
    0 <= Clock id < slen (s (Client id))
    /\ (rank (Client id) (Clock id) < rank c (Clock (it_ID it)))%nat;
}.

Record causal (s : Skel) : Prop := {
  ca_contig : forall c, contig c 0 (s c);
  ca_noskip : forall c id n, SSkip id n ∉ s c;
  ca_anchored : forall c it, SItem it ∈ s c -> anchored s it;
  ca_ranked : exists rank bound, ranked s rank bound;
}.

Lemma contig_elem c s k :
  contig c 0 s -> k ∈ s -> 0 <= Clock (StructID k) /\ Client (StructID k) = c /\ 0 < StructLen k
  /\ Clock (StructID k) + StructLen k <= slen s.
Proof.
  intros Hc Hk. apply list_elem_of_lookup in Hk as [i Hi].
  destruct (contig_lookup _ _ _ _ _ Hc Hi) as (-> & H1 & H2). cbn. split_and!; [|done..|lia].
  rewrite <- (take_drop i s) in Hc. apply contig_app in Hc as [Hc _]. apply contig_slen in Hc. lia.
Qed.

Lemma anchored_deps s it id :
  (forall c, contig c 0 (s c)) -> anchored s it -> id ∈ deps it -> 0 <= Clock id < slen (s (Client id)).
Proof.
  intros Hc [H1 H2 H3 _]. unfold deps. rewrite !elem_of_app, !elem_of_opt_ids. intros [H|[H|H]].
  - destruct (H1 id H) as (x & Hx & He). apply (contig_elem _ _ _ (Hc _)) in Hx as (A1 & _ & A2 & A3). cbn in *. lia.
  - destruct (H2 id H) as (x & Hx & He). apply (contig_elem _ _ _ (Hc _)) in Hx as (A1 & _ & A2 & A3). cbn in *. subst id. lia.
  - destruct (Parent it) as [p|] eqn:Ep; [|by apply elem_of_nil in H]. destruct (IsRoot p) eqn:Er; [by apply elem_of_nil in H|].
    apply list_elem_of_singleton in H as ->. destruct (H3 p eq_refl Er) as (x & tr & nm & Hx & He & _).
    apply (contig_elem _ _ _ (Hc _)) in Hx as (A1 & _ & A2 & A3). cbn in *. rewrite He in A1, A3. lia.
Qed.

Lemma deps_set_Content h it : deps (set_Content h it) = deps it.
Proof. done. Qed.

Lemma split_step_causal s s' : split_step s s' -> causal s -> causal s'.
Proof.
  intros Hst [Hc Hn Ha (rank & bound & [R1 R2 R3])]. pose proof Hst as Hst'.
  destruct Hst as [H|c pre it post off h t Ho Hs H].
  { split; [intros c; by rewrite H|intros c id n; by rewrite H| |].
    - intros c it. rewrite H. intros Hi. eapply split_anchored; [done|eauto].
    - exists rank, bound. split; intros c; rewrite ?H; [apply R1|apply R2|].
      intros it id. rewrite !H. apply R3. }
  assert (Hin : SItem it ∈ s c) by (rewrite (proj1 H); apply elem_of_app; right; by left).
  destruct (contig_elem _ _ _ (Hc c) Hin) as (I1 & I2 & I3 & I4). cbn [StructID StructLen] in *.
  destruct (Splice_Len _ _ _ _ Hs) as [Hh Ht]; [unfold Item_Len in *; lia|].
  assert (Hl : forall c, slen (s' c) = slen (s c)) by (intros c'; by eapply split_slen).
  assert (Hcases : forall c' x, SItem x ∈ s' c' -> SItem x ∈ s c'
    \/ c' = c /\ (x = set_Content h it \/ x = bare_tail it off t)).
  { intros c' x. rewrite (split_elem _ _ _ _ _ _ _ _ _ _ _ H). intros [(-> & Hx)|[_ Hx]]; [|by left].
    rewrite (proj1 H), elem_of_app, elem_of_cons. naive_solver. }
  split.
  - intros c'. rewrite (proj2 H). case_decide; [subst c'|done].
    specialize (Hc c). rewrite (proj1 H) in Hc. apply contig_app in Hc as [Hp Hc].
    apply contig_app. split; [done|]. cbn [contig StructID StructLen] in *. destruct Hc as (E1 & E2 & E3).
    unfold Item_Len in *. cbn [it_Content set_Content it_ID bare_tail] in *. rewrite E1, Hh, Ht. cbn.
    split_and!; [done|lia|f_equal; lia|lia|]. by replace (0 + slen pre + off + (Len (it_Content it) - off)) with (0 + slen pre + Len (it_Content it)) by lia.
  - intros c' id n. rewrite (split_elem _ _ _ _ _ _ _ _ _ _ _ H). specialize (Hn c' id n).
    intros [(-> & Hx)|[_ Hx]]; [|done]. rewrite (proj1 H), elem_of_app, elem_of_cons in Hn. naive_solver.
  - intros c' x [Hx|[-> [-> | ->]]]%Hcases.
    + eapply split_anchored; [done|eauto].
    + destruct (split_anchored _ _ _ Hst' (Ha _ _ Hin)) as [A1 A2 A3 A4]. by split.
    + destruct (split_anchored _ _ _ Hst' (Ha _ _ Hin)) as [A1 A2 A3 A4]. split; try done.
      intros id [= <-]. exists (set_Content h it). cbn [Client]. split.
      * apply (split_elem _ _ _ _ _ _ _ _ _ _ _ H). left. auto.
      * unfold Item_Len. cbn. lia.
  - exists rank, bound. split; [intros c'; rewrite Hl; apply R1|intros c'; rewrite Hl; apply R2|].
    intros c' x id [Hx|[-> [-> | ->]]]%Hcases Hd; rewrite Hl; [by eapply R3| |].
    + by eapply (R3 c it).
    + assert (Hm : forall k, 0 <= k < Clock (it_ID it) + off -> (rank c k < rank c (Clock (it_ID it) + off)%Z)%nat)
        by (intros k Hk; apply R2; lia).
      unfold deps in Hd. cbn in Hd |- *. apply elem_of_cons in Hd as [->|Hd].
      * cbn. rewrite I2. split; [lia|apply Hm; lia].
      * rewrite app_nil_r, elem_of_opt_ids in Hd.
        destruct (R3 c it id Hin) as [B1 B2]. { unfold deps. rewrite !elem_of_app, !elem_of_opt_ids. auto. }
        split; [done|]. pose proof (Hm (Clock (it_ID it)) ltac:(lia)). lia.
Qed.

Lemma appends_slen k s s' c :
  appends k s s' -> slen (s' c) = slen (s c) + if decide (Client (StructID k) = c) then StructLen k else 0.
Proof. intros H. rewrite H. case_decide; [|lia]. rewrite slen_app. cbn. lia. Qed.

Lemma appends_causal k s s' :
  appends k s s' -> Clock (StructID k) = slen (s (Client (StructID k))) -> 0 < StructLen k ->
  (match k with SGC _ _ => True | SSkip _ _ => False | SItem it => anchored s it end) ->
  causal s -> causal s'.
Proof.
  intros H Hk Hlen Hit [Hc Hn Ha (rank & bound & [R1 R2 R3])].
  set (c0 := Client (StructID k)) in *.
  assert (Hin : forall c x, x ∈ s' c -> x ∈ s c \/ c = c0 /\ x = k).
  { intros c x. rewrite H. case_decide; [|by left]. rewrite elem_of_app, list_elem_of_singleton. naive_solver. }
  pose proof (fun c => appends_slen k s s' c H) as Hl. fold c0 in Hl.
  assert (Hs0 : forall c, 0 <= slen (s c)) by (intros c; by eapply contig_slen).
  split.
  - intros c. rewrite H. fold c0. case_decide; [subst c|done]. apply contig_app. split; [done|].
    cbn. split_and!; [|done..]. unfold c0 in *. destruct (StructID k). cbn in *. by rewrite Hk.
  - intros c id n [Hx|[-> <-]]%Hin; [by eapply Hn|done].
  - intros c it [Hx|[-> <-]]%Hin; eapply appends_anchored; eauto.
  - set (rank' := fun c x => if decide (c = c0 /\ slen (s c0) <= x)
      then (bound + Z.to_nat (x - slen (s c0)))%nat else rank c x).
    assert (Hold : forall c x, x < slen (s c) -> rank' c x = rank c x).
    { intros c x Hx. unfold rank'. rewrite decide_False; [done|]. intros [-> ?]. lia. }
    assert (Hnew : forall x, slen (s c0) <= x -> rank' c0 x = (bound + Z.to_nat (x - slen (s c0)))%nat).
    { intros x Hx. unfold rank'. by rewrite decide_True. }
    assert (Hcase : forall c x, x < slen (s' c) -> x < slen (s c) \/ c = c0 /\ slen (s c0) <= x < slen (s c0) + StructLen k).
    { intros c x. rewrite Hl. case_decide; [subst c; destruct (decide (x < slen (s c0))); [by left|]|left; lia].
      right. split; [done|lia]. }
    exists rank', (bound + Z.to_nat (StructLen k))%nat. clearbody rank'. split.
    + intros c x [Hx0 [Hx|[-> Hx]]%Hcase]; [rewrite Hold by done; specialize (R1 c x); lia|]. rewrite Hnew; lia.
    + intros c x y Hx [Hy|[-> Hy]]%Hcase.
      * rewrite !Hold by lia. apply R2; lia.
      * rewrite (Hnew y) by lia. destruct (decide (x < slen (s c0))) as [Hlt|Hge]; [|rewrite Hnew; lia].
        rewrite Hold by done. specialize (R1 c0 x). lia.
    + intros c it id [Hx|[-> <-]]%Hin Hd.
      * destruct (R3 c it id Hx Hd) as [B1 B2]. rewrite Hl. split; [case_decide; lia|].
        apply (contig_elem _ _ _ (Hc _)) in Hx as (_ & _ & X1 & X2). cbn in *. rewrite !Hold by lia. done.
      * pose proof (anchored_deps s it id Hc Hit Hd) as B1. rewrite Hl. split; [case_decide; lia|].
        cbn [StructID] in Hk. rewrite (Hold _ (Clock id)), Hk, Hnew by lia. specialize (R1 _ _ B1). lia.
Qed.

(** Whatever the machine builds is causal. *)
Lemma built_causal s : built s -> causal s.
Proof.
  induction 1 as [s H|s s' _ IH H|s s' k _ IH H1 H2 H3 H4].
  - split; [by intros c; rewrite H|intros c ? ?; rewrite H; apply not_elem_of_nil
      |intros c it; by rewrite H, elem_of_nil|].
    exists (fun _ _ => 0%nat), 0%nat. split; intros c; rewrite ?H; cbn; [lia..|].
    intros it id. by rewrite H, elem_of_nil.
  - by eapply split_step_causal.
  - by eapply appends_causal.
Qed.
