(* ===== verification/Build.v ===== *)
(** * Every store is built

    The refinement of the skeleton machine of Skeleton: each operation of [doc.go] and
    [structstore.go] that changes a store is a sequence of splits and appends of its
    skeleton, or leaves it alone; so every reachable document's skeleton is [built]. *)

From S2P Require Import Prelude Lib0 Any Content StateVector DeleteSet Struct Update StructStore Doc Links Invariant Integrate Deletion Apply Sync Skeleton.

(** ** The skeleton of a store *)

(** An item without its links and deleted bit. *)
Definition essence (it : Item) : Item := set_left None (set_right None (set_deleted false it)).
Definition essences (st : Store) : gmap loc Item := essence <$> heap st.

(** What a pointer to a shared type says on the wire. *)
Definition type_info (E : gmap loc Item) (t : TypePtr) : ParentInfo :=
  match t with
  | TRoot name => MkParent true name zeroID
  | TNested l => match E !! l with
                 | Some x => MkParent false [] (it_ID x)
                 | None => MkParent true [] zeroID
                 end
  end.

Definition parent_info (E : gmap loc Item) (it : Item) : option ParentInfo :=
  match parent it with Some t => Some (type_info E t) | None => Parent it end.

(** An item as a peer decodes it. *)
Definition wire_item (E : gmap loc Item) (it : Item) : Item :=
  match Origin it, RightOrigin it with
  | None, None =>
      MkItem (it_ID it) None None (parent_info E it) (HasParentSub it)
        (if HasParentSub it then ParentSub it else []) (it_Content it) None None None false false
  | o, r => MkItem (it_ID it) o r None (HasParentSub it) [] (it_Content it) None None None false false
  end.

(** The flag of an item with neighbours is taken from them on integration. *)
Definition unflag (it : Item) : Item :=
  match Origin it, RightOrigin it with
  | None, None => it
  | _, _ => set_Sub false [] it
  end.

Definition wire (E : gmap loc Item) (s : Struct) : Struct :=
  match s with SItem it => SItem (wire_item E it) | _ => s end.
Definition bare_struct (s : Struct) : Struct :=
  match s with SItem it => SItem (unflag it) | _ => s end.

Definition bare_item (E : gmap loc Item) (it : Item) : Item := unflag (wire_item E it).

Definition bare_ref (E : gmap loc Item) (r : StructRef) : Struct :=
  match r with
  | RGC id n => SGC id n
  | RSkip id n => SSkip id n
  | RItem l => match E !! l with Some x => SItem (bare_item E x) | None => SSkip zeroID 0 end
  end.

Definition skel (st : Store) (c : Z) : list Struct := map (bare_ref (essences st)) (refs st c).

Lemma bare_item_cases E it :
  bare_item E it =
  match Origin it, RightOrigin it with
  | None, None =>
      MkItem (it_ID it) None None (parent_info E it) (HasParentSub it)
        (if HasParentSub it then ParentSub it else []) (it_Content it) None None None false false
  | o, r => MkItem (it_ID it) o r None false [] (it_Content it) None None None false false
  end.
Proof. unfold bare_item, wire_item, unflag. by destruct (Origin it), (RightOrigin it). Qed.

Lemma bare_item_fields E it :
  it_ID (bare_item E it) = it_ID it /\ it_Content (bare_item E it) = it_Content it
  /\ Origin (bare_item E it) = Origin it /\ RightOrigin (bare_item E it) = RightOrigin it.
Proof. rewrite bare_item_cases. by destruct (Origin it), (RightOrigin it). Qed.

Lemma bare_item_essence E it : bare_item E (essence it) = bare_item E it.
Proof. by rewrite !bare_item_cases. Qed.

Lemma shape_bare E it : shape (SItem (bare_item E it)) = shape (SItem it).
Proof.
  destruct (bare_item_fields E it) as (H1 & H2 & _). unfold shape. cbn. unfold Item_Len. by rewrite H1, H2.
Qed.

Lemma essences_lookup st l : essences st !! l = essence <$> heap st !! l.
Proof. apply lookup_fmap. Qed.

(** The skeleton has the clock ranges of the store. *)
Lemma skel_shapes st c : map shape (skel st c) = shapes st c.
Proof.
  unfold skel, shapes, Store_Structs. rewrite !map_map. apply map_ext. intros [| |l]; [done..|]. cbn.
  rewrite essences_lookup. destruct (heap st !! l) as [x|]; [|done]. cbn. rewrite bare_item_essence. apply shape_bare.
Qed.

Lemma skel_slen st c : store_wf st -> slen (skel st c) = State st c.
Proof. intros Hwf. rewrite State_slen by done. apply slen_shape. rewrite skel_shapes. done. Qed.

(** An item of the skeleton is an item of the store. *)
Lemma skel_elem st c it :
  SItem it ∈ skel st c -> exists l x, RItem l ∈ refs st c /\ heap st !! l = Some x
    /\ it = bare_item (essences st) x.
Proof.
  intros H. unfold skel in H. change (map ?f ?l) with (f <$> l) in H.
  apply list_elem_of_fmap in H as ([| |l] & He & Hr); [done..|]. cbn in He.
  rewrite essences_lookup in He. destruct (heap st !! l) as [x|] eqn:El; [|done].
  injection He as ->. exists l, x. by rewrite bare_item_essence.
Qed.

Lemma elem_skel st c l x :
  RItem l ∈ refs st c -> heap st !! l = Some x -> SItem (bare_item (essences st) x) ∈ skel st c.
Proof.
  intros Hr Hl. unfold skel. change (map ?f ?l) with (f <$> l). apply list_elem_of_fmap.
  exists (RItem l). split; [|done]. cbn. rewrite essences_lookup, Hl. cbn. by rewrite bare_item_essence.
Qed.

(** ** Steps that leave the skeleton alone *)

Lemma skel_same st st' c : refs st' c = refs st c -> essences st' = essences st -> skel st' c = skel st c.
Proof. intros H1 H2. unfold skel. by rewrite H1, H2. Qed.

Lemma essences_alter_same f l (h : gmap loc Item) :
  (forall it, essence (f it) = essence it) -> essence <$> alter f l h = essence <$> h.
Proof.
  intros Hf. apply map_eq. intros k. rewrite !lookup_fmap, lookup_alter.
  case_decide; [subst|done]. destruct (h !! k); cbn; [by rewrite Hf|done].
Qed.

Lemma essences_deleteItem l st : essences (deleteItem l st) = essences st.
Proof. destruct (deleteItem_cases l st) as [->| ->]; [done|]. by apply essences_alter_same. Qed.

Lemma refs_deleteItem l st c : refs (deleteItem l st) c = refs st c.
Proof. unfold refs. by destruct (deleteItem_frame l st) as (-> & _). Qed.

Lemma skel_deleteItem l st c : skel (deleteItem l st) c = skel st c.
Proof. apply skel_same; [apply refs_deleteItem|apply essences_deleteItem]. Qed.

Lemma skel_Get name st t st' c : Get name st = (t, st') -> skel st' c = skel st c.
Proof. unfold Get. destruct (types st !! TRoot name); intros [= _ <-]; done. Qed.

(** ** Changing items *)

(** The owners of the types that items are in are items themselves. *)
Definition owners_in (E : gmap loc Item) (it : Item) : Prop :=
  forall k, parent it = Some (TNested k) -> is_Some (E !! k).

Definition keeps_ids (E E' : gmap loc Item) : Prop :=
  forall k x, E !! k = Some x -> exists x', E' !! k = Some x' /\ it_ID x' = it_ID x.

Lemma bare_item_change E E' it : keeps_ids E E' -> owners_in E it -> bare_item E' it = bare_item E it.
Proof.
  intros Hk Ho. rewrite !bare_item_cases. destruct (Origin it), (RightOrigin it); try done.
  unfold parent_info. destruct (parent it) as [[n|k]|] eqn:Ep; try done. cbn.
  destruct (Ho k Ep) as [x Hx]. destruct (Hk k x Hx) as (x' & -> & ->). by rewrite Hx.
Qed.

Lemma inv_owners st l x : store_inv st -> heap st !! l = Some x -> owners_in (essences st) x.
Proof.
  intros Hinv Hl k Hk. destruct (inv_items _ Hinv _ _ Hl) as (Hp & _). destruct (Hp _ Hk) as [t Ht].
  destruct (inv_types _ Hinv _ _ Ht) as (_ & _ & _ & Hn). rewrite essences_lookup, fmap_is_Some. by apply Hn.
Qed.

Lemma bare_ref_change st E' r c :
  store_inv st -> keeps_ids (essences st) E' -> r ∈ refs st c ->
  (forall l, r = RItem l -> E' !! l = essences st !! l) -> bare_ref E' r = bare_ref (essences st) r.
Proof.
  intros Hinv Hk Hr He. destruct r as [| |l]; [done..|]. cbn. rewrite (He l eq_refl), essences_lookup.
  destruct (heap st !! l) as [x|] eqn:El; [|done]. cbn. f_equal. rewrite !bare_item_essence.
  apply bare_item_change; [done|]. by eapply inv_owners.
Qed.

(** ** Splitting *)

Lemma essences_split l off i st n st' it hd tl :
  heap st !! l = Some it -> Splice (it_Content it) off = Ok (hd, tl) ->
  splitItem l off i st = Ok (n, st') ->
  essences st' = <[next st := essence (split_right it l off tl)]> (<[l := set_Content hd (essence it)]> (essences st)).
Proof.
  intros Hl Hs H. unfold splitItem in H. rewrite Hl, Hs in H. cbn [mbind res_bind] in H.
  injection H as <- <-. unfold essences.
  match goal with |- essence <$> heap ?s = _ =>
    assert (essence <$> heap s
      = essence <$> <[next st := split_right it l off tl]> (alter (set_Content hd) l (heap st))) as -> end.
  { destruct (right it), (parent it), (HasParentSub it); cbn;
      rewrite ?(essences_alter_same (set_right _)), ?(essences_alter_same (set_left _)) by done; done. }
  rewrite fmap_insert. f_equal. apply map_eq. intros k. rewrite lookup_fmap, lookup_alter, lookup_insert, lookup_fmap.
  case_decide; [subst|done]. by rewrite Hl.
Qed.

Section Split.
Context (l : loc) (off : Z) (i : nat) (st : Store) (n : loc) (st' : Store) (it : Item) (c : Z).
Context (Hinv : store_inv st) (Hi : refs st c !! i = Some (RItem l)).
Context (Hl : heap st !! l = Some it) (Hoff : 0 < off < Item_Len it).
Context (Hsplit : splitItem l off i st = Ok (n, st')).

Lemma split_skel : split_step (skel st) (skel st').
Proof.
  pose proof (inv_wf _ Hinv) as Hwf.
  destruct (split_splice _ _ _ _ _ _ _ Hl Hoff Hsplit) as (hd & tl & Hs & Hh & Ht).
  destruct (split_facts _ _ _ _ _ _ _ _ Hwf Hi Hl Hoff Hsplit) as (Hn & _ & Hrefs & _).
  destruct (split_clock _ _ _ _ _ _ Hwf Hi Hl Hoff) as (Hu & Hid & H0 & H1).
  pose proof (essences_split _ _ _ _ _ _ _ _ _ Hl Hs Hsplit) as He. rewrite <- Hn in He.
  pose proof (ref_lt_next _ _ _ _ Hwf Hi) as Hlt.
  assert (Hkeep : keeps_ids (essences st) (essences st')).
  { intros k x Hk. rewrite He, !lookup_insert. case_decide as H2; [|case_decide as H3; [|eauto]].
    - subst k. rewrite essences_lookup in Hk. destruct (heap st !! n) eqn:En; [|done].
      assert (n < next st)%positive by (apply (wf_next _ Hwf); eauto). lia.
    - subst k. rewrite essences_lookup, Hl in Hk. injection Hk as <-. eauto. }
  assert (Hsame : forall c' j r, refs st c' !! j = Some r -> c' <> c \/ j <> i ->
    bare_ref (essences st') r = bare_ref (essences st) r).
  { intros c' j r Hr Hne. eapply (bare_ref_change st); [done|done|by eapply list_elem_of_lookup_2|].
    intros k ->. pose proof (ref_lt_next _ _ _ _ Hwf Hr). rewrite He, !lookup_insert_ne; [done|intros ->|lia].
    destruct (ref_unique _ _ _ _ _ _ Hwf Hi Hr); naive_solver. }
  set (bi := bare_item (essences st) it).
  destruct (bare_item_fields (essences st) it) as (F1 & F2 & F3 & F4). fold bi in F1, F2, F3, F4.
  apply (split_item _ _ c (map (bare_ref (essences st)) (take i (refs st c))) bi
    (map (bare_ref (essences st)) (drop (S i) (refs st c))) off hd tl).
  - unfold Item_Len. by rewrite F2.
  - by rewrite F2.
  - split.
    + unfold skel. rewrite <- (take_drop_middle _ _ _ Hi) at 1. rewrite map_app. f_equal. cbn.
      f_equal. rewrite essences_lookup, Hl. cbn. by rewrite bare_item_essence.
    + intros c'. unfold skel. rewrite Hrefs. case_decide as Hc; [subst c'|].
      * rewrite (take_S_r _ _ _ Hi), <- app_assoc, !map_app. cbn [map app]. f_equal; [|f_equal; [|f_equal]].
        -- apply map_ext_in. intros r Hr%list_elem_of_In. apply list_elem_of_lookup in Hr as [j Hj].
           apply lookup_take_Some in Hj as [Hj ?]. eapply Hsame; [done|]. right. lia.
        -- cbn. rewrite He, lookup_insert_ne, lookup_insert_eq by lia. f_equal. rewrite <- He.
           unfold bi. rewrite <- (bare_item_change _ _ it Hkeep) by (by eapply inv_owners).
           rewrite !bare_item_cases. cbn. by destruct (Origin it), (RightOrigin it).
        -- cbn. rewrite He, lookup_insert_eq, <- He. f_equal. rewrite bare_item_cases. unfold bare_tail. cbn.
           rewrite F1, F4, Hu. rewrite u64_small by (unfold two63, two64 in *; lia). done.
        -- apply map_ext_in. intros r Hr%list_elem_of_In. apply list_elem_of_lookup in Hr as [j Hj].
           rewrite lookup_drop in Hj. eapply Hsame; [done|]. right. lia.
      * apply map_ext_in. intros r Hr%list_elem_of_In. apply list_elem_of_lookup in Hr as [j Hj].
        eapply Hsame; [done|]. left. congruence.
Qed.
End Split.

(** The clean lookups: at most one split, and the boundary asked for. *)
Lemma GetItemCleanStart_skel id st l st' :
  store_inv st -> 0 <= Clock id -> GetItemCleanStart id st = Ok (l, st') ->
  split_step (skel st) (skel st') /\ starts_at (skel st') id.
Proof.
  intros Hinv H0 H. pose proof (inv_wf _ Hinv) as Hwf.
  destruct (GetItemCleanStart_spec _ _ _ _ Hwf H0 H) as (_ & _ & it & i & Hl & Hid & Hr). split.
  - unfold GetItemCleanStart in H. res_inv.
    destruct (find_item _ _ _ _ _ Hwf H0 Hm Hm0) as (Hr' & Hl' & Hc & He & Hrange).
    rewrite He in Hk0. case_if; res_inv; [by apply split_none|].
    eapply (split_skel _ _ _ _ _ _ y); [done|done|done| |eassumption]; lia.
  - exists (bare_item (essences st') it). split; [eapply elem_skel; [by eapply list_elem_of_lookup_2|done]|].
    by destruct (bare_item_fields (essences st') it) as (-> & _).
Qed.

Lemma GetItemCleanEnd_skel id st l st' :
  store_inv st -> 0 <= Clock id -> GetItemCleanEnd id st = Ok (l, st') ->
  split_step (skel st) (skel st') /\ ends_at (skel st') id.
Proof.
  intros Hinv H0 H. pose proof (inv_wf _ Hinv) as Hwf.
  destruct (GetItemCleanEnd_spec _ _ _ _ Hwf H0 H) as (Hwf' & _ & it & i & Hl & Hid & Hr). split.
  - unfold GetItemCleanEnd in H. res_inv.
    destruct (find_item _ _ _ _ _ Hwf H0 Hm Hm0) as (Hr' & Hl' & Hc & He & Hrange).
    rewrite He in Hk0. case_if; res_inv; [by apply split_none|].
    eapply (split_skel _ _ _ _ _ _ y); [done|done|done| |eassumption]; lia.
  - exists (bare_item (essences st') it). split; [eapply elem_skel; [by eapply list_elem_of_lookup_2|done]|].
    destruct (bare_item_fields (essences st') it) as (-> & E2 & _). unfold Item_Len. rewrite E2.
    destruct (ref_item _ _ _ _ Hwf' Hr) as (x & Hx & _ & Hs). simplify_eq.
    destruct (struct_end_lookup _ Hwf' _ _ _ Hs) as (_ & H1 & H2 & H3 & Hi).
    unfold LastID in *. cbn in *. rewrite Hi in *. cbn in *. unfold Item_Len in *.
    rewrite u64_small by (unfold two63, two64 in *; lia). lia.
Qed.

(** ** Appending *)

Lemma append_skel r st :
  store_inv st -> Clock (ref_id st r) = State st (Client (ref_id st r)) ->
  Client (StructID (bare_ref (essences st) r)) = Client (ref_id st r) ->
  appends (bare_ref (essences st) r) (skel st) (skel (append_ r st)).
Proof.
  intros Hinv Hk Hc c. unfold append_, Append. rewrite Hk, Z.eqb_refl, Hc.
  unfold skel. rewrite refs_set_clients. case_decide as Hd; [|done]. subst c. by rewrite map_app.
Qed.

Lemma gc_skel id len st :
  store_inv st -> Clock id = State st (Client id) -> appends (SGC id len) (skel st) (skel (append_ (RGC id len) st)).
Proof. intros Hinv Hk. by apply (append_skel (RGC id len)). Qed.

Lemma essences_append r st : essences (append_ r st) = essences st.
Proof. unfold append_, Append. by case_if. Qed.

Lemma essences_settle it p n st : essences (settle it p n st) = essences st.
Proof.
  unfold settle. case_if; [rewrite essences_deleteItem|];
    (destruct (it_Content it); [by apply essences_alter_same|done..]).
Qed.

Lemma essences_link_left it p n st r st1 :
  link_left it p n st = (r, st1) -> essences st1 = essences st /\ next st1 = next st /\ clients st1 = clients st.
Proof.
  unfold link_left. destruct (left it); [|destruct (HasParentSub it)]; intros [= <- <-]; split_and!; try done.
  by apply essences_alter_same.
Qed.

Lemma essences_link_right it p n st : essences (link_right it p n st) = essences st.
Proof.
  unfold link_right. destruct (right it); [by apply essences_alter_same|]. destruct (HasParentSub it); [|done].
  destruct (left it); [|done]. by rewrite essences_deleteItem.
Qed.

Lemma clients_link_right it p n st : clients (link_right it p n st) = clients st.
Proof.
  unfold link_right. destruct (right it); [done|]. destruct (HasParentSub it); [|done].
  destruct (left it) as [l|]; [|done]. by destruct (deleteItem_frame l (upd_type p (set_mapItem (ParentSub it) n) st)) as (-> & _).
Qed.

Lemma clients_settle it p n st : clients (settle it p n st) = clients st.
Proof. by destruct (settle_settled it p n st) as [[H _ _ _ _ _ _ _ _] _]. Qed.

(** Placing an item whose parent is known appends it, with what it says on the wire. *)
Lemma place_skel it p st :
  store_inv st -> ready st it -> parent it = Some p -> Clock (it_ID it) = State st (Client (it_ID it)) ->
  0 < Item_Len it -> Clock (it_ID it) + Item_Len it < two63 ->
  appends (SItem (bare_item (essences st) it)) (skel st) (skel (place it st)).
Proof.
  intros Hinv Hrd Hp Hid Hlen Hend. unfold place. rewrite Hp.
  set (it1 := if in_conflict st it then _ else it).
  assert (H1 : ready st it1 /\ essence it1 = essence it /\ parent it1 = Some p).
  { unfold it1. destruct (in_conflict st it); [|done]. split_and!; try done.
    destruct Hrd as [R1 R2 R3]. split; [|done..]. cbn. intros l Hl.
    apply conflict_loop_dom in Hl as [Hl|Hl]; auto. }
  destruct H1 as (Hrd1 & He1 & Hp1). clearbody it1.
  assert (it_ID it1 = it_ID it /\ Item_Len it1 = Item_Len it) as [Hid1 Hlen1].
  { unfold Item_Len. pose proof (f_equal it_ID He1). pose proof (f_equal it_Content He1). cbn in *. split; congruence. }
  destruct (link_left it1 p (next st) st) as [r st1] eqn:El.
  destruct (essences_link_left _ _ _ _ _ _ El) as (L1 & L2 & L3).
  rewrite <- Hid1 in Hid, Hend. rewrite <- Hlen1 in Hlen, Hend.
  destruct (append_item_Ok st it1 p r st1 Hinv Hid Hlen Hend El) as (E4 & _).
  set (st3 := link_right _ _ _ _) in *.
  assert (Hes : essences st3 = <[next st := essence it]> (essences st)).
  { unfold st3. rewrite essences_link_right. unfold essences. cbn. rewrite fmap_insert, L2.
    fold (essences st1). rewrite L1. f_equal. exact He1. }
  assert (Hkeep : keeps_ids (essences st) (essences st3)).
  { intros k x Hk. rewrite Hes. exists x. split; [|done]. rewrite lookup_insert_ne; [done|]. intros <-.
    rewrite essences_lookup, (n_fresh st Hinv) in Hk. done. }
  intros c. unfold skel at 1. rewrite essences_settle, essences_append.
  assert (Hrefs : refs (settle (set_right r it1) p (next st) (append_ (RItem (next st)) st3)) c
    = if decide (Client (it_ID it) = c) then refs st c ++ [RItem (next st)] else refs st c).
  { unfold refs at 1. rewrite clients_settle, E4. cbn. rewrite Hid1, lookup_insert. case_decide; [by subst|].
    unfold st3. rewrite clients_link_right. cbn. by rewrite L3. }
  rewrite Hrefs. destruct (bare_item_fields (essences st) it) as (F1 & _). cbn [StructID]. rewrite F1.
  assert (Hold : map (bare_ref (essences st3)) (refs st c) = skel st c).
  { apply map_ext_in. intros x Hx%list_elem_of_In. eapply (bare_ref_change st); [done..|]. intros l ->.
    apply list_elem_of_lookup in Hx as [j Hj]. pose proof (ref_lt_next _ _ _ _ (inv_wf _ Hinv) Hj).
    rewrite Hes, lookup_insert_ne; [done|lia]. }
  case_decide; [|done]. rewrite map_app, Hold. do 2 f_equal. cbn. rewrite Hes, lookup_insert_eq, <- Hes.
  do 2 f_equal. rewrite bare_item_essence. apply bare_item_change; [done|]. intros k Hk.
  rewrite Hk in Hp. injection Hp as <-. destruct (rd_parent _ _ Hrd _ Hk) as [t Ht].
  destruct (inv_types _ Hinv _ _ Ht) as (_ & _ & _ & Hn). rewrite essences_lookup, fmap_is_Some. by apply Hn.
Qed.

(** ** Resolving *)

Lemma bare_Parent E it p :
  Parent (bare_item E it) = Some p ->
  Origin it = None /\ RightOrigin it = None /\ parent_info E it = Some p.
Proof. rewrite bare_item_cases. by destruct (Origin it), (RightOrigin it). Qed.

(** An item whose neighbours are in place and whose parent is a type of the store. *)
Lemma anchored_intro st it q :
  store_inv st -> parent it = Some q ->
  (forall id, Origin it = Some id -> ends_at (skel st) id) ->
  (forall id, RightOrigin it = Some id -> starts_at (skel st) id) ->
  (forall l, q = TNested l -> Origin it = None -> RightOrigin it = None ->
     exists x tr nm, heap st !! l = Some x /\ it_Content x = ContentType tr nm) ->
  anchored (skel st) (bare_item (essences st) it).
Proof.
  intros Hinv Hq Ho Hr Hn. destruct (bare_item_fields (essences st) it) as (_ & _ & F3 & F4).
  split; rewrite ?F3, ?F4; [done|done| |].
  - intros p (E1 & E2 & Ep)%bare_Parent Hroot. unfold parent_info in Ep. rewrite Hq in Ep. injection Ep as <-.
    destruct q as [name|l]; [done|]. destruct (Hn l eq_refl E1 E2) as (x & tr & nm & Hx & Hc). cbn.
    rewrite essences_lookup, Hx. cbn. destruct (bare_item_fields (essences st) x) as (G1 & G2 & _).
    exists (bare_item (essences st) x), tr, nm. rewrite G1, G2. split_and!; [|done..].
    eapply elem_skel; [|done]. by apply (inv_items _ Hinv _ _ Hx).
  - intros E1 E2. rewrite bare_item_cases, E1, E2. cbn. unfold parent_info. rewrite Hq. eauto.
Qed.

Lemma resolve_left_skel it st it' st' :
  store_inv st -> ref_ok (Origin it) -> resolve_left it st = Some (it', st') ->
  split_step (skel st) (skel st') /\ Origin it' = Origin it /\ (Origin it = None -> it' = it)
  /\ (forall id, Origin it = Some id -> ends_at (skel st') id).
Proof.
  intros Hinv Href H. unfold resolve_left in H. destruct (Origin it) as [id|] eqn:Eo.
  - destruct (GetItemCleanEnd id st) as [[l st1]|] eqn:Eg; [|done]. injection H as <- <-.
    destruct (GetItemCleanEnd_skel _ _ _ _ Hinv (Href id eq_refl) Eg) as [H1 H2].
    destruct (GetItemCleanEnd_settles _ _ _ _ Hinv (Href id eq_refl) Eg) as (_ & x & -> & Hx).
    cbn. rewrite Hx. split_and!; [done..|]. by intros ? [= <-].
  - injection H as <- <-. split_and!; [by apply split_none|done..].
Qed.

Lemma resolve_right_skel it st it' st' :
  store_inv st -> ref_ok (RightOrigin it) -> resolve_right it st = Some (it', st') ->
  split_step (skel st) (skel st') /\ (RightOrigin it = None -> it' = it)
  /\ (forall id, RightOrigin it = Some id -> starts_at (skel st') id).
Proof.
  intros Hinv Href H. unfold resolve_right in H. destruct (RightOrigin it) as [id|] eqn:Eo.
  - destruct (GetItemCleanStart id st) as [[l st1]|] eqn:Eg; [|done]. injection H as <- <-.
    destruct (GetItemCleanStart_skel _ _ _ _ Hinv (Href id eq_refl) Eg) as [H1 H2].
    split_and!; [done..|]. by intros ? [= <-].
  - injection H as <- <-. split_and!; [by apply split_none|done..].
Qed.

Lemma resolve_parent_skel it st it' st' :
  store_inv st -> resolve_parent it st = (it', st') ->
  (forall c, skel st' c = skel st c)
  /\ Origin it' = Origin it /\ RightOrigin it' = RightOrigin it
  /\ (parent it = None -> left it = None -> right it = None -> forall l, parent it' = Some (TNested l) ->
      exists x tr nm, heap st' !! l = Some x /\ it_Content x = ContentType tr nm).
Proof.
  intros Hinv H. unfold resolve_parent in H. destruct (Parent it) as [p|].
  - destruct (IsRoot p).
    + destruct (Get (PName p) st) as [t st1] eqn:Eg. injection H as <- <-.
      split_and!; [intros c; by eapply skel_Get|done..|]. cbn. intros _ _ _ l [= ->]. unfold Get in Eg.
      by destruct (types st !! TRoot (PName p)).
    + destruct (GetItem st (PItem p)) as [l|]; [|injection H as <- <-; by split_and!].
      destruct (heap st !! l) as [x|] eqn:Ex; [|injection H as <- <-; by split_and!].
      destruct (it_Content x) eqn:Ec; injection H as <- <-; split_and!; try done.
      cbn. intros _ _ _ ? [= <-]. eauto.
  - unfold inherit in H. destruct (left it) as [l|], (right it) as [r|];
      repeat match type of H with context [heap st !! ?x] => destruct (heap st !! x) end;
      injection H as <- <-; split_and!; try done. intros. congruence.
Qed.

(** A resolved item refers to what is there. *)
Lemma resolve_item_skel it st it' st' :
  store_inv st -> fresh_struct (SItem it) -> resolve_item it st = Some (it', st') ->
  rtc split_step (skel st) (skel st')
  /\ (forall q, parent it' = Some q -> anchored (skel st') (bare_item (essences st') it')).
Proof.
  intros Hinv (Ho & Hr & Hp & Hl & Hri & Hpa & Hd) H. unfold resolve_item in H.
  case_if; [done|]. injection H as H. assert (Hrd : ready st it) by (split; congruence).
  destruct (resolve_left it st) as [[it1 st1]|] eqn:E1; [|injection H as <- <-; by split].
  destruct (resolve_left_skel _ _ _ _ Hinv Ho E1) as (S1 & O1 & N1 & A1).
  apply resolve_left_ok in E1 as ([K1 K2 K3] & Hrd1 & Hi1 & Hi2 & Hi3 & Hi4 & Hi5); [|done..].
  destruct (resolve_right it1 st1) as [[it2 st2]|] eqn:E2; [|injection H as <- <-; split; [by apply rtc_once|done]].
  assert (Hr1 : ref_ok (RightOrigin it1)) by (by rewrite Hi3).
  destruct (resolve_right_skel _ _ _ _ K1 Hr1 E2) as (S2 & N2 & A2).
  assert (O2 : Origin it2 = Origin it1).
  { unfold resolve_right in E2. destruct (RightOrigin it1); [destruct (GetItemCleanStart _ _) as [[]|]|]; by simplify_eq. }
  apply resolve_right_ok in E2 as ([M1 M2 M3] & Hrd2 & Hj1 & Hj2 & Hj3 & Hj4 & Hj5); [|done..].
  destruct (resolve_parent_skel _ _ _ _ M1 H) as (S3 & O3 & R3 & A3).
  apply resolve_parent_ok in H as ([P1 P2 P3] & Hrd3 & _); [|done..]. split.
  - eapply rtc_l; [exact S1|]. eapply rtc_l; [exact S2|]. apply rtc_once. by apply split_none.
  - intros q Hq. apply (anchored_intro _ _ q); [done..| | |].
    + intros id Hid. rewrite O3, O2, O1 in Hid. eapply split_ends; [by apply split_none|].
      eapply split_ends; [exact S2|]. by apply A1.
    + intros id Hid. rewrite R3, Hj3 in Hid. eapply split_starts; [by apply split_none|]. by apply A2.
    + intros l -> E3 E4. rewrite O3, O2, O1 in E3. rewrite R3, Hj3 in E4. specialize (N1 E3). specialize (N2 E4). subst it2 it1.
      by apply A3.
Qed.

Lemma trim_skel it off st it' st' q :
  store_inv st -> 0 <= Clock (it_ID it) -> 0 < off < Item_Len it ->
  Clock (it_ID it) + off = State st (Client (it_ID it)) ->
  (parent it = Some q -> anchored (skel st) (bare_item (essences st) it)) ->
  trim it off st = (it', st') ->
  split_step (skel st) (skel st')
  /\ forall x, it' = Some x -> parent x = parent it
     /\ (parent it = Some q -> anchored (skel st') (bare_item (essences st') x)).
Proof.
  intros Hinv H0 Hoff Hst Ha H. unfold trim in H.
  pose proof (State_range _ (inv_wf _ Hinv) (Client (it_ID it))) as Hrange.
  rewrite (u64_small (Clock (it_ID it) + off)) in H by (unfold two63, two64 in *; lia).
  rewrite (u64_small (Clock (it_ID it) + off - 1)) in H by (unfold two63, two64 in *; lia).
  cbn [it_ID set_ID Client] in H.
  destruct (GetItemCleanEnd _ _) as [[l st1]|] eqn:Eg; [|injection H as <- <-; split; [by apply split_none|done]].
  assert (Hpos : 0 <= Clock (NewID (Client (it_ID it)) (Clock (it_ID it) + off - 1))) by (cbn; lia).
  destruct (GetItemCleanEnd_settles _ _ _ _ Hinv Hpos Eg) as ([K1 _ _] & y & Hy & Hlast).
  apply GetItemCleanEnd_skel in Eg as [S1 A1]; [|done|cbn; lia].
  rewrite Hy, Hlast in H. destruct (Splice _ _) as [[hd tl]|]; injection H as <- <-; (split; [done|]); [|done].
  intros x [= <-]. split; [done|]. intros Hq. specialize (Ha Hq).
  apply (anchored_intro _ _ q); [done..| | |done].
  - intros id [= <-]. done.
  - cbn. intros id Hid. apply (split_starts _ _ _ S1). apply (an_right _ _ Ha).
    by destruct (bare_item_fields (essences st) it) as (_ & _ & _ & ->).
Qed.

(** ** Types know their owners *)

Definition owner_ok (p : TypePtr) (a : AbstractType) : Prop :=
  match p with TRoot n => t_item a = None /\ rootName a = n | TNested l => t_item a = Some l end.

Definition owned (T : gmap TypePtr AbstractType) : Prop := map_Forall owner_ok T.

Lemma owned_alter f p T : (forall a, owner_ok p a -> owner_ok p (f a)) -> owned T -> owned (alter f p T).
Proof.
  intros Hf HT q a. rewrite lookup_alter. case_decide; [subst|apply HT].
  destruct (T !! q) as [b|] eqn:E; [|done]. intros [= <-]. apply Hf. by apply HT.
Qed.

Lemma owned_start o p T : owned T -> owned (alter (set_start o) p T).
Proof. apply owned_alter. by destruct p. Qed.

Lemma owned_mapItem k l p T : owned T -> owned (alter (set_mapItem k l) p T).
Proof. apply owned_alter. by destruct p. Qed.

Lemma owned_insert p a T : owner_ok p a -> owned T -> owned (<[p := a]> T).
Proof. intros Ha HT. by apply map_Forall_insert_2. Qed.

Lemma types_deleteItem l st : types (deleteItem l st) = types st.
Proof. by destruct (deleteItem_frame l st) as (_ & _ & -> & _). Qed.

Lemma owned_splitItem l off i st n st' : owned (types st) -> splitItem l off i st = Ok (n, st') -> owned (types st').
Proof.
  intros HT H. unfold splitItem in H. destruct (heap st !! l) as [it|]; [|done].
  apply bind_Ok_inv in H as ([hd tl] & _ & H). injection H as <- <-.
  destruct (right it), (parent it), (HasParentSub it); cbn; auto using owned_mapItem.
Qed.

Lemma owned_CleanStart id st l st' :
  owned (types st) -> GetItemCleanStart id st = Ok (l, st') -> owned (types st').
Proof. intros HT H. unfold GetItemCleanStart in H. res_inv. case_if; res_inv; [done|]. by eapply owned_splitItem. Qed.

Lemma owned_CleanEnd id st l st' :
  owned (types st) -> GetItemCleanEnd id st = Ok (l, st') -> owned (types st').
Proof. intros HT H. unfold GetItemCleanEnd in H. res_inv. case_if; res_inv; [done|]. by eapply owned_splitItem. Qed.

Lemma owned_Get name st t st' : owned (types st) -> Get name st = (t, st') -> owned (types st').
Proof.
  intros HT. unfold Get. destruct (types st !! TRoot name); intros [= _ <-]; [done|]. by apply owned_insert.
Qed.

Lemma owned_append r st : types (append_ r st) = types st.
Proof. unfold append_, Append. by case_if. Qed.

Lemma owned_settle it p n st : owned (types st) -> owned (types (settle it p n st)).
Proof.
  intros HT. unfold settle. case_if; [rewrite types_deleteItem|];
    (destruct (it_Content it); try done; by apply owned_insert).
Qed.

Lemma owned_place it st : owned (types st) -> owned (types (place it st)).
Proof.
  intros HT. unfold place. destruct (parent it) as [p|]; [|by rewrite owned_append].
  set (it1 := if in_conflict st it then _ else it). clearbody it1.
  destruct (link_left it1 p (next st) st) as [r st1] eqn:El.
  apply owned_settle. rewrite owned_append.
  assert (owned (types st1)) as H1.
  { unfold link_left in El. destruct (left it1); [|destruct (HasParentSub it1)]; injection El as _ <-; cbn; auto using owned_start. }
  unfold link_right. destruct (right _); [done|]. destruct (HasParentSub _); [|done].
  destruct (left _); rewrite ?types_deleteItem; by apply owned_mapItem.
Qed.

Lemma owned_resolve_item it st it' st' :
  owned (types st) -> resolve_item it st = Some (it', st') -> owned (types st').
Proof.
  intros HT H. unfold resolve_item in H. case_if; [done|]. injection H as H.
  destruct (resolve_left it st) as [[it1 st1]|] eqn:E1; [|by injection H as _ <-].
  assert (owned (types st1)) as T1.
  { unfold resolve_left in E1. destruct (Origin it); [|by injection E1 as _ <-].
    destruct (GetItemCleanEnd _ _) as [[l s]|] eqn:Eg; [|done]. injection E1 as _ <-. by eapply owned_CleanEnd. }
  destruct (resolve_right it1 st1) as [[it2 st2]|] eqn:E2; [|by injection H as _ <-].
  assert (owned (types st2)) as T2.
  { unfold resolve_right in E2. destruct (RightOrigin it1); [|by injection E2 as _ <-].
    destruct (GetItemCleanStart _ _) as [[l s]|] eqn:Eg; [|done]. injection E2 as _ <-. by eapply owned_CleanStart. }
  unfold resolve_parent in H. destruct (Parent it2) as [p|].
  - destruct (IsRoot p).
    + destruct (Get (PName p) st2) as [t st3] eqn:Eg. injection H as _ <-. by eapply owned_Get.
    + repeat case_match; by injection H as _ <-.
  - repeat case_match; by injection H as _ <-.
Qed.

Lemma owned_trim it off st o st' : owned (types st) -> trim it off st = (o, st') -> owned (types st').
Proof.
  intros HT H. unfold trim in H. destruct (GetItemCleanEnd _ _) as [[l s]|] eqn:Eg; [|by injection H as _ <-].
  apply owned_CleanEnd in Eg; [|done]. destruct (Splice _ _) as [[]|]; by injection H as _ <-.
Qed.

(** ** Integrated items have a parent *)

Definition parented (E : gmap loc Item) : Prop := map_Forall (fun _ x => is_Some (parent x)) E.

Lemma parented_insert l x E : is_Some (parent x) -> parented E -> parented (<[l := x]> E).
Proof. intros Hx HE. by apply map_Forall_insert_2. Qed.

Lemma parented_splitItem l off i st n st' :
  parented (essences st) -> splitItem l off i st = Ok (n, st') -> parented (essences st').
Proof.
  intros HE H. pose proof H as H'. unfold splitItem in H'. destruct (heap st !! l) as [it|] eqn:El; [|done].
  apply bind_Ok_inv in H' as ([hd tl] & Hs & _). rewrite (essences_split _ _ _ _ _ _ _ _ _ El Hs H).
  assert (is_Some (parent it)) as Hp by (apply (HE l (essence it)); by rewrite essences_lookup, El).
  by apply parented_insert, parented_insert.
Qed.

Lemma parented_CleanStart id st l st' :
  parented (essences st) -> GetItemCleanStart id st = Ok (l, st') -> parented (essences st').
Proof. intros HE H. unfold GetItemCleanStart in H. res_inv. case_if; res_inv; [done|]. by eapply parented_splitItem. Qed.

Lemma parented_CleanEnd id st l st' :
  parented (essences st) -> GetItemCleanEnd id st = Ok (l, st') -> parented (essences st').
Proof. intros HE H. unfold GetItemCleanEnd in H. res_inv. case_if; res_inv; [done|]. by eapply parented_splitItem. Qed.

Lemma essences_Get name st t st' : Get name st = (t, st') -> essences st' = essences st.
Proof. unfold Get. destruct (types st !! TRoot name); intros [= _ <-]; done. Qed.

Lemma essences_resolve_parent it st it' st' : resolve_parent it st = (it', st') -> essences st' = essences st.
Proof.
  unfold resolve_parent. destruct (Parent it) as [p|].
  - destruct (IsRoot p).
    + destruct (Get (PName p) st) as [t st3] eqn:Eg. intros [= _ <-]. by eapply essences_Get.
    + repeat case_match; by intros [= _ <-].
  - repeat case_match; by intros [= _ <-].
Qed.

Lemma parented_resolve_item it st it' st' :
  parented (essences st) -> resolve_item it st = Some (it', st') -> parented (essences st').
Proof.
  intros HE H. unfold resolve_item in H. case_if; [done|]. injection H as H.
  destruct (resolve_left it st) as [[it1 st1]|] eqn:E1; [|by injection H as _ <-].
  assert (parented (essences st1)) as T1.
  { unfold resolve_left in E1. destruct (Origin it); [|by injection E1 as _ <-].
    destruct (GetItemCleanEnd _ _) as [[l s]|] eqn:Eg; [|done]. injection E1 as _ <-. by eapply parented_CleanEnd. }
  destruct (resolve_right it1 st1) as [[it2 st2]|] eqn:E2; [|by injection H as _ <-].
  assert (parented (essences st2)) as T2.
  { unfold resolve_right in E2. destruct (RightOrigin it1); [|by injection E2 as _ <-].
    destruct (GetItemCleanStart _ _) as [[l s]|] eqn:Eg; [|done]. injection E2 as _ <-. by eapply parented_CleanStart. }
  by rewrite (essences_resolve_parent _ _ _ _ H).
Qed.

Lemma parented_trim it off st o st' :
  parented (essences st) -> trim it off st = (o, st') -> parented (essences st').
Proof.
  intros HE H. unfold trim in H. destruct (GetItemCleanEnd _ _) as [[l s]|] eqn:Eg; [|by injection H as _ <-].
  apply parented_CleanEnd in Eg; [|done]. destruct (Splice _ _) as [[]|]; by injection H as _ <-.
Qed.

Lemma parented_place it st : parented (essences st) -> parented (essences (place it st)).
Proof.
  intros HE. unfold place. destruct (parent it) as [p|] eqn:Hp; [|by rewrite essences_append].
  set (it1 := if in_conflict st it then _ else it).
  assert (parent it1 = Some p) as Hp1 by (unfold it1; by destruct (in_conflict st it)). clearbody it1.
  destruct (link_left it1 p (next st) st) as [r st1] eqn:El.
  destruct (essences_link_left _ _ _ _ _ _ El) as (L1 & _).
  rewrite essences_settle, essences_append, essences_link_right. unfold essences. cbn. rewrite fmap_insert.
  apply parented_insert; [cbn; eauto|]. fold (essences st1). by rewrite L1.
Qed.

(** ** Every operation *)

Record sk_inv (st : Store) : Prop := {
  sk_built : built (skel st);
  sk_owned : owned (types st);
  sk_parented : parented (essences st);
}.

Lemma built_splits s s' : rtc split_step s s' -> built s -> built s'.
Proof. induction 1 as [|s s1 s' H _ IH]; [done|]. intros Hb. apply IH. by eapply built_split. Qed.

Lemma sk_splitItem l off i st n st' it c :
  store_inv st -> refs st c !! i = Some (RItem l) -> heap st !! l = Some it -> 0 < off < Item_Len it ->
  splitItem l off i st = Ok (n, st') -> sk_inv st -> sk_inv st'.
Proof.
  intros Hinv Hi Hl Hoff Hs [H1 H2 H3]. split; [|by eapply owned_splitItem|by eapply parented_splitItem].
  eapply built_split; [exact H1|]. by eapply split_skel.
Qed.

Lemma sk_deleteItem l st : sk_inv st -> sk_inv (deleteItem l st).
Proof.
  intros [H1 H2 H3]. split; [|by rewrite types_deleteItem|by rewrite essences_deleteItem]. eapply built_ext; [exact H1|]. apply skel_deleteItem.
Qed.

Lemma sk_Get name st t st' : Get name st = (t, st') -> sk_inv st -> sk_inv st'.
Proof.
  intros H [H1 H2 H3]. split; [|by eapply owned_Get|by rewrite (essences_Get _ _ _ _ H)]. eapply built_ext; [exact H1|]. intros c. by eapply skel_Get.
Qed.

Lemma sk_CleanStart id st l st' :
  store_inv st -> 0 <= Clock id -> GetItemCleanStart id st = Ok (l, st') -> sk_inv st -> sk_inv st'.
Proof.
  intros Hinv H0 H [H1 H2 H3]. split; [|by eapply owned_CleanStart|by eapply parented_CleanStart].
  eapply built_split; [exact H1|]. by eapply GetItemCleanStart_skel.
Qed.

Lemma sk_gc id len st :
  store_inv st -> Clock id = State st (Client id) -> 0 < len -> sk_inv st -> sk_inv (append_ (RGC id len) st).
Proof.
  intros Hinv Hid Hlen [H1 H2 H3]. split; [|by rewrite owned_append|by rewrite essences_append].
  eapply built_append; [exact H1|by apply gc_skel| |done..]. cbn. by rewrite skel_slen by apply Hinv.
Qed.

Lemma sk_place it st :
  store_inv st -> ready st it -> Clock (it_ID it) = State st (Client (it_ID it)) ->
  0 < Item_Len it -> Clock (it_ID it) + Item_Len it < two63 ->
  (forall q, parent it = Some q -> anchored (skel st) (bare_item (essences st) it)) ->
  sk_inv st -> sk_inv (place it st).
Proof.
  intros Hinv Hrd Hid Hlen Hend Ha Hsk. destruct (parent it) as [p|] eqn:Hp.
  - destruct Hsk as [H1 H2 H3]. split; [|by apply owned_place|by apply parented_place].
    destruct (bare_item_fields (essences st) it) as (F1 & F2 & _).
    eapply built_append; [exact H1|by eapply place_skel|..]; cbn [StructID StructLen].
    + rewrite F1, skel_slen by apply Hinv. done.
    + unfold Item_Len. by rewrite F2.
    + eauto.
  - unfold place. rewrite Hp. by apply sk_gc.
Qed.

Lemma sk_integrateStruct s off st :
  store_inv st -> (forall it, s = SItem it -> ready st it) ->
  (match s with SSkip _ _ => False | _ => True end) ->
  0 <= Clock (StructID s) -> 0 <= off < StructLen s ->
  Clock (StructID s) + StructLen s < two63 ->
  Clock (StructID s) + off = State st (Client (StructID s)) ->
  (forall it q, s = SItem it -> parent it = Some q -> anchored (skel st) (bare_item (essences st) it)) ->
  sk_inv st -> sk_inv (integrateStruct s off st).
Proof.
  intros Hinv Hrd Hns H0 Hoff Hend Hst Ha Hsk. destruct s as [id len|id len|it]; [|done|];
    cbn [integrateStruct StructID StructLen] in *.
  - case_if.
    + rewrite u64_small by (unfold two63, two64 in *; lia). apply sk_gc; cbn; [done|lia..|done].
    + apply sk_gc; [done|lia..|done].
  - specialize (Hrd it eq_refl). unfold integrateItem. case_if; [|apply sk_place; [done|done|lia|lia|lia|eauto|done]].
    assert (Hoff' : 0 < off < Item_Len it) by lia. destruct (trim it off st) as [o st1] eqn:Et.
    pose proof (trim_ok _ _ _ _ _ Hinv Hrd H0 Hoff' Hst Et) as [[S1 S2 [S3 S4]] Ho].
    assert (sk_inv st1) as Hsk1.
    { destruct Hsk as [B1 B2 B3]. split; [|by eapply owned_trim|by eapply parented_trim]. eapply built_split; [exact B1|].
      by eapply (trim_skel _ _ _ _ _ (TRoot [])); [done..|eauto|]. }
    destruct o as [it'|]; [|done]. destruct (Ho it' eq_refl) as (Hrd' & Hid' & Hlen').
    apply sk_place; try done; rewrite ?Hid', ?Hlen', ?S3; cbn; try lia.
    intros q Hq. destruct (trim_skel _ _ _ _ _ q Hinv H0 Hoff' Hst ltac:(eauto) Et) as [_ Hx].
    destruct (Hx it' eq_refl) as [Hpar Hanch]. apply Hanch. congruence.
Qed.

Lemma sk_drain q : forall st q' st' b,
  store_inv st -> Forall struct_fits q -> drain q st = (q', st', b) -> sk_inv st -> sk_inv st'.
Proof.
  induction q as [|s rest IH]; intros st q' st' b Hinv Hfit H Hsk; [cbn in H; by simplify_eq|].
  apply Forall_cons in Hfit as [(Hf & H0 & Hl & He) Hrest].
  assert (Hgo : forall st1, store_inv st1 -> sk_inv st1 ->
    (let '(q, s2, _) := drain rest st1 in (q, s2, true)) = (q', st', b) -> sk_inv st').
  { intros st1 Hi1 Hs1 Hd. destruct (drain rest st1) as [[q2 st2] b2] eqn:Ed. simplify_eq. by eapply IH. }
  cbn [drain] in H.
  assert (Hskip : (match s with SSkip _ _ => False | _ => True end) \/
                  exists id n, s = SSkip id n) by (destruct s; eauto).
  destruct Hskip as [Hns|(id & n & ->)]; [|by eapply Hgo].
  assert (Hif : forall (A : Type) (a c : A), match s with SSkip _ _ => a | _ => c end = c) by (by destruct s).
  rewrite Hif in H. clear Hif. cbn zeta in H. case_if; [by simplify_eq|].
  rewrite (head_offset _ _ Hinv H0 E) in H. case_if; [by eapply Hgo|].
  destruct (resolve s st) as [[s1 st1]|] eqn:Er; [|by simplify_eq].
  destruct (resolve_ok _ _ _ _ Hinv Hf Er) as ([S1 S2 [S3 S4]] & Hrd & Hid & Hlen & Hns').
  assert (sk_inv st1 /\ forall it q, s1 = SItem it -> parent it = Some q ->
    anchored (skel st1) (bare_item (essences st1) it)) as [Hsk1 Ha].
  { destruct s as [i0 n0|i0 n0|it]; cbn in Er; [injection Er as <- <-; by split|done|].
    destruct (resolve_item it st) as [[it' st2]|] eqn:Ei; [|done]. injection Er as <- <-.
    destruct (resolve_item_skel _ _ _ _ Hinv Hf Ei) as [Hsp Han]. destruct Hsk as [B1 B2 B3].
    split; [split; [by eapply built_splits|by eapply owned_resolve_item|by eapply parented_resolve_item]|]. intros ? ? [= <-]. apply Han. }
  eapply Hgo; [| |exact H].
  - destruct (integrateStruct_ok s1 (State st (Client (StructID s)) - Clock (StructID s)) st1)
      as [(K1 & _)|[[K1 _ _] _]]; rewrite ?Hid, ?Hlen, ?S3; try done; try lia. by apply Hns'.
  - apply sk_integrateStruct; rewrite ?Hid, ?Hlen, ?S3; try done; try lia. by apply Hns'.
Qed.

Lemma sk_round order : forall qs st qs' st' b,
  store_inv st -> queues_fit qs -> round order qs st = (qs', st', b) -> sk_inv st -> sk_inv st'.
Proof.
  induction order as [|c order IH]; intros qs st qs' st' b Hinv Hfit H Hsk; cbn in H; [by simplify_eq|].
  destruct (drain (queue_of qs c) st) as [[q st1] b1] eqn:Ed.
  destruct (round order (<[c:=q]> qs) st1) as [[qs2 st2] b2] eqn:Er. simplify_eq.
  pose proof (sk_drain _ _ _ _ _ Hinv (Hfit c) Ed Hsk) as Hsk1.
  apply drain_ok in Ed as [D1 D2 D3 D4 D5]; [|done..]. eapply IH; [exact D1| |exact Er|exact Hsk1].
  intros c'. rewrite queue_of_insert. case_decide; [subst|apply Hfit]. by eapply suffix_fits.
Qed.

Lemma sk_rounds fuel order : forall qs st qs' st',
  NoDup order -> store_inv st -> queues_fit qs -> rounds fuel order qs st = (qs', st') -> sk_inv st -> sk_inv st'.
Proof.
  induction fuel as [|fuel IH]; intros qs st qs' st' Hnd Hinv Hfit H Hsk; cbn in H; [by simplify_eq|].
  destruct (round order qs st) as [[qs1 st1] b] eqn:Er.
  pose proof (sk_round _ _ _ _ _ _ Hinv Hfit Er Hsk) as Hsk1.
  apply round_ok in Er as [R1 R2 R3 _ _ _]; [|done..]. destruct b; [|by simplify_eq].
  eapply IH; [done|exact R1|by eapply suffix_queues_fit|exact H|done].
Qed.

Lemma sk_integrate u d :
  store_inv (store d) -> update_fits u -> sk_inv (store d) -> sk_inv (store (integrate u d)).
Proof.
  intros Hinv Hfit Hsk. unfold integrate. destruct (queues (Clients u)) as [order qs] eqn:Eq.
  destruct (queues_ok _ _ _ Eq Hfit) as (Hnd & _ & Hq & _).
  destruct (rounds _ order qs (store d)) as [qs' st'] eqn:Er.
  apply sk_rounds in Er; [|done..]. by destruct (leftover order qs').
Qed.

(** ** Deleting *)

Lemma sk_delete_loop fuel client to : forall idx st,
  store_inv st -> 0 <= to < two63 -> sk_inv st -> sk_inv (delete_loop fuel client to idx st).
Proof.
  induction fuel as [|fuel IH]; intros idx st Hinv Hto Hsk; cbn; [done|].
  destruct (refs st client !! idx) as [r|] eqn:Hi; [|done]. pose proof (inv_wf _ Hinv) as Hwf.
  destruct (entry_at _ _ _ _ Hwf Hi) as (H1 & H2 & H3 & H4 & H5 & H6).
  pose proof (State_range _ Hwf client) as Hrange. case_if; [done|].
  destruct r as [id n|id n|l]; [by apply IH..|].
  destruct (ref_item _ _ _ _ Hwf Hi) as (it & Hl & _ & _). rewrite Hl.
  unfold ref_id in *. cbn [view] in *. rewrite Hl in *. cbn [StructID StructLen] in *.
  destruct (deleted it); [by apply IH|].
  assert (Hdel : forall s, store_inv s -> sk_inv s -> sk_inv (delete_loop fuel client to (S idx) (deleteItem l s))).
  { intros s Hs Hk. apply IH; [by apply deleteItem_inv|done|by apply sk_deleteItem]. }
  rewrite u64_small by (unfold two63, two64 in *; lia). case_if; [|by apply Hdel].
  rewrite u64_small, s64_small by (unfold two63, two64 in *; lia).
  destruct (splitItem l _ idx st) as [[n st1]|] eqn:Esp; [|by apply IH].
  assert (0 < to - Clock (it_ID it) < Item_Len it) as Hoff by lia.
  apply Hdel; [by eapply splitItem_inv|by eapply sk_splitItem].
Qed.

Lemma sk_deleteRange client from to st :
  store_inv st -> 0 <= from -> to < two63 -> sk_inv st -> sk_inv (deleteRange client from to st).
Proof.
  intros Hinv H0 Hto Hsk. unfold deleteRange. case_if; [done|].
  assert (Hgo : forall s, store_inv s -> sk_inv s -> sk_inv (match find s (NewID client from) with
      | Ok idx => delete_loop (S (S (length (refs s client)))) client to idx s | Err _ => s end)).
  { intros s Hs Hk. destruct (find _ _); [|done]. apply sk_delete_loop; [done|lia|done]. }
  destruct (GetItemCleanStart (NewID client from) st) as [[l st1]|e] eqn:Eg.
  - apply Hgo; [by eapply (GetItemCleanStart_settles (NewID client from))|]. by eapply (sk_CleanStart (NewID client from)).
  - destruct (Store_Get st (NewID client from)); [by apply Hgo|done].
Qed.

Lemma sk_apply_range client d r :
  doc_inv d -> range_fits r -> sk_inv (store d) ->
  sk_inv (store (apply_range client (State (store d) client) d r)).
Proof.
  intros [Hinv _ _] Hr Hsk. pose proof Hr as (H0 & Hlen & Hend). pose proof (State_range _ (inv_wf _ Hinv) client).
  unfold apply_range. rewrite (End_fits r Hr). repeat case_if; cbn; [done| |]; apply sk_deleteRange; (done || lia).
Qed.

Lemma sk_apply_ranges client state rs : forall d,
  state = State (store d) client -> doc_inv d -> Forall range_fits rs -> sk_inv (store d) ->
  sk_inv (store (foldl (apply_range client state) d rs)).
Proof.
  induction rs as [|r rs IH]; intros d -> Hd Hrs Hsk; [done|]. apply Forall_cons in Hrs as [Hr Hrs]. cbn.
  destruct (apply_range_ok client d r Hd Hr) as [[D1 _ D3 _ _ _] _].
  apply IH; [by rewrite D3|done..|]. by apply sk_apply_range.
Qed.

Section Order.
Context `{!MapOrder}.

Lemma sk_applyDeleteSet ds d :
  doc_inv d -> (forall x, ds = Some x -> ds_fits x) -> sk_inv (store d) -> sk_inv (store (applyDeleteSet ds d)).
Proof.
  intros Hd Hf Hsk. destruct ds as [ds|]; [|done]. cbn. specialize (Hf ds eq_refl).
  assert (Forall (fun x => Forall range_fits x.2) (iter ds)) as Hl.
  { rewrite Forall_forall. intros [c rs] Hin%elem_of_iter. by apply (Hf c). }
  revert d Hd Hsk. induction Hl as [|[c rs] l Hr Hl IH]; intros d Hd Hsk; [done|]. cbn [foldl apply_client].
  destruct (apply_ranges_ok c (State (store d) c) rs d eq_refl Hd Hr) as [[D1 _ _ _ _ _] _].
  apply IH; [done|]. by apply sk_apply_ranges.
Qed.

Lemma sk_fold_integrate us : forall d,
  store_inv (store d) -> Forall update_fits us -> sk_inv (store d) ->
  sk_inv (store (foldl (fun d u => integrate u d) d us)).
Proof.
  induction us as [|u us IH]; intros d Hinv Hus Hsk; [done|]. apply Forall_cons in Hus as [Hu Hus]. cbn.
  apply IH; [by destruct (integrate_ok u d Hinv Hu)|done|by apply sk_integrate].
Qed.

Lemma sk_retry_loop fuel : forall d, doc_inv d -> sk_inv (store d) -> sk_inv (store (retry_loop fuel d)).
Proof.
  induction fuel as [|fuel IH]; intros d [Hinv Hfit Hds] Hsk; cbn [retry_loop]; [done|].
  destruct (pending d) as [|u us] eqn:Ep; [done|].
  destruct (fold_integrate_ok (u :: us) (set_pending [] d) Hinv) as (K1 & K2 & K3 & new & L1 & L2 & _ & _); [done|].
  pose proof (sk_fold_integrate (u :: us) (set_pending [] d) Hinv Hfit Hsk) as Hsk1.
  case_if; [done|]. apply IH; [|done]. split; [done|by rewrite L1|by rewrite K3].
Qed.

Lemma sk_ApplyDecodedUpdate u d :
  doc_inv d -> update_ok_for u -> sk_inv (store d) -> sk_inv (store (ApplyDecodedUpdate u d)).
Proof.
  intros Hd [Hu Hdu] Hsk. unfold ApplyDecodedUpdate.
  destruct (integrate_ok u d (di_store _ Hd) Hu) as [I1 I2 I3 (n1 & J1 & J2 & J3 & _)].
  assert (Hd1 : doc_inv (integrate u d)).
  { destruct Hd. split; [done| |by rewrite I3]. rewrite J1. by apply Forall_app. }
  assert (Hd2 : doc_inv (applyDeleteSet (Deletes u) (integrate u d))).
  { destruct (Deletes u) as [ds|] eqn:Ed; [|done]. apply (applyDeleteSet_ok ds _ Hd1 (Hdu ds eq_refl)). }
  pose proof (sk_applyDeleteSet (Deletes u) _ Hd1 Hdu (sk_integrate u d (di_store _ Hd) Hu Hsk)) as Hsk2.
  unfold retryPending. pose proof (sk_retry_loop (S (pending_structs (pending (applyDeleteSet (Deletes u) (integrate u d))))) _ Hd2 Hsk2) as Hsk3.
  destruct (retry_loop_ok _ _ Hd2 (Nat.lt_succ_diag_r _)) as (H1 & _).
  case_if; [done|]. apply sk_applyDeleteSet; [|by intros ? [= <-]; apply ds_normal_fits, H1|done].
  destruct H1 as [? ? ?]. split; [done..|apply map_Forall_empty].
Qed.

(** Every reachable document is built by appending structs whose neighbours are there
    and by splitting items. *)
Lemma reachable_sk d : reachable d -> sk_inv (store d).
Proof.
  induction 1 as [c|b d d' Hd IH Hb Ha|name d Hd IH].
  - split; [apply built_nil; intros c'; unfold skel, refs; cbn; by rewrite lookup_empty|apply map_Forall_empty|].
    unfold essences. cbn. rewrite fmap_empty. apply map_Forall_empty.
  - unfold ApplyUpdate in Ha. res_inv. apply DecodeUpdate_fits in Hm as (Hu & ds & Hds & Hf); [|done].
    apply sk_ApplyDecodedUpdate; [by apply reachable_doc_inv| |done]. split; [done|]. intros ds'. rewrite Hds. by intros [= <-].
  - unfold Doc_Get. destruct (Get name (store d)) as [t st] eqn:E. by eapply sk_Get.
Qed.
End Order.
