(* ===== verification/Transfer.v ===== *)
(** * A snapshot restores the document

    [EncodeStateAsUpdate] for an empty state vector is what compaction stores, what a
    version holds and what a new client is sent.  This file shows that applying it to a
    new document ([ApplyUpdate]) restores every struct: nothing stays pending, every
    client's structs are the same, everything deleted is deleted, everything held back
    is held back.

    Integration never splits and never fails here, because the skeleton of the source is
    causal (Skeleton): the structs integrated so far are, per client, a prefix of the
    source's, so every neighbour found has the boundary the source has. *)

From S2P Require Import Prelude Lib0 Any Content StateVector DeleteSet Struct Update StructStore Doc Links Invariant Integrate Deletion Apply Sync Skeleton Build.

(** ** What goes on the wire *)

(** A struct as the peer decodes it, of an item that is integrated at the source. *)
Definition wired (s : Struct) : Prop :=
  match s with
  | SGC _ _ => True
  | SSkip _ _ => False
  | SItem w => exists E x, w = wire_item E x /\ is_Some (parent x)
  end.

Lemma bare_wire E s : bare_struct (wire E s) = match s with SItem it => SItem (bare_item E it) | _ => s end.
Proof. by destruct s. Qed.

Lemma wire_item_essence E x : wire_item E (essence x) = wire_item E x.
Proof. done. Qed.

Lemma skel_wire st c : map bare_struct (map (wire (essences st)) (Store_Structs st c)) = skel st c.
Proof.
  unfold skel, Store_Structs. rewrite !map_map. apply map_ext. intros [| |l]; [done..|]. cbn.
  rewrite essences_lookup. destruct (heap st !! l) as [x|]; [|done]. cbn. by rewrite bare_item_essence.
Qed.

Lemma wired_structs st c : store_inv st -> parented (essences st) ->
  Forall wired (map (wire (essences st)) (Store_Structs st c)).
Proof.
  intros Hinv Hp. unfold Store_Structs. rewrite map_map. apply Forall_map, Forall_forall.
  intros r Hr. pose proof (inv_noskip _ Hinv c r Hr). destruct r as [| |l]; [done..|]. cbn.
  destruct (heap st !! l) as [x|] eqn:El.
  - exists (essences st), x. split; [done|]. apply (Hp l (essence x)). by rewrite essences_lookup, El.
  - apply list_elem_of_lookup in Hr as [i Hi]. destruct (ref_item _ _ _ _ (inv_wf _ Hinv) Hi) as (it & ? & _). congruence.
Qed.

Lemma shape_bare_struct s : shape (bare_struct s) = shape s.
Proof. destruct s as [| |it]; [done..|]. cbn. unfold unflag. by destruct (Origin it), (RightOrigin it). Qed.

Lemma wire_item_fields E x :
  it_ID (wire_item E x) = it_ID x /\ it_Content (wire_item E x) = it_Content x
  /\ Origin (wire_item E x) = Origin x /\ RightOrigin (wire_item E x) = RightOrigin x
  /\ HasParentSub (wire_item E x) = HasParentSub x
  /\ left (wire_item E x) = None /\ right (wire_item E x) = None /\ parent (wire_item E x) = None
  /\ deleted (wire_item E x) = false /\ keep (wire_item E x) = false.
Proof. unfold wire_item. by destruct (Origin x), (RightOrigin x). Qed.

(** ** Looking up in a prefix *)

Lemma cover_unique c L i j a b k :
  contig c 0 L -> L !! i = Some a -> L !! j = Some b ->
  Clock (StructID a) <= k < Clock (StructID a) + StructLen a ->
  Clock (StructID b) <= k < Clock (StructID b) + StructLen b -> i = j.
Proof.
  intros Hc Ha Hb Hka Hkb.
  destruct (contig_lookup _ _ _ _ _ Hc Ha) as (Ia & _ & _). destruct (contig_lookup _ _ _ _ _ Hc Hb) as (Ib & _ & _).
  rewrite Ia in Hka. rewrite Ib in Hkb. cbn in *.
  destruct (lt_eq_lt_dec i j) as [[H|H]|H]; [exfalso|done|exfalso].
  - pose proof (slen_take_mono _ _ _ (S i) j Hc ltac:(lia)) as Hm. rewrite (take_S_r _ _ _ Ha), slen_app in Hm. cbn in Hm. lia.
  - pose proof (slen_take_mono _ _ _ (S j) i Hc ltac:(lia)) as Hm. rewrite (take_S_r _ _ _ Hb), slen_app in Hm. cbn in Hm. lia.
Qed.

(** What is integrated so far: per client a prefix of the source. *)
Definition prefix_of_skel (S : Skel) (t : Store) : Prop := forall c, exists rest, S c = skel t c ++ rest.

Section Target.
Context (S : Skel) (Hcausal : causal S).
Context (t : Store) (Hinv : store_inv t) (Hpar : parented (essences t)) (Hpre : prefix_of_skel S t).

Lemma skel_lookup c i : skel t c !! i = bare_ref (essences t) <$> refs t c !! i.
Proof. unfold skel. change (map ?f ?l) with (f <$> l). apply list_lookup_fmap. Qed.

(** An item of the source that covers a clock already here is found here. *)
Lemma find_here c y k :
  SItem y ∈ S c -> Clock (it_ID y) <= k < Clock (it_ID y) + Item_Len y -> k < State t c ->
  exists i l x, find t (NewID c k) = Ok i /\ refs t c !! i = Some (RItem l) /\ heap t !! l = Some x
    /\ bare_item (essences t) x = y.
Proof.
  intros Hy Hk Hst. pose proof (inv_wf _ Hinv) as Hwf. pose proof (ca_contig _ Hcausal c) as Hc.
  destruct (contig_elem _ _ _ Hc Hy) as (P0 & _ & _ & _). cbn [StructID] in P0.
  destruct (find_total t Hwf (NewID c k)) as [i Hi]; [cbn; lia|].
  pose proof Hi as Hf. apply find_entry in Hf as (r & Hr & Hb); [|done|lia].
  destruct (entry_at _ _ _ _ Hwf Hr) as (A1 & _ & A3 & _).
  destruct (Hpre c) as [rest HS]. apply list_elem_of_lookup in Hy as [j Hj].
  assert (Hi' : S c !! i = Some (bare_ref (essences t) r)).
  { rewrite HS. apply lookup_app_l_Some. by rewrite skel_lookup, Hr. }
  assert (Hsh : shape (bare_ref (essences t) r) = shape (view (heap t) r)).
  { destruct r as [| |l]; [done..|]. cbn. rewrite essences_lookup. destruct (heap t !! l); [|done]. cbn.
    rewrite bare_item_essence. apply shape_bare. }
  injection Hsh as S1 S2. unfold ref_id in A1.
  assert (i = j) as <-.
  { eapply (cover_unique c (S c) i j _ _ k); [done|done|exact Hj| |done]. rewrite S1, S2. lia. }
  rewrite Hj in Hi'. injection Hi' as Hy. destruct r as [| |l]; [done..|]. cbn in Hy.
  rewrite essences_lookup in Hy. destruct (heap t !! l) as [x|] eqn:El; [|done]. injection Hy as Hy.
  rewrite bare_item_essence in Hy. exists i, l, x. done.
Qed.

Lemma lookup_index c k i l x :
  find t (NewID c k) = Ok i -> refs t c !! i = Some (RItem l) -> heap t !! l = Some x ->
  item_at_index t c i = Ok (l, x).
Proof. intros _ Hr Hl. unfold item_at_index. by rewrite Hr, Hl. Qed.

Lemma CleanEnd_here id :
  ends_at S id -> Clock id < State t (Client id) -> exists l x, GetItemCleanEnd id t = Ok (l, t)
    /\ heap t !! l = Some x /\ LastID x = id.
Proof.
  intros (y & Hy & He) Hst. pose proof (inv_wf _ Hinv) as Hwf.
  destruct (contig_elem _ _ _ (ca_contig _ Hcausal _) Hy) as (P0 & P1 & P2 & _). cbn in P0, P1, P2.
  destruct (find_here (Client id) y (Clock id)) as (i & l & x & Hf & Hr & Hl & Hb); [done|lia|done|].
  destruct id as [c k]. cbn [Client Clock] in *. exists l, x.
  destruct (bare_item_fields (essences t) x) as (F1 & F2 & _). rewrite Hb in F1, F2.
  assert (Hg : GetItemCleanEnd (NewID c k) t = Ok (l, t)).
  { unfold GetItemCleanEnd. cbn [Client Clock]. rewrite Hf. cbn [mbind res_bind].
    rewrite (lookup_index _ _ _ _ _ Hf Hr Hl). cbn [mbind res_bind].
    destruct (find_item _ (NewID c k) _ _ _ Hwf ltac:(cbn; lia) Hf (lookup_index _ _ _ _ _ Hf Hr Hl)) as (_ & _ & _ & E1 & _).
    cbn [Clock] in E1. rewrite E1. rewrite <- F1. unfold Item_Len in *. rewrite <- F2.
    rewrite (proj2 (Z.eqb_eq _ _)); [done|lia]. }
  split_and!; [exact Hg|done|].
  destruct (GetItemCleanEnd_settles (NewID c k) _ _ _ Hinv ltac:(cbn; lia) Hg) as (_ & z & Hz & Hlast).
  rewrite Hl in Hz. by injection Hz as <-.
Qed.

Lemma CleanStart_here id :
  starts_at S id -> Clock id < State t (Client id) -> exists l x, GetItemCleanStart id t = Ok (l, t)
    /\ heap t !! l = Some x.
Proof.
  intros (y & Hy & He) Hst. pose proof (inv_wf _ Hinv) as Hwf.
  destruct (contig_elem _ _ _ (ca_contig _ Hcausal _) Hy) as (P0 & P1 & P2 & _). cbn in P0, P1, P2.
  destruct (find_here (Client id) y (Clock id)) as (i & l & x & Hf & Hr & Hl & Hb); [done|rewrite He; lia|done|].
  destruct id as [c k]. cbn [Client Clock] in *. exists l, x. split; [|done].
  destruct (bare_item_fields (essences t) x) as (F1 & _). rewrite Hb, He in F1.
  unfold GetItemCleanStart. cbn [Client Clock]. rewrite Hf. cbn [mbind res_bind].
  rewrite (lookup_index _ _ _ _ _ Hf Hr Hl). cbn [mbind res_bind].
  rewrite <- F1. cbn. rewrite Z.sub_diag. done.
Qed.

Lemma type_here id :
  type_at S id -> Clock id < State t (Client id) -> exists l x tr nm, GetItem t id = Ok l
    /\ heap t !! l = Some x /\ it_Content x = ContentType tr nm /\ it_ID x = id.
Proof.
  intros (y & tr & nm & Hy & He & Hct) Hst.
  destruct (contig_elem _ _ _ (ca_contig _ Hcausal _) Hy) as (P0 & P1 & P2 & _). cbn in P0, P1, P2.
  destruct (find_here (Client id) y (Clock id)) as (i & l & x & Hf & Hr & Hl & Hb); [done|rewrite He; lia|done|].
  destruct id as [c k]. cbn [Client Clock] in *. exists l, x, tr, nm.
  destruct (bare_item_fields (essences t) x) as (F1 & F2 & _). rewrite Hb, He in F1. rewrite Hb, Hct in F2.
  split_and!; [|done..]. unfold GetItem, Store_Get. cbn [Client].
  rewrite Hf. cbn [mbind res_bind]. by rewrite Hr.
Qed.

(** ** Resolving one struct *)

Section Item.
Context (E0 : gmap loc Item) (x0 : Item) (p0 : TypePtr).
Let w := wire_item E0 x0.
Context (Hx0 : parent x0 = Some p0).
Context (Hin : SItem (unflag w) ∈ S (Client (it_ID w))).
Context (Hhead : Clock (it_ID w) = State t (Client (it_ID w))).

Lemma unflag_fields it : it_ID (unflag it) = it_ID it /\ Origin (unflag it) = Origin it
  /\ RightOrigin (unflag it) = RightOrigin it /\ Parent (unflag it) = Parent it.
Proof. destruct it as [id [o|] [r|]]; done. Qed.

Lemma elem_of_deps it id :
  id ∈ deps (unflag it) <-> Origin it = Some id \/ RightOrigin it = Some id \/ parent_item it = Some id.
Proof.
  destruct (unflag_fields it) as (_ & F2 & F3 & F4). unfold deps, parent_item.
  rewrite F2, F3, F4, !elem_of_app, !elem_of_opt_ids. destruct (Parent it) as [p|]; [destruct (IsRoot p)|];
    rewrite ?elem_of_nil, ?list_elem_of_singleton; intuition congruence.
Qed.

(** A dependency that is not missing is here. *)
Lemma dep_here id :
  id ∈ deps (unflag w) -> missing t w (Some id) = false -> Clock id < State t (Client id).
Proof.
  intros Hd Hm. unfold missing in Hm. apply andb_false_iff in Hm as [Hm|Hm]; [|bool_arith; lia].
  apply negb_false_iff in Hm. bool_arith. destruct (ca_ranked _ Hcausal) as (rank & bound & [_ R2 R3]).
  destruct (R3 _ _ _ Hin Hd) as [B1 B2]. destruct (unflag_fields w) as (F1 & _). rewrite F1 in B2.
  rewrite Hm in *. destruct (Z.lt_trichotomy (Clock id) (Clock (it_ID w))) as [?|[Heq|Hgt]]; [lia|rewrite Heq in B2; lia|].
  pose proof (R2 (Client (it_ID w)) (Clock (it_ID w)) (Clock id)) as Hr.
  pose proof (contig_elem _ _ _ (ca_contig _ Hcausal _) Hin) as (P0 & _). cbn in P0. rewrite F1 in P0. lia.
Qed.

Lemma resolve_wire :
  (missing t w (Origin w) || missing t w (RightOrigin w) || missing t w (parent_item w)) = false ->
  exists it' t' q, resolve_item w t = Some (it', t') /\ parent it' = Some q
    /\ essences t' = essences t /\ clients t' = clients t /\ bare_item (essences t) it' = unflag w.
Proof.
  intros Hm. unfold resolve_item. rewrite Hm. apply orb_false_iff in Hm as [[M1 M2]%orb_false_iff M3].
  pose proof (fun id H => dep_here id (proj2 (elem_of_deps w id) H)) as Hdep.
  pose proof (ca_anchored _ Hcausal _ _ Hin) as [An1 An2 An3 _].
  destruct (unflag_fields w) as (_ & U2 & U3 & U4). rewrite U2 in An1. rewrite U3 in An2. rewrite U4 in An3.
  assert (Hparent : forall l x, heap t !! l = Some x -> exists q, parent x = Some q).
  { intros l x Hx. destruct (Hpar l (essence x)) as [q Hq]; [by rewrite essences_lookup, Hx|]. exists q. exact Hq. }
  unfold w in *. unfold wire_item in *. unfold resolve_left, resolve_right, resolve_parent, inherit.
  destruct (Origin x0) as [o|] eqn:Eo; cbn [Origin] in *.
  - destruct (CleanEnd_here o (An1 o eq_refl)) as (l & x & -> & Hl & Hlast); [by apply Hdep; auto|].
    rewrite Hl, Hlast. destruct (Hparent _ _ Hl) as [q Hq].
    destruct (RightOrigin x0) as [r|] eqn:Er; cbn [RightOrigin set_Origin set_left] in *.
    + destruct (CleanStart_here r (An2 r eq_refl)) as (lr & xr & -> & Hlr); [by apply Hdep; auto|].
      cbn [Parent left set_right set_Origin set_left]. rewrite Hl.
      eexists _, _, q. split_and!; [done|done|done|done|]. by rewrite bare_item_cases.
    + cbn [Parent left set_right set_Origin set_left]. rewrite Hl.
      eexists _, _, q. split_and!; [done|done|done|done|]. by rewrite bare_item_cases.
  - destruct (RightOrigin x0) as [r|] eqn:Er; cbn [RightOrigin Origin] in *.
    + destruct (CleanStart_here r (An2 r eq_refl)) as (lr & xr & -> & Hlr); [by apply Hdep; auto|].
      destruct (Hparent _ _ Hlr) as [q Hq]. cbn [Parent left right set_right]. rewrite Hlr.
      eexists _, _, q. split_and!; [done|done|done|done|]. by rewrite bare_item_cases.
    + unfold parent_info in *. rewrite Hx0 in *. cbn [Parent] in *. set (pi := type_info E0 p0) in *.
      assert (Hpi : (IsRoot pi = true /\ PItem pi = zeroID) \/ (IsRoot pi = false /\ PName pi = [])).
      { unfold pi, type_info. destruct p0; [by left|]. destruct (E0 !! owner); [by right|by left]. }
      destruct (IsRoot pi) eqn:Eroot.
      * destruct Hpi as [[_ Hz]|[? _]]; [|done]. unfold Get.
        destruct (types t !! TRoot (PName pi)); eexists _, _, (TRoot (PName pi)); (split_and!; [done..|]);
          rewrite bare_item_cases; cbn; unfold parent_info; cbn; (do 2 f_equal; [destruct pi; cbn in *; congruence|]);
          by destruct (HasParentSub x0).
      * destruct Hpi as [[? _]|[_ Hn]]; [done|].
        destruct (type_here (PItem pi) (An3 pi eq_refl Eroot)) as (l & x & tr & nm & -> & Hl & Hct & Hid).
        { apply Hdep; [|unfold parent_item in M3; cbn in M3; by rewrite Eroot in M3]. right. right. unfold parent_item. cbn. by rewrite Eroot. }
        rewrite Hl, Hct. eexists _, _, (TNested l). split_and!; [done..|].
        rewrite bare_item_cases. cbn. unfold parent_info. cbn. rewrite essences_lookup, Hl. cbn. rewrite Hid.
        do 2 f_equal; [destruct pi; cbn in *; congruence|]. by destruct (HasParentSub x0).
Qed.
End Item.
End Target.

(** ** The loops copy the source *)

Lemma appends_other k s s' c : appends k s s' -> c <> Client (StructID k) -> s' c = s c.
Proof. intros H Hc. rewrite H. by rewrite decide_False. Qed.

Lemma appends_same k s s' : appends k s s' -> s' (Client (StructID k)) = s (Client (StructID k)) ++ [k].
Proof. intros H. rewrite H. by rewrite decide_True. Qed.

Section Copy.
Context (S : Skel) (Hcausal : causal S).

(** The store [t] and the queue [q] of client [c] make up the source. *)
Record copies (c : Z) (q : list Struct) (t : Store) : Prop := {
  co_inv : store_inv t;
  co_par : parented (essences t);
  co_pre : prefix_of_skel S t;
  co_eq : S c = skel t c ++ map bare_struct q;
  co_wired : Forall wired q;
  co_fits : Forall struct_fits q;
}.

Lemma copies_head c s q t :
  copies c (s :: q) t -> StructID s = NewID c (State t c) /\ 0 < StructLen s.
Proof.
  intros [H1 _ _ H4 _ _]. pose proof (ca_contig _ Hcausal c) as Hc. rewrite H4 in Hc.
  apply contig_app in Hc as [_ Hc]. cbn [map contig] in Hc. destruct Hc as (Hid & Hlen & _).
  pose proof (shape_bare_struct s) as Hs. injection Hs as E1 E2. rewrite E1 in Hid. rewrite E2 in Hlen.
  rewrite skel_slen in Hid by apply H1. done.
Qed.

(** Integrating the head of a queue whose dependencies are here moves it over. *)
Lemma copies_step c s q t s1 t1 :
  copies c (s :: q) t -> resolve s t = Some (s1, t1) ->
  copies c q (integrateStruct s1 0 t1) /\ (forall c', c' <> c -> skel (integrateStruct s1 0 t1) c' = skel t c').
Proof.
  intros Hco Hres. destruct (copies_head _ _ _ _ Hco) as [Hid Hlen]. pose proof Hco as [Hinv Hpar Hpre Heq Hw Hf].
  apply Forall_cons in Hw as [Hw Hws]. apply Forall_cons in Hf as [(Hfr & Hf0 & Hf1 & Hf2) Hfs].
  destruct (resolve_ok _ _ _ _ Hinv Hfr Hres) as ([S1 _ [S3 _]] & Hrd & Eid & Elen & Hns).
  rewrite Hid in Hf0, Hf2. cbn in Hf0, Hf2.
  assert (Happ : appends (bare_struct s) (skel t) (skel (integrateStruct s1 0 t1))
    /\ parented (essences (integrateStruct s1 0 t1))).
  { destruct s as [id n|id n|w]; [|done|].
    - cbn in Hres. injection Hres as <- <-. cbn in Hid, Hlen |- *. subst id. split; [|by rewrite essences_append].
      by apply gc_skel.
    - destruct Hw as (E0 & x0 & -> & [p0 Hp0]). cbn [StructID StructLen] in *. set (w := wire_item E0 x0) in *.
      assert (Hcl : Client (it_ID w) = c) by (by rewrite Hid).
      assert (Hin : SItem (unflag w) ∈ S (Client (it_ID w))).
      { rewrite Hcl, Heq. apply elem_of_app. right. cbn. by left. }
      cbn [resolve] in Hres. destruct (resolve_item w t) as [[it' t']|] eqn:Er; [|done]. injection Hres as <- <-.
      destruct (resolve_wire S Hcausal t Hinv Hpar Hpre E0 x0 p0 Hp0 Hin) as (it2 & t2 & pp & Er' & Hpp & Ees & Ecl & Eb).
      { fold w. by rewrite Hid. }
      { fold w. revert Er. unfold resolve_item. by destruct (missing t w (Origin w) || missing t w (RightOrigin w) || missing t w (parent_item w)). }
      fold w in Er', Eb. rewrite Er in Er'. injection Er' as <- <-.
      cbn [StructID StructLen] in Eid, Elen. specialize (Hrd it' eq_refl). cbn [integrateStruct]. unfold integrateItem. cbn [Z.ltb Z.compare].
      split; [|by apply parented_place; rewrite Ees].
      cbn [bare_struct]. rewrite <- Eb, <- Ees.
      assert (Happ : appends (SItem (bare_item (essences t') it')) (skel t') (skel (place it' t'))).
      { eapply place_skel; [done|done|exact Hpp|..]; rewrite ?Eid, ?Elen, ?S3, ?Hid; cbn; lia. }
      intros c'. rewrite Happ. replace (skel t' c') with (skel t c'); [done|]. unfold skel, refs. by rewrite Ees, Ecl. }
  destruct Happ as [Happ Hpar'].
  assert (Hsid : Client (StructID (bare_struct s)) = c).
  { pose proof (shape_bare_struct s) as Hs. injection Hs as -> _. by rewrite Hid. }
  assert (Hinv' : store_inv (integrateStruct s1 0 t1)).
  { destruct (integrateStruct_ok s1 0 t1) as [(K1 & _)|[_ K]]; [done|done| | | | | |done|lia];
      rewrite ?Eid, ?Elen, ?Hid, ?S3; cbn; try lia. apply Hns. by destruct s. }
  assert (Heq' : S c = skel (integrateStruct s1 0 t1) c ++ map bare_struct q).
  { rewrite <- Hsid at 2. rewrite (appends_same _ _ _ Happ), Hsid, Heq, <- app_assoc. done. }
  assert (Hoth : forall c', c' <> c -> skel (integrateStruct s1 0 t1) c' = skel t c').
  { intros c' Hc'. eapply appends_other; [done|congruence]. }
  split; [|done]. split; [done|done| |done|done|done].
  intros c'. destruct (decide (c' = c)) as [->|Hc']; [eauto|]. rewrite Hoth by done. apply Hpre.
Qed.

Lemma copies_drain c q : forall t q' t' b,
  copies c q t -> drain q t = (q', t', b) ->
  copies c q' t' /\ (forall c', c' <> c -> skel t' c' = skel t c').
Proof.
  induction q as [|s rest IH]; intros t q' t' b Hco H; [cbn in H; by simplify_eq|].
  destruct (copies_head _ _ _ _ Hco) as [Hid Hlen]. cbn [drain] in H.
  assert (Hns : match s with SSkip _ _ => False | _ => True end).
  { pose proof (co_wired _ _ _ Hco) as Hw. apply Forall_cons in Hw as [Hw _]. by destruct s. }
  assert (Hif : forall (A : Type) (a c : A), match s with SSkip _ _ => a | _ => c end = c) by (by destruct s).
  rewrite Hif in H. clear Hif. cbn zeta in H. rewrite Hid in H. cbn [Client Clock] in H.
  rewrite Z.ltb_irrefl, Z.sub_diag in H. change (s64 (u64 0)) with 0 in H.
  rewrite (proj2 (Z.leb_gt _ _)) in H by lia.
  destruct (resolve s t) as [[s1 t1]|] eqn:Er; [|by simplify_eq].
  destruct (copies_step _ _ _ _ _ _ Hco Er) as [Hco1 Ho1].
  destruct (drain rest (integrateStruct s1 0 t1)) as [[q2 t2] b2] eqn:Ed. simplify_eq.
  destruct (IH _ _ _ _ Hco1 Ed) as [Hco2 Ho2]. split; [done|]. intros c' Hc'. rewrite Ho2 by done. by apply Ho1.
Qed.

Definition copying (qs : Queues) (t : Store) : Prop := forall c, copies c (queue_of qs c) t.

Lemma copying_round order : forall qs t qs' t' b,
  copying qs t -> round order qs t = (qs', t', b) -> copying qs' t'.
Proof.
  induction order as [|c order IH]; intros qs t qs' t' b Hco H; cbn in H; [by simplify_eq|].
  destruct (drain (queue_of qs c) t) as [[q t1] b1] eqn:Ed.
  destruct (round order (<[c:=q]> qs) t1) as [[qs2 t2] b2] eqn:Er. simplify_eq.
  destruct (copies_drain _ _ _ _ _ _ (Hco c) Ed) as [H1 H2]. eapply IH; [|exact Er].
  intros c'. rewrite queue_of_insert. case_decide as Hc; [by subst|].
  destruct H1 as [A1 A2 A3 _ _ _]. destruct (Hco c') as [_ _ _ B4 B5 B6]. split; try done. by rewrite H2.
Qed.

Lemma copying_rounds fuel order : forall qs t qs' t',
  copying qs t -> rounds fuel order qs t = (qs', t') -> copying qs' t'.
Proof.
  induction fuel as [|fuel IH]; intros qs t qs' t' Hco H; cbn in H; [by simplify_eq|].
  destruct (round order qs t) as [[qs1 t1] b] eqn:Er. pose proof (copying_round _ _ _ _ _ _ Hco Er) as Hco1.
  destruct b; [|by simplify_eq]. by eapply IH.
Qed.

(** Nothing can stay behind: a blocked queue waits for a struct that comes earlier in the
    order of the source, whose own queue is then blocked too. *)
Lemma copying_done (order : list Z) qs t :
  copying qs t -> (forall c, queue_of qs c <> [] -> c ∈ order) ->
  (forall c, c ∈ order -> blocked t (queue_of qs c)) -> forall c, queue_of qs c = [].
Proof.
  intros Hco Hord Hb. destruct (ca_ranked _ Hcausal) as (rank & bound & [_ R2 R3]).
  assert (Hno : forall n c, rank c (State t c) = n -> queue_of qs c = []).
  { induction n as [n IH] using lt_wf_ind. intros c Hn. destruct (queue_of qs c) as [|s q] eqn:Eq; [done|exfalso].
    pose proof (Hco c) as Hc. rewrite Eq in Hc. destruct (copies_head _ _ _ _ Hc) as [Hid Hlen].
    specialize (Hb c (Hord c ltac:(by rewrite Eq))). rewrite Eq in Hb. unfold blocked in Hb. cbn [drain] in Hb.
    pose proof (co_wired _ _ _ Hc) as Hw. apply Forall_cons in Hw as [Hw _].
    assert (Hif : forall (A : Type) (a c : A), match s with SSkip _ _ => a | _ => c end = c) by (by destruct s).
    rewrite Hif in Hb. clear Hif. cbn zeta in Hb. rewrite Hid in Hb. cbn [Client Clock] in Hb.
    rewrite Z.ltb_irrefl, Z.sub_diag in Hb. change (s64 (u64 0)) with 0 in Hb.
    rewrite (proj2 (Z.leb_gt _ _)) in Hb by lia.
    destruct (resolve s t) as [[s1 t1]|] eqn:Er; [by destruct (drain q _) as [[? ?] ?]|].
    destruct s as [| |w]; [done..|]. cbn [resolve StructID] in *. unfold resolve_item in Er.
    destruct (missing t w (Origin w) || missing t w (RightOrigin w) || missing t w (parent_item w)) eqn:Em; [|by repeat case_match].
    assert (exists id, id ∈ deps (unflag w) /\ missing t w (Some id) = true) as (id & Hd & Hm).
    { rewrite !orb_true_iff in Em.
      assert (forall o, missing t w o = true -> exists id, o = Some id) as Hs by (intros [id|]; [eauto|done]).
      destruct Em as [[Em|Em]|Em]; destruct (Hs _ Em) as [id Hid']; rewrite Hid' in Em; exists id;
        (split; [apply elem_of_deps; auto|done]). }
    unfold missing in Hm. apply andb_true_iff in Hm as [_ Hm]. bool_arith.
    assert (Hin : SItem (unflag w) ∈ S c) by (rewrite (co_eq _ _ _ Hc); apply elem_of_app; right; cbn; by left).
    destruct (R3 _ _ _ Hin Hd) as [B1 B2]. destruct (unflag_fields w) as (F1 & _). rewrite F1, Hid in B2. cbn in B2.
    pose proof (Hco (Client id)) as Hd'.
    pose proof (State_range _ (inv_wf _ (co_inv _ _ _ Hc)) (Client id)) as Hr.
    assert (rank (Client id) (State t (Client id)) <= rank (Client id) (Clock id))%nat as Hle.
    { destruct (decide (State t (Client id) = Clock id)) as [->|]; [done|].
      assert (State t (Client id) < Clock id) by lia. pose proof (R2 (Client id) (State t (Client id)) (Clock id)). lia. }
    pose proof (IH (rank (Client id) (State t (Client id))) ltac:(lia) (Client id) eq_refl) as Hnil. rewrite Hnil in Hd'.
    pose proof (co_eq _ _ _ Hd') as He. rewrite app_nil_r in He. rewrite He, skel_slen in B1 by apply Hd'. lia. }
  intros c. by eapply Hno.
Qed.
End Copy.

(** ** The update for a peer that has nothing *)

Definition wire_block (E : gmap loc Item) (b : ClientBlock) : ClientBlock :=
  MkBlock (CB_Client b) (StartClock b) (map (wire E) (Structs b)).
(** What a peer decodes from the update made for the state vector [sv], and from a
    snapshot of [d]. *)
Definition diff `{!MapOrder} (sv : gmap Z Z) (d : Doc) : Update :=
  MkUpdate (map (wire_block (essences (store d))) (Clients (state_update sv d))) (Deletes (state_update sv d)).
Definition snapshot `{!MapOrder} (d : Doc) : Update := diff ∅ d.

Lemma contig_slen_nil c k l : contig c k l -> slen l <= 0 -> l = [].
Proof.
  destruct l as [|s l]; [done|]. cbn [contig]. intros (_ & H1 & H2) H. apply contig_slen in H2. rewrite slen_cons in H. lia.
Qed.

Lemma client_block_all st c :
  store_wf st ->
  client_block st ∅ c = match Store_Structs st c with [] => None | l => Some (MkBlock c 0 l) end.
Proof.
  intros Hwf. assert (Hsv : SV_Get ∅ c = 0) by done.
  pose proof (client_block_ok st ∅ c Hwf ltac:(by rewrite Hsv)) as H. pose proof (proj1 (wf_gapless _ Hwf c)) as Hc.
  destruct (client_block st ∅ c) as [[c' k l]|].
  - cbn in H. rewrite Hsv in H. destruct H as (H1 & -> & -> & pre & s & rest & -> & E2 & _ & H3 & _).
    rewrite E2 in Hc |- *. apply contig_app in Hc as [Hp _]. apply contig_slen_nil in Hp; [|done]. by subst pre.
  - rewrite Hsv, State_slen in H by done. by rewrite (contig_slen_nil _ _ _ Hc H).
Qed.

Definition pick (c : Z) (b : ClientBlock) : list Struct := if decide (CB_Client b = c) then Structs b else [].

Lemma queue_of_queues blocks c : queue_of (queues blocks).2 c = blocks ≫= pick c.
Proof.
  unfold queues. induction blocks as [|b blocks IH] using rev_ind; [done|].
  rewrite foldl_snoc, bind_app, bind_singleton. destruct (foldl enqueue ([], ∅) blocks) as [order qs]. cbn in IH |- *.
  rewrite queue_of_insert. unfold pick at 2. case_decide as Hc; [by rewrite Hc, IH|]. by rewrite app_nil_r.
Qed.

Lemma pick_blocks E st c l :
  store_wf st -> NoDup l ->
  map (wire_block E) (omap (client_block st ∅) l) ≫= pick c
  = if decide (c ∈ l) then map (wire E) (Store_Structs st c) else [].
Proof.
  intros Hwf. induction l as [|c' l IH]; intros Hnd; [done|]. apply NoDup_cons in Hnd as [Hni Hnd].
  specialize (IH Hnd).
  assert (omap (client_block st ∅) (c' :: l) = match Store_Structs st c' with [] => [] | x => [MkBlock c' 0 x] end
    ++ omap (client_block st ∅) l) as ->.
  { cbn. rewrite client_block_all by done. by destruct (Store_Structs st c'). }
  rewrite map_app, bind_app, IH. clear IH. destruct (decide (c' = c)) as [->|Hne].
  - rewrite (decide_False (P := c ∈ l)) by done. rewrite decide_True by by left. rewrite app_nil_r.
    destruct (Store_Structs st c) as [|s0 l0]; [done|]. cbn [map]. rewrite bind_singleton. unfold pick, wire_block.
    cbn [CB_Client Structs]. by rewrite decide_True.
  - rewrite (decide_ext (c ∈ c' :: l) (c ∈ l)) by (rewrite elem_of_cons; naive_solver).
    destruct (Store_Structs st c') as [|s0 l0]; [done|]. cbn [map]. rewrite bind_singleton. unfold pick at 1, wire_block.
    cbn [CB_Client Structs]. by rewrite decide_False.
Qed.

Section Snapshot.
Context `{!MapOrder} (d : Doc) (Hd : doc_inv d) (Hsk : sk_inv (store d)).
Let st := store d.
Let E := essences st.

Lemma snapshot_queue c : queue_of (queues (Clients (snapshot d))).2 c = map (wire E) (Store_Structs st c).
Proof.
  rewrite queue_of_queues. cbn [Clients snapshot diff state_update]. fold st E.
  rewrite pick_blocks; [|apply Hd|apply NoDup_keys_desc]. case_decide as Hc; [done|].
  unfold Store_Clients in Hc. rewrite elem_of_keys_desc in Hc. unfold Store_Structs, refs.
  destruct (clients st !! c); [|done]. by destruct Hc.
Qed.

Lemma wire_fits c s : s ∈ Store_Structs st c -> struct_fits (wire E s).
Proof.
  pose proof (inv_wf _ (di_store _ Hd)) as Hwf. intros Hs. apply list_elem_of_lookup in Hs as [i Hi].
  destruct (struct_end_lookup st Hwf _ _ _ Hi) as (_ & H1 & H2 & H3 & Hid).
  assert (Hsh : StructID (wire E s) = StructID s /\ StructLen (wire E s) = StructLen s).
  { destruct s as [| |it]; [done..|]. cbn. unfold Item_Len. by destruct (wire_item_fields E it) as (-> & -> & _). }
  unfold struct_fits. destruct Hsh as [-> ->]. rewrite Hid. cbn [Clock]. split_and!; [|done|lia|lia].
  destruct s as [| |it]; [done..|]. cbn.
  assert (Hin : SItem (unflag (wire_item E it)) ∈ skel st c).
  { rewrite <- skel_wire, map_map. change (map ?f ?l) with (f <$> l). apply list_elem_of_fmap.
    exists (SItem it). split; [done|]. by eapply list_elem_of_lookup_2. }
  assert (Hdep : forall id, id ∈ deps (unflag (wire_item E it)) -> 0 <= Clock id).
  { destruct (ca_ranked _ (built_causal _ (sk_built _ Hsk))) as (rank & bound & [_ _ R3]). intros id Hdi.
    by destruct (R3 _ _ _ Hin Hdi) as [[? _] _]. }
  destruct (wire_item_fields E it) as (_ & _ & _ & _ & _ & F6 & F7 & F8 & F9 & _).
  split_and!; [| | |done..]; intros id Hid'; apply Hdep, elem_of_deps; auto.
Qed.

Lemma state_blocks sv (l : list Z) b :
  (forall c, 0 <= SV_Get sv c) -> b ∈ omap (client_block st sv) l -> forall s, s ∈ Structs b -> s ∈ Store_Structs st (CB_Client b).
Proof.
  intros H0 Hb. apply list_elem_of_omap in Hb as (c & _ & Hb).
  pose proof (client_block_ok st sv c (inv_wf _ (di_store _ Hd)) (H0 c)) as Hc. rewrite Hb in Hc.
  destruct Hc as (_ & -> & _ & pre & s & rest & -> & -> & _). intros x Hx. apply elem_of_app. by right.
Qed.

Lemma diff_fits sv : (forall c, 0 <= SV_Get sv c) -> update_fits (diff sv d).
Proof.
  intros H0. unfold update_fits, blocks_fit. cbn. apply Forall_map, Forall_forall. intros b Hb. cbn.
  apply Forall_map, Forall_forall. intros s Hs. eapply wire_fits. by eapply state_blocks.
Qed.

Lemma snapshot_fits : update_fits (snapshot d).
Proof. by apply diff_fits. Qed.

(** Integrating the snapshot copies every struct and leaves nothing pending. *)
Lemma snapshot_integrates c0 :
  let d1 := integrate (snapshot d) (NewDoc c0) in
  doc_inv d1 /\ pending d1 = [] /\ pendingDeletes d1 = NewDeleteSet /\ forall c, skel (store d1) c = skel st c.
Proof.
  pose proof (NewDoc_inv c0) as Hnew. pose proof snapshot_fits as Hfit. cbn zeta.
  destruct (integrate_ok (snapshot d) (NewDoc c0) (di_store _ Hnew) Hfit) as [I1 _ I3 _].
  pose proof snapshot_queue as Hq. unfold integrate in *.
  destruct (queues (Clients (snapshot d))) as [order qs] eqn:Eq. cbn [snd] in Hq.
  destruct (queues_ok _ _ _ Eq Hfit) as (Hnd & Hdom & Hqf & Ht).
  destruct (rounds _ order qs (store (NewDoc c0))) as [qs' st'] eqn:Er.
  pose proof (built_causal _ (sk_built _ Hsk)) as Hcausal. fold st in Hcausal.
  assert (Hco : copying (skel st) qs (store (NewDoc c0))).
  { intros c. assert (skel (store (NewDoc c0)) c = []) as H0 by (unfold skel, refs; cbn; by rewrite lookup_empty). split.
    - apply Hnew.
    - unfold essences. cbn. rewrite fmap_empty. apply map_Forall_empty.
    - intros c'. exists (skel st c'). unfold skel at 2, refs. cbn. by rewrite lookup_empty.
    - rewrite H0, Hq. unfold E. by rewrite skel_wire.
    - rewrite Hq. apply wired_structs; [apply Hd|apply Hsk].
    - apply Hqf. }
  pose proof (copying_rounds _ Hcausal _ _ _ _ _ _ Hco Er) as Hco'.
  apply rounds_ok in Er as (_ & _ & R3 & R4 & _); [|done|apply Hnew|done|lia].
  assert (Hnil : forall c, queue_of qs' c = []).
  { eapply (copying_done _ Hcausal order); [done| |done]. intros c Hc. apply Hdom. unfold queue_of in R3.
    destruct (qs !! c) as [q|] eqn:Ec; [eauto|]. destruct (R3 c) as [k Hk]. rewrite Ec in Hk. cbn in Hk.
    symmetry in Hk. apply app_nil in Hk as [_ Hk]. done. }
  assert (leftover order qs' = []) as Hl.
  { unfold leftover. clear - Hnil. induction order as [|c order IH]; [done|]. cbn. by rewrite Hnil. }
  rewrite Hl in I1, I3 |- *. split_and!; [by split; [|constructor|apply map_Forall_empty]|done..|].
  intros c. cbn. pose proof (co_eq _ _ _ _ (Hco' c)) as He. rewrite Hnil, app_nil_r in He. done.
Qed.
End Snapshot.

(** ** Deleting at the boundaries of structs *)

(** Clock [k] of client [c] is where a struct starts or the last one ends. *)
Definition boundary (t : Store) (c k : Z) : Prop := exists i, k = slen (take i (Store_Structs t c)).

Lemma boundary_shapes t t' c k : shapes t' c = shapes t c -> boundary t c k -> boundary t' c k.
Proof. intros Hs [i ->]. exists i. by rewrite !slen_take_shapes, Hs. Qed.

Lemma skel_eq_shapes t t' c : skel t' c = skel t c -> shapes t' c = shapes t c.
Proof. intros H. by rewrite <- !skel_shapes, H. Qed.

Lemma boundary_State t c : store_wf t -> boundary t c (State t c).
Proof. intros Hwf. exists (length (Store_Structs t c)). rewrite firstn_all. by apply State_slen. Qed.

(** A struct that starts before a boundary ends at or before it. *)
Lemma boundary_after t c k i :
  store_wf t -> boundary t c k -> slen (take i (Store_Structs t c)) < k -> slen (take (S i) (Store_Structs t c)) <= k.
Proof.
  intros Hwf [j ->] Hlt. pose proof (proj1 (wf_gapless _ Hwf c)) as Hc.
  destruct (decide (S i <= j)%nat); [by eapply slen_take_mono|].
  pose proof (slen_take_mono _ _ _ j i Hc ltac:(lia)). lia.
Qed.

Lemma boundary_start t c k i :
  store_wf t -> boundary t c k -> slen (take i (Store_Structs t c)) <= k < slen (take (S i) (Store_Structs t c)) ->
  slen (take i (Store_Structs t c)) = k.
Proof.
  intros Hwf Hb Hk. destruct (decide (slen (take i (Store_Structs t c)) < k)) as [Hlt|]; [|lia].
  pose proof (boundary_after _ _ _ _ Hwf Hb Hlt). lia.
Qed.

Lemma delete_loop_skel fuel client to : forall idx t,
  store_inv t -> boundary t client to -> forall c, skel (delete_loop fuel client to idx t) c = skel t c.
Proof.
  induction fuel as [|fuel IH]; intros idx t Hinv Hb c; cbn; [done|].
  destruct (refs t client !! idx) as [r|] eqn:Hi; [|done]. pose proof (inv_wf _ Hinv) as Hwf.
  destruct (entry_at _ _ _ _ Hwf Hi) as (H1 & H2 & H3 & H4 & H5 & H6).
  pose proof (State_range _ Hwf client) as Hrange. case_if; [done|].
  destruct r as [id n|id n|l]; [by apply IH..|].
  destruct (ref_item _ _ _ _ Hwf Hi) as (it & Hl & _ & _). rewrite Hl.
  unfold ref_id in *. cbn [view] in *. rewrite Hl in *. cbn [StructID StructLen] in *.
  destruct (deleted it); [by apply IH|].
  rewrite u64_small by (unfold two63, two64 in *; lia).
  pose proof (boundary_after t client to idx Hwf Hb ltac:(lia)) as Ha. rewrite (proj2 (Z.ltb_ge _ _)) by lia.
  rewrite IH; [apply skel_deleteItem|by apply deleteItem_inv|].
  eapply boundary_shapes; [|exact Hb]. apply skel_eq_shapes, skel_deleteItem.
Qed.

Lemma deleteRange_skel client from to t :
  store_inv t -> 0 <= from -> boundary t client from -> boundary t client to ->
  forall c, skel (deleteRange client from to t) c = skel t c.
Proof.
  intros Hinv H0 Hf Hto c. pose proof (inv_wf _ Hinv) as Hwf. unfold deleteRange. case_if; [done|].
  assert (Hgo : skel (match find t (NewID client from) with
      | Ok idx => delete_loop (S (S (length (refs t client)))) client to idx t | Err _ => t end) c = skel t c).
  { destruct (find _ _); [|done]. by apply delete_loop_skel. }
  destruct (GetItemCleanStart (NewID client from) t) as [[l t1]|e] eqn:Eg.
  - assert (t1 = t) as ->; [|done].
    unfold GetItemCleanStart in Eg. res_inv. cbn [Client Clock] in *.
    destruct (find_item _ (NewID client from) _ _ _ Hwf H0 Hm Hm0) as (Hr & Hl & Hc & He & _). cbn [Client Clock] in *.
    pose proof (find_entry _ _ _ _ Hwf H0 Hm) as (r & Hr' & Hk).
    destruct (entry_at _ _ _ _ Hwf Hr) as (A1 & _). unfold ref_id in A1. cbn [view] in A1. rewrite Hl in A1. cbn in A1.
    rewrite (boundary_start _ _ _ _ Hwf Hf Hk) in A1. rewrite He, A1, Z.sub_diag in Hk0. cbn in Hk0. by res_inv.
  - destruct (Store_Get t (NewID client from)); [exact Hgo|done].
Qed.

(** A range that starts at a boundary and ends at one, as far as it is received. *)
Definition aligned (t : Store) (c : Z) (r : DeleteRange) : Prop :=
  DR_Clock r < State t c ->
  boundary t c (DR_Clock r) /\ (DR_Clock r + DR_Len r < State t c -> boundary t c (DR_Clock r + DR_Len r)).

Lemma aligned_skel t t' c r :
  store_wf t -> store_wf t' -> skel t' c = skel t c -> aligned t c r -> aligned t' c r.
Proof.
  intros Hwf Hwf' Hs Ha Hlt. rewrite <- skel_slen, Hs, skel_slen in Hlt by done. destruct (Ha Hlt) as [H1 H2].
  apply skel_eq_shapes in Hs as Hsh. split; [by eapply boundary_shapes|]. rewrite <- (skel_slen t'), Hs, skel_slen by done.
  intros ?. eapply boundary_shapes; [done|auto].
Qed.

Lemma apply_range_skel client d r :
  doc_inv d -> range_fits r -> aligned (store d) client r ->
  forall c, skel (store (apply_range client (State (store d) client) d r)) c = skel (store d) c.
Proof.
  intros [Hinv _ _] Hr Ha c. pose proof Hr as (H0 & Hlen & Hend). unfold apply_range. rewrite (End_fits r Hr).
  case_if; [done|]. destruct (Ha ltac:(lia)) as [H1 H2]. case_if; cbn; apply deleteRange_skel; try done.
  - apply boundary_State, Hinv.
  - destruct (decide (DR_Clock r + DR_Len r < State (store d) client)); [auto|].
    replace (DR_Clock r + DR_Len r) with (State (store d) client) by lia. apply boundary_State, Hinv.
Qed.

Lemma apply_ranges_skel client state rs : forall d,
  state = State (store d) client -> doc_inv d -> Forall range_fits rs -> Forall (aligned (store d) client) rs ->
  forall c, skel (store (foldl (apply_range client state) d rs)) c = skel (store d) c.
Proof.
  induction rs as [|r rs IH]; intros d -> Hd Hrs Ha c; [done|].
  apply Forall_cons in Hrs as [Hr Hrs]. apply Forall_cons in Ha as [Har Ha]. cbn.
  destruct (apply_range_ok client d r Hd Hr) as [[D1 _ D3 _ _ _] _].
  pose proof (apply_range_skel client d r Hd Hr Har) as Hs. rewrite IH; [apply Hs|by rewrite D3|done..|].
  eapply Forall_impl; [exact Ha|]. intros x. apply aligned_skel; [apply Hd|apply D1|apply Hs].
Qed.

Section Order.
Context `{!MapOrder}.

Lemma applyDeleteSet_skel ds d :
  doc_inv d -> ds_fits ds -> (forall c, Forall (aligned (store d) c) (ranges_of ds c)) ->
  forall c, skel (store (applyDeleteSet (Some ds) d)) c = skel (store d) c.
Proof.
  intros Hd Hf Ha. cbn [applyDeleteSet].
  assert (Forall (fun x => Forall range_fits x.2 /\ Forall (aligned (store d) x.1) x.2) (iter ds)) as Hl.
  { rewrite Forall_forall. intros [c rs] Hin%elem_of_iter. split; [by apply (Hf c)|]. specialize (Ha c).
    unfold ranges_of in Ha. by rewrite Hin in Ha. }
  clear Ha. revert d Hd Hl. induction (iter ds) as [|[c rs] l IH]; intros d Hd Hl c'; [done|].
  apply Forall_cons in Hl as [[Hr Hra] Hl]. cbn [foldl apply_client].
  destruct (apply_ranges_ok c (State (store d) c) rs d eq_refl Hd Hr) as [[D1 _ _ _ _ _] _].
  pose proof (apply_ranges_skel c (State (store d) c) rs d eq_refl Hd Hr Hra) as Hs.
  rewrite IH; [apply Hs|done|]. eapply Forall_impl; [exact Hl|]. intros [c2 rs2] [H1 H2]. split; [done|].
  eapply Forall_impl; [exact H2|]. intros x. apply aligned_skel; [apply Hd|apply D1|apply Hs].
Qed.
End Order.

(** ** The snapshot on the wire *)

Lemma resolved_info st t :
  store_inv st -> owned (types st) -> is_Some (types st !! t) -> resolved st t = type_info (essences st) t.
Proof.
  intros Hinv Ho [a Ha]. unfold resolved. rewrite Ha. pose proof (Ho _ _ Ha) as Hoa. destruct t as [n|l]; cbn in *.
  - destruct Hoa as [-> ->]. done.
  - rewrite Hoa. cbn. destruct (inv_types _ Hinv _ _ Ha) as (_ & _ & _ & Hn). destruct (Hn l eq_refl) as [x Hx].
    by rewrite essences_lookup, Hx.
Qed.

Lemma Item_write_wire st l x off e :
  store_inv st -> sk_inv st -> heap st !! l = Some x ->
  Item_write (resolved st) x off e = Item_write no_parent (wire_item (essences st) x) off e.
Proof.
  intros Hinv [_ Ho Hp] Hl. destruct (Hp l (essence x)) as [p Hpx]; [by rewrite essences_lookup, Hl|]. cbn in Hpx.
  assert (resolved st p = type_info (essences st) p) as Hr.
  { apply resolved_info; [done..|]. by apply (inv_items _ Hinv _ _ Hl). }
  unfold Item_write, wire_item, writeParentInfo, parent_info. rewrite Hpx, Hr.
  destruct (Origin x), (RightOrigin x); cbn; try done; destruct (0 <? off); try done.
  by destruct (HasParentSub x).
Qed.

Lemma Struct_write_wire st c s off e :
  store_inv st -> sk_inv st -> s ∈ Store_Structs st c ->
  Struct_write (resolved st) s off e = Struct_write no_parent (wire (essences st) s) off e.
Proof.
  intros Hinv Hsk Hs. destruct s as [| |x]; [done..|]. cbn. unfold Store_Structs in Hs. change (map ?f ?l) with (f <$> l) in Hs.
  apply list_elem_of_fmap in Hs as ([| |l] & He & Hr); [done..|]. cbn in He. destruct (heap st !! l) as [y|] eqn:El; [|done].
  injection He as ->. by eapply Item_write_wire.
Qed.

Lemma write_structs_wire st c l : forall e,
  store_inv st -> sk_inv st -> (forall s, s ∈ l -> s ∈ Store_Structs st c) ->
  write_list (fun s e => Struct_write (resolved st) s 0 e) l e
  = write_list (fun s e => Struct_write no_parent s 0 e) (map (wire (essences st)) l) e.
Proof.
  unfold write_list. induction l as [|s l IH]; intros e Hinv Hsk Hl; [done|]. cbn.
  rewrite (Struct_write_wire st c); [|done|done|apply Hl, list_elem_of_here]. apply IH; [done..|]. intros x Hx. apply Hl. by right.
Qed.

Lemma StructID_wire E s : StructID (wire E s) = StructID s.
Proof. destruct s as [| |it]; [done..|]. cbn. by destruct (wire_item_fields E it) as (-> & _). Qed.

Lemma writeBlock_wire st b e :
  store_inv st -> sk_inv st -> (forall s, s ∈ Structs b -> s ∈ Store_Structs st (CB_Client b)) ->
  writeBlock (resolved st) b e = writeBlock no_parent (wire_block (essences st) b) e.
Proof.
  intros Hinv Hsk Hb. unfold writeBlock. cbn. rewrite length_map. destruct (Structs b) as [|s l]; [done|]. cbn [map].
  rewrite StructID_wire, (Struct_write_wire st (CB_Client b)); [|done|done|apply Hb, list_elem_of_here].
  apply (write_structs_wire st (CB_Client b)); [done..|]. intros x Hx. apply Hb. by right.
Qed.

Lemma descending_wire E l : isDescendingByClient (map (wire_block E) l) = isDescendingByClient l.
Proof. induction l as [|a [|b l] IH]; [done..|]. cbn in *. by rewrite IH. Qed.

Lemma write_blocks_wire st l : forall e,
  store_inv st -> sk_inv st ->
  (forall b, b ∈ l -> forall s, s ∈ Structs b -> s ∈ Store_Structs st (CB_Client b)) ->
  write_list (writeBlock (resolved st)) l e
  = write_list (writeBlock no_parent) (map (wire_block (essences st)) l) e.
Proof.
  unfold write_list. induction l as [|b l IH]; intros e Hinv Hsk Hin; cbn [map foldl]; [done|].
  rewrite writeBlock_wire; [|done|done|apply Hin, list_elem_of_here]. apply IH; [done..|].
  intros x Hx. apply Hin. by right.
Qed.

Lemma Encode_diff `{!MapOrder} sv d :
  doc_inv d -> sk_inv (store d) -> (forall c, 0 <= SV_Get sv c) -> isDescendingByClient (Clients (diff sv d)) = true ->
  EncodeStateAsUpdate sv d = Encode no_parent (diff sv d).
Proof.
  intros Hd Hsk H0 Hdesc. unfold EncodeStateAsUpdate, Encode, Update_write. rewrite Hdesc.
  unfold diff in *. cbn [Clients Deletes] in *. rewrite descending_wire in Hdesc. rewrite Hdesc.
  rewrite length_map, write_blocks_wire; [done|apply Hd|done|].
  intros b. unfold state_update. cbn [Clients]. by apply state_blocks.
Qed.

Lemma Encode_snapshot `{!MapOrder} d :
  doc_inv d -> sk_inv (store d) -> isDescendingByClient (Clients (snapshot d)) = true ->
  EncodeStateAsUpdate ∅ d = Encode no_parent (snapshot d).
Proof. intros Hd Hsk. by apply Encode_diff. Qed.

(** ** What is deleted at the source *)

Lemma normal_above rs k : forall lo, normal_from lo rs -> covers rs k -> lo <= k.
Proof.
  induction rs as [|x rs IH]; intros lo Hn Hc; [by apply covers_nil in Hc|].
  destruct Hn as (H1 & (H2 & H3 & H4) & H5). apply covers_cons in Hc as [?|Hc]; [lia|]. specialize (IH _ H5 Hc). lia.
Qed.

Lemma normal_gaps lo rs r :
  normal_from lo rs -> r ∈ rs ->
  lo <= DR_Clock r /\ range_ok r /\ ~ covers rs (DR_Clock r - 1) /\ ~ covers rs (DR_Clock r + DR_Len r).
Proof.
  revert lo. induction rs as [|x rs IH]; intros lo Hn Hr; [by apply elem_of_nil in Hr|].
  destruct Hn as (H1 & (H2 & H3 & H4) & H5).
  assert (Hbelow : forall k, covers rs k -> DR_Clock x + DR_Len x + 1 <= k) by (intros k; by apply normal_above).
  apply elem_of_cons in Hr as [->|Hr].
  - split_and!; [done|done| |]; rewrite covers_cons; intros [?|Hc]; [lia|apply Hbelow in Hc; lia|lia|apply Hbelow in Hc; lia].
  - destruct (IH _ H5 Hr) as (K1 & K2 & K3 & K4). split_and!; [lia|done| |]; rewrite covers_cons;
      (intros [?|Hc]; [destruct K2 as (? & ? & ?); lia|done]).
Qed.

(** A struct is deleted as a whole, so deletion changes at boundaries only. *)
Lemma dead_struct st c k :
  store_wf st -> dead_at st c k -> exists i,
    slen (take i (Store_Structs st c)) <= k < slen (take (S i) (Store_Structs st c))
    /\ forall x, slen (take i (Store_Structs st c)) <= x < slen (take (S i) (Store_Structs st c)) -> dead_at st c x.
Proof.
  intros Hwf (r & Hr & Hd & Hk)%dead_at_refs. apply list_elem_of_lookup in Hr as [i Hi]. exists i.
  destruct (entry_at _ _ _ _ Hwf Hi) as (H1 & _ & H3 & _). split; [lia|]. intros x Hx. apply dead_at_refs.
  exists r. split; [by eapply list_elem_of_lookup_2|]. split; [done|]. lia.
Qed.

Lemma dead_at_State st c k : store_wf st -> dead_at st c k -> 0 <= k < State st c.
Proof.
  intros Hwf (r & Hr & Hd & Hk)%dead_at_refs. apply list_elem_of_lookup in Hr as [i Hi].
  destruct (entry_at _ _ _ _ Hwf Hi) as (H1 & _ & H3 & H4 & H5 & H6). lia.
Qed.

(** Deletions held back are of clocks not received. *)
Definition held_beyond (d : Doc) : Prop := forall c k, held d c k -> State (store d) c <= k.

Lemma IsEmpty_covers ds c k : IsEmpty ds = true -> ~ covers (ranges_of ds c) k.
Proof.
  unfold IsEmpty, ranges_of. rewrite forallb_forall. intros H. destruct (ds !! c) as [rs|] eqn:Ec; [|by intros ?%covers_nil].
  specialize (H (c, rs)). cbn in H. destruct rs; [by intros ?%covers_nil|].
  discriminate H. apply list_elem_of_In. by apply elem_of_map_to_list.
Qed.

Section Source.
Context `{!MapOrder}.

Lemma retryPending_held d : doc_inv d -> held_beyond (retryPending d).
Proof.
  intros Hd. unfold retryPending. destruct (retry_loop_ok _ d Hd (Nat.lt_succ_diag_r _)) as (H1 & _).
  set (d1 := retry_loop _ d) in *. destruct (IsEmpty _) eqn:Ee.
  - intros c k Hk. by destruct (IsEmpty_covers _ _ _ Ee Hk).
  - assert (doc_inv (set_pendingDeletes NewDeleteSet d1)) as Hd2.
    { destruct H1. split; [done..|apply map_Forall_empty]. }
    destruct (applyDeleteSet_ok (pendingDeletes d1) _ Hd2) as [[_ _ D3 _ _ D6] _]; [apply ds_normal_fits, H1|].
    intros c k. rewrite D6, D3. intros [Hh|[_ ?]]; [|done]. unfold held, ranges_of in Hh. cbn in Hh.
    unfold NewDeleteSet in Hh. rewrite lookup_empty in Hh. by apply covers_nil in Hh.
Qed.

Lemma reachable_held d : reachable d -> held_beyond d.
Proof.
  induction 1 as [c|b d d' Hd IH Hb Ha|name d Hd IH].
  - intros c' k Hh. unfold held, ranges_of in Hh. cbn in Hh. unfold NewDeleteSet in Hh. rewrite lookup_empty in Hh.
    by apply covers_nil in Hh.
  - apply reachable_doc_inv in Hd as Hinv. unfold ApplyUpdate in Ha.
    destruct (DecodeUpdate b) as [x|] eqn:Hm; [|done]. injection Ha as <-.
    apply DecodeUpdate_fits in Hm as (Hu & ds & Hds & Hf); [|done]. unfold ApplyDecodedUpdate.
    apply retryPending_held. rewrite Hds.
    destruct (integrate_ok x d (di_store _ Hinv) Hu) as [I1 I2 I3 (n1 & J1 & J2 & J3 & _)].
    assert (doc_inv (integrate x d)).
    { destruct Hinv. split; [done| |by rewrite I3]. rewrite J1. by apply Forall_app. }
    by apply applyDeleteSet_ok.
  - intros c k Hh. unfold Doc_Get in *. destruct (Get name (store d)) as [t st] eqn:E.
    destruct (Get_settles _ _ _ _ (di_store _ (reachable_doc_inv _ Hd)) E) as [[_ _ [Hs _]] _].
    cbn. rewrite Hs. by apply IH.
Qed.

(** The delete set of a snapshot fits the structs it comes with. *)
Lemma snapshot_aligned d :
  doc_inv d -> held_beyond d -> forall c, Forall (aligned (store d) c) (ranges_of (deleteSetForUpdate d) c).
Proof.
  intros Hd Hh c. destruct (deleteSetForUpdate_ok d Hd) as [Hn Hc]. pose proof (inv_wf _ (di_store _ Hd)) as Hwf.
  assert (Hdead : forall k, k < State (store d) c -> covers (ranges_of (deleteSetForUpdate d) c) k <-> dead_at (store d) c k).
  { intros k Hk. rewrite Hc. split; [|by left]. intros [?|Hhk]; [done|]. specialize (Hh c k Hhk). lia. }
  apply Forall_forall. intros r Hr Hlt.
  assert (normal (ranges_of (deleteSetForUpdate d) c)) as Hnr.
  { unfold ranges_of in *. destruct (deleteSetForUpdate d !! c) as [rs|] eqn:Er; [by apply (Hn c)|done]. }
  destruct (normal_gaps _ _ _ Hnr Hr) as (_ & (R1 & R2 & R3) & G1 & G2). rewrite Hdead in G1 by lia. split.
  - assert (dead_at (store d) c (DR_Clock r)) as Hk.
    { apply Hdead; [done|]. exists r. split; [done|lia]. }
    destruct (dead_struct _ _ _ Hwf Hk) as (i & Hi & Hall). exists i.
    destruct (decide (slen (take i (Store_Structs (store d) c)) = DR_Clock r)); [done|]. destruct G1. apply Hall. lia.
  - intros He. rewrite Hdead in G2 by done.
    assert (dead_at (store d) c (DR_Clock r + DR_Len r - 1)) as Hk.
    { apply Hdead; [lia|]. exists r. split; [done|lia]. }
    destruct (dead_struct _ _ _ Hwf Hk) as (i & Hi & Hall). exists (S i).
    destruct (decide (slen (take (S i) (Store_Structs (store d) c)) = DR_Clock r + DR_Len r)); [done|]. destruct G2. apply Hall. lia.
Qed.

Lemma aligned_split t c r : store_inv t -> 0 <= DR_Len r -> aligned t c r ->
  splits t c (DR_Clock r) /\ splits t c (DR_Clock r + DR_Len r).
Proof.
  intros Hinv Hlen Ha. pose proof (inv_wf _ Hinv) as Hwf.
  assert (Hb : forall k, boundary t c k \/ State t c <= k -> splits t c k).
  { intros k [Hk|Hk]; [|by apply splits_State]. intros l id content b Hr Hbod Hin. exfalso.
    apply list_elem_of_lookup in Hr as [i Hi]. destruct (entry_at _ _ _ _ Hwf Hi) as (H1 & _ & H3 & _).
    unfold bodies in Hbod. rewrite lookup_fmap in Hbod. unfold ref_id in *. cbn [view] in *.
    destruct (heap t !! l) as [x|]; [|done]. injection Hbod as <- <- <-. cbn [StructID StructLen] in *. unfold Item_Len in *.
    pose proof (boundary_after t c k i Hwf Hk ltac:(lia)). lia. }
  destruct (decide (DR_Clock r < State t c)) as [Hlt|]; [|split; apply Hb; right; lia].
  destruct (Ha Hlt) as [H1 H2]. split; apply Hb; [by left|].
  destruct (decide (DR_Clock r + DR_Len r < State t c)); [left; auto|right; lia].
Qed.
End Source.

(** ** Applying a snapshot *)

Lemma skel_State t t' c : store_wf t -> store_wf t' -> skel t' c = skel t c -> State t' c = State t c.
Proof. intros H1 H2 H. by rewrite <- !skel_slen, H. Qed.

Lemma skel_StateVector t t' :
  store_wf t -> store_wf t' -> (forall c, skel t' c = skel t c) -> Store_StateVector t' = Store_StateVector t.
Proof.
  intros H1 H2 Hs. apply map_eq. intros c. unfold Store_StateVector. rewrite !map_lookup_imap.
  rewrite (skel_State t t' c) by done. specialize (Hs c). unfold skel, refs in Hs.
  pose proof (wf_ne _ H1 c). pose proof (wf_ne _ H2 c).
  destruct (clients t' !! c) as [[|r' l']|], (clients t !! c) as [[|r l]|]; done.
Qed.

Section Restore.
Context `{!MapOrder}.

(** What [d'] has of [d]: every client's structs, with what an item says of itself on the
    wire (id, content, origins, and, when it has no origins, parent and key); all its
    deletions, and the same ones held back.  Nothing waits in [d'], whatever waits in
    [d]. *)
Record restored (d d' : Doc) : Prop := {
  re_structs : forall c, skel (store d') c = skel (store d) c;
  re_pending : pending d' = [];
  re_dead : forall c k, dead_at (store d) c k -> dead_at (store d') c k;
  re_held : forall c k, held d' c k <-> held d c k;
}.

Lemma held_none d c k : pendingDeletes d = NewDeleteSet -> ~ held d c k.
Proof.
  intros Hp. unfold held, ranges_of. rewrite Hp. unfold NewDeleteSet. rewrite lookup_empty. by intros ?%covers_nil.
Qed.

(** Retrying when nothing is pending only holds the same deletions again. *)
Lemma retry_restored d d2 :
  doc_inv d2 -> held_beyond d2 -> restored d d2 -> restored d (retryPending d2).
Proof.
  intros Hd2 Hh2 [R1 R2 R3 R4]. unfold retryPending. rewrite R2. cbn [pending_structs sum_list_with retry_loop].
  rewrite R2. destruct (IsEmpty _); [done|].
  set (e := set_pendingDeletes NewDeleteSet d2).
  assert (doc_inv e) as He by (destruct Hd2; split; [done..|apply map_Forall_empty]).
  pose proof (ds_normal_fits _ (di_deletes _ Hd2)) as Hf.
  destruct (applyDeleteSet_ok (pendingDeletes d2) e He Hf) as [[D1 [_ D2 _ _] D3 D4 _ D6] _].
  split.
  - intros c. rewrite applyDeleteSet_skel; [apply R1|done|done|]. intros c'. apply Forall_forall. intros r Hr Hlt.
    assert (normal (ranges_of (pendingDeletes d2) c')) as Hn.
    { pose proof (di_deletes _ Hd2) as Hn. unfold ranges_of in *. destruct (pendingDeletes d2 !! c') as [rs|] eqn:Er; [by apply (Hn c')|done]. }
    destruct (normal_gaps _ _ _ Hn Hr) as (_ & (? & ? & ?) & _).
    assert (held d2 c' (DR_Clock r)) as Hk by (exists r; split; [done|lia]). specialize (Hh2 _ _ Hk). cbn in Hlt. lia.
  - by rewrite D4.
  - intros c k Hk. by apply D2, R3.
  - intros c k. rewrite D6, <- R4. cbn [store e set_pendingDeletes]. split; [intros [Hn|[Hc _]]|intros Hc; right].
    + by destruct (held_none e c k eq_refl Hn).
    + done.
    + split; [done|]. by apply Hh2.
Qed.

Lemma snapshot_restored d c0 :
  doc_inv d -> sk_inv (store d) -> held_beyond d -> restored d (ApplyDecodedUpdate (snapshot d) (NewDoc c0)).
Proof.
  intros Hd Hsk Hh. unfold ApplyDecodedUpdate. destruct (snapshot_integrates d Hd Hsk c0) as (Hd1 & Hp1 & Hpd1 & Hs1).
  set (d1 := integrate (snapshot d) (NewDoc c0)) in *. cbn [Deletes snapshot diff state_update].
  destruct (deleteSetForUpdate_ok d Hd) as [Hn Hcov]. set (ds := deleteSetForUpdate d) in *.
  pose proof (inv_wf _ (di_store _ Hd)) as Hwf. pose proof (inv_wf _ (di_store _ Hd1)) as Hwf1.
  assert (Hst : forall c, State (store d1) c = State (store d) c) by (intros c; by apply skel_State).
  assert (Ha : forall c, Forall (aligned (store d1) c) (ranges_of ds c)).
  { intros c. eapply Forall_impl; [by apply snapshot_aligned|]. intros r. by apply aligned_skel. }
  pose proof (ds_normal_fits _ Hn) as Hf.
  destruct (applyDeleteSet_ok ds d1 Hd1 Hf) as [[D1 _ D3 D4 _ D6] Dx].
  assert (ds_split (store d1) ds) as Hsplit.
  { intros c. apply Forall_forall. intros r Hr. apply aligned_split; [apply Hd1| |by apply (proj1 (Forall_forall _ _) (Ha c))].
    unfold ranges_of in Hr. destruct (ds !! c) as [rs|] eqn:Er; [|by apply elem_of_nil in Hr].
    pose proof (Hf c rs Er) as Hrs. eapply Forall_forall in Hrs; [|exact Hr]. apply Hrs. }
  specialize (Dx Hsplit).
  apply retry_restored; [done| |split].
  - intros c k. rewrite D6, D3. intros [Hk|[_ ?]]; [by destruct (held_none d1 c k Hpd1 Hk)|done].
  - intros c. rewrite applyDeleteSet_skel by done. apply Hs1.
  - by rewrite D4.
  - intros c k Hk. apply Dx. right. rewrite Hcov, Hst. split; [by left|]. by apply dead_at_State.
  - intros c k. rewrite D6, Hcov, Hst. split.
    + intros [Hk|[[Hk|Hk] Hle]]; [by destruct (held_none d1 c k Hpd1 Hk)| |done].
      apply dead_at_State in Hk; [|done]. lia.
    + intros Hk. right. split; [by right|]. by apply Hh.
Qed.

Lemma snapshot_restores_ok d c0 :
  reachable d -> update_ok (snapshot d) ->
  exists b d', EncodeStateAsUpdate ∅ d = Ok b /\ ApplyUpdate b (NewDoc c0) = Ok d'
    /\ restored d d' /\ Doc_StateVector d' = Doc_StateVector d.
Proof.
  intros Hr Hok. pose proof (reachable_doc_inv _ Hr) as Hd. pose proof (reachable_sk _ Hr) as Hsk.
  pose proof (reachable_held _ Hr) as Hh. destruct (DecodeUpdate_Encode_ok _ Hok) as (b & He & Hdec).
  exists b, (ApplyDecodedUpdate (snapshot d) (NewDoc c0)).
  pose proof (snapshot_restored d c0 Hd Hsk Hh) as Hres. split_and!; [|by unfold ApplyUpdate; rewrite Hdec|done|].
  - rewrite Encode_snapshot by (done || apply Hok). done.
  - apply skel_StateVector; [apply Hd| |apply Hres].
    apply inv_wf, di_store. apply ApplyDecodedUpdate_ok; [apply NewDoc_inv|]. split; [by apply snapshot_fits|].
    intros ds [= <-]. apply ds_normal_fits, deleteSetForUpdate_ok, Hd.
Qed.

(** C2. A snapshot restores the structs.  For every document that any sequence of updates can
    lead to and that fits the wire format, [EncodeStateAsUpdate] for an empty state vector
    succeeds, and applying its bytes to a new document leaves nothing pending and gives
    back, for every client, the same structs in the same order (ids, contents, origins,
    and the parents and keys of items without origins), the same state vector, every
    deletion and the same deletions held back.  Structs the document itself was holding
    back for want of others are not in its snapshot ([held_update_not_saved]), and more
    may be deleted than in the source: what is in a type that was overwritten
    ([snapshot_deletes_more]). *)
Theorem snapshot_restores d c0 :
  reachable d -> update_ok (snapshot d) ->
  exists b d', EncodeStateAsUpdate ∅ d = Ok b /\ ApplyUpdate b (NewDoc c0) = Ok d'
    /\ restored d d' /\ Doc_StateVector d' = Doc_StateVector d.
Proof. apply snapshot_restores_ok. Qed.
End Restore.

(** C5. The structs of every reachable document can be put in an order in which each comes
    after all it refers to: its left and right neighbours end and start where it says,
    its parent is a shared type, and all were there before it.  (The store implements
    the machine of Skeleton.) *)
Theorem documents_are_causal `{!MapOrder} d : reachable d -> built (skel (store d)) /\ causal (skel (store d)).
Proof. intros Hd. pose proof (sk_built _ (reachable_sk _ Hd)). split; [done|by apply built_causal]. Qed.
