(* ===== verification/CatchUp.v ===== *)
(** * Replicas catch up

    The anti-entropy exchange of the cluster and the handshake of a client both rest on
    one step: a replica says what it has ([EncodeStateVector]), the other answers with what
    is missing ([EncodeDiff]), and the first applies it.  This file shows that the step
    always gets it there: whatever else the replica holds, nothing of the answer can stay
    pending, because the answer is closed under what its structs refer to and the source's
    structs can be ordered causally (Skeleton). *)

From S2P Require Import Prelude Lib0 Any Content StateVector DeleteSet Struct Update StructStore Doc Links Invariant Integrate Deletion Apply Sync Skeleton Build Transfer.

(** ** Sending part of a struct

    The peer may have the front of the first struct it is sent: the writer skips that many
    units, and the peer decodes an item that follows the last of them. *)

Definition cut_item (off : Z) (tail : Content) (it : Item) : Item :=
  let '(NewID c k) := it_ID it in
  MkItem (NewID c (k + off)) (Some (NewID c (k + off - 1))) (RightOrigin it) None (HasParentSub it) [] tail
    None None None false false.

Definition cut_struct (off : Z) (s : Struct) : Struct :=
  if off <=? 0 then s
  else match s with
       | SGC (NewID c k) n => SGC (NewID c (k + off)) (n - off)
       | SSkip (NewID c k) n => SSkip (NewID c (k + off)) (n - off)
       | SItem it =>
           match Splice (it_Content it) off with
           | Ok (_, tail) => SItem (cut_item off tail it)
           | Err _ => s
           end
       end.

(** Only a string can hold a place where it cannot be cut: between the two halves of a
    surrogate pair. *)
Definition cuttable (off : Z) (s : Struct) : bool :=
  match s with
  | SItem it =>
      match it_Content it with
      | ContentString str => (off <=? 0) || bool_decide (is_Some (splitUTF16 str off))
      | _ => true
      end
  | _ => true
  end.

Lemma cuttable_Splice off it :
  cuttable off (SItem it) = true -> 0 < off < Item_Len it -> exists h t, Splice (it_Content it) off = Ok (h, t).
Proof.
  unfold Item_Len. cbn. intros Hc Ho. destruct (it_Content it); cbn [Splice Len] in *; eauto; try lia.
  apply orb_true_iff in Hc as [Hc%Z.leb_le|[[h t] Hs]%bool_decide_eq_true]; [lia|]. rewrite Hs. eauto.
Qed.

Lemma cut_shape off s :
  cuttable off s = true -> 0 <= off < StructLen s ->
  StructID (cut_struct off s) = NewID (Client (StructID s)) (Clock (StructID s) + off)
  /\ StructLen (cut_struct off s) = StructLen s - off.
Proof.
  intros Hc Ho. unfold cut_struct. destruct (Z.leb_spec off 0).
  { assert (off = 0) as -> by lia. rewrite Z.add_0_r, Z.sub_0_r. by destruct (StructID s). }
  destruct s as [[c k] n|[c k] n|it]; [done..|].
  destruct (cuttable_Splice off it Hc) as (h & t & Hs); [cbn in Ho; lia|]. rewrite Hs.
  unfold cut_item. cbn in *. destruct (it_ID it). cbn. split; [done|].
  unfold Item_Len in *. cbn. by destruct (Splice_Len _ _ _ _ Hs ltac:(lia)).
Qed.

Lemma cut_fits off s : cuttable off s = true -> 0 <= off < StructLen s -> struct_fits s -> struct_fits (cut_struct off s).
Proof.
  intros Hc Ho (F1 & F2 & F3 & F4). unfold struct_fits. destruct (cut_shape off s Hc Ho) as [-> ->]. cbn [Clock].
  split_and!; [|lia..]. unfold cut_struct. destruct (Z.leb_spec off 0); [done|].
  destruct s as [[c k] n|[c k] n|it]; [done..|].
  destruct (cuttable_Splice off it Hc) as (h & t & ->); [cbn in Ho; lia|].
  cbn in F1, F2. unfold cut_item. destruct (it_ID it) as [c k]. cbn in *. destruct F1 as (_ & F1 & _).
  split_and!; [intros id [= <-]; cbn; lia|done|by intros id ?|done..].
Qed.

Lemma Content_Write_tail c off h t e :
  Splice c off = Ok (h, t) -> 0 < off <= Len c -> Content_Write c off e = Content_Write t 0 e.
Proof.
  intros Hs Ho. destruct c; cbn in Hs, Ho; simplify_eq; cbn [Content_Write].
  - by rewrite Z.sub_0_r.
  - rewrite length_drop. do 2 f_equal. f_equal. lia.
  - destruct (splitUTF16 _ off) as [[a b]|]; simplify_eq. by rewrite (proj2 (Z.eqb_neq off 0)) by lia.
  - rewrite length_drop. do 2 f_equal. f_equal. lia.
Qed.

(** Skipping the front writes what the cut struct writes. *)
Lemma Struct_write_cut P off s e :
  struct_fits s -> cuttable off s = true -> 0 <= off < StructLen s ->
  Struct_write P s off e = Struct_write P (cut_struct off s) 0 e.
Proof.
  intros (_ & F2 & F3 & F4) Hc Ho. unfold cut_struct. destruct (Z.leb_spec off 0).
  { by assert (off = 0) as -> by lia. }
  destruct s as [[c k] n|[c k] n|it]; [cbn; by rewrite Z.sub_0_r..|].
  destruct (cuttable_Splice off it Hc) as (h & t & Hs); [cbn in Ho; lia|]. rewrite Hs.
  cbn in F2, F3, F4, Ho. unfold Item_Len in *. cbn [Struct_write]. unfold Item_write, cut_item.
  destruct (it_ID it) as [c k]. cbn in F2, F4 |- *. rewrite (proj2 (Z.ltb_lt 0 off)) by done.
  rewrite (u64_small (k + off - 1)) by (unfold two63, two64 in *; lia).
  unfold info_byte. rewrite (proj2 (Splice_kind _ _ _ _ Hs)).
  by destruct (RightOrigin it); rewrite (Content_Write_tail _ _ _ _ _ Hs) by lia.
Qed.

Section CatchUp.
Context `{HMO : !MapOrder}.

(** ** Queues that continue where the store ends *)

Section Feed.
Context (d : Doc) (Hd : doc_inv d) (Hsk : sk_inv (store d)) (goal : Z -> Z).
Context (Hgoal : forall c, State (store d) c <= goal c).
Let st := store d.
Let E := essences st.

(** A struct of the source, or the rest of one. *)
Inductive sourced (c : Z) : Struct -> Prop :=
| sourced_cut s off : s ∈ map (wire E) (Store_Structs st c) -> 0 <= off < StructLen s -> cuttable off s = true ->
    sourced c (cut_struct off s).

Record fed (c : Z) (q : list Struct) (t : Store) : Prop := {
  fe_contig : contig c (State t c) q;
  fe_goal : State t c + slen q = goal c;
  fe_source : forall s, s ∈ q -> sourced c s;
  fe_fits : Forall struct_fits q;
}.

Lemma fed_ext c q t t' : State t' c = State t c -> fed c q t -> fed c q t'.
Proof. intros Hs [H1 H2 H3 H4]. split; rewrite ?Hs; done. Qed.

Lemma sourced_noskip c s : sourced c s -> match s with SSkip _ _ => False | _ => True end.
Proof.
  intros [s' off Hs Ho Hc]. pose proof (wired_structs st c (di_store _ Hd) (sk_parented _ Hsk)) as Hw.
  rewrite Forall_forall in Hw. pose proof (Hw _ Hs) as Hws. unfold cut_struct. destruct (off <=? 0); [by destruct s'|].
  destruct s' as [[? ?]| |it]; [done..|]. by repeat case_match.
Qed.

Lemma source_skel c w : SItem w ∈ map (wire E) (Store_Structs st c) -> SItem (unflag w) ∈ skel st c.
Proof.
  intros Hs. rewrite <- skel_wire. change (SItem (unflag w)) with (bare_struct (SItem w)).
  change (map ?f ?l) with (f <$> l). by apply list_elem_of_fmap_2.
Qed.

(** What a queued item waits for, an item of the source refers to; its own front, the
    rest of an item never waits for. *)
Lemma sourced_deps c w id :
  sourced c (SItem w) -> id ∈ deps (unflag w) ->
  id = NewID c (Clock (it_ID w) - 1)
  \/ exists w0, SItem w0 ∈ skel st c /\ id ∈ deps w0 /\ Clock (it_ID w0) <= Clock (it_ID w) < State st c.
Proof.
  intros Hsrc Hdep. inversion Hsrc as [s off Hs Ho Hc He].
  assert (Hend : 0 <= Clock (StructID s) /\ Client (StructID s) = c /\ Clock (StructID s) + StructLen s <= State st c).
  { change (map ?f ?l) with (f <$> l) in Hs. apply list_elem_of_fmap in Hs as (s0 & -> & Hs0).
    rewrite StructID_wire. replace (StructLen (wire E s0)) with (StructLen s0).
    2:{ destruct s0 as [| |it]; [done..|]. cbn. unfold Item_Len. by destruct (wire_item_fields E it) as (_ & -> & _). }
    pose proof (inv_wf _ (di_store _ Hd)) as Hwf. rewrite (State_slen st Hwf).
    destruct (contig_elem _ _ _ (proj1 (wf_gapless _ Hwf c)) Hs0) as (A & B & _ & C). done. }
  destruct Hend as (H0 & Hcl & Hend). destruct (cut_shape off s Hc Ho) as [Hid _]. rewrite He in Hid. cbn [StructID] in Hid.
  unfold cut_struct in He. destruct (Z.leb_spec off 0).
  - subst s. right. exists (unflag w). destruct (unflag_fields w) as (-> & _). cbn in Hend, Ho. split_and!; [by apply source_skel|done|lia..].
  - destruct s as [[? ?]|[? ?]|it]; [done..|]. destruct (cuttable_Splice off it Hc) as (h & t & Hsp); [cbn in Ho; lia|].
    rewrite Hsp in He. injection He as <-. rewrite Hid. apply elem_of_deps in Hdep. unfold cut_item, unflag in Hdep.
    cbn in Hcl, Hend, Ho, H0. destruct (it_ID it) as [c' k] eqn:Ei. cbn in *. subst c'.
    destruct Hdep as [[= <-]|[Hr|[=]]]; rewrite Ei; [by left|]. right. exists (unflag it).
    destruct (unflag_fields it) as (-> & _). rewrite Ei. cbn. split_and!; [by apply source_skel| |lia..].
    apply elem_of_deps. by right; left.
Qed.

(** The head of a queue is the next struct of its client; it is integrated or waits for
    another client's. *)
Lemma drain_head c s q t :
  fed c (s :: q) t ->
  drain (s :: q) t = match resolve s t with
                     | Some (s1, t1) => let '(q', t', _) := drain q (integrateStruct s1 0 t1) in (q', t', true)
                     | None => (s :: q, t, false)
                     end
  /\ StructID s = NewID c (State t c) /\ 0 < StructLen s /\ match s with SSkip _ _ => False | _ => True end.
Proof.
  intros [(Hid & Hlen & _) _ Hsrc _]. assert (match s with SSkip _ _ => False | _ => True end) as Hns.
  { by eapply (sourced_noskip c), Hsrc; left. }
  split; [|done]. cbn [drain].
  assert (Hif : forall (A : Type) (a c : A), match s with SSkip _ _ => a | _ => c end = c) by (by destruct s).
  rewrite Hif. clear Hif. cbn zeta. rewrite Hid. cbn [Client Clock].
  rewrite Z.ltb_irrefl, Z.sub_diag. change (s64 (u64 0)) with 0. by rewrite (proj2 (Z.leb_gt _ _)) by lia.
Qed.

Lemma fed_drain c q : forall t q' t' b,
  store_inv t -> fed c q t -> drain q t = (q', t', b) ->
  store_inv t' /\ fed c q' t' /\ forall c', c' <> c -> State t' c' = State t c'.
Proof.
  induction q as [|s q IH]; intros t q' t' b Hinv Hf H; [cbn in H; by simplify_eq|].
  destruct (drain_head _ _ _ _ Hf) as (He & Hid & Hlen & Hns). rewrite He in H. clear He.
  destruct (resolve s t) as [[s1 t1]|] eqn:Er; [|by simplify_eq].
  destruct Hf as [(_ & _ & Hc) Hg Hsrc Hfit]. apply Forall_cons in Hfit as [(Hfr & F0 & F1 & F2) Hfit].
  destruct (resolve_ok _ _ _ _ Hinv Hfr Er) as ([S1 _ [S3 _]] & Hrd & Eid & Elen & Hns').
  rewrite Hid in F0, F2. cbn in F0, F2.
  destruct (integrateStruct_ok s1 0 t1) as [(K1 & _ & K3)|[_ K]]; try done; rewrite ?Eid, ?Elen, ?Hid, ?S3; cbn; try lia.
  { by apply Hns'. }
  rewrite Eid, Elen, Hid in K3. cbn in K3. set (t2 := integrateStruct s1 0 t1) in *.
  destruct (drain q t2) as [[q2 t3] b2] eqn:Ed. simplify_eq.
  assert (State t2 c = State t c + StructLen s) as Hc2 by (rewrite K3, decide_True, S3 by done; lia).
  destruct (IH t2 q' t' b2 K1) as (J1 & J2 & J3); [|done|].
  - split; rewrite ?Hc2; [done| |intros x Hx; apply Hsrc; by right|done]. rewrite slen_cons in Hg. lia.
  - split_and!; [done..|]. intros c' Hne. by rewrite J3, K3, decide_False, S3 by congruence.
Qed.

Definition feeding (qs : Queues) (t : Store) : Prop := store_inv t /\ forall c, fed c (queue_of qs c) t.

Lemma feeding_round order : forall qs t qs' t' b,
  feeding qs t -> round order qs t = (qs', t', b) -> feeding qs' t'.
Proof.
  induction order as [|c order IH]; intros qs t qs' t' b Hf H; cbn in H; [by simplify_eq|].
  destruct (drain (queue_of qs c) t) as [[q t1] b1] eqn:Ed.
  destruct (round order (<[c:=q]> qs) t1) as [[qs2 t2] b2] eqn:Er. simplify_eq. destruct Hf as [Hinv Hf].
  destruct (fed_drain _ _ _ _ _ _ Hinv (Hf c) Ed) as (H1 & H2 & H3). eapply IH; [|exact Er].
  split; [done|]. intros c'. rewrite queue_of_insert. case_decide as Hc; [by subst|].
  eapply fed_ext; [apply H3; congruence|apply Hf].
Qed.

Lemma feeding_rounds fuel order : forall qs t qs' t',
  feeding qs t -> rounds fuel order qs t = (qs', t') -> feeding qs' t'.
Proof.
  induction fuel as [|fuel IH]; intros qs t qs' t' Hf H; cbn in H; [by simplify_eq|].
  destruct (round order qs t) as [[qs1 t1] b] eqn:Er. pose proof (feeding_round _ _ _ _ _ _ Hf Er) as Hf1.
  destruct b; [|by simplify_eq]. by eapply IH.
Qed.

(** A struct that waits, waits for a clock the source has and the store has not. *)
Lemma waits_for c w q t :
  fed c (SItem w :: q) t -> blocked t (SItem w :: q) ->
  exists id, id ∈ deps (unflag w) /\ State t (Client id) <= Clock id.
Proof.
  intros Hf Hb. destruct (drain_head _ _ _ _ Hf) as (He & _). unfold blocked in Hb. rewrite He in Hb.
  destruct (resolve (SItem w) t) as [[s1 t1]|] eqn:Er; [by destruct (drain q _) as [[? ?] ?]|].
  cbn [resolve] in Er. unfold resolve_item in Er.
  destruct (missing t w (Origin w) || missing t w (RightOrigin w) || missing t w (parent_item w)) eqn:Em; [|by repeat case_match].
  assert (forall o, missing t w o = true -> exists id, o = Some id /\ State t (Client id) <= Clock id) as Hm.
  { intros [id|]; [|done]. cbn. intros [_ H%Z.leb_le]%andb_true_iff. eauto. }
  rewrite !orb_true_iff in Em. destruct Em as [[Em|Em]|Em]; destruct (Hm _ Em) as (id & Hid & Hle); exists id;
    (split; [apply elem_of_deps; auto|done]).
Qed.

(** Nothing can stay behind. *)
Lemma feeding_done (order : list Z) qs t :
  feeding qs t -> (forall c, queue_of qs c <> [] -> c ∈ order) ->
  (forall c, c ∈ order -> blocked t (queue_of qs c)) -> forall c, queue_of qs c = [].
Proof.
  intros [Hinv Hf] Hord Hb. destruct (ca_ranked _ (built_causal _ (sk_built _ Hsk))) as (rank & bound & [_ R2 R3]).
  assert (Hno : forall n c, rank c (State t c) = n -> queue_of qs c = []).
  { induction n as [n IH] using lt_wf_ind. intros c Hn. destruct (queue_of qs c) as [|s q] eqn:Eq; [done|exfalso].
    pose proof (Hf c) as Hc. rewrite Eq in Hc. specialize (Hb c (Hord c ltac:(by rewrite Eq))). rewrite Eq in Hb.
    destruct (drain_head _ _ _ _ Hc) as (He & Hid & Hlen & Hns).
    destruct s as [i n0| |w]; [|done|].
    { unfold blocked in Hb. rewrite He in Hb. cbn [resolve] in Hb. by destruct (drain q _) as [[? ?] ?]. }
    destruct (waits_for _ _ _ _ Hc Hb) as (id & Hdep & Hle). cbn [StructID] in Hid.
    destruct (sourced_deps _ _ _ (fe_source _ _ _ Hc _ ltac:(by left)) Hdep) as [->|(w0 & Hin & Hdep0 & Hk)]; rewrite Hid in *; cbn in *; [lia|].
    destruct (R3 _ _ _ Hin Hdep0) as [B1 B2].
    assert (rank c (Clock (it_ID w0)) <= rank c (State t c))%nat as Hw.
    { destruct (decide (Clock (it_ID w0) = State t c)) as [->|]; [done|].
      destruct (contig_elem _ _ _ (ca_contig _ (built_causal _ (sk_built _ Hsk)) c) Hin) as (Q0 & _). cbn in Q0.
      pose proof (R2 c (Clock (it_ID w0)) (State t c) ltac:(lia)) as H2. fold st in H2.
      rewrite skel_slen in H2 by apply Hd. lia. }
    fold st in B1. rewrite skel_slen in B1 by apply Hd. pose proof (Hgoal (Client id)) as Hg. fold st in Hg.
    pose proof (State_range _ (inv_wf _ Hinv) (Client id)) as Hr.
    assert (rank (Client id) (State t (Client id)) <= rank (Client id) (Clock id))%nat as Hrk.
    { destruct (decide (State t (Client id) = Clock id)) as [->|]; [done|].
      pose proof (R2 (Client id) (State t (Client id)) (Clock id) ltac:(lia)) as H2. fold st in H2.
      rewrite skel_slen in H2 by apply Hd. lia. }
    pose proof (IH (rank (Client id) (State t (Client id))) ltac:(lia) (Client id) eq_refl) as Hnil.
    pose proof (fe_goal _ _ _ (Hf (Client id))) as Hq. rewrite Hnil in Hq. cbn in Hq. lia. }
  intros c. by eapply Hno.
Qed.
End Feed.

(** ** The answer to a state vector *)

Lemma State_pos st c l : store_wf st -> clients st !! c = Some l -> 0 < State st c.
Proof.
  intros Hwf Hl. pose proof (wf_ne _ Hwf c) as Hne. rewrite (State_slen st Hwf). pose proof (proj1 (wf_gapless _ Hwf c)) as Hc.
  unfold Store_Structs, refs in *. rewrite Hl in *. destruct l as [|r l]; [done|]. cbn [from_option id map] in *.
  rewrite slen_cons. destruct Hc as (_ & H1 & H2%contig_slen). lia.
Qed.

Lemma SV_Get_State st c : SV_Get (Store_StateVector st) c = State st c.
Proof.
  unfold SV_Get, Store_StateVector. rewrite map_lookup_imap. destruct (clients st !! c) as [l|] eqn:E; [done|].
  unfold State, Store_Structs, refs. by rewrite E.
Qed.

(** The struct a peer's clock lies in can be cut there. *)
Definition meets (t st : Store) : Prop :=
  forall c pre s rest, Store_Structs st c = pre ++ s :: rest -> slen pre <= State t c < slen pre + StructLen s ->
  cuttable (State t c - slen pre) s = true.

Definition cut_head (start : Z) (l : list Struct) : list Struct :=
  match l with
  | s :: rest => cut_struct (start - Clock (StructID s)) s :: rest
  | [] => []
  end.

Definition cut_block (b : ClientBlock) : ClientBlock :=
  MkBlock (CB_Client b) (StartClock b) (cut_head (StartClock b) (Structs b)).

(** What a peer decodes from the update made for the state vector [sv]. *)
Definition answer (sv : gmap Z Z) (d : Doc) : Update :=
  MkUpdate (map cut_block (Clients (diff sv d))) (Deletes (diff sv d)).

Section Answer.
Context (d t : Doc) (Hd : doc_inv d) (Hsk : sk_inv (store d)) (Ht : doc_inv t).
Let st := store d.
Let E := essences st.
Let sv := Doc_StateVector t.
Let goal c := Z.max (State (store t) c) (State st c).

Lemma sv_pos c : 0 <= SV_Get sv c.
Proof. unfold sv, Doc_StateVector. rewrite SV_Get_State. apply State_range, Ht. Qed.

(** What the answer holds of one client. *)
Definition answered (c : Z) : list Struct :=
  match client_block st sv c with Some b => cut_head (StartClock b) (map (wire E) (Structs b)) | None => [] end.

Lemma pick_answer c l : NoDup l ->
  map (cut_block ∘ wire_block E) (omap (client_block st sv) l) ≫= pick c = if decide (c ∈ l) then answered c else [].
Proof.
  induction l as [|c' l IH]; intros Hnd; [done|]. apply NoDup_cons in Hnd as [Hni Hnd]. specialize (IH Hnd).
  assert (omap (client_block st sv) (c' :: l) = option_list (client_block st sv c') ++ omap (client_block st sv) l) as ->.
  { cbn. by destruct (client_block st sv c'). }
  rewrite map_app, bind_app, IH. clear IH.
  assert (map (cut_block ∘ wire_block E) (option_list (client_block st sv c')) ≫= pick c = if decide (c' = c) then answered c else []) as ->.
  { unfold answered. pose proof (client_block_ok st sv c' (inv_wf _ (di_store _ Hd)) (sv_pos c')) as Hb.
    destruct (client_block st sv c') as [b|] eqn:Eb; cbn [option_list map].
    - destruct Hb as (_ & Hcl & _). cbn. rewrite app_nil_r. unfold pick. cbn. rewrite Hcl.
      case_decide as Hcc; [|done]. by rewrite <- Hcc, Eb.
    - case_decide as Hcc; [|done]. by rewrite <- Hcc, Eb. }
  destruct (decide (c' = c)) as [->|Hne].
  - rewrite decide_False by done. rewrite decide_True by by left. apply app_nil_r.
  - cbn [app]. by rewrite (decide_ext (c ∈ c' :: l) (c ∈ l)) by (rewrite elem_of_cons; naive_solver).
Qed.

Lemma answer_queue c : queue_of (queues (Clients (answer sv d))).2 c = answered c.
Proof.
  rewrite queue_of_queues. cbn [Clients answer diff state_update]. fold st E. rewrite map_map. rewrite pick_answer by apply NoDup_keys_desc.
  case_decide as Hc; [done|]. unfold Store_Clients in Hc. rewrite elem_of_keys_desc in Hc.
  unfold answered, client_block, Store_Structs, refs. destruct (clients st !! c); [|done]. by destruct Hc.
Qed.

Context (Hmeets : meets (store t) st).

Lemma shape_wire s : StructID (wire E s) = StructID s /\ StructLen (wire E s) = StructLen s.
Proof. destruct s as [| |it]; [done..|]. cbn. unfold Item_Len. by destruct (wire_item_fields E it) as (-> & -> & _). Qed.

Lemma contig_wire c l : forall k, contig c k l -> contig c k (map (wire E) l) /\ slen (map (wire E) l) = slen l.
Proof.
  induction l as [|s l IH]; intros k Hc; [done|]. destruct Hc as (H1 & H2 & H3). destruct (IH _ H3) as [J1 J2].
  destruct (shape_wire s) as [E1 E2]. cbn [map]. rewrite !slen_cons, J2, E2. split; [|done]. cbn. by rewrite E1, E2.
Qed.

Lemma cuttable_wire off s : cuttable off (wire E s) = cuttable off s.
Proof. destruct s as [| |it]; [done..|]. cbn. by destruct (wire_item_fields E it) as (_ & -> & _). Qed.

(** The block of one client, taken apart. *)
Lemma block_parts c b :
  client_block st sv c = Some b ->
  CB_Client b = c /\ StartClock b = State (store t) c
  /\ exists pre s rest off, Structs b = s :: rest /\ Store_Structs st c = pre ++ s :: rest
     /\ Clock (StructID s) = slen pre /\ off = State (store t) c - slen pre /\ 0 <= off < StructLen s
     /\ cuttable off s = true.
Proof.
  intros Eb. pose proof (client_block_ok st sv c (inv_wf _ (di_store _ Hd)) (sv_pos c)) as Hb. rewrite Eb in Hb.
  pose proof (SV_Get_State (store t) c) as Hsv. change (SV_Get (Store_StateVector (store t)) c) with (SV_Get sv c) in Hsv.
  rewrite Hsv in Hb. destruct Hb as (_ & Hcl & Hst & pre & s & rest & E1 & E2 & E3 & E4). split_and!; [done..|].
  exists pre, s, rest, (State (store t) c - slen pre). split_and!; [done..|lia|lia|]. by eapply Hmeets.
Qed.

Lemma answered_fed c : fed d goal c (answered c) (store t).
Proof.
  pose proof (inv_wf _ (di_store _ Hd)) as Hwf. unfold answered. destruct (client_block st sv c) as [b|] eqn:Eb.
  - destruct (block_parts c b Eb) as (_ & -> & pre & s & rest & off & -> & Es & Hk & Hoff & Ho & Hcut).
    pose proof (proj1 (wf_gapless _ Hwf c)) as Hc. pose proof Hc as Hc'. fold st in Hc'. rewrite Es in Hc'.
    apply contig_app in Hc' as [_ (Hid & Hl & Hc')]. rewrite Z.add_0_l in Hid, Hc'. cbn [map cut_head].
    destruct (shape_wire s) as [W1 W2]. rewrite W1, Hk, <- Hoff.
    destruct (cut_shape off (wire E s)) as [C1 C2]; [by rewrite cuttable_wire|by rewrite W2|]. rewrite W1, Hid in C1. rewrite W2 in C2.
    cbn in C1. replace (slen pre + off) with (State (store t) c) in C1 by lia.
    destruct (contig_wire c rest _ Hc') as [W3 W4]. split.
    + split_and!; [done|lia|]. rewrite C2. by replace (State (store t) c + (StructLen s - off)) with (slen pre + StructLen s) by lia.
    + rewrite slen_cons, C2, W4. unfold goal. rewrite (State_slen st Hwf c), Es, slen_app, slen_cons.
      apply contig_slen in Hc'. lia.
    + intros x Hx. fold st E. apply elem_of_cons in Hx as [->|Hx].
      * split; [|by rewrite W2|by rewrite cuttable_wire]. fold st E. rewrite Es, map_app. apply elem_of_app. right. by left.
      * assert (x ∈ map (wire E) (Store_Structs st c)) as Hx' by (rewrite Es, map_app; apply elem_of_app; right; by right).
        change x with (cut_struct 0 x). split; [done| |by destruct x as [| |[? ? ? ? ? ? []]]].
        change (map ?f ?l) with (f <$> l) in Hx. apply list_elem_of_fmap in Hx as (y & -> & Hy). destruct (shape_wire y) as [_ ->].
        destruct (contig_elem c (Store_Structs st c) y Hc) as (_ & _ & ? & _); [|lia]. rewrite Es. apply elem_of_app. right. by right.
    + constructor.
      * apply cut_fits; [by rewrite cuttable_wire|by rewrite W2|]. eapply (wire_fits d Hd Hsk c). fold st. rewrite Es. apply elem_of_app. right. by left.
      * apply Forall_map, Forall_forall. intros x Hx. eapply (wire_fits d Hd Hsk c). fold st. rewrite Es. apply elem_of_app. right. by right.
  - pose proof (client_block_ok st sv c Hwf (sv_pos c)) as Hb. rewrite Eb in Hb.
    unfold sv, Doc_StateVector in Hb. rewrite SV_Get_State in Hb.
    split; [done| |by intros s ?%elem_of_nil|done]. unfold goal. cbn. lia.
Qed.

Lemma answer_fits : update_fits (answer sv d).
Proof.
  unfold update_fits, blocks_fit. cbn. fold st E. rewrite map_map. apply Forall_map, Forall_forall. intros b Hb. cbn.
  apply list_elem_of_omap in Hb as (c & _ & Hb). pose proof (fe_fits _ _ _ _ _ (answered_fed c)) as Hf.
  unfold answered in Hf. by rewrite Hb in Hf.
Qed.

(** Integrating the answer brings every clock up and leaves nothing pending. *)
Lemma answer_integrates :
  let d1 := integrate (answer sv d) t in
  grows (store t) (store d1) /\ doc_inv d1 /\ pending d1 = pending t /\ pendingDeletes d1 = pendingDeletes t
  /\ forall c, State (store d1) c = Z.max (State (store t) c) (State st c).
Proof.
  pose proof answer_fits as Hfit. cbn zeta.
  destruct (integrate_ok (answer sv d) t (di_store _ Ht) Hfit) as [I1 I2 I3 _].
  pose proof answer_queue as Hq. unfold integrate in *.
  destruct (queues (Clients (answer sv d))) as [order qs] eqn:Eq. cbn [snd] in Hq.
  destruct (queues_ok _ _ _ Eq Hfit) as (Hnd & Hdom & Hqf & Htot).
  destruct (rounds _ order qs (store t)) as [qs' st'] eqn:Er.
  assert (feeding d goal qs (store t)) as Hf.
  { split; [apply Ht|]. intros c. rewrite Hq. apply answered_fed. }
  pose proof (feeding_rounds d Hd Hsk goal _ _ _ _ _ _ Hf Er) as Hf'.
  apply rounds_ok in Er as (_ & _ & R3 & R4 & _); [|done|apply Ht|done|lia].
  assert (Hnil : forall c, queue_of qs' c = []).
  { eapply (feeding_done d Hd Hsk goal ltac:(unfold goal, st; lia) order); [done| |done]. intros c Hc. apply Hdom. unfold queue_of in R3.
    destruct (qs !! c) as [q|] eqn:Ec; [eauto|]. destruct (R3 c) as [k Hk]. rewrite Ec in Hk. cbn in Hk.
    symmetry in Hk. apply app_nil in Hk as [_ Hk]. done. }
  assert (leftover order qs' = []) as Hl.
  { unfold leftover. clear - Hnil. induction order as [|c order IH]; [done|]. cbn. by rewrite Hnil. }
  rewrite Hl in I1, I2, I3 |- *. split_and!; [done|by split; [|apply Ht|apply Ht]|done..|].
  intros c. cbn. pose proof (fe_goal _ _ _ _ _ (proj2 Hf' c)) as Hg. rewrite Hnil in Hg. cbn in Hg. unfold goal in Hg. lia.
Qed.

(** So does applying it; held-back updates may bring in more. *)
Record caught_up (t' : Doc) : Prop := {
  cu_inv : doc_inv t';
  cu_state : forall c, Z.max (State (store t) c) (State st c) <= State (store t') c;
  cu_kept : grows (store t) (store t');
  cu_deleted : ds_split (store (integrate (answer sv d) t)) (deleteSetForUpdate d) ->
    forall c k, dead_at st c k -> dead_at (store t') c k;
  cu_level : pending t = [] -> pending t' = [] /\ forall c, State (store t') c = Z.max (State (store t) c) (State st c);
}.

Lemma answer_catches_up : caught_up (ApplyDecodedUpdate (answer sv d) t).
Proof.
  destruct answer_integrates as (J0 & J1 & J2 & J3 & J4). unfold ApplyDecodedUpdate.
  set (d1 := integrate (answer sv d) t) in *. cbn [Deletes answer diff state_update].
  destruct (deleteSetForUpdate_ok d Hd) as [Hn Hcov]. pose proof (ds_normal_fits _ Hn) as Hf.
  destruct (applyDeleteSet_ok (deleteSetForUpdate d) d1 J1 Hf) as [[D1 D2 D3 D4 _ _] Dx].
  set (d2 := applyDeleteSet (Some (deleteSetForUpdate d)) d1) in *.
  destruct (retryPending_ok d2 D1) as (R1 & R2 & _). split.
  - done.
  - intros c. rewrite <- J4, <- D3. apply (gr_state _ _ R2).
  - by do 2 (etrans; [eassumption|]).
  - intros Hs c k Hk. apply (gr_dead _ _ R2), (Dx Hs). right. split; [apply Hcov; by left|].
    apply dead_at_State in Hk; [|apply Hd]. rewrite J4. lia.
  - intros Hp. assert (pending d2 = []) as Hn2 by congruence. unfold retryPending in *. rewrite Hn2.
    cbn [pending_structs sum_list_with].
    assert (retry_loop 1 d2 = d2) as -> by (cbn [retry_loop]; by rewrite Hn2).
    destruct (IsEmpty (pendingDeletes d2)); [split; [done|intros c; by rewrite D3]|].
    set (d3 := set_pendingDeletes NewDeleteSet d2).
    assert (doc_inv d3) as Hd3 by (destruct D1; split; done).
    destruct (applyDeleteSet_ok (pendingDeletes d2) d3 Hd3 (ds_normal_fits _ (di_deletes _ D1))) as [[_ _ E3 E4 _ _] _].
    split; [by transitivity (pending d3)|intros c; rewrite E3; cbn; by rewrite D3].
Qed.

(** ** The answer on the wire *)

Lemma writeBlock_cut c b e :
  client_block st sv c = Some b ->
  writeBlock no_parent (wire_block E b) e = writeBlock no_parent (cut_block (wire_block E b)) e.
Proof.
  intros Eb. destruct (block_parts c b Eb) as (_ & Hst & pre & s & rest & off & Es & Ess & Hk & Hoff & Ho & Hcut).
  unfold writeBlock, cut_block, wire_block. cbn [Structs StartClock CB_Client]. rewrite Hst, Es. cbn [map cut_head length].
  destruct (shape_wire s) as [W1 W2]. rewrite W1, Hk, <- Hoff.
  assert (Hc : cuttable off (wire E s) = true) by (by rewrite cuttable_wire).
  destruct (cut_shape off (wire E s) Hc) as [C1 _]; [by rewrite W2|]. rewrite C1, W1, Hk. cbn [Clock].
  assert (struct_fits (wire E s)) as Hf.
  { eapply (wire_fits d Hd Hsk c). fold st. rewrite Ess. apply elem_of_app. right. by left. }
  pose proof Hf as (_ & F2 & F3 & F4). rewrite W1, W2, Hk in F4. rewrite W1, Hk in F2. rewrite W2 in F3.
  replace (State (store t) c - (slen pre + off)) with 0 by lia. change (s64 (u64 0)) with 0.
  rewrite u64_small, s64_small by (unfold two63, two64 in *; lia).
  by rewrite (Struct_write_cut _ off (wire E s)) by (done || by rewrite W2).
Qed.

Lemma write_blocks_cut (l : list Z) : forall e,
  write_list (writeBlock no_parent) (map (wire_block E) (omap (client_block st sv) l)) e
  = write_list (writeBlock no_parent) (map (fun b => cut_block (wire_block E b)) (omap (client_block st sv) l)) e.
Proof.
  unfold write_list. induction l as [|c l IH]; intros e; [done|]. cbn.
  destruct (client_block st sv c) as [b|] eqn:Eb; [|apply IH]. cbn. rewrite (writeBlock_cut c b e Eb). apply IH.
Qed.

Lemma descending_cut l : isDescendingByClient (map cut_block l) = isDescendingByClient l.
Proof. induction l as [|a [|b l] IH]; [done..|]. cbn in *. by rewrite IH. Qed.

Lemma Encode_answer :
  isDescendingByClient (Clients (answer sv d)) = true -> EncodeStateAsUpdate sv d = Encode no_parent (answer sv d).
Proof.
  intros Hdesc. pose proof Hdesc as Hdd. cbn [Clients answer] in Hdd. rewrite descending_cut in Hdd.
  rewrite Encode_diff by (done || apply sv_pos). unfold Encode, Update_write. rewrite Hdesc, Hdd.
  cbn [answer Clients Deletes diff]. fold st E. rewrite !length_map, map_map.
  cbn [Clients state_update]. fold st. by rewrite write_blocks_cut.
Qed.
End Answer.

Lemma StateVector_ext a b :
  store_wf a -> store_wf b -> (forall c, State a c = State b c) -> Store_StateVector a = Store_StateVector b.
Proof.
  intros Ha Hb Hs. apply map_eq. intros c. pose proof (SV_Get_State a c) as Ga. pose proof (SV_Get_State b c) as Gb.
  rewrite (Hs c) in Ga. unfold SV_Get, Store_StateVector in *. rewrite !map_lookup_imap in *.
  destruct (clients a !! c) as [la|] eqn:Ea, (clients b !! c) as [lb|] eqn:Eb; cbn in *; [by rewrite Hs|exfalso..|done].
  - assert (0 < State a c) by (by eapply State_pos). rewrite Hs in *. lia.
  - assert (0 < State b c) by (by eapply State_pos). lia.
Qed.

(** ** The exchange

    [t] sends its state vector, [d] answers with the difference, [t] applies it. *)
Definition exchange (t d : Doc) : res Doc :=
  sv ← Doc_EncodeStateVector t; b ← EncodeDiff sv d; ApplyUpdate b t.

(** What both messages need to be encodable, and the clocks of [t] to be places where the
    structs of [d] can be cut. *)
Record can_answer (t d : Doc) : Prop := {
  an_meets : meets (store t) (store d);
  an_vector : sv_ok (Doc_StateVector t);
  an_update : update_ok (answer (Doc_StateVector t) d);
}.

Lemma exchange_ok t d :
  reachable t -> reachable d -> can_answer t d -> exists t', exchange t d = Ok t' /\ caught_up d t t'.
Proof.
  intros Ht Hd [Hm Hsv Hup]. pose proof (reachable_doc_inv _ Ht) as It. pose proof (reachable_doc_inv _ Hd) as Id.
  pose proof (reachable_sk _ Hd) as Hsk. destruct (DecodeStateVector_EncodeStateVector _ Hsv) as (svb & S1 & S2).
  destruct (DecodeUpdate_Encode_ok _ Hup) as (b & U1 & U2).
  exists (ApplyDecodedUpdate (answer (Doc_StateVector t) d) t). split; [|by apply answer_catches_up].
  unfold exchange, Doc_EncodeStateVector, EncodeDiff. unfold Doc_StateVector in S1, S2. rewrite S1. cbn [mbind res_bind].
  rewrite S2. cbn [mbind res_bind]. fold (Doc_StateVector t). rewrite (Encode_answer d t Id Hsk It Hm) by apply Hup.
  rewrite U1. cbn [mbind res_bind]. unfold ApplyUpdate. by rewrite U2.
Qed.

(** C3. Two replicas that exchange state vectors and answers catch up with each other.
    Whatever updates each was built from, when the messages can be encoded and no clock
    falls inside a surrogate pair of the other's text, both halves of the exchange
    succeed; afterwards each has everything the other had, keeps what it had and, where
    the ranges can be split off, deletes what the other deleted.  If neither was waiting
    for anything, neither is waiting afterwards and their state vectors are equal. *)
Theorem replicas_converge a b :
  reachable a -> reachable b -> can_answer a b -> can_answer b a ->
  exists a' b', exchange a b = Ok a' /\ exchange b a = Ok b' /\ caught_up b a a' /\ caught_up a b b'
    /\ (pending a = [] -> pending b = [] ->
         pending a' = [] /\ pending b' = [] /\ Doc_StateVector a' = Doc_StateVector b').
Proof.
  intros Ha Hb Hab Hba. destruct (exchange_ok a b Ha Hb Hab) as (a' & E1 & C1).
  destruct (exchange_ok b a Hb Ha Hba) as (b' & E2 & C2). exists a', b'. split_and!; [done..|].
  intros Pa Pb. destruct (cu_level _ _ _ C1 Pa) as [L1 S1]. destruct (cu_level _ _ _ C2 Pb) as [L2 S2].
  split_and!; [done..|]. apply StateVector_ext; [apply (cu_inv _ _ _ C1)|apply (cu_inv _ _ _ C2)|].
  intros c. rewrite S1, S2. lia.
Qed.
End CatchUp.
