(* ===== verification/Yata.v ===== *)
(** * Concurrent inserts converge

    [resolveConflict] and the relinking of [integrateItem] on the case they exist
    for: items of different clients inserted at the same place, that is with the
    same origin and the same right origin.  Whatever order they are integrated
    in, they end up between their neighbours in increasing order of client id. *)

From S2P Require Import Prelude Lib0 Any Content StateVector DeleteSet Struct Update StructStore Doc Links Invariant Integrate.

(** ** Segments of a chain *)

(** Following [right] from [o] visits [ls] and then reaches [e]. *)
Fixpoint seg (L : Chains) (o : option loc) (ls : list loc) (e : option loc) : Prop :=
  match ls with
  | [] => o = e
  | l :: ls => o = Some l /\ exists a b, L !! l = Some (a, b) /\ seg L b ls e
  end.

Lemma seg_app L a b e : forall o,
  seg L o (a ++ b) e <-> exists m, seg L o a m /\ seg L m b e.
Proof.
  induction a as [|l a IH]; intros o; cbn.
  - split; [intros H; exists o; done|]. by intros (m & -> & H).
  - split.
    + intros [-> (x & y & Hl & (m & H1 & H2)%IH)]. eauto 10.
    + intros (m & [-> (x & y & Hl & H1)] & H2). split; [done|]. exists x, y. split; [done|].
      apply IH. eauto.
Qed.

Section SegInsert.
Context (n : loc) (lft rgt : option loc) (L : Chains).
Context (Hn : L !! n = None) (Hl : lft <> Some n) (Hr : rgt <> Some n).
Let L' := insert_link n lft rgt L.

Lemma insert_link_new : L' !! n = Some (lft, rgt).
Proof.
  unfold L', insert_link. destruct rgt as [r|].
  - rewrite lookup_alter_ne by congruence. by rewrite lookup_insert_eq.
  - by rewrite lookup_insert_eq.
Qed.

Lemma insert_link_right k a b :
  L !! k = Some (a, b) -> exists a', L' !! k = Some (a', if decide (lft = Some k) then Some n else b).
Proof.
  intros Hk. assert (k <> n) by congruence.
  assert (Hx : exists x, (<[n:=(lft, rgt)]> match lft with Some l => alter (to_right n) l L | None => L end) !! k
    = Some (x, if decide (lft = Some k) then Some n else b)).
  { rewrite lookup_insert_ne by done. destruct lft as [l|].
    - rewrite lookup_alter. destruct (decide (l = k)) as [->|Hne].
      + rewrite decide_True by done. rewrite Hk. cbn. eauto.
      + rewrite decide_False by congruence. eauto.
    - rewrite decide_False by done. eauto. }
  destruct Hx as [x Hx]. unfold L', insert_link. destruct rgt as [r|]; [|eauto].
  rewrite lookup_alter. destruct (decide (r = k)) as [->|]; [|eauto]. rewrite Hx. cbn. eauto.
Qed.

Lemma insert_link_left k a b :
  L !! k = Some (a, b) -> exists b', L' !! k = Some (if decide (rgt = Some k) then Some n else a, b').
Proof.
  intros Hk. assert (k <> n) by congruence.
  assert (Hx : exists y, (<[n:=(lft, rgt)]> match lft with Some l => alter (to_right n) l L | None => L end) !! k
    = Some (a, y)).
  { rewrite lookup_insert_ne by done. destruct lft as [l|]; [|eauto].
    rewrite lookup_alter. destruct (decide (l = k)) as [->|Hne]; [rewrite Hk; cbn|]; eauto. }
  destruct Hx as [y Hx]. unfold L', insert_link. destruct rgt as [r|]; [|rewrite decide_False by done; eauto].
  rewrite lookup_alter. destruct (decide (r = k)) as [->|].
  - rewrite Hx, decide_True by done. cbn. eauto.
  - rewrite decide_False by congruence. eauto.
Qed.

(** A segment the insertion point is not on is unchanged. *)
Lemma seg_other ls e : forall o,
  seg L o ls e -> (forall l, l ∈ ls -> lft <> Some l) -> seg L' o ls e.
Proof.
  induction ls as [|l ls IH]; intros o Hs Hne; [done|]. destruct Hs as [-> (a & b & Hk & Hs)].
  split; [done|]. destruct (insert_link_right _ _ _ Hk) as [a' Ha'].
  rewrite decide_False in Ha'; [|apply Hne; set_solver].
  exists a', b. split; [done|]. apply IH; [done|]. intros. apply Hne. set_solver.
Qed.

(** A segment that ends with the insertion point now leads to [n]. *)
Lemma seg_to ls x m : forall o,
  lft = Some x -> seg L o (ls ++ [x]) m -> NoDup (ls ++ [x]) -> seg L' o (ls ++ [x]) (Some n).
Proof.
  induction ls as [|l ls IH]; intros o He Hs Hnd.
  - destruct Hs as [-> (a & b & Hk & _)]. split; [done|].
    destruct (insert_link_right _ _ _ Hk) as [a' Ha']. rewrite decide_True in Ha' by done.
    by exists a', (Some n).
  - destruct Hs as [-> (a & b & Hk & Hs)]. cbn in Hnd. apply NoDup_cons in Hnd as [Hni Hnd].
    split; [done|]. destruct (insert_link_right _ _ _ Hk) as [a' Ha'].
    rewrite decide_False in Ha'; [|intros [= ->]; set_solver].
    exists a', b. split; [done|]. by apply IH.
Qed.

Lemma seg_from b e : seg L rgt b e -> (forall l, l ∈ b -> lft <> Some l) -> seg L' (Some n) (n :: b) e.
Proof. intros Hs Hne. split; [done|]. exists lft, rgt. split; [apply insert_link_new|by apply seg_other]. Qed.
End SegInsert.

(** What an item says: its id and content, and where it was inserted, which is
    what conflict resolution compares. *)
Definition orig (it : Item) : ID * Content * option ID * option ID :=
  (it_ID it, it_Content it, Origin it, RightOrigin it).
Definition origs (st : Store) : gmap loc (ID * Content * option ID * option ID) := orig <$> heap st.

Definition client_of (x : ID * Content) : Z := Client x.1.

Section Siblings.
(** The common origin and right origin. *)
Context (og ro : option ID).

(** [l] is an item with id and content [x] inserted at the common place. *)
Definition sibling (st : Store) (l : loc) (x : ID * Content) : Prop :=
  origs st !! l = Some (x.1, x.2, og, ro).

(** The siblings present, in chain order. *)
Definition siblings (st : Store) (ls : list loc) (xs : list (ID * Content)) : Prop :=
  Forall2 (sibling st) ls xs.

Lemma sibling_item st l x :
  sibling st l x -> exists it, heap st !! l = Some it /\ Client (it_ID it) = client_of x
    /\ Origin it = og /\ RightOrigin it = ro.
Proof.
  unfold sibling, origs, client_of. intros H. rewrite lookup_fmap in H.
  destruct (heap st !! l) as [it|]; [|done]. injection H as <- _ <- <-. eauto.
Qed.

Lemma chains_heap st l it a b :
  heap st !! l = Some it -> chains st !! l = Some (a, b) -> left it = a /\ right it = b.
Proof. intros H. rewrite (chains_lookup _ _ _ H). by intros [= <- <-]. Qed.

(** The scan stops after the last sibling of a smaller client. *)
Lemma conflict_siblings st it ls2 xs2 ls1 : forall xs1 fuel lft o cf bf,
  Origin it = og -> RightOrigin it = ro ->
  seg (chains st) o (ls1 ++ ls2) (right it) ->
  (forall l, l ∈ ls1 ++ ls2 -> right it <> Some l) ->
  siblings st ls1 xs1 -> siblings st ls2 xs2 ->
  Forall (fun x => client_of x < Client (it_ID it)) xs1 ->
  Forall (fun x => Client (it_ID it) < client_of x) xs2 ->
  (length ls1 + length ls2 <= fuel)%nat ->
  conflict_loop fuel st it lft o cf bf
  = match last ls1 with Some l => Some l | None => lft end.
Proof.
  induction ls1 as [|l ls1 IH]; intros xs1 fuel lft o cf bf Ho Hr Hseg Hne H1 H2 Hc1 Hc2 Hf.
  - destruct ls2 as [|l ls2]; cbn [app seg last] in *.
    { subst o. destruct fuel as [|fuel]; cbn; [done|].
      destruct (right it); [|done]. by rewrite bool_decide_eq_true_2. }
    destruct Hseg as [-> (a & b & Hl & _)]. destruct fuel as [|fuel]; [cbn in Hf; lia|]. cbn.
    rewrite bool_decide_eq_false_2 by (intros He; apply (Hne l); [by left|done]).
    apply Forall2_cons_inv_l in H2 as (c & xs2' & Hs & _ & ->).
    apply sibling_item in Hs as (oi & -> & Hcl & Hoi & Hri).
    apply Forall_cons in Hc2 as [Hlt _]. unfold sameID.
    rewrite bool_decide_eq_true_2 by congruence.
    rewrite (proj2 (Z.ltb_ge _ _)) by lia. by rewrite bool_decide_eq_true_2 by congruence.
  - destruct Hseg as [-> (a & b & Hl & Hseg)]. destruct fuel as [|fuel]; [cbn in Hf; lia|].
    cbn [conflict_loop].
    rewrite bool_decide_eq_false_2 by (intros He; apply (Hne l); [by left|done]).
    apply Forall2_cons_inv_l in H1 as (c & xs1' & Hs & Hss & ->).
    apply sibling_item in Hs as (oi & Hoi & Hcl & Hoo & _). rewrite Hoi.
    apply Forall_cons in Hc1 as [Hlt Hc1]. unfold sameID.
    rewrite bool_decide_eq_true_2 by congruence. rewrite (proj2 (Z.ltb_lt _ _)) by lia.
    destruct (chains_heap _ _ _ _ _ Hoi Hl) as [_ ->].
    rewrite (IH xs1') by (done || (intros; apply Hne; set_solver) || (cbn in Hf; lia)).
    rewrite last_cons. by destruct (last ls1).
Qed.
End Siblings.

(** ** Placing an item, seen from the chains *)

(** What follows [lft] under the parent [p]. *)
Definition succ (st : Store) (lft : option loc) (p : TypePtr) : option loc :=
  match lft with Some l => right_of st l | None => type_start st p end.

Lemma origs_alter_same f l (h : gmap loc Item) :
  (forall it, orig (f it) = orig it) -> orig <$> alter f l h = orig <$> h.
Proof.
  intros Hf. apply map_eq. intros k. rewrite !lookup_fmap, lookup_alter.
  case_decide; [subst|done]. destruct (h !! k); cbn; [by rewrite Hf|done].
Qed.

Lemma origs_deleteItem l st : origs (deleteItem l st) = origs st.
Proof.
  destruct (deleteItem_cases l st) as [->| ->]; [done|]. by apply origs_alter_same.
Qed.

Lemma origs_settle it p n st : origs (settle it p n st) = origs st.
Proof.
  unfold settle. case_if; [rewrite origs_deleteItem|];
    (destruct (it_Content it); [by apply origs_alter_same|done..]).
Qed.

Lemma type_start_settle it p n st q :
  q <> TNested n -> type_start (settle it p n st) q = type_start st q.
Proof.
  intros Hq. unfold settle, type_start. set (s := match it_Content it with ContentDeleted _ => _ | _ => _ end).
  assert (types s !! q = types st !! q) as Hs.
  { unfold s. destruct (it_Content it); try done. cbn. by rewrite lookup_insert_ne. }
  case_if; [|by rewrite Hs]. destruct (deleteItem_frame n s) as (_ & _ & -> & _). by rewrite Hs.
Qed.

(** Placing a sequence item whose position [lft] is decided. *)
Lemma place_effect st it p :
  store_inv st -> ready st it -> parent it = Some p -> HasParentSub it = false ->
  let lft := if in_conflict st it then resolveConflict st it p else left it in
  let n := next st in
  chains (place it st) = insert_link n lft (succ st lft p) (chains st)
  /\ origs (place it st) = <[n := orig it]> (origs st)
  /\ type_start (place it st) p = match lft with None => Some n | _ => type_start st p end.
Proof.
  intros Hinv Hrd Hp Hsub lft n. unfold place. rewrite Hp.
  set (it1 := if in_conflict st it then _ else it).
  assert (H1 : left it1 = lft /\ HasParentSub it1 = false /\ orig it1 = orig it
            /\ ready st it1).
  { unfold it1, lft. destruct (in_conflict st it); [|done]. split_and!; try done.
    destruct Hrd as [R1 R2 R3]. split; [|done..]. cbn. intros l Hl.
    apply conflict_loop_dom in Hl as [Hl|Hl]; auto. }
  destruct H1 as (Hl1 & Hs1 & Ho1 & Hrd1). clearbody it1 lft. cbn zeta. fold n.
  destruct (link_left it1 p n st) as [r st1] eqn:El.
  destruct (link_right_frame st it1 p r st1 Hinv El) as (_ & _ & _ & _ & _ & _ & Hch).
  assert (Hpn : is_Some (types st !! p) -> p <> TNested n).
  { intros [t Ht] ->. destruct (inv_types _ Hinv _ _ Ht) as (_ & _ & _ & Hn).
    destruct (Hn n eq_refl) as [x Hx]. pose proof (n_fresh st Hinv) as Hf. unfold n in Hx. congruence. }
  specialize (Hpn (rd_parent _ _ Hrd p Hp)).
  unfold link_left in El. rewrite Hl1, Hs1 in El.
  assert (Hr : r = succ st lft p /\ heap st1 = match lft with
      Some l => alter (set_right (Some n)) l (heap st) | None => heap st end /\ next st1 = n
    /\ types st1 = match lft with Some _ => types st | None => alter (set_start (Some n)) p (types st) end).
  { destruct lft; by simplify_eq. }
  destruct Hr as (-> & Hh & Hn1 & Ht1). split_and!.
  - rewrite chains_settle, chains_append_. rewrite Hl1 in Hch. exact Hch.
  - rewrite origs_settle. unfold origs. rewrite heap_append_. unfold link_right.
    cbn [right set_right HasParentSub]. rewrite Hs1.
    assert (Ha : orig <$> heap (alloc (set_right (succ st lft p) it1) st1)
              = <[n := orig it]> (orig <$> heap st)).
    { cbn. rewrite fmap_insert, Hn1, Hh. f_equal; [exact Ho1|].
      destruct lft; [by apply origs_alter_same|done]. }
    destruct (succ st lft p); [|done]. cbn. by rewrite origs_alter_same.
  - rewrite type_start_settle by done.
    assert (Ht : types (append_ (RItem n) (link_right (set_right (succ st lft p) it1) p n
              (alloc (set_right (succ st lft p) it1) st1))) = types st1).
    { unfold append_, Append. case_if; cbn; unfold link_right; cbn [right set_right HasParentSub];
        rewrite Hs1; by destruct (succ st lft p). }
    unfold type_start. rewrite Ht, Ht1. destruct lft; [done|].
    destruct (rd_parent _ _ Hrd p Hp) as [t Htp]. by rewrite lookup_alter_eq, Htp.
Qed.

(** ** A place where several clients insert *)

Lemma NoDup_size {A} (m : gmap loc A) (ls : list loc) :
  NoDup ls -> (forall l, l ∈ ls -> is_Some (m !! l)) -> (length ls <= size m)%nat.
Proof.
  intros Hn Hd. rewrite <- (size_list_to_set (C := gset loc) ls Hn), <- size_dom.
  apply subseteq_size. intros l. rewrite elem_of_list_to_set, elem_of_dom. auto.
Qed.

Lemma sorted_insert {A} (R : A -> A -> Prop) a x b :
  StronglySorted R (a ++ b) -> Forall (fun y => R y x) a -> Forall (R x) b ->
  StronglySorted R (a ++ x :: b).
Proof.
  induction a as [|y a IH]; intros Hs Ha Hb; cbn in *; [by constructor|].
  apply StronglySorted_inv in Hs as [Hs Hy]. apply Forall_cons in Ha as [Hyx Ha].
  constructor; [by apply IH|]. apply Forall_app in Hy as [? ?].
  apply Forall_app. split; [done|by constructor].
Qed.

Section Spot.
(** The origins the items name, their neighbours and their parent. *)
Context (og ro : option ID) (lft rgt : option loc) (p : TypePtr).

(** Between [lft] and [rgt] lie exactly the siblings [ls], in increasing order
    of client id. *)
Record spot (st : Store) (ls : list loc) (xs : list (ID * Content)) : Prop := {
  sp_inv : store_inv st;
  sp_left : forall l, lft = Some l -> is_Some (heap st !! l);
  sp_right : forall r, rgt = Some r -> is_Some (heap st !! r);
  sp_type : is_Some (types st !! p);
  sp_seg : seg (chains st) (succ st lft p) ls rgt;
  sp_sib : siblings og ro st ls xs;
  sp_sorted : StronglySorted (fun x y => client_of x < client_of y) xs;
  sp_nodup : NoDup ls;
  sp_out : forall l, l ∈ ls -> lft <> Some l /\ rgt <> Some l;
  sp_back : ls <> [] -> lft = None -> forall r, rgt = Some r -> left_of st r <> None;
}.

(** An item to be inserted there, ready to be integrated. *)
Record joins (st : Store) (it : Item) : Prop := {
  jo_left : left it = lft;
  jo_right : right it = rgt;
  jo_parent : parent it = Some p;
  jo_seq : HasParentSub it = false;
  jo_origin : Origin it = og;
  jo_ro : RightOrigin it = ro;
  jo_clock : Clock (it_ID it) = State st (Client (it_ID it));
  jo_len : 0 < Item_Len it;
  jo_end : Clock (it_ID it) + Item_Len it < two63;
}.

Lemma siblings_heap st ls xs l : siblings og ro st ls xs -> l ∈ ls -> is_Some (heap st !! l).
Proof.
  intros Hs Hl. apply list_elem_of_lookup in Hl as [i Hi].
  destruct (Forall2_lookup_l _ _ _ _ _ Hs Hi) as (x & _ & Hx).
  apply sibling_item in Hx as (it & H & _). eauto.
Qed.

Lemma right_of_chains st l : right_of st l = chains st !! l ≫= snd.
Proof. unfold right_of, chains. rewrite lookup_fmap. by destruct (heap st !! l). Qed.

Lemma left_of_chains st l : left_of st l = chains st !! l ≫= fst.
Proof. unfold left_of, chains. rewrite lookup_fmap. by destruct (heap st !! l). Qed.

(** The position conflict resolution chooses. *)
Lemma spot_position st ls1 ls2 xs1 xs2 it :
  spot st (ls1 ++ ls2) (xs1 ++ xs2) -> joins st it ->
  siblings og ro st ls1 xs1 -> siblings og ro st ls2 xs2 ->
  Forall (fun x => client_of x < Client (it_ID it)) xs1 ->
  Forall (fun x => Client (it_ID it) < client_of x) xs2 ->
  (if in_conflict st it then resolveConflict st it p else left it)
  = match last ls1 with Some l => Some l | None => lft end.
Proof.
  intros [S1 S2 S3 S4 S5 S6 S7 S8 S9 S10] [J1 J2 J3 J4 J5 J6 J7 J8 J9] H1 H2 Hc1 Hc2.
  destruct (in_conflict st it) eqn:Ec.
  - unfold resolveConflict. rewrite J4.
    replace (match left it with Some l => right_of st l | None => type_start st p end)
      with (succ st lft p) by (by rewrite J1).
    rewrite (conflict_siblings og ro st it ls2 xs2 ls1 xs1); try done.
    + by rewrite J1.
    + by rewrite J2.
    + rewrite J2. intros l Hl. by apply S9.
    + rewrite <- length_app. apply NoDup_size; [done|]. intros l. by eapply siblings_heap.
  - rewrite J1. destruct (decide (ls1 ++ ls2 = [])) as [E|E]; [by apply app_nil in E as [-> ->]|].
    exfalso. unfold in_conflict in Ec. rewrite J1, J2 in Ec. destruct lft as [l|].
    + apply bool_decide_eq_false in Ec. apply dec_stable in Ec.
      destruct (ls1 ++ ls2) as [|x ls]; [done|]. destruct S5 as [Hx _]. cbn in Hx.
      rewrite Ec in Hx. by destruct (S9 x ltac:(by left)) as [_ ?].
    + destruct rgt as [r|]; [|done]. apply bool_decide_eq_false in Ec.
      apply Ec. by apply S10.
Qed.

(** The chain after the insertion. *)
Lemma spot_seg st st' ls1 ls2 xs n :
  spot st (ls1 ++ ls2) xs -> heap st !! n = None ->
  let at_ := match last ls1 with Some l => Some l | None => lft end in
  chains st' = insert_link n at_ (succ st at_ p) (chains st) ->
  type_start st' p = match at_ with None => Some n | _ => type_start st p end ->
  seg (chains st') (succ st' lft p) (ls1 ++ n :: ls2) rgt
  /\ (lft = None -> forall r, rgt = Some r -> left_of st' r <> None).
Proof.
  intros [S1 S2 S3 S4 S5 S6 S7 S8 S9 S10] Hn at_ Hch Hts.
  assert (Hfresh : chains st !! n = None) by (unfold chains; by rewrite lookup_fmap, Hn).
  assert (Hneq : forall o, (forall l, o = Some l -> is_Some (heap st !! l)) -> o <> Some n).
  { intros o Ho ->. destruct (Ho n eq_refl). congruence. }
  assert (Hat : at_ <> Some n).
  { apply Hneq. intros l Hl. subst at_. destruct (last ls1) as [x|] eqn:El; [|by apply S2].
    injection Hl as <-. apply last_Some_elem_of in El. eapply siblings_heap; [done|set_solver]. }
  assert (Hsucc : succ st at_ p <> Some n).
  { apply Hneq. intros l Hl. destruct at_; cbn in Hl; [by eapply right_of_dom; [apply S1|]|].
    by eapply type_start_dom. }
  pose proof (insert_link_right n at_ (succ st at_ p) (chains st) Hfresh Hat Hsucc) as Hright.
  pose proof (insert_link_left n at_ (succ st at_ p) (chains st) Hfresh Hat Hsucc) as Hleft.
  rewrite <- Hch in Hright, Hleft. split.
  - apply seg_app in S5 as (m & G1 & G2). rewrite Hch. apply seg_app. exists (Some n).
    destruct (decide (ls1 = [])) as [->|Hne].
    + cbn in G1. subst m at_. cbn [last] in *. split.
      * cbn. destruct lft as [l|]; [|by cbn; rewrite Hts].
        cbn. rewrite right_of_chains. destruct (S2 l eq_refl) as [x Hx].
        destruct (Hright _ _ _ (chains_lookup _ _ _ Hx)) as [a' ->].
        cbn. by rewrite decide_True.
      * apply seg_from; [done..|]. intros l Hl. by apply S9.
    + destruct (exists_last Hne) as (a & x & ->). subst at_. rewrite last_snoc in *.
      assert (Hx : succ st (Some x) p = m).
      { cbn. rewrite right_of_chains. apply seg_app in G1 as (m' & _ & [_ (u & v & -> & <-)]). done. }
      assert (Hsame : succ st' lft p = succ st lft p).
      { destruct lft as [l|]; cbn; [|done]. rewrite !right_of_chains.
        destruct (S2 l eq_refl) as [y Hy]. destruct (Hright _ _ _ (chains_lookup _ _ _ Hy)) as [a' ->].
        rewrite (chains_lookup _ _ _ Hy). cbn. rewrite decide_False; [done|].
        intros [= ->]. by destruct (S9 l ltac:(set_solver)) as [? _]. }
      apply NoDup_app in S8 as (N1 & N2 & N3). rewrite Hsame. split.
      * by eapply seg_to.
      * apply seg_from; [done..|by rewrite Hx|]. intros l Hl [= ->]. apply (N2 l); set_solver.
  - intros Hl r Hr. rewrite left_of_chains. destruct (S3 r Hr) as [y Hy].
    destruct (Hleft _ _ _ (chains_lookup _ _ _ Hy)) as [b' ->]. cbn. case_decide; [done|].
    destruct (decide (ls1 ++ ls2 = [])) as [E|E].
    + apply app_nil in E as [-> ->]. subst at_. cbn in *. congruence.
    + pose proof (S10 E Hl r Hr) as Hb. unfold left_of in Hb. by rewrite Hy in Hb.
Qed.

Lemma spot_step st ls xs1 xs2 it :
  spot st ls (xs1 ++ xs2) -> joins st it ->
  Forall (fun x => client_of x < Client (it_ID it)) xs1 ->
  Forall (fun x => Client (it_ID it) < client_of x) xs2 ->
  exists ls', spot (place it st) ls' (xs1 ++ (it_ID it, it_Content it) :: xs2).
Proof.
  intros Hsp Hj Hc1 Hc2. pose proof (sp_sib _ _ _ Hsp) as Hsib.
  apply Forall2_app_inv_r in Hsib as (ls1 & ls2 & H1 & H2 & ->).
  pose proof (spot_position _ _ _ _ _ _ Hsp Hj H1 H2 Hc1 Hc2) as Hpos.
  pose proof Hsp as [S1 S2 S3 S4 S5 S6 S7 S8 S9 S10].
  pose proof Hj as [J1 J2 J3 J4 J5 J6 J7 J8 J9].
  assert (Hrd : ready st it).
  { split; [by rewrite J1|by rewrite J2|]. rewrite J3. by intros ? [= <-]. }
  destruct (place_ok it st S1 Hrd J7 J8 J9) as (P1 & [_ _ P3 P4] & _).
  destruct (place_effect st it p S1 Hrd J3 J4) as (E1 & E2 & E3). rewrite Hpos in E1, E3.
  pose proof (n_fresh st S1) as Hn.
  destruct (spot_seg st (place it st) ls1 ls2 _ _ Hsp Hn E1 E3) as [Hseg Hback].
  assert (Hold : forall l x, sibling og ro st l x -> sibling og ro (place it st) l x).
  { intros l x Hx. unfold sibling. rewrite E2, lookup_insert_ne; [done|]. intros <-.
    unfold sibling, origs in Hx. by rewrite lookup_fmap, Hn in Hx. }
  assert (Hnin : next st ∉ ls1 ++ ls2).
  { intros Hin. destruct (siblings_heap _ _ _ _ S6 Hin). congruence. }
  exists (ls1 ++ next st :: ls2). split; try done; eauto.
  - apply Forall2_app; [by eapply Forall2_impl|]. constructor; [|by eapply Forall2_impl].
    unfold sibling. rewrite E2, lookup_insert_eq. unfold orig. by rewrite J5, J6.
  - by apply sorted_insert.
  - rewrite <- Permutation_middle. by constructor.
  - intros l Hl. rewrite elem_of_app, elem_of_cons in Hl.
    destruct (decide (l = next st)) as [->|Hne]; [|apply S9; set_solver].
    split; intros E; [destruct (S2 _ E)|destruct (S3 _ E)]; congruence.
Qed.
End Spot.

(** ** Any order of integration *)

Definition place_all (its : list Item) (st : Store) : Store :=
  foldl (fun st it => place it st) st its.

Definition item_client (it : Item) : Z := Client (it_ID it).
Definition said (it : Item) : ID * Content := (it_ID it, it_Content it).

Lemma sorted_split (xs : list (ID * Content)) c :
  StronglySorted (fun x y => client_of x < client_of y) xs -> c ∉ map client_of xs ->
  exists xs1 xs2, xs = xs1 ++ xs2 /\ Forall (fun x => client_of x < c) xs1
    /\ Forall (fun x => c < client_of x) xs2.
Proof.
  induction 1 as [|x xs Hs IH Hx]; intros Hc; [by exists [], []|].
  cbn in Hc. apply not_elem_of_cons in Hc as [Hne Hc].
  destruct (decide (client_of x < c)) as [Hlt|Hge].
  - destruct (IH Hc) as (a & b & -> & Ha & Hb). exists (x :: a), b. split_and!; [done|by constructor|done].
  - exists [], (x :: xs). split_and!; [done|constructor|]. constructor; [lia|].
    eapply Forall_impl; [exact Hx|]. cbn. lia.
Qed.

Lemma sorted_perm_eq (xs ys : list (ID * Content)) :
  StronglySorted (fun x y => client_of x < client_of y) xs ->
  StronglySorted (fun x y => client_of x < client_of y) ys -> xs ≡ₚ ys -> xs = ys.
Proof.
  intros Hx Hy Hp. eapply StronglySorted_unique_strong; [|done..]. cbn. lia.
Qed.

Section Converge.
Context (og ro : option ID) (lft rgt : option loc) (p : TypePtr).

Lemma place_all_spot its : forall st ls xs,
  spot og ro lft rgt p st ls xs -> Forall (joins og ro lft rgt p st) its ->
  NoDup (map item_client its ++ map client_of xs) ->
  exists ls' xs', spot og ro lft rgt p (place_all its st) ls' xs' /\ xs' ≡ₚ map said its ++ xs.
Proof.
  induction its as [|it its IH]; intros st ls xs Hsp Hj Hnd; cbn; [eauto|].
  apply Forall_cons in Hj as [Hj Hjs]. cbn in Hnd. apply NoDup_cons in Hnd as [Hni Hnd].
  destruct (sorted_split xs (item_client it) (sp_sorted _ _ _ _ _ _ _ _ Hsp)) as (a & b & -> & Ha & Hb).
  { set_solver. }
  destruct (spot_step _ _ _ _ _ _ _ _ _ _ Hsp Hj Ha Hb) as [ls1 Hsp1].
  pose proof Hsp as [S1 S2 S3 S4 _ _ _ _ _ _]. pose proof Hj as [J1 J2 J3 J4 J5 J6 J7 J8 J9].
  assert (Hrd : ready st it).
  { split; [by rewrite J1|by rewrite J2|]. rewrite J3. by intros ? [= <-]. }
  destruct (place_ok it st S1 Hrd J7 J8 J9) as (_ & _ & PS).
  destruct (IH (place it st) ls1 _ Hsp1) as (ls' & xs' & H1 & H2).
  - rewrite Forall_forall in Hjs |- *. intros it' Hin. destruct (Hjs it' Hin) as [K1 K2 K3 K4 K5 K6 K7 K8 K9].
    split; try done. rewrite PS, decide_False; [done|]. intros E. apply Hni.
    apply elem_of_app. left. apply list_elem_of_In, in_map_iff. exists it'.
    split; [by symmetry|by apply list_elem_of_In].
  - rewrite map_app in *. cbn. rewrite app_assoc, <- Permutation_middle, <- app_assoc. by constructor.
  - exists ls', xs'. split; [done|]. rewrite H2. unfold said at 3.
    rewrite app_assoc, <- Permutation_middle, <- app_assoc. done.
Qed.

(** C1. Convergence of concurrent inserts: items of distinct clients inserted at
    the same place, integrated in any two orders, end up as the same sequence
    of ids and contents between their neighbours, ordered by client id. *)
Theorem concurrent_inserts_converge st its its' :
  spot og ro lft rgt p st [] [] -> Forall (joins og ro lft rgt p st) its ->
  NoDup (map item_client its) -> its' ≡ₚ its ->
  exists ls ls' xs,
    seg (chains (place_all its st)) (succ (place_all its st) lft p) ls rgt
    /\ siblings og ro (place_all its st) ls xs
    /\ seg (chains (place_all its' st)) (succ (place_all its' st) lft p) ls' rgt
    /\ siblings og ro (place_all its' st) ls' xs
    /\ StronglySorted (fun x y => client_of x < client_of y) xs
    /\ xs ≡ₚ map said its.
Proof.
  intros Hsp Hj Hnd Hp.
  destruct (place_all_spot its st [] [] Hsp Hj) as (ls & xs & H1 & Hx); [by rewrite app_nil_r|].
  destruct (place_all_spot its' st [] [] Hsp) as (ls' & xs' & H1' & Hx').
  { by rewrite Hp. }
  { rewrite app_nil_r. by rewrite Hp. }
  rewrite app_nil_r in *.
  assert (xs' = xs) as ->.
  { apply sorted_perm_eq; [apply H1'|apply H1|]. by rewrite Hx, Hx', Hp. }
  exists ls, ls', xs. destruct H1, H1'. done.
Qed.
End Converge.
