(* ===== verification/Messages.v ===== *)
(** * Message framing

    [internal/protocol/messages.go]: an outer message type, then a sync, an
    awareness, a query or an auth message.  [Decode] accounts for every byte of a
    frame. *)

From S2P Require Import Prelude Lib0.

Definition MessageSync : Z := 0.
Definition MessageAwareness : Z := 1.
Definition MessageAuth : Z := 2.
Definition MessageQueryAwareness : Z := 3.

Definition SyncStep1 : Z := 0.
Definition SyncStep2 : Z := 1.
Definition SyncUpdate : Z := 2.

Definition AuthPermissionDenied : Z := 0.

Inductive Message :=
  | SyncStep1Message (StateVector : bytes)
  | SyncStep2Message (Update : bytes)
  | UpdateMessage (Update : bytes)
  | AwarenessMessage (Payload : bytes)
  | QueryAwarenessMessage
  | PermissionDeniedMessage (Reason : bytes).

#[export] Instance Message_eq_dec : EqDecision Message.
Proof. solve_decision. Defined.

(** ** Decoding *)

Definition decodeSync (d : Decoder) : res (Message * Decoder) :=
  '(sub, d) ← ReadVarUint d;
  '(payload, d) ← ReadVarUint8Array d;
  if sub =? SyncStep1 then Ok (SyncStep1Message payload, d)
  else if sub =? SyncStep2 then Ok (SyncStep2Message payload, d)
  else if sub =? SyncUpdate then Ok (UpdateMessage payload, d)
  else Err ErrUnknownSyncType.

Definition decodeAuth (d : Decoder) : res (Message * Decoder) :=
  '(sub, d) ← ReadVarUint d;
  if negb (sub =? AuthPermissionDenied) then Err ErrUnknownAuthType
  else '(reason, d) ← ReadVarString d; Ok (PermissionDeniedMessage reason, d).

(** The switch of [Decode] on the outer type. *)
Definition decodeMessage (d : Decoder) : res (Message * Decoder) :=
  '(typ, d) ← ReadVarUint d;
  if typ =? MessageSync then decodeSync d
  else if typ =? MessageAwareness then
    '(payload, d) ← ReadVarUint8Array d; Ok (AwarenessMessage payload, d)
  else if typ =? MessageQueryAwareness then Ok (QueryAwarenessMessage, d)
  else if typ =? MessageAuth then decodeAuth d
  else Err ErrUnknownMessageType.

Definition Decode (buf : bytes) : res Message :=
  '(msg, d) ← decodeMessage (NewDecoder buf);
  if Done d then Ok msg else Err ErrTrailingBytes.

(** ** Writing *)

Definition writeSync (sub : Z) (payload : bytes) : bytes :=
  let e := NewEncoderSize (Z.of_nat (length payload) + 8) in
  let e := WriteVarUint MessageSync e in
  let e := WriteVarUint sub e in
  let e := WriteVarUint8Array payload e in
  Bytes e.

Definition WriteSyncStep1 (stateVector : bytes) : bytes := writeSync SyncStep1 stateVector.
Definition WriteSyncStep2 (update : bytes) : bytes := writeSync SyncStep2 update.
Definition WriteUpdate (update : bytes) : bytes := writeSync SyncUpdate update.

Definition WriteAwareness (payload : bytes) : bytes :=
  let e := NewEncoderSize (Z.of_nat (length payload) + 8) in
  let e := WriteVarUint MessageAwareness e in
  let e := WriteVarUint8Array payload e in
  Bytes e.

Definition WriteQueryAwareness : bytes :=
  Bytes (WriteVarUint MessageQueryAwareness (NewEncoderSize 1)).

Definition WritePermissionDenied (reason : bytes) : bytes :=
  let e := NewEncoderSize (Z.of_nat (length reason) + 8) in
  let e := WriteVarUint MessageAuth e in
  let e := WriteVarUint AuthPermissionDenied e in
  let e := WriteVarString reason e in
  Bytes e.

(** The writer of each message. *)
Definition frame (m : Message) : bytes :=
  match m with
  | SyncStep1Message sv => WriteSyncStep1 sv
  | SyncStep2Message u => WriteSyncStep2 u
  | UpdateMessage u => WriteUpdate u
  | AwarenessMessage p => WriteAwareness p
  | QueryAwarenessMessage => WriteQueryAwareness
  | PermissionDeniedMessage r => WritePermissionDenied r
  end.

(** ** Round trip *)

Definition payload (m : Message) : bytes :=
  match m with
  | SyncStep1Message b | SyncStep2Message b | UpdateMessage b | AwarenessMessage b
  | PermissionDeniedMessage b => b
  | QueryAwarenessMessage => []
  end.

(** The bytes of a frame. *)
Definition frame_bytes (m : Message) : bytes :=
  match m with
  | SyncStep1Message b => varuint_bytes MessageSync ++ varuint_bytes SyncStep1 ++ string_bytes b
  | SyncStep2Message b => varuint_bytes MessageSync ++ varuint_bytes SyncStep2 ++ string_bytes b
  | UpdateMessage b => varuint_bytes MessageSync ++ varuint_bytes SyncUpdate ++ string_bytes b
  | AwarenessMessage b => varuint_bytes MessageAwareness ++ string_bytes b
  | QueryAwarenessMessage => varuint_bytes MessageQueryAwareness
  | PermissionDeniedMessage b =>
      varuint_bytes MessageAuth ++ varuint_bytes AuthPermissionDenied ++ string_bytes b
  end.

Lemma small_safe v : 0 <= v <= 3 -> safe v.
Proof. unfold safe, MaxSafeInteger. lia. Qed.

Lemma frame_eq m : short (payload m) -> frame m = frame_bytes m.
Proof.
  intros Hs.
  assert (Hv : forall v, 0 <= v <= 3 -> writes (WriteVarUint v) (varuint_bytes v))
    by (intros; apply WriteVarUint_writes; by apply small_safe).
  destruct m; cbn [payload] in Hs; cbn [frame frame_bytes];
    unfold WriteSyncStep1, WriteSyncStep2, WriteUpdate, writeSync, WriteAwareness,
      WriteQueryAwareness, WritePermissionDenied, NewEncoderSize; cbn zeta.
  all: rewrite ?(Hv MessageSync), ?(Hv MessageAwareness), ?(Hv MessageAuth),
    ?(Hv MessageQueryAwareness), ?(Hv SyncStep1), ?(Hv SyncStep2), ?(Hv SyncUpdate),
    ?(Hv AuthPermissionDenied) by done.
  all: rewrite ?(WriteVarUint8Array_writes _ Hs), ?(WriteVarString_writes _ Hs).
  all: cbn [Bytes enc_buf app]; by rewrite <- ?app_assoc.
Qed.

Lemma decodeMessage_reads m :
  short (payload m) -> reads decodeMessage (frame_bytes m) m.
Proof.
  intros Hs.
  assert (Hv : forall v, 0 <= v <= 3 -> reads ReadVarUint (varuint_bytes v) v)
    by (intros; apply ReadVarUint_reads; by apply small_safe).
  intros d rest H. unfold decodeMessage, decodeSync, decodeAuth.
  destruct m; cbn [payload frame_bytes] in *; rewrite <- ?app_assoc in H.
  - read_step (Hv MessageSync ltac:(done)). cbn [MessageSync Z.eqb].
    read_step (Hv SyncStep1 ltac:(done)). read_step (ReadVarUint8Array_reads _ Hs). read_done.
  - read_step (Hv MessageSync ltac:(done)). cbn [MessageSync Z.eqb].
    read_step (Hv SyncStep2 ltac:(done)). read_step (ReadVarUint8Array_reads _ Hs). read_done.
  - read_step (Hv MessageSync ltac:(done)). cbn [MessageSync Z.eqb].
    read_step (Hv SyncUpdate ltac:(done)). read_step (ReadVarUint8Array_reads _ Hs). read_done.
  - read_step (Hv MessageAwareness ltac:(done)). read_step (ReadVarUint8Array_reads _ Hs). read_done.
  - read_step (Hv MessageQueryAwareness ltac:(done)). read_done.
  - read_step (Hv MessageAuth ltac:(done)). read_step (Hv AuthPermissionDenied ltac:(done)).
    read_step (ReadVarString_reads _ Hs). read_done.
Qed.

Lemma Decode_frame_ok m : short (payload m) -> Decode (frame m) = Ok m.
Proof.
  intros Hs. rewrite frame_eq by done. unfold Decode.
  rewrite (decodeMessage_reads m Hs (NewDecoder (frame_bytes m)) [])
    by (by rewrite unread_new, app_nil_r).
  cbn [mbind res_bind]. by rewrite done_advance.
Qed.

(** Every message survives framing and decoding: [Decode] of what the [Write]
    functions produce is the message written. *)
Theorem Decode_frame m : short (payload m) -> Decode (frame m) = Ok m.
Proof. apply Decode_frame_ok. Qed.

(** ** Sizes *)

(** A reader whose message carries no more than the buffer. *)
Definition payload_fits (m : Decoder -> res (Message * Decoder)) : Prop :=
  forall d msg d', (dec_pos d <= length (dec_buf d))%nat -> m d = Ok (msg, d') ->
    (length (payload msg) <= length (dec_buf d))%nat.

Lemma ReadVarUint8Array_length d b d' :
  ReadVarUint8Array d = Ok (b, d') -> (dec_pos d <= length (dec_buf d))%nat -> (length b <= length (dec_buf d))%nat.
Proof. intros H. eapply ReadVarString_length. unfold ReadVarString. by rewrite H. Qed.

Lemma decodeSync_fits : payload_fits decodeSync.
Proof.
  intros d msg d' Hp H. unfold decodeSync in H. res_inv.
  destruct (ReadVarUint_consumes _ _ _ Hm Hp) as [C1 C2].
  apply ReadVarUint8Array_length in Hm0; [|rewrite C1; lia]. rewrite C1 in Hm0.
  repeat case_if_in Hk0; by res_inv.
Qed.

Lemma decodeAuth_fits : payload_fits decodeAuth.
Proof.
  intros d msg d' Hp H. unfold decodeAuth in H. res_inv.
  destruct (ReadVarUint_consumes _ _ _ Hm Hp) as [C1 C2]. case_if_in Hk; [done|]. res_inv.
  apply ReadVarString_length in Hm0; [|rewrite C1; lia]. by rewrite C1 in Hm0.
Qed.

Lemma decodeMessage_fits : payload_fits decodeMessage.
Proof.
  intros d msg d' Hp H. unfold decodeMessage in H. res_inv.
  destruct (ReadVarUint_consumes _ _ _ Hm Hp) as [C1 C2].
  case_if_in Hk; [rewrite <- C1; eapply decodeSync_fits; [rewrite C1; lia|done]|].
  case_if_in Hk.
  { res_inv. apply ReadVarUint8Array_length in Hm0; [|rewrite C1; lia]. by rewrite C1 in Hm0. }
  case_if_in Hk; [res_inv; cbn; lia|].
  case_if_in Hk; [rewrite <- C1; eapply decodeAuth_fits; [rewrite C1; lia|done]|done].
Qed.

Lemma Decode_fits buf msg : Decode buf = Ok msg -> (length (payload msg) <= length buf)%nat.
Proof.
  intros H. unfold Decode in H. res_inv. apply decodeMessage_fits in Hm; [|cbn; lia]. cbn in Hm.
  case_if_in Hk; by res_inv.
Qed.

Lemma Decode_frame_witness : Decode (frame (UpdateMessage [0; 0])) = Ok (UpdateMessage [0; 0]).
Proof. apply (Decode_frame (UpdateMessage [0; 0])). done. Defined.
