(* ===== verification/Views.v ===== *)
(** * Read views

    [internal/crdt/ytext.go], [ymap.go] and [subdoc.go]: the visible text of a
    shared type and its length, the live keys and values of a map, the
    subdocuments a document references.

    A sequence is walked along [right] from the type's [start]; the walk takes the
    size of the heap as fuel, which is enough in every reachable document because
    the chains are acyclic ([walk_fuel]). *)

From S2P Require Import Prelude Lib0 Any Content StateVector DeleteSet Struct Update StructStore Doc Links Invariant.

(** The items of a sequence, in document order. *)
Fixpoint walk (fuel : nat) (st : Store) (o : option loc) : list loc :=
  match fuel, o with
  | S fuel, Some l =>
      match heap st !! l with
      | Some it => l :: walk fuel st (right it)
      | None => []
      end
  | _, _ => []
  end.

Definition type_of (st : Store) (p : TypePtr) : AbstractType :=
  default (newAbstractType typeRefUnknown) (types st !! p).

Definition items_from (st : Store) (o : option loc) : list Item :=
  omap (fun l => heap st !! l) (walk (size (heap st)) st o).

Definition sequence (st : Store) (p : TypePtr) : list Item := items_from st (start (type_of st p)).

(** ** YText *)

(** [Text]: the root type called [name], typed as text if nothing typed it yet. *)
Definition set_TypeRef (r : Z) (t : AbstractType) : AbstractType :=
  MkType r (T_Name t) (start t) (mapItems t) (t_item t) (rootName t).

Definition typed_root (ref : Z) (name : bytes) (d : Doc) : TypePtr * Doc :=
  let '(p, st) := Get name (store d) in
  let st := if T_TypeRef (type_of st p) =? typeRefUnknown then upd_type p (set_TypeRef ref) st else st in
  (p, set_store st d).

Definition Doc_Text (name : bytes) (d : Doc) : TypePtr * Doc := typed_root TypeRefText name d.

Definition any_text (v : any) : bytes := match v with AnyString s => s | _ => [] end.

(** What one item contributes to [String]. *)
Definition content_text (c : Content) : bytes :=
  match c with
  | ContentString s => s
  | ContentAny vs => concat (map any_text vs)
  | _ => []
  end.

Definition item_text (it : Item) : bytes := if deleted it then [] else content_text (it_Content it).

Definition YText_String (st : Store) (p : TypePtr) : bytes := concat (map item_text (sequence st p)).

Definition YText_Len (st : Store) (p : TypePtr) : Z :=
  foldl (fun n it => if Countable it then n + Item_Len it else n) 0 (sequence st p).

(** ** YMap *)

Definition Doc_Map (name : bytes) (d : Doc) : TypePtr * Doc := typed_root TypeRefMap name d.

(** [a < b] on Go strings: bytewise lexicographic. *)
Fixpoint str_lt (a b : bytes) : bool :=
  match a, b with
  | _, [] => false
  | [], _ :: _ => true
  | x :: a, y :: b => (x <? y) || ((x =? y) && str_lt a b)
  end.

Definition live (st : Store) (l : loc) : bool :=
  match heap st !! l with Some it => negb (deleted it) | None => false end.

Definition Keys (st : Store) (p : TypePtr) : list bytes :=
  sort_by str_lt (map fst (filter (fun x => live st x.2 = true) (map_to_list (mapItems (type_of st p))))).

(** The Go value a map entry reads as. *)
Inductive MapValue :=
  | VAny (v : any)
  | VType (p : TypePtr)
  | VString (s : bytes)
  | VBytes (b : bytes)
  | VDoc (guid : bytes).

Definition YMap_Get (st : Store) (p : TypePtr) (key : bytes) : option MapValue :=
  match mapItems (type_of st p) !! key with
  | None => None
  | Some l =>
      match heap st !! l with
      | None => None
      | Some it =>
          if deleted it then None
          else match it_Content it with
               | ContentAny vs => VAny <$> last vs
               | ContentType _ _ => Some (VType (TNested l))
               | ContentJSON vs => VString <$> last vs
               | ContentBinary b => Some (VBytes b)
               | ContentDoc g _ => Some (VDoc g)
               | ContentString s => Some (VString s)
               | _ => None
               end
      end
  end.

Definition YMap_Len (st : Store) (p : TypePtr) : Z := Z.of_nat (length (Keys st p)).

(** [Doc.Roots]: its callers sort the names. *)
Definition Doc_Roots (d : Doc) : list bytes :=
  omap (fun x => match x.1 with TRoot name => Some name | TNested _ => None end) (map_to_list (types (store d))).

(** ** Subdocuments *)

Definition subdoc_guid (s : Struct) : option bytes :=
  match s with
  | SItem it =>
      if deleted it then None
      else match it_Content it with ContentDoc g _ => Some g | _ => None end
  | _ => None
  end.

Definition Subdocs (d : Doc) : list bytes :=
  let st := store d in
  let seen := foldl (fun (seen : gset bytes) client =>
                 foldl (fun seen s => match subdoc_guid s with Some g => {[g]} ∪ seen | None => seen end)
                   seen (Store_Structs st client)) ∅ (Store_Clients st) in
  sort_by str_lt (elements seen).

(** ** The walk has enough fuel *)

Lemma walk_fuel st ord k :
  linked ord (chains st) -> forall o f f', right_bound ord o k -> (k <= f)%nat -> (k <= f')%nat ->
  walk f st o = walk f' st o.
Proof.
  intros Hlk. induction k as [|k IH]; intros [l|] f f' Hb Hf Hf';
    [by destruct Hb as (? & ? & _ & ?); lia|by destruct f, f'| |by destruct f, f'].
  destruct f as [|f]; [lia|]. destruct f' as [|f']; [lia|]. cbn [walk].
  destruct (heap st !! l) as [it|] eqn:El; [|done]. f_equal.
  apply IH; [by eapply right_bound_step|lia..].
Qed.

Lemma start_bound st ord o :
  linked ord (chains st) -> (forall l, o = Some l -> is_Some (heap st !! l)) ->
  right_bound ord o (size (heap st)).
Proof. intros Hlk Ho. destruct o as [l|]; [|done]. apply item_bounds; [done|by apply Ho]. Qed.

(** ** Splitting an item is invisible *)

(** What a view sees of an item. *)
Definition seen (it : Item) : bool * Content := (deleted it, it_Content it).

(** The heap after a split, up to [left] pointers. *)
Lemma splitItem_heap l off i st n st' it ord :
  store_wf st -> linked ord (chains st) -> heap st !! l = Some it ->
  splitItem l off i st = Ok (n, st') ->
  exists h t, Splice (it_Content it) off = Ok (h, t) /\ n = next st
    /\ (exists x, heap st' !! l = Some x /\ seen x = (deleted it, h) /\ right x = Some n)
    /\ (exists x, heap st' !! n = Some x /\ seen x = (deleted it, t) /\ right x = right it)
    /\ (forall k, k <> l -> k <> n ->
          (fun x => (seen x, right x)) <$> heap st' !! k = (fun x => (seen x, right x)) <$> heap st !! k).
Proof.
  intros Hwf Hlk Hl H.
  assert (Hln : l <> next st). { assert (l < next st)%positive by (apply (wf_next _ Hwf); eauto). lia. }
  assert (Hrl : forall r, right it = Some r -> r <> l /\ r <> next st).
  { intros r Hr. pose proof (chains_lookup _ _ _ Hl) as Hc. rewrite Hr in Hc. apply (lk_right _ _ Hlk) in Hc.
    split; [intros ->; by eapply before_irrefl; [apply Hlk|exact Hc|]|]. intros ->.
    apply before_elem in Hc as [_ Hc]. apply (lk_dom _ _ Hlk) in Hc. rewrite (chains_fresh _ Hwf) in Hc.
    by destruct Hc. }
  unfold splitItem in H. rewrite Hl in H. res_inv. exists x, y. split; [done|]. split; [done|].
  match goal with |- context [set_clients _ ?s] =>
    assert (Hh : heap s = alter (set_right (Some (next st))) l
      (match right it with
       | Some rr => alter (set_left (Some (next st))) rr
                      (<[next st := split_right it l off y]> (alter (set_Content x) l (heap st)))
       | None => <[next st := split_right it l off y]> (alter (set_Content x) l (heap st)) end))
      by (destruct (right it), (parent it), (HasParentSub it); reflexivity) end.
  cbn [set_clients heap] in *. rewrite Hh. clear Hh.
  destruct (right it) as [rr|] eqn:Er;
    [destruct (Hrl rr eq_refl) as [Hr1 Hr2]|]; split_and!;
    try (intros k Hkl Hkn; rewrite lookup_alter_ne by done;
         try (destruct (decide (rr = k)) as [->|?]; [rewrite lookup_alter_eq|rewrite lookup_alter_ne by done]);
         rewrite lookup_insert_ne, lookup_alter_ne by done; by destruct (heap st !! k)).
  - eexists. rewrite lookup_alter_eq, lookup_alter_ne, lookup_insert_ne, lookup_alter_eq, Hl by done. done.
  - eexists. rewrite lookup_alter_ne, lookup_alter_ne, lookup_insert_eq by done. done.
  - eexists. rewrite lookup_alter_eq, lookup_insert_ne, lookup_alter_eq, Hl by done. done.
  - eexists. rewrite lookup_alter_ne, lookup_insert_eq by done. done.
Qed.

Section SplitView.
Context (l : loc) (off : Z) (i : nat) (st : Store) (n : loc) (st' : Store) (it : Item) (c : Z).
Context (Hinv : store_inv st) (Hi : refs st c !! i = Some (RItem l)).
Context (Hl : heap st !! l = Some it) (Hoff : 0 < off < Item_Len it).
Context (Hsplit : splitItem l off i st = Ok (n, st')).

(** Where [l] stood, [l] and the new item stand. *)
Definition expand (k : loc) : list loc := if decide (k = l) then [l; n] else [k].

Lemma walk_split ord k :
  linked ord (chains st) -> forall o f f', right_bound ord o k -> (k <= f)%nat -> (2 * k <= f')%nat ->
  (forall x, o = Some x -> is_Some (heap st !! x)) ->
  walk f' st' o = concat (map expand (walk f st o)).
Proof.
  intros Hlk. pose proof (inv_wf _ Hinv) as Hwf.
  destruct (splitItem_heap _ _ _ _ _ _ _ _ Hwf Hlk Hl Hsplit) as (h & t & _ & Hn & (xl & H1 & _ & H2) & (xn & H3 & _ & H4) & H5).
  assert (Hnn : heap st !! n = None).
  { subst n. apply eq_None_not_Some. intros Hs%(wf_next _ Hwf). lia. }
  induction k as [|k IH]; intros [x|] f f' Hb Hf Hf' Ho;
    [by destruct Hb as (? & ? & _ & ?); lia|by destruct f, f'| |by destruct f, f'].
  destruct (Ho x eq_refl) as [xi Hx]. destruct f as [|f]; [lia|]. destruct f' as [|[|f']]; [lia..|].
  assert (Hdom : forall r, right xi = Some r -> is_Some (heap st !! r)).
  { intros r Hr. eapply right_of_dom; [apply Hinv|]. unfold right_of. by rewrite Hx. }
  assert (Hb' : right_bound ord (right xi) k) by by eapply right_bound_step.
  cbn [walk]. rewrite Hx. cbn [map concat]. unfold expand at 1. case_decide as Hxl.
  - subst x. rewrite Hl in Hx. simplify_eq. rewrite H1, H2. cbn. rewrite H3, H4. do 2 f_equal.
    apply IH; [done|lia..|done].
  - assert (x <> n) by congruence.
    specialize (H5 x Hxl H). rewrite Hx in H5. destruct (heap st' !! x) as [x'|] eqn:Hx'; [|done].
    cbn in H5. injection H5 as _ _ Hr. rewrite Hr. cbn [app]. f_equal.
    change (match right xi with Some l0 => match heap st' !! l0 with
      | Some it0 => l0 :: walk f' st' (right it0) | None => [] end | None => [] end)
      with (walk (S f') st' (right xi)). apply IH; [done|lia..|done].
Qed.

(** A view made of one piece per item, where the two halves of a split piece make
    the whole. *)
Lemma items_split {B} (g : bool * Content -> list B) :
  (forall d c h t, Splice c off = Ok (h, t) -> g (d, h) ++ g (d, t) = g (d, c)) ->
  forall o, (forall x, o = Some x -> is_Some (heap st !! x)) ->
  concat (map (fun x => g (seen x)) (items_from st' o)) = concat (map (fun x => g (seen x)) (items_from st o)).
Proof.
  intros Hg o Ho. pose proof (inv_wf _ Hinv) as Hwf. destruct (inv_acyclic _ Hinv) as [ord Hlk].
  pose proof (splitItem_inv _ _ _ _ _ _ _ _ Hinv Hi Hl Hoff Hsplit) as Hinv'.
  destruct (inv_acyclic _ Hinv') as [ord' Hlk'].
  destruct (splitItem_heap _ _ _ _ _ _ _ _ Hwf Hlk Hl Hsplit)
    as (h & t & Hsp & Hn & (xl & H1 & H1' & _) & (xn & H3 & H3' & _) & H5).
  assert (Ho' : forall x, o = Some x -> is_Some (heap st' !! x)).
  { intros x ->. apply (gr_heap _ _ (splitItem_grows _ _ _ _ _ _ _ _ Hinv Hi Hl Hoff Hsplit)). auto. }
  unfold items_from.
  rewrite (walk_fuel st' ord' (size (heap st')) Hlk' o _ (size (heap st') + 2 * size (heap st))%nat)
    by (done || lia || by apply start_bound).
  rewrite (walk_split ord (size (heap st)) Hlk o (size (heap st))) by (done || lia || by apply start_bound).
  assert (Hnw : n ∉ walk (size (heap st)) st o).
  { assert (Hnn : heap st !! n = None). { subst n. apply eq_None_not_Some. intros Hs%(wf_next _ Hwf). lia. }
    generalize (size (heap st)). intros f. clear -Hnn. revert o. induction f as [|f IH]; intros [x|]; cbn;
      try apply not_elem_of_nil. destruct (heap st !! x) as [xi|] eqn:E; [|apply not_elem_of_nil].
    apply not_elem_of_cons. split; [congruence|apply IH]. }
  induction (walk (size (heap st)) st o) as [|k w IH]; [done|].
  apply not_elem_of_cons in Hnw as [Hkn Hnw]. cbn [map concat]. rewrite omap_app, map_app, concat_app, IH by done.
  unfold expand. case_decide as Hkl.
  - subst k. cbn. rewrite H1, H3, Hl. cbn. rewrite H1', H3', app_nil_r.
    rewrite (Hg (deleted it) (it_Content it) h t Hsp). done.
  - specialize (H5 k Hkl (not_eq_sym Hkn)). cbn.
    destruct (heap st !! k) as [x|], (heap st' !! k) as [x'|]; try done.
    cbn in H5 |- *. assert (seen x' = seen x) as -> by (unfold seen in *; congruence). by rewrite app_nil_r.
Qed.

Lemma split_start p : start (type_of st' p) = start (type_of st p).
Proof.
  unfold type_of. destruct (split_types _ _ _ _ _ _ _ Hl Hsplit) as [->|(q & k & ->)]; [done|].
  rewrite lookup_alter. case_decide; [subst q|done]. by destruct (types st !! p).
Qed.

Lemma sequence_split {B} (g : bool * Content -> list B) p :
  (forall d c h t, Splice c off = Ok (h, t) -> g (d, h) ++ g (d, t) = g (d, c)) ->
  concat (map (fun x => g (seen x)) (sequence st' p)) = concat (map (fun x => g (seen x)) (sequence st p)).
Proof.
  intros Hg. unfold sequence. rewrite split_start. apply items_split; [done|]. intros x Hx.
  unfold type_of in Hx. destruct (types st !! p) as [t|] eqn:E; [|done].
  destruct (inv_types _ Hinv _ _ E) as [H0 _]. by apply H0.
Qed.
End SplitView.

(** The pieces of the two views of a text. *)
Definition text_piece (x : bool * Content) : bytes := if x.1 then [] else content_text x.2.
Definition unit_piece (x : bool * Content) : list unit :=
  if negb x.1 && Content_Countable x.2 then repeat tt (Z.to_nat (Len x.2)) else [].

Lemma text_piece_split d c off h t :
  0 <= off -> Splice c off = Ok (h, t) -> text_piece (d, h) ++ text_piece (d, t) = text_piece (d, c).
Proof.
  intros Ho H. apply Splice_MergeWith in H; [|done]. destruct d; [done|]. unfold text_piece. cbn [fst snd].
  destruct h, t; cbn in H; simplify_eq; try done. cbn. by rewrite map_app, concat_app.
Qed.

Lemma countable_Len c : Content_Countable c = true -> 0 <= Len c.
Proof. destruct c; cbn; intros; try lia. apply UTF16Length_nonneg. Qed.

Lemma unit_piece_split d c off h t :
  0 <= off -> Splice c off = Ok (h, t) -> unit_piece (d, h) ++ unit_piece (d, t) = unit_piece (d, c).
Proof.
  intros Ho H. unfold unit_piece. cbn [fst snd]. destruct d; [done|]. cbn [negb andb].
  assert (Hadd : forall a b, 0 <= a -> 0 <= b -> repeat tt (Z.to_nat a) ++ repeat tt (Z.to_nat b) = repeat tt (Z.to_nat (a + b))).
  { intros a b Ha Hb. rewrite <- repeat_app. f_equal. lia. }
  destruct c; cbn [Splice] in H; try discriminate; [simplify_eq; done|..].
  1,3: simplify_eq; cbn [Content_Countable Len]; rewrite Hadd by lia; rewrite length_take, length_drop; do 2 f_equal; lia.
  destruct (splitUTF16 Str off) as [[a b]|] eqn:E; [|discriminate]. simplify_eq. cbn [Content_Countable Len].
  apply splitUTF16_spec in E as (_ & _ & E); [|done].
  rewrite Hadd by apply UTF16Length_nonneg. by rewrite E.
Qed.

Lemma YText_String_pieces st p : YText_String st p = concat (map (fun x => text_piece (seen x)) (sequence st p)).
Proof. done. Qed.

Lemma YText_Len_pieces st p :
  YText_Len st p = Z.of_nat (length (concat (map (fun x => unit_piece (seen x)) (sequence st p)))).
Proof.
  unfold YText_Len. enough (forall l n, foldl (fun n it => if Countable it then n + Item_Len it else n) n l
    = n + Z.of_nat (length (concat (map (fun x => unit_piece (seen x)) l)))) as -> by lia.
  induction l as [|it l IH]; intros n; cbn [foldl map concat]; [cbn; lia|].
  rewrite IH, length_app. unfold unit_piece, seen, Countable, Item_Len. cbn [fst snd].
  destruct (negb (deleted it) && Content_Countable (it_Content it)) eqn:E; [|cbn; lia].
  apply andb_true_iff in E as [_ E]. apply countable_Len in E. rewrite repeat_length. lia.
Qed.

(** Both ends of a lookup, and so every split the document makes. *)
Definition same_text (st st' : Store) : Prop :=
  forall p, YText_String st' p = YText_String st p /\ YText_Len st' p = YText_Len st p.

Lemma splitItem_text l off i st n st' it c :
  store_inv st -> refs st c !! i = Some (RItem l) -> heap st !! l = Some it -> 0 < off < Item_Len it ->
  splitItem l off i st = Ok (n, st') -> same_text st st'.
Proof.
  intros Hinv Hi Hl Ho Hs p.
  rewrite !YText_String_pieces, !YText_Len_pieces. split; [|do 2 f_equal];
    (eapply sequence_split; [done..|]; intros d c' h t Hsp).
  - eapply text_piece_split; [|done]. lia.
  - eapply unit_piece_split; [|done]. lia.
Qed.

(** Looking an item up by the id it starts or ends at splits items but is invisible
    to readers: every text of the document reads the same, with the same length. *)
Theorem clean_lookup_invisible id st l st' :
  store_inv st -> 0 <= Clock id ->
  GetItemCleanStart id st = Ok (l, st') \/ GetItemCleanEnd id st = Ok (l, st') ->
  forall p, YText_String st' p = YText_String st p /\ YText_Len st' p = YText_Len st p.
Proof.
  intros Hinv H0 H. pose proof (inv_wf _ Hinv) as Hwf.
  destruct H as [H|H]; unfold GetItemCleanStart, GetItemCleanEnd in H; res_inv;
    destruct (find_item _ _ _ _ _ Hwf H0 Hm Hm0) as (Hr & Hl' & Hc & He & Hrange);
    rewrite He in Hk0; case_if; res_inv; try done; eapply splitItem_text; eauto; lia.
Qed.
