(* ===== verification/LoadBot.v ===== *)
(** * The load bot's updates

    [cmd/ycollab-load/update.go]: the bytes a bot sends when it types at the end of its own
    text, and the self test that integrates a chain of them.  The theorem is the self
    test for every text: a client that types one piece after the other is read back. *)

From stdpp Require Import strings.
From S2P Require Import Prelude Lib0 Any Content StateVector DeleteSet Struct Update StructStore Doc Links Invariant Integrate Deletion Apply Sync Views.

(** ** The bytes *)

Definition contentString : Z := 4.
Definition bot_bitOrigin : Z := 128.

Definition buildUpdate (client clock : Z) (root text : bytes) : bytes :=
  let e := NewEncoderSize (Z.of_nat (length text) + 32) in
  let e := WriteVarUint 1 e in
  let e := WriteVarUint 1 e in
  let e := WriteVarUint client e in
  let e := WriteVarUint clock e in
  let info := contentString in
  let info := if 0 <? clock then Z.lor info bot_bitOrigin else info in
  let e := WriteUint8 info e in
  let e := if 0 <? clock then WriteVarUint (clock - 1) (WriteVarUint client e)
           else WriteVarString root (WriteVarUint 1 e) in
  let e := WriteVarString text e in
  let e := WriteVarUint 0 e in
  Bytes e.

(** ** The self test *)

Section SelfTest.
Context `{Hord : !MapOrder}.

(** The loop of [selfTest]: the next piece starts where the last one ended. *)
Fixpoint type_chain (client clock : Z) (root : bytes) (texts : list bytes) (d : Doc) : res Doc :=
  match texts with
  | [] => Ok d
  | s :: texts =>
      d ← ApplyUpdate (buildUpdate client clock root s) d;
      type_chain client (u64 (clock + Z.of_nat (length s))) root texts d
  end.

Inductive self_test := BadUpdate (e : GoError) | LeftPending (n : nat) | Reads (text : bytes) | Passed.

Definition selfTest (root : bytes) : self_test :=
  match type_chain 424242 0 root [str "hello "; str "load "; str "bot"] (NewDoc 1) with
  | Err e => BadUpdate e
  | Ok d =>
      if negb (PendingCount d =? 0)%nat then LeftPending (PendingCount d)
      else
        let '(p, st) := Get root (store d) in
        let got := YText_String st p in
        if decide (got = str "hello load bot") then Passed else Reads got
  end.

(** ** What a piece decodes to *)

Section Chain.
Context (client : Z) (root : bytes).
Context (Hclient : safe client) (Hroot : short root).

Definition typed_item (clock : Z) (s : bytes) : Item :=
  MkItem (NewID client clock) (if 0 <? clock then Some (NewID client (clock - 1)) else None) None
    (if 0 <? clock then None else Some (MkParent true root zeroID)) false [] (ContentString s) None None None false false.

Definition typed_update (clock : Z) (s : bytes) : Update :=
  MkUpdate [MkBlock client clock [SItem (typed_item clock s)]] (Some ∅).

Lemma typed_update_ok clock s :
  safe clock -> short s -> update_ok (typed_update clock s).
Proof.
  intros Hk Hs. unfold typed_update. split_and!; [|done|done|].
  - apply Forall_singleton. unfold block_ok; cbn [CB_Client StartClock Structs]. split_and!; try done; try apply Hk.
    + cbn. unfold Item_Len. cbn. split_and!; [done|apply UTF16Length_nonneg|..];
      pose proof (UTF16Length_nonneg s); pose proof (UTF16Length_le s); unfold short, safe, MaxSafeInteger, two63 in *; lia.
    + apply Forall_singleton. cbn. unfold item_wire_ok, typed_item. destruct (0 <? clock) eqn:E; cbn; split_and!; try done; try constructor.
      * apply Z.ltb_lt in E. unfold id_ok, safe in *; cbn; lia.
      * by exists (MkParent true root zeroID).
  - exists ∅. split; [done|]. split; [|by vm_compute]. by intros c rs H%lookup_empty_Some.
Qed.

Lemma ds_bytes_empty : ds_bytes ∅ = varuint_bytes 0.
Proof. by vm_compute. Qed.

Lemma buildUpdate_bytes clock s :
  safe clock -> short s -> buildUpdate client clock root s = update_bytes (typed_update clock s).
Proof.
  intros Hk Hs. unfold buildUpdate, NewEncoderSize, NewEncoder.
  assert (safe 1) by done. assert (safe 0) by done.
  rewrite !WriteVarUint_writes by done.
  unfold update_bytes, typed_update, typed_item, block_bytes. cbn [Clients Deletes].
  destruct (0 <? clock) eqn:E.
  - rewrite WriteUint8_writes, !WriteVarUint_writes by (done || (apply Z.ltb_lt in E; unfold safe in *; lia)).
    rewrite WriteVarString_writes, WriteVarUint_writes by done. unfold Bytes, list_bytes, id_bytes.
    cbn -[varuint_bytes string_bytes ds_bytes]. unfold id_bytes. rewrite ds_bytes_empty, !app_nil_r. cbn [Client Clock].
    rewrite <- ?app_assoc. cbn [app]. by rewrite <- ?app_assoc.
  - rewrite WriteUint8_writes, WriteVarUint_writes, !WriteVarString_writes, WriteVarUint_writes by done. unfold Bytes, list_bytes.
    cbn -[varuint_bytes string_bytes ds_bytes]. unfold parent_bytes. rewrite ds_bytes_empty, !app_nil_r. cbn [IsRoot PName].
    rewrite <- ?app_assoc. cbn [app]. by rewrite <- ?app_assoc.
Qed.

Lemma buildUpdate_decodes clock s :
  safe clock -> short s -> DecodeUpdate (buildUpdate client clock root s) = Ok (typed_update clock s).
Proof.
  intros Hk Hs. rewrite buildUpdate_bytes by done.
  destruct (DecodeUpdate_Encode_ok _ (typed_update_ok clock s Hk Hs)) as (b & Hb & Hd).
  unfold Encode in Hb. by rewrite (finish_writes _ _ (Update_write_writes no_parent _ (typed_update_ok clock s Hk Hs))) in Hb; simplify_eq.
Qed.

(** ** The document while it is typed *)

Definition spot (i : nat) : loc := Pos.of_succ_nat i.
Definition clock_of (ts : list bytes) (i : nat) : Z := Z.of_nat (length (concat (take i ts))).

Definition item_of (ts : list bytes) (i : nat) : option Item :=
  match ts !! i with
  | None => None
  | Some s =>
      Some (MkItem (NewID client (clock_of ts i)) (if 0 <? clock_of ts i then Some (NewID client (clock_of ts i - 1)) else None) None
        (if 0 <? clock_of ts i then None else Some (MkParent true root zeroID)) false [] (ContentString s)
        (match i with O => None | S j => Some (spot j) end)
        (if (S i <? length ts)%nat then Some (spot (S i)) else None) (Some (TRoot root)) false false)
  end.

Record typed (ts : list bytes) (st : Store) : Prop := {
  ty_refs : refs st client = map (fun i => RItem (spot i)) (seq 0 (length ts));
  ty_heap : forall i, heap st !! spot i = item_of ts i;
  ty_size : size (heap st) = length ts;
  ty_next : next st = spot (length ts);
  ty_type : types st !! TRoot root = match ts with [] => None | _ => Some (set_start (Some (spot 0)) (new_root root)) end;
}.

(** Pieces a bot types: every unit is one byte. *)
Definition plain (s : bytes) : Prop := s <> [] /\ UTF16Length s = Z.of_nat (length s).

Lemma spot_inj i j : spot i = spot j -> i = j.
Proof. apply SuccNat2Pos.inj. Qed.

Lemma clock_snoc ts s i : (i <= length ts)%nat -> clock_of (ts ++ [s]) i = clock_of ts i.
Proof. intros Hi. unfold clock_of. by rewrite take_app_le. Qed.

Lemma clock_pos ts i : Forall plain ts -> (i < length ts)%nat -> 0 <? clock_of ts (S i) = true.
Proof.
  intros Hp Hi. apply Z.ltb_lt. unfold clock_of. destruct ts as [|t ts]; [cbn in Hi; lia|].
  apply Forall_cons in Hp as [[Hn _] _]. cbn [take concat]. rewrite length_app. destruct t; [done|]. cbn. lia.
Qed.

Lemma clock_of_S ts i s : ts !! i = Some s -> clock_of ts (S i) = clock_of ts i + Z.of_nat (length s).
Proof. intros H. unfold clock_of. rewrite (take_S_r _ _ _ H), concat_app, length_app. cbn. rewrite app_nil_r. lia. Qed.

(** The clock of the client, as long as ids and contents are the typed ones. *)
Lemma typed_State ts st :
  Forall plain ts -> clock_of ts (length ts) <= MaxSafeInteger ->
  refs st client = map (fun i => RItem (spot i)) (seq 0 (length ts)) ->
  (forall i, (i < length ts)%nat ->
     (fun x => (it_ID x, it_Content x)) <$> heap st !! spot i = (fun x => (it_ID x, it_Content x)) <$> item_of ts i) ->
  State st client = clock_of ts (length ts).
Proof.
  intros Hp Hb Hr Hh. unfold State, Store_Structs. rewrite Hr, map_map.
  destruct (length ts) as [|n] eqn:En; [done|]. rewrite seq_S, map_app, last_app. cbn [map last].
  specialize (Hh n ltac:(lia)). cbn [plus view]. unfold item_of in Hh.
  destruct (lookup_lt_is_Some_2 ts n ltac:(lia)) as [s Hs]. rewrite Hs in Hh. cbn in Hh.
  destruct (heap st !! spot n) as [x|]; [|done]. injection Hh as Hid Hc.
  unfold struct_end. cbn [StructID StructLen]. unfold Item_Len. rewrite Hid, Hc. cbn [Clock Len].
  rewrite Forall_lookup in Hp. destruct (Hp n s Hs) as [_ ->]. rewrite (clock_of_S _ _ _ Hs) in *.
  apply u64_small. unfold MaxSafeInteger, clock_of, two64 in *. lia.
Qed.

Lemma clock_mono ts i j : (i <= j)%nat -> clock_of ts i <= clock_of ts j.
Proof.
  intros Hij. unfold clock_of. assert (take j ts = take i ts ++ drop i (take j ts)) as E.
  { rewrite <- (take_drop i (take j ts)) at 1. by rewrite take_take, Nat.min_l. }
  rewrite E, concat_app, length_app. lia.
Qed.

Lemma typed_heap_State ts st :
  Forall plain ts -> clock_of ts (length ts) <= MaxSafeInteger -> typed ts st -> State st client = clock_of ts (length ts).
Proof. intros Hp Hb Ht. apply typed_State; [done..|apply Ht|]. intros i _. by rewrite (ty_heap _ _ Ht). Qed.

(** The neighbour of the next piece is the last one. *)
Lemma typed_neighbour ts st :
  store_wf st -> typed ts st -> Forall plain ts -> clock_of ts (length ts) <= MaxSafeInteger -> ts <> [] ->
  GetItemCleanEnd (NewID client (clock_of ts (length ts) - 1)) st = Ok (spot (pred (length ts)), st).
Proof.
  intros Hwf Ht Hp Hb Hn. pose proof (typed_heap_State ts st Hp Hb Ht) as HS.
  assert (exists n, length ts = S n) as [n En] by (destruct ts as [|? l]; [done|by exists (length l)]).
  pose proof (clock_pos ts n Hp ltac:(lia)) as Hpos%Z.ltb_lt.
  destruct (find_total st Hwf (NewID client (clock_of ts (length ts) - 1))) as [i Hi]; [cbn; rewrite HS, En; lia|].
  destruct (find_Ok st Hwf (NewID client (clock_of ts (length ts) - 1)) i ltac:(cbn; rewrite En; lia) Hi) as (x & Hx & Hr). cbn [Client Clock] in *.
  unfold Store_Structs in Hx. rewrite (ty_refs _ _ Ht), map_map in Hx.
  apply list_lookup_fmap_Some in Hx as (j & -> & [-> Hlt]%lookup_seq). cbn [plus view] in *.
  rewrite (ty_heap _ _ Ht) in Hr. unfold item_of in Hr. destruct (lookup_lt_is_Some_2 ts i ltac:(lia)) as [s Hs].
  rewrite Hs in Hr. cbn in Hr. unfold Item_Len in Hr. cbn in Hr. rewrite Forall_lookup in Hp.
  destruct (Hp i s Hs) as [_ HL]. rewrite HL in Hr. rewrite <- (clock_of_S _ _ _ Hs) in Hr.
  assert (i = n) as ->.
  { destruct (decide (S i = length ts)) as [|Hne]; [lia|].
    pose proof (clock_mono ts (S (S i)) (length ts) ltac:(lia)) as Hm.
    destruct (lookup_lt_is_Some_2 ts (S i) ltac:(lia)) as [s2 Hs2]. rewrite (clock_of_S _ _ _ Hs2) in Hm.
    destruct (Hp _ _ Hs2) as [Hne2 _]. destruct s2; [done|]. cbn in Hm. lia. }
  unfold GetItemCleanEnd. rewrite Hi. cbn [mbind res_bind]. unfold item_at_index.
  cbn [Client]. rewrite (ty_refs _ _ Ht). change (map ?f ?l) with (f <$> l).
  rewrite list_lookup_fmap, lookup_seq_lt by lia. cbn [fmap option_fmap option_map]. change (0 + n)%nat with n. rewrite (ty_heap _ _ Ht).
  unfold item_of. rewrite Hs. cbn [mbind res_bind it_ID Clock]. unfold Item_Len. cbn [it_Content Len]. rewrite HL, En.
  rewrite (clock_of_S _ _ _ Hs) in *. rewrite En in Hb. rewrite (clock_of_S _ _ _ Hs) in Hb.
  rewrite u64_small, s64_small by (unfold MaxSafeInteger, two63, two64, clock_of in *; lia).
  rewrite (proj2 (Z.eqb_eq _ _)) by lia. done.
Qed.

(** ** The next piece *)

Section Step.
Context (ts : list bytes) (s : bytes).
Context (Hp : Forall plain (ts ++ [s])) (Hb : clock_of (ts ++ [s]) (S (length ts)) <= MaxSafeInteger).

Lemma step_bounds :
  Forall plain ts /\ plain s /\ clock_of (ts ++ [s]) (length ts) = clock_of ts (length ts)
  /\ clock_of ts (length ts) + Z.of_nat (length s) <= MaxSafeInteger.
Proof.
  apply Forall_app in Hp as [H1 [H2 _]%Forall_cons]. pose proof (clock_snoc ts s (length ts) ltac:(lia)) as Hc.
  do 3 (split; [done|]). rewrite <- Hc. rewrite <- (clock_of_S (ts ++ [s]) (length ts) s); [done|by apply list_lookup_middle].
Qed.

Lemma item_of_old i : (S i < length ts)%nat -> item_of (ts ++ [s]) i = item_of ts i.
Proof.
  intros Hi. unfold item_of. rewrite lookup_app_l by lia. destruct (ts !! i); [|done].
  rewrite clock_snoc by lia. rewrite length_app. rewrite !(proj2 (Nat.ltb_lt _ _)) by (cbn; lia). done.
Qed.

Lemma item_of_last i : S i = length ts -> item_of (ts ++ [s]) i = set_right (Some (spot (length ts))) <$> item_of ts i.
Proof.
  intros Hi. unfold item_of. rewrite lookup_app_l by lia. destruct (ts !! i); [|done].
  rewrite clock_snoc by lia. rewrite length_app, (proj2 (Nat.ltb_lt _ _)), (proj2 (Nat.ltb_ge _ _)) by (cbn; lia).
  by rewrite Hi.
Qed.

Lemma item_of_beyond i : (length ts < i)%nat -> item_of (ts ++ [s]) i = None.
Proof. intros Hi. unfold item_of. rewrite lookup_ge_None_2; [done|]. rewrite length_app. cbn. lia. Qed.

Lemma item_of_new :
  item_of (ts ++ [s]) (length ts)
  = Some (set_parent (Some (TRoot root)) (set_left (match length ts with O => None | S j => Some (spot j) end)
      (typed_item (clock_of ts (length ts)) s))).
Proof.
  unfold item_of. rewrite list_lookup_middle by done. rewrite clock_snoc, length_app, (proj2 (Nat.ltb_ge _ _)) by (cbn; lia).
  by destruct (length ts).
Qed.

Lemma typed_append st1 :
  refs st1 client = map (fun i => RItem (spot i)) (seq 0 (length ts)) ->
  (forall i, heap st1 !! spot i = item_of (ts ++ [s]) i) ->
  size (heap st1) = S (length ts) -> next st1 = spot (S (length ts)) ->
  types st1 !! TRoot root = Some (set_start (Some (spot 0)) (new_root root)) ->
  typed (ts ++ [s]) (append_ (RItem (spot (length ts))) st1).
Proof.
  intros Hr Hh Hsz Hnx Hty. destruct step_bounds as (Hp1 & Hps & Hc & Hle).
  assert (State st1 client = clock_of ts (length ts)) as HS.
  { apply typed_State; [done|lia|done|]. intros i Hi. rewrite Hh. destruct (decide (S i = length ts)) as [E|E].
    - rewrite item_of_last by done. by destruct (item_of ts i).
    - by rewrite item_of_old by lia. }
  assert (ref_id st1 (RItem (spot (length ts))) = NewID client (clock_of ts (length ts))) as Hid.
  { unfold ref_id. cbn [view]. rewrite Hh, item_of_new. done. }
  unfold append_, Append. rewrite Hid. cbn [Client Clock]. rewrite HS, Z.eqb_refl.
  split; cbn [set_clients heap next types]; rewrite ?length_app, ?Nat.add_1_r; try done.
  - unfold refs at 1. cbn [clients set_clients]. rewrite lookup_insert_eq. cbn [default].
    rewrite Hr, seq_S, map_app. done.
  - rewrite Hty. by destruct ts.
Qed.

Lemma settle_string it p n st c :
  it_Content it = ContentString c -> HasParentSub it = false -> (types st !! p ≫= t_item) = None -> settle it p n st = st.
Proof. intros Hc Hs Ht. unfold settle, owner_deleted. by rewrite Hc, Hs, Ht. Qed.

(** The first piece becomes the head of its root. *)
Lemma place_first st :
  ts = [] -> typed ts st ->
  typed (ts ++ [s]) (place (set_parent (Some (TRoot root)) (typed_item 0 s)) (new_type (TRoot root) (new_root root) st)).
Proof.
  intros E Ht. unfold place. cbn [parent set_parent]. set (st0 := new_type _ _ st).
  assert (types st0 !! TRoot root = Some (new_root root)) as Hty by apply lookup_insert_eq.
  assert (refs st0 client = refs st client /\ heap st0 = heap st /\ next st0 = next st) as (H1 & H2 & H3) by done. clearbody st0.
  assert (type_start st0 (TRoot root) = None) as Hst by (unfold type_start; by rewrite Hty).
  change (in_conflict st0 (set_parent (Some (TRoot root)) (typed_item 0 s))) with true. cbn iota.
  assert (resolveConflict st0 (set_parent (Some (TRoot root)) (typed_item 0 s)) (TRoot root) = None) as ->.
  { unfold resolveConflict. cbn [left set_parent typed_item HasParentSub]. rewrite Hst. by destruct (size (heap st0)). }
  unfold link_left. cbn [left set_left HasParentSub set_parent typed_item]. rewrite Hst.
  unfold link_right. cbn [right set_right HasParentSub set_left set_parent typed_item].
  replace (next st0) with (spot (length ts)) by (rewrite H3; symmetry; apply Ht).
  erewrite settle_string; [|done|done|].
  2: { unfold append_, Append. case_if; cbn; by rewrite lookup_alter_eq, Hty. }
  apply typed_append; cbn -[typed_item].
  - unfold refs in H1 |- *. cbn. rewrite H1. apply Ht.
  - intros i. rewrite H2, H3, (ty_next _ _ Ht). destruct (decide (i = length ts)) as [->|Hne].
    + rewrite lookup_insert_eq, item_of_new. by rewrite E.
    + rewrite lookup_insert_ne by (intros H%spot_inj; congruence). rewrite (ty_heap _ _ Ht).
      rewrite item_of_beyond by (rewrite E in *; cbn in *; lia). by rewrite E.
  - rewrite H2, H3, map_size_insert_None, (ty_size _ _ Ht); [done|]. rewrite (ty_next _ _ Ht), (ty_heap _ _ Ht). by rewrite E.
  - rewrite H3, (ty_next _ _ Ht). unfold spot. lia.
  - rewrite lookup_alter_eq, Hty. cbn. by rewrite E.
Qed.

(** Every other piece is linked behind the last. *)
Lemma place_next st m :
  length ts = S m -> typed ts st ->
  typed (ts ++ [s]) (place (set_Sub false [] (set_parent (Some (TRoot root)) (set_left (Some (spot m)) (typed_item (clock_of ts (length ts)) s)))) st).
Proof.
  intros E Ht. assert (exists x, item_of ts m = Some x /\ right x = None) as (x & Hx & Hrx).
  { unfold item_of. destruct (lookup_lt_is_Some_2 ts m ltac:(lia)) as [t Hm]. rewrite Hm. eexists. split; [done|]. cbn [right].
    by rewrite (proj2 (Nat.ltb_ge _ _)) by lia. }
  pose proof (ty_heap _ _ Ht m) as Hm. rewrite Hx in Hm.
  assert (right_of st (spot m) = None) as Hro by (unfold right_of; by rewrite Hm).
  assert (types st !! TRoot root = Some (set_start (Some (spot 0)) (new_root root))) as Hty.
  { rewrite (ty_type _ _ Ht). by destruct ts. }
  unfold place. cbn [parent set_Sub set_parent]. set (it := set_Sub _ _ _).
  assert (in_conflict st it = false) as ->.
  { unfold in_conflict, it. cbn [left set_Sub set_parent set_left right typed_item]. rewrite Hro. apply bool_decide_eq_false_2. auto. }
  unfold link_left. change (left it) with (Some (spot m)). cbn iota. rewrite Hro.
  unfold link_right. cbn [right set_right HasParentSub]. change (HasParentSub it) with false. cbn iota.
  rewrite (ty_next _ _ Ht).
  erewrite settle_string; [|done|done|].
  2: { unfold append_, Append. case_if; cbn; by rewrite Hty. }
  apply typed_append; cbn -[typed_item it].
  - apply Ht.
  - intros i. rewrite (ty_next _ _ Ht). destruct (decide (i = length ts)) as [->|Hne].
    + rewrite lookup_insert_eq, item_of_new. unfold it. by rewrite E.
    + rewrite lookup_insert_ne by (intros H%spot_inj; congruence). destruct (decide (i = m)) as [->|Hnm].
      * rewrite lookup_alter_eq, (ty_heap _ _ Ht), item_of_last by done. done.
      * rewrite lookup_alter_ne by (intros H%spot_inj; congruence). rewrite (ty_heap _ _ Ht).
        destruct (decide (i < m)%nat); [by rewrite item_of_old by lia|].
        rewrite item_of_beyond by lia. unfold item_of. by rewrite lookup_ge_None_2 by lia.
  - rewrite (ty_next _ _ Ht), map_size_insert_None.
    + f_equal. rewrite <- (ty_size _ _ Ht), <- !(size_dom (D := gset loc)). by rewrite dom_alter_L.
    + rewrite lookup_alter_ne by (intros H%spot_inj; lia). rewrite (ty_heap _ _ Ht).
      unfold item_of. by rewrite lookup_ge_None_2 by lia.
  - rewrite (ty_next _ _ Ht). unfold spot. lia.
  - done.
Qed.

Lemma resolve_first st :
  ts = [] -> typed ts st ->
  resolve_item (typed_item 0 s) st = Some (set_parent (Some (TRoot root)) (typed_item 0 s), new_type (TRoot root) (new_root root) st).
Proof.
  intros E Ht. change (resolve_item (typed_item 0 s) st)
    with (Some (let '(t, st) := Get root st in (set_parent (Some t) (typed_item 0 s), st))).
  unfold Get. by rewrite (ty_type _ _ Ht), E.
Qed.

Lemma resolve_next st m :
  store_wf st -> length ts = S m -> typed ts st ->
  resolve_item (typed_item (clock_of ts (length ts)) s) st
  = Some (set_Sub false [] (set_parent (Some (TRoot root)) (set_left (Some (spot m)) (typed_item (clock_of ts (length ts)) s))), st).
Proof.
  intros Hwf E Ht. destruct step_bounds as (Hp1 & _ & _ & Hle).
  pose proof (clock_pos ts m Hp1 ltac:(lia)) as Hpos. rewrite <- E in Hpos.
  pose proof (typed_neighbour ts st Hwf Ht Hp1 ltac:(lia) ltac:(by intros ->)) as Hn. rewrite E in Hn at 2. cbn [pred] in Hn.
  destruct (item_of ts m) as [x|] eqn:Hx.
  2: { unfold item_of in Hx. destruct (lookup_lt_is_Some_2 ts m ltac:(lia)) as [t Hm]. by rewrite Hm in Hx. }
  pose proof (ty_heap _ _ Ht m) as Hm. rewrite Hx in Hm.
  destruct (GetItemCleanEnd_spec (NewID client (clock_of ts (length ts) - 1)) _ _ _ Hwf ltac:(apply Z.ltb_lt in Hpos; cbn; lia) Hn) as (_ & _ & y & _ & Hy & Hl & _).
  rewrite Hm in Hy. injection Hy as <-.
  assert (parent x = Some (TRoot root) /\ HasParentSub x = false /\ ParentSub x = []) as (X1 & X2 & X3).
  { unfold item_of in Hx. destruct (ts !! m); [|done]. by injection Hx as <-. }
  unfold resolve_item, missing, parent_item, typed_item. cbn [Origin Parent RightOrigin it_ID Client]. rewrite Hpos.
  cbn [Client]. rewrite Z.eqb_refl. cbn [negb andb orb].
  unfold resolve_left. cbn [Origin]. rewrite Hn, Hm, Hl. unfold resolve_right. cbn [RightOrigin set_Origin set_left].
  unfold resolve_parent, set_Origin, set_left. cbn [Parent left right]. unfold inherit. by rewrite Hm, X1, X2, X3.
Qed.

(** The piece arrives: it is consumed, and the text goes on. *)
Lemma drain_piece st :
  store_wf st -> typed ts st ->
  exists st', drain [SItem (typed_item (clock_of ts (length ts)) s)] st = ([], st', true) /\ typed (ts ++ [s]) st'.
Proof.
  intros Hwf Ht. destruct step_bounds as (Hp1 & [Hns HL] & _ & Hle).
  pose proof (typed_heap_State ts st Hp1 ltac:(lia) Ht) as HS.
  assert (0 < Z.of_nat (length s)) by (destruct s; cbn in *; [done|lia]).
  cbn [drain]. change (StructID _) with (NewID client (clock_of ts (length ts))). cbn [Client Clock]. rewrite HS, Z.ltb_irrefl, Z.sub_diag.
  change (s64 (u64 0)) with 0. change (StructLen _) with (UTF16Length s).
  rewrite HL, (proj2 (Z.leb_gt _ _)) by lia. cbn [resolve].
  destruct (decide (ts = [])) as [Ets|Hne].
  - replace (clock_of ts (length ts)) with 0 by (by rewrite Ets).
    rewrite resolve_first by done. eexists. split; [reflexivity|]. by apply place_first.
  - assert (exists m, length ts = S m) as [m E] by (clear -Hne; destruct ts as [|? l]; [done|by exists (length l)]).
    rewrite (resolve_next st m) by done. eexists. split; [reflexivity|]. by apply place_next.
Qed.
End Step.

(** The update arrives. *)
Lemma apply_piece ts s d :
  Forall plain (ts ++ [s]) -> clock_of (ts ++ [s]) (S (length ts)) <= MaxSafeInteger ->
  store_wf (store d) -> typed ts (store d) -> pending d = [] -> pendingDeletes d = ∅ ->
  exists d', ApplyUpdate (buildUpdate client (clock_of ts (length ts)) root s) d = Ok d'
    /\ typed (ts ++ [s]) (store d') /\ pending d' = [] /\ pendingDeletes d' = ∅.
Proof.
  intros Hp Hb Hwf Ht Hpe Hpd. destruct (step_bounds ts s Hp Hb) as (_ & _ & _ & Hle).
  destruct (drain_piece ts s Hp Hb (store d) Hwf Ht) as (st' & Hd & Ht').
  unfold ApplyUpdate. rewrite buildUpdate_decodes by (unfold safe, short, clock_of in *; lia). cbn [mbind res_bind].
  exists (set_store st' d). split; [|done]. f_equal.
  unfold ApplyDecodedUpdate, integrate, typed_update. cbn [Clients Deletes].
  set (k := clock_of ts (length ts)) in *.
  assert (queues [MkBlock client k [SItem (typed_item k s)]] = ([client], {[client := [SItem (typed_item k s)]]})) as ->.
  { unfold queues. cbn. unfold queue_of. by rewrite lookup_empty. }
  cbn [struct_count length Structs list_sum map foldr plus rounds round].
  unfold queue_of at 1. rewrite lookup_singleton_eq. cbn [default id]. rewrite Hd. cbn [orb].
  change (struct_count _) with 1%nat. cbn [rounds round]. unfold queue_of at 1. rewrite lookup_insert_eq.
  cbn [default id drain orb leftover omap list_omap]. unfold queue_of at 1. rewrite lookup_insert_eq. cbn [default id].
  assert (iter (∅ : DeleteSet) = []) as Hi by (apply Permutation_nil_r; rewrite iter_perm; by rewrite map_to_list_empty).
  unfold applyDeleteSet. rewrite Hi. cbn [foldl]. unfold retryPending. cbn [pending set_store].
  rewrite Hpe. cbn [pending_structs sum_list_with retry_loop]. change (pending (set_store st' d)) with (pending d). rewrite Hpe.
  change (pendingDeletes (set_store st' d)) with (pendingDeletes d). by rewrite Hpd.
Qed.

(** ** Reading it back *)

Lemma walk_typed ts st : typed ts st ->
  forall n i, (i + n = length ts)%nat ->
  walk n st (if (i <? length ts)%nat then Some (spot i) else None) = map spot (seq i n).
Proof.
  intros Ht n. induction n as [|n IH]; intros i Hi; [done|].
  rewrite (proj2 (Nat.ltb_lt _ _)) by lia. cbn [walk seq map]. rewrite (ty_heap _ _ Ht). unfold item_of.
  destruct (lookup_lt_is_Some_2 ts i ltac:(lia)) as [t Hit]. rewrite Hit. cbn [right]. f_equal. apply IH. lia.
Qed.

Lemma texts_typed ts st : typed ts st ->
  forall n i, (i + n = length ts)%nat ->
  map item_text (omap (fun l => heap st !! l) (map spot (seq i n))) = drop i ts.
Proof.
  intros Ht n. induction n as [|n IH]; intros i Hi; [by rewrite drop_ge by lia|].
  destruct (lookup_lt_is_Some_2 ts i ltac:(lia)) as [t Hit]. rewrite (drop_S _ _ _ Hit), <- (IH (S i)) by lia.
  cbn [seq map omap list_omap]. rewrite (ty_heap _ _ Ht). unfold item_of. by rewrite Hit.
Qed.

Lemma typed_text ts st : typed ts st -> YText_String st (TRoot root) = concat ts.
Proof.
  intros Ht. unfold YText_String, sequence, items_from, type_of. rewrite (ty_type _ _ Ht), (ty_size _ _ Ht).
  destruct (decide (ts = [])) as [->|Hne]; [done|].
  assert (start (default (newAbstractType typeRefUnknown)
    (match ts with [] => None | _ => Some (set_start (Some (spot 0)) (new_root root)) end)) = Some (spot 0)) as -> by (by destruct ts).
  pose proof (walk_typed ts st Ht (length ts) 0 ltac:(lia)) as Hw.
  rewrite (proj2 (Nat.ltb_lt 0 (length ts))) in Hw by (destruct ts; cbn; [done|lia]). by rewrite Hw, (texts_typed ts st Ht).
Qed.

Lemma typed_update_fits clock s :
  0 <= clock -> clock + UTF16Length s < two63 -> update_ok_for (typed_update clock s).
Proof.
  intros Hk Hs. split.
  - apply Forall_singleton, Forall_singleton. unfold struct_fits. cbn. unfold Item_Len. cbn.
    pose proof (UTF16Length_nonneg s). unfold parent_item. cbn [Parent typed_item].
    destruct (0 <? clock) eqn:E; split_and!; try done. apply Z.ltb_lt in E. intros id [= <-]. cbn. lia.
  - by intros ds [= <-] c rs H%lookup_empty_Some.
Qed.

(** Applying the pieces one by one. *)
Lemma typed_chain texts : forall ts d,
  doc_inv d -> Forall plain (ts ++ texts) -> Z.of_nat (length (concat (ts ++ texts))) <= MaxSafeInteger ->
  typed ts (store d) -> pending d = [] -> pendingDeletes d = ∅ ->
  exists d', type_chain client (clock_of ts (length ts)) root texts d = Ok d'
    /\ typed (ts ++ texts) (store d') /\ pending d' = [] /\ doc_inv d'.
Proof.
  induction texts as [|s texts IH]; intros ts d Hr Hp Hb Ht Hpe Hpd.
  { exists d. by rewrite app_nil_r. }
  rewrite cons_middle, app_assoc in Hp, Hb. pose proof Hp as Hp'. apply Forall_app in Hp' as [Hp1 _].
  assert (clock_of (ts ++ [s]) (S (length ts)) = Z.of_nat (length (concat (ts ++ [s])))) as Hc.
  { unfold clock_of. by rewrite take_ge by (rewrite length_app; cbn; lia). }
  assert (clock_of (ts ++ [s]) (S (length ts)) <= MaxSafeInteger) as Hb1 by (rewrite Hc; rewrite concat_app, length_app in Hb; lia).
  destruct (apply_piece ts s d Hp1 Hb1 (inv_wf _ (di_store _ Hr)) Ht Hpe Hpd) as (d1 & Ha & Ht1 & Hpe1 & Hpd1).
  destruct (step_bounds ts s Hp1 Hb1) as (_ & [_ HL] & Hc0 & Hle). cbn [type_chain]. rewrite Ha. cbn [mbind res_bind].
  assert (u64 (clock_of ts (length ts) + Z.of_nat (length s)) = clock_of (ts ++ [s]) (length (ts ++ [s]))) as ->.
  { rewrite u64_small by (unfold clock_of, MaxSafeInteger, two64 in *; lia). rewrite <- Hc0, length_app, Nat.add_1_r.
    symmetry. apply clock_of_S. by apply list_lookup_middle. }
  change (s :: texts) with ([s] ++ texts). rewrite (app_assoc ts [s] texts). apply IH; try done.
  unfold ApplyUpdate in Ha. rewrite buildUpdate_decodes in Ha by (unfold safe, short, clock_of in *; lia). injection Ha as <-.
  apply ApplyDecodedUpdate_ok; [done|]. apply typed_update_fits; [unfold clock_of; lia|].
  rewrite HL. unfold MaxSafeInteger, two63 in *. lia.
Qed.

Lemma typed_nothing c0 : typed [] (store (NewDoc c0)).
Proof. by split. Qed.

Lemma typed_text_reads_ok c0 texts :
  Forall plain texts -> Z.of_nat (length (concat texts)) <= MaxSafeInteger ->
  exists d, type_chain client 0 root texts (NewDoc c0) = Ok d
    /\ PendingCount d = 0%nat
    /\ YText_String (store d) (TRoot root) = concat texts
    /\ YText_String (Get root (store d)).2 (Get root (store d)).1 = concat texts
    /\ State (store d) client = Z.of_nat (length (concat texts)).
Proof.
  intros Hp Hb. destruct (typed_chain texts [] (NewDoc c0) (NewDoc_inv c0) Hp Hb (typed_nothing c0) eq_refl eq_refl)
    as (d & Hd & Ht & Hpe & _).
  exists d. split; [exact Hd|]. split; [unfold PendingCount; by rewrite Hpe|]. cbn [app] in Ht.
  split; [by apply typed_text|]. split.
  - unfold Get. destruct (types (store d) !! TRoot root) eqn:E; [by apply typed_text|]. cbn [fst snd].
    destruct texts; [|by rewrite (ty_type _ _ Ht) in E]. unfold YText_String, sequence, items_from, type_of.
    cbn [types new_type]. rewrite lookup_insert_eq. cbn. by destruct (size _).
  - rewrite (typed_heap_State texts); [|done| |done]; unfold clock_of; by rewrite take_ge.
Qed.

(** C9. Typed ASCII text reads back.  Pieces of text, not empty and with every UTF-16 unit
    one byte, typed one after the other at the end of a client's own text as the updates
    the bot builds, are all accepted by a new document, nothing stays pending, and the
    root reads as their concatenation; the client's clock is its length.  (The bot counts
    bytes: after other text the next piece would wait, [wide_text_waits].) *)
Theorem typed_text_reads_back c0 texts :
  Forall plain texts -> Z.of_nat (length (concat texts)) <= MaxSafeInteger ->
  exists d, type_chain client 0 root texts (NewDoc c0) = Ok d
    /\ PendingCount d = 0%nat
    /\ YText_String (Get root (store d)).2 (Get root (store d)).1 = concat texts
    /\ State (store d) client = Z.of_nat (length (concat texts)).
Proof. intros Hp Hb. destruct (typed_text_reads_ok c0 texts Hp Hb) as (d & ? & ? & _ & ? & ?). eauto. Qed.
End Chain.

(** The bot's check of itself passes, whatever root it is given. *)
Lemma selfTest_passes root : short root -> selfTest root = Passed.
Proof.
  intros Hr. unfold selfTest.
  destruct (typed_text_reads_ok 424242 root ltac:(done) Hr 1 [str "hello "; str "load "; str "bot"]) as (d & -> & -> & _ & HY & _).
  - repeat constructor; try done.
  - done.
  - cbn [negb Nat.eqb]. destruct (Get root (store d)) as [p st]. cbn [fst snd] in HY. rewrite HY. by rewrite decide_True.
Qed.
End SelfTest.

Lemma typed_text_reads_back_witness :
  exists d, @type_chain any_order 7 0 (str "t") [str "ab"; str "c"] (NewDoc 1) = Ok d
    /\ State (store d) 7 = 3.
Proof.
  destruct (@typed_text_reads_back any_order 7 (str "t") ltac:(done) ltac:(done) 1 [str "ab"; str "c"]) as (d & H1 & _ & _ & H2).
  - repeat constructor; done.
  - done.
  - exists d. split; [exact H1|exact H2].
Defined.

(** Two bytes, one UTF-16 unit: the piece after them starts a clock too far. *)
Example wide_text_waits :
  (d ← @type_chain any_order 7 0 (str "t") [[195; 169]; str "x"] (NewDoc 1); Ok (PendingCount d)) = Ok 1%nat.
Proof. vm_compute. reflexivity. Qed.
