(* ===== verification/Memory.v ===== *)
(** * What a document weighs

    [internal/crdt/memory.go]: the estimate of a document's heap cost that the room
    reports and the registry budgets with.  [unsafe.Sizeof] is taken for a 64-bit build.
    The capacity of a slice is its length and what [append] reserved beyond it, which the
    lists of the model do not have: the spare room is an argument, never negative. *)

From stdpp Require Import strings.
From S2P Require Import Prelude Lib0 Any Content StateVector DeleteSet Struct Update StructStore Doc Links Invariant Integrate Deletion Apply Sync Views LoadBot.

(** ** Sizes *)

Definition ptrSize : Z := 8.
Definition stringSize : Z := 16.
Definition idSize : Z := 16.
Definition ifaceSize : Z := 16.
Definition sliceHeader : Z := 24.
Definition mapEntry : Z := 8 + sliceHeader.
(** [ID] and [Length]. *)
Definition gcSize : Z := idSize + 8.
(** [IsRoot], [Name], [Item]. *)
Definition parentSize : Z := 8 + stringSize + idSize.
(** [ID]; [Origin], [RightOrigin], [Parent]; [HasParentSub]; [ParentSub]; [Content]; [left],
    [right], [parent]; [deleted] and [keep]. *)
Definition itemSize : Z := idSize + 3 * ptrSize + 8 + stringSize + ifaceSize + 3 * ptrSize + 8.
(** [TypeRef], [Name], [start], [mapItems], [item], [rootName]. *)
Definition typeSize : Z := 8 + stringSize + 3 * ptrSize + stringSize.

Definition len_ {A} (l : list A) : Z := Z.of_nat (length l).
Definition total {A} (f : A -> Z) (l : list A) : Z := foldr (fun x n => f x + n) 0 l.

Record Usage_ := MkUsage_ { U_Structs : Z; U_Clients : Z; U_Bytes : Z; U_Pending : Z }.

Section Usage.
(** What [append] reserved for a byte slice, for a client's structs, for a block's. *)
Context (spare : bytes -> Z) (spare_structs : Z -> Z) (spare_block : ClientBlock -> Z).

Fixpoint anyBytes (a : any) : Z :=
  match a with
  | AnyString s => ifaceSize + len_ s
  | AnyBytes b => ifaceSize + (len_ b + spare b)
  | AnyArray l => ifaceSize + total anyBytes l
  | AnyMap m => ifaceSize + total (fun x => len_ x.1 + mapEntry + anyBytes x.2) m
  (** [nil], numbers, booleans; and [*Object]. *)
  | _ => ifaceSize
  end.

Definition typeHeaderBytes (t : AbstractType) : Z :=
  typeSize + len_ (T_Name t) + total (fun x => len_ x.1 + mapEntry) (map_to_list (mapItems t)).

(** [nested] is the type a [ContentType] holds: the registered one once integrated. *)
Definition contentBytes (nested : AbstractType) (c : Content) : Z :=
  match c with
  | ContentDeleted _ => 8
  | ContentString s => stringSize + len_ s
  | ContentBinary b => sliceHeader + (len_ b + spare b)
  | ContentEmbed j => stringSize + len_ j
  | ContentFormat k v => 2 * stringSize + (len_ k + len_ v)
  | ContentJSON vs => sliceHeader + total (fun s => stringSize + len_ s) vs
  | ContentAny vs => sliceHeader + total anyBytes vs
  | ContentType _ _ => ptrSize + typeHeaderBytes nested
  | ContentDoc g _ => stringSize + ifaceSize + len_ g
  end.

Definition fresh_type (c : Content) : AbstractType :=
  match c with ContentType tr name => MkType tr name None ∅ None [] | _ => newAbstractType 0 end.

Definition structBytes (nested : Item -> AbstractType) (s : Struct) : Z :=
  match s with
  | SItem v =>
      let n := itemSize in
      let n := match Origin v with Some _ => n + idSize | None => n end in
      let n := match RightOrigin v with Some _ => n + idSize | None => n end in
      let n := match Parent v with Some p => n + (parentSize + len_ (PName p)) | None => n end in
      let n := n + len_ (ParentSub v) in
      n + contentBytes (nested v) (it_Content v)
  | SGC _ _ => gcSize
  | SSkip _ _ => ifaceSize
  end.

(** A struct of the store: its type is the one registered under its address. *)
Definition refBytes (st : Store) (r : StructRef) : Z :=
  structBytes (fun v => match r with
                        | RItem l => default (fresh_type (it_Content v)) (types st !! TNested l)
                        | _ => fresh_type (it_Content v)
                        end) (view (heap st) r).

Definition updateBytes (u : Update) : Z :=
  total (fun b => (len_ (Structs b) + spare_block b) * ifaceSize
                  + total (structBytes (fun v => fresh_type (it_Content v))) (Structs b)) (Clients u).

Definition clientBytes (st : Store) (x : Z * list StructRef) : Z :=
  (len_ x.2 + spare_structs x.1) * ifaceSize + total (refBytes st) x.2.

Definition Doc_Usage (d : Doc) : Usage_ :=
  let cs := map_to_list (clients (store d)) in
  MkUsage_ (total (fun x => len_ x.2) cs) (len_ cs)
    (len_ cs * (mapEntry + sliceHeader) + total (clientBytes (store d)) cs + total updateBytes (pending d))
    (len_ (pending d)).

(** The figures the room keeps. *)
Definition room_usage (d : Doc) : Z * Z := (U_Bytes (Doc_Usage d), U_Structs (Doc_Usage d)).

(** ** The estimate is a floor *)

Context (Hspare : forall b, 0 <= spare b) (Hspares : forall c, 0 <= spare_structs c) (Hspareb : forall b, 0 <= spare_block b).

Lemma total_cons {A} (f : A -> Z) x l : total f (x :: l) = f x + total f l.
Proof. done. Qed.

Lemma total_app {A} (f : A -> Z) a b : total f (a ++ b) = total f a + total f b.
Proof. induction a as [|x a IH]; [done|]. cbn [app]. rewrite !total_cons, IH. lia. Qed.

Lemma total_le {A} (f g : A -> Z) l : (forall x, x ∈ l -> f x <= g x) -> total f l <= total g l.
Proof.
  induction l as [|x l IH]; intros H; cbn; [done|]. specialize (IH (fun y Hy => H y (list_elem_of_further _ _ _ Hy))).
  specialize (H x (list_elem_of_here _ _)). unfold total in *. lia.
Qed.

Lemma total_nonneg {A} (f : A -> Z) l : (forall x, x ∈ l -> 0 <= f x) -> 0 <= total f l.
Proof. intros H. apply (total_le (fun _ => 0)) in H. etrans; [|exact H]. clear. induction l as [|x l IH]; [done|exact IH]. Qed.

(** The text an item holds, live or deleted. *)
Definition text_held (s : Struct) : Z :=
  match s with SItem v => match it_Content v with ContentString t => len_ t | _ => 0 end | _ => 0 end.

Fixpoint anyBytes_nonneg (a : any) : 0 <= anyBytes a.
Proof.
  destruct a; cbn; unfold ifaceSize, len_; try lia.
  - specialize (Hspare b). lia.
  - assert (0 <= total anyBytes l) as H; [|unfold total in *; lia].
    induction l as [|x l IH]; [done|]. change (0 <= anyBytes x + total anyBytes l). pose proof (anyBytes_nonneg x). lia.
  - assert (0 <= total (fun x => len_ x.1 + mapEntry + anyBytes x.2) entries) as H; [|unfold total, len_ in *; lia].
    induction entries as [|[k x] l IH]; [done|].
    change (0 <= (len_ k + mapEntry + anyBytes x) + total (fun x => len_ x.1 + mapEntry + anyBytes x.2) l).
    pose proof (anyBytes_nonneg x). unfold mapEntry, sliceHeader, len_ in *. lia.
Qed.

Lemma contentBytes_floor nested c : match c with ContentString t => len_ t | _ => 0 end <= contentBytes nested c.
Proof.
  destruct c; cbn [contentBytes]; unfold typeHeaderBytes, typeSize, stringSize, sliceHeader, ptrSize, ifaceSize, len_; try lia.
  - assert (0 <= total (fun s => stringSize + len_ s) Values); [|unfold stringSize, len_ in *; lia].
    apply total_nonneg. unfold stringSize, len_. intros; lia.
  - specialize (Hspare Data). lia.
  - assert (0 <= total (fun x => len_ x.1 + mapEntry) (map_to_list (mapItems nested))); [|unfold len_ in *; lia].
    apply total_nonneg. unfold mapEntry, sliceHeader, len_. intros; lia.
  - assert (0 <= total anyBytes Values); [|lia]. apply total_nonneg. intros x _. apply anyBytes_nonneg.
Qed.

Lemma structBytes_floor nested s : match s with SSkip _ _ => False | _ => True end ->
  gcSize + text_held s <= structBytes nested s.
Proof.
  destruct s as [| |v]; cbn; [unfold gcSize; lia|done|]. intros _.
  pose proof (contentBytes_floor (nested v) (it_Content v)) as H.
  unfold itemSize, gcSize, parentSize, idSize, stringSize, ifaceSize, ptrSize, len_ in *.
  destruct (Origin v), (RightOrigin v), (Parent v); lia.
Qed.

Lemma structBytes_nonneg nested s : 0 <= structBytes nested s.
Proof.
  destruct s as [id n|id n|v] eqn:E; [done..|]. rewrite <- E. pose proof (structBytes_floor nested s) as H.
  subst s. specialize (H I). etrans; [|exact H]. cbn. unfold gcSize, idSize, len_. destruct (it_Content v); lia.
Qed.

Lemma updateBytes_nonneg u : 0 <= updateBytes u.
Proof.
  apply total_nonneg. intros b _. specialize (Hspareb b).
  assert (0 <= total (structBytes (fun v => fresh_type (it_Content v))) (Structs b)).
  { apply total_nonneg. intros s _. apply structBytes_nonneg. }
  unfold ifaceSize, len_ in *. lia.
Qed.

(** The text a document holds, live or deleted. *)
Definition doc_text (d : Doc) : Z :=
  total (fun x => total (fun r => text_held (view (heap (store d)) r)) x.2) (map_to_list (clients (store d))).

Lemma total_split {A} (f g : A -> Z) l : total (fun x => f x + g x) l = total f l + total g l.
Proof. induction l as [|x l IH]; [done|]. rewrite !total_cons, IH. cbn beta. lia. Qed.

Lemma total_const {A} (k : Z) (l : list A) : total (fun _ => k) l = k * len_ l.
Proof. induction l as [|x l IH]; [by rewrite Z.mul_0_r|]. rewrite total_cons, IH. unfold len_. cbn [length]. lia. Qed.

Lemma clientBytes_floor st c rs :
  (forall r, r ∈ rs -> match view (heap st) r with SSkip _ _ => False | _ => True end) ->
  (gcSize + ifaceSize) * len_ rs + total (fun r => text_held (view (heap st) r)) rs <= clientBytes st (c, rs).
Proof.
  intros Hr. unfold clientBytes. cbn [fst snd].
  assert (total (fun r => gcSize + text_held (view (heap st) r)) rs <= total (refBytes st) rs) as H.
  { apply total_le. intros r Hin. apply structBytes_floor. by apply Hr. }
  rewrite total_split, total_const in H. specialize (Hspares c). unfold ifaceSize, len_ in *. lia.
Qed.

(** Every struct is counted and weighed, and the text, live or deleted, with it. *)
Lemma usage_floor d : store_inv (store d) ->
  let u := Doc_Usage d in
  (gcSize + ifaceSize) * U_Structs u + doc_text d <= U_Bytes u
  /\ U_Structs u = total (fun x => len_ x.2) (map_to_list (clients (store d))).
Proof.
  intros Hinv. split; [|done]. unfold Doc_Usage, doc_text. cbn [U_Structs U_Bytes].
  set (cs := map_to_list (clients (store d))).
  assert (0 <= total updateBytes (pending d)) by (apply total_nonneg; intros u _; apply updateBytes_nonneg).
  assert (total (fun x => (gcSize + ifaceSize) * len_ x.2 + total (fun r => text_held (view (heap (store d)) r)) x.2) cs
    <= total (clientBytes (store d)) cs) as H1.
  { apply total_le. intros [c rs] Hin. apply clientBytes_floor. intros r Hr. apply elem_of_map_to_list in Hin.
    assert (refs (store d) c = rs) as Hrs by (unfold refs; by rewrite Hin).
    pose proof (inv_noskip _ Hinv c r) as Hns. rewrite Hrs in Hns. specialize (Hns Hr).
    destruct r as [| |l]; [done..|]. cbn. rewrite <- Hrs in Hr. apply list_elem_of_lookup in Hr as [i Hi].
    by destruct (ref_item _ _ _ _ (inv_wf _ Hinv) Hi) as (it & -> & _). }
  rewrite total_split in H1.
  assert (total (fun x : Z * list StructRef => (gcSize + ifaceSize) * len_ x.2) cs = (gcSize + ifaceSize) * total (fun x => len_ x.2) cs) as H2.
  { clear. induction cs as [|x cs IH]; [done|]. rewrite !total_cons, IH. cbn beta. lia. }
  assert (0 <= len_ cs * (mapEntry + sliceHeader)) by (unfold mapEntry, sliceHeader, len_; lia). lia.
Qed.
End Usage.

(** Deleting an item frees nothing: its content stays and is still weighed. *)
Lemma deletion_frees_nothing spare spare_structs spare_block l d :
  Doc_Usage spare spare_structs spare_block (set_store (deleteItem l (store d)) d) = Doc_Usage spare spare_structs spare_block d.
Proof.
  assert (forall st r, refBytes spare (deleteItem l st) r = refBytes spare st r) as Hr.
  { intros st r. unfold refBytes, deleteItem. destruct (heap st !! l) as [it|] eqn:El; [|done]. destruct (deleted it); [done|].
    destruct r as [| |k]; [done..|]. cbn [types upd_item heap view]. destruct (decide (k = l)) as [->|Hne].
    - by rewrite lookup_alter_eq, El.
    - by rewrite lookup_alter_ne. }
  unfold Doc_Usage. cbn [store set_store pending].
  assert (clients (deleteItem l (store d)) = clients (store d)) as ->.
  { unfold deleteItem. destruct (heap (store d) !! l) as [it|]; [|done]. by destruct (deleted it). }
  f_equal. f_equal. f_equal. generalize (map_to_list (clients (store d))). intros cs.
  induction cs as [|x cs IH]; [done|]. rewrite !total_cons, IH. f_equal. unfold clientBytes. f_equal.
  generalize x.2. intros rs. induction rs as [|r rs IHr]; [done|]. by rewrite !total_cons, IHr, Hr.
Qed.

(** ** A value the estimate does not see *)

#[local] Existing Instance any_order.

(** One client, one item holding [v] in the root "m". *)
Definition holding (v : any) : res Doc :=
  b ← Encode no_parent (MkUpdate [MkBlock 1 0
        [SItem (MkItem (NewID 1 0) None None (Some (MkParent true (str "m") zeroID)) false [] (ContentAny [v]) None None None false false)]]
        (Some ∅));
  ApplyUpdate b (NewDoc 9).

Definition weight (r : res Doc) : option Z :=
  match r with Ok d => Some (U_Bytes (Doc_Usage (fun _ => 0) (fun _ => 0) (fun _ => 0) d)) | Err _ => None end.

Definition page : bytes := replicate 1000 97.

(** A string is weighed; in an object, which is how the decoder reads every map, it weighs
    as much as a null. *)
Example objects_weigh_nothing :
  weight (holding (AnyString page)) = Some 1265 /\ weight (holding (AnyObject [(str "k", AnyString page)])) = weight (holding AnyNil)
  /\ weight (holding AnyNil) = Some 265.
Proof. vm_compute. done. Qed.
