(* ===== verification/Scenario.v ===== *)
(** A concrete session on which the theorems about documents are instantiated:
    client 1 types "hi" into the root text "t", client 2 types "yo" at the same
    place, and the "h" is deleted.  The bytes are those a Yjs client sends. *)
From S2P Require Import Prelude Lib0 Any Content StateVector DeleteSet Struct Update StructStore Doc Links Invariant Integrate Deletion Apply Sync Skeleton Build Transfer CatchUp Yata Views.

#[local] Existing Instance any_order.

(** ** The session *)

Definition t_name : bytes := [116].
(** One client block, one struct: an item with a string and a root parent. *)
Definition hi_update : bytes := [1; 1; 1; 0; 4; 1; 1; 116; 2; 104; 105; 0].
Definition yo_update : bytes := [1; 1; 2; 0; 4; 1; 1; 116; 2; 121; 111; 0].
(** No struct, one deleted range: clock 0 of client 1. *)
Definition del_update : bytes := [0; 1; 1; 1; 0; 1].

(** A document after updates, skipping those it rejects. *)
Definition after (bs : list bytes) : Doc :=
  foldl (fun d b => match ApplyUpdate b d with Ok d' => d' | Err _ => d end) (NewDoc 9) bs.

Lemma after_reachable bs :
  Forall (fun b => Z.of_nat (length b) < maxLen) bs -> reachable (after bs).
Proof.
  unfold after. generalize (reach_new 9). generalize (NewDoc 9).
  induction bs as [|b bs IH]; intros d Hd Hb; [done|]. apply Forall_cons in Hb as [Hb Hbs].
  cbn [foldl]. apply IH; [|done].
  destruct (ApplyUpdate b d) eqn:E; [by eapply reach_apply|done].
Qed.

Ltac session := apply after_reachable; repeat constructor.

(** The session reads as expected: the texts merge, the deletion removes one
    letter, and the updates commute. *)
Example session_text :
  YText_String (store (after [hi_update; yo_update; del_update])) (TRoot t_name) = [105; 121; 111].
Proof. vm_compute. reflexivity. Qed.

Example session_commutes :
  EncodeStateAsUpdate ∅ (after [del_update; yo_update; hi_update])
  = EncodeStateAsUpdate ∅ (after [hi_update; yo_update; del_update]).
Proof. vm_compute. reflexivity. Qed.

(** ** Documents *)

Lemma reachable_inv_witness : doc_inv (after [hi_update; yo_update]).
Proof. apply reachable_inv. session. Defined.

Lemma ApplyUpdate_grows_witness :
  grows (store (after [hi_update])) (store (after [hi_update; yo_update])).
Proof.
  apply (ApplyUpdate_grows yo_update (after [hi_update]) (after [hi_update; yo_update]));
    [session|done|vm_compute; reflexivity].
Defined.

(** An item of client 2 to the right of clock 0 of client 1. *)
Definition dep_update : bytes := [1; 1; 2; 0; 132; 1; 0; 1; 120; 0].

Lemma ApplyUpdate_maximal_witness : length (pending (after [dep_update])) = 1%nat /\ all_blocked (after [dep_update]).
Proof.
  split; [vm_compute; reflexivity|].
  apply (ApplyUpdate_maximal dep_update (NewDoc 9) (after [dep_update]));
    [apply reach_new|done|vm_compute; reflexivity].
Defined.

(** An item of client 3 at the head of "t". *)
Definition wow : Item :=
  MkItem (NewID 3 0) None None None false [] (ContentString [119]) None None (Some (TRoot t_name)) false false.

Lemma resolveConflict_terminates_witness :
  exists st o, st = store (after [hi_update; yo_update])
    /\ conflict_loop 5 st wow None o ∅ ∅ = resolveConflict st wow (TRoot t_name).
Proof.
  pose proof (resolveConflict_terminates (after [hi_update; yo_update]) wow (TRoot t_name) 5) as H.
  cbv zeta in H. do 2 eexists. split; [reflexivity|].
  eapply (proj1 (H ltac:(session) ltac:(done) ltac:(vm_compute; lia))).
Defined.

Definition del_h : DeleteSet := {[1 := [MkRange 0 1]]}.

Lemma del_h_split : ds_split (store (after [hi_update])) del_h.
Proof.
  intros c. unfold del_h, ranges_of. destruct (decide (c = 1)) as [->|Hne].
  2: { rewrite lookup_singleton_ne by done. constructor. }
  rewrite lookup_singleton_eq. apply Forall_singleton; split; intros l id content b Hl Hb Hk;
    vm_compute in Hl; apply list_elem_of_singleton in Hl as [= ->]; vm_compute in Hb;
    injection Hb as <- <- <-; right; [cbn in Hk; lia|].
  vm_compute. reflexivity.
Qed.

Lemma applyDeleteSet_exact_witness :
  let d' := applyDeleteSet (Some del_h) (after [hi_update]) in
  dead_at (store d') 1 0 /\ State (store d') 1 = 2.
Proof.
  destruct (applyDeleteSet_exact del_h (after [hi_update])) with (c := 1) (k := 0) as (_ & H2 & _ & H).
  - session.
  - intros c rs H. unfold del_h in H. apply lookup_singleton_Some in H as [<- <-]. by repeat constructor.
  - split; [|exact H2]. apply H; [apply del_h_split|]. right. split; [|vm_compute; reflexivity].
    exists (MkRange 0 1). split; [by left|cbn; lia].
Defined.

Lemma deleteSetForUpdate_exact_witness :
  let d := after [hi_update; del_update] in dead_at (store d) 1 0 \/ held d 1 0.
Proof.
  apply (deleteSetForUpdate_exact (after [hi_update; del_update]) 1 0); [session|vm_compute; reflexivity].
Defined.

Lemma state_update_complete_witness :
  let d := after [hi_update] in
  exists pre s rest,
    filter (fun b => CB_Client b = 1) (Clients (state_update ∅ d)) = [MkBlock 1 0 (s :: rest)]
    /\ Store_Structs (store d) 1 = pre ++ s :: rest.
Proof.
  cbv zeta. pose proof (state_update_complete (after [hi_update]) ∅ 1) as H.
  destruct H as (pre & s & rest & H1 & H2 & _); [session|done|]. eauto.
Defined.

Definition hi_del : Update :=
  MkUpdate (match DecodeUpdate hi_update with Ok u => Clients u | Err _ => [] end) (Some del_h).

Lemma redelivery_witness :
  let d := after [hi_update; del_update] in
  State (store (ApplyDecodedUpdate hi_del d)) 1 = 2 /\ pending (ApplyDecodedUpdate hi_del d) = [].
Proof.
  destruct (redelivery hi_del del_h (after [hi_update; del_update])) as (H1 & _ & H3 & _).
  - session.
  - vm_compute. reflexivity.
  - intros c k (r & Hr & _). change (pendingDeletes _) with (∅ : DeleteSet) in Hr. by apply elem_of_nil in Hr.
  - exact (proj1 (DecodeUpdate_fits hi_update _ ltac:(done) eq_refl)).
  - reflexivity.
  - intros c rs H. unfold del_h in H. apply lookup_singleton_Some in H as [<- <-]. cbn. unfold range_ok; cbn; unfold two63; lia.
  - change (Clients hi_del) with [MkBlock 1 0 [SItem (MkItem (NewID 1 0) None None (Some (MkParent true t_name zeroID)) false [] (ContentString [104; 105]) None None None false false)]].
    repeat constructor; vm_compute; intros; discriminate.
  - intros c k (r & Hr & Hk). unfold del_h, ranges_of in Hr. destruct (decide (c = 1)) as [->|Hne].
    2: { rewrite lookup_singleton_ne in Hr by done. by apply elem_of_nil in Hr. }
    rewrite lookup_singleton_eq in Hr. apply list_elem_of_singleton in Hr as ->. cbn in Hk.
    assert (k = 0) as -> by lia. exists (NewID 1 0), 1. split; [vm_compute; left|cbn; lia].
  - split; [rewrite H1; vm_compute; reflexivity|exact H3].
Defined.

(** ** Concurrent inserts *)

Definition typed (client : Z) (s : bytes) : Item :=
  MkItem (NewID client 0) None None None false [] (ContentString s) None None (Some (TRoot t_name)) false false.

Lemma empty_spot : spot None None None None (TRoot t_name) (store (Doc_Get t_name (NewDoc 9))) [] [].
Proof.
  split; try done.
  - apply (di_store _ (reachable_doc_inv _ (reach_get t_name _ (reach_new 9)))).
  - constructor.
  - constructor.
  - constructor.
Qed.

Lemma concurrent_inserts_converge_witness :
  let st := store (Doc_Get t_name (NewDoc 9)) in
  exists ls ls' xs,
    siblings None None (place_all [typed 1 [104]; typed 2 [121]] st) ls xs
    /\ siblings None None (place_all [typed 2 [121]; typed 1 [104]] st) ls' xs.
Proof.
  destruct (concurrent_inserts_converge None None None None (TRoot t_name)
    (store (Doc_Get t_name (NewDoc 9))) [typed 1 [104]; typed 2 [121]] [typed 2 [121]; typed 1 [104]])
    as (ls & ls' & xs & _ & H1 & _ & H2 & _).
  - apply empty_spot.
  - repeat constructor; vm_compute; reflexivity.
  - apply (bool_decide_unpack _). vm_compute. exact I.
  - apply Permutation_swap.
  - eauto.
Defined.

(** ** Reading *)

Lemma clean_lookup_invisible_witness :
  let st := store (after [hi_update]) in
  exists l st', GetItemCleanStart (NewID 1 1) st = Ok (l, st') /\ YText_String st' (TRoot t_name) = [104; 105].
Proof.
  destruct (GetItemCleanStart (NewID 1 1) (store (after [hi_update]))) as [[l st']|] eqn:E; [|by vm_compute in E].
  exists l, st'. split; [done|].
  destruct (clean_lookup_invisible (NewID 1 1) (store (after [hi_update])) l st') with (p := TRoot t_name)
    as [H _]; [|done|by left|].
  - apply di_store, reachable_doc_inv. session.
  - rewrite H. vm_compute. reflexivity.
Defined.

(** ** Where the code departs from its comments *)


(** An update held back for a missing dependency is not part of the saved state: a
    document restored from it does not have the edit, even once the dependency comes. *)
Example held_update_not_saved :
  let d := after [dep_update] in
  length (pending d) = 1%nat /\ EncodeStateAsUpdate ∅ d = Ok [0; 0]
  /\ YText_String (store (after [dep_update; hi_update])) (TRoot t_name) = [104; 105; 120]
  /\ YText_String (store (after [[0; 0]; hi_update])) (TRoot t_name) = [104; 105].
Proof. vm_compute. split_and!; reflexivity. Qed.

(** Client 1 puts a text under the key "k" of the root map "m", client 2 types into it,
    and client 1 overwrites the key. *)
Definition nested_update : bytes := [1; 1; 1; 0; 39; 1; 1; 109; 1; 107; 2; 0].
Definition child_update : bytes := [1; 1; 2; 0; 4; 0; 1; 0; 1; 120; 0].
Definition over_update : bytes := [1; 1; 1; 1; 168; 1; 0; 1; 126; 0].

(** Deleting a type leaves what is in it alone, integrating into a deleted type does not:
    what client 2 typed is live in the document and deleted in one restored from its
    snapshot. *)
Example snapshot_deletes_more :
  let d := after [nested_update; child_update; over_update] in
  Doc_DeleteSet d = {[1 := [MkRange 0 1]]}
  /\ (b ← EncodeStateAsUpdate ∅ d; d' ← Doc.ApplyUpdate b (NewDoc 9); Ok (Doc_DeleteSet d'))
     = Ok {[1 := [MkRange 0 1]; 2 := [MkRange 0 1]]}.
Proof. vm_compute. split; reflexivity. Qed.

(** U+1F389 takes two clocks. *)
Definition party_update : bytes := [1; 1; 1; 0; 4; 1; 1; 116; 4; 240; 159; 142; 137; 0].

(** A deleted range that starts inside a surrogate pair deletes the clock before it;
    one that ends inside deletes nothing. *)
Example delete_inside_surrogate :
  Doc_DeleteSet (after [party_update; [0; 1; 1; 1; 1; 1]]) = {[1 := [MkRange 0 2]]}
  /\ Doc_DeleteSet (after [party_update; [0; 1; 1; 1; 0; 1]]) = ∅.
Proof. vm_compute. split; reflexivity. Qed.

(** The integer -0 (byte 64) is accepted and written back as 0. *)
Example negative_zero_rewritten :
  (u ← DecodeUpdate [1; 1; 1; 0; 8; 1; 1; 116; 1; 125; 64; 0]; Encode no_parent u)
  = Ok [1; 1; 1; 0; 8; 1; 1; 116; 1; 125; 0; 0].
Proof. vm_compute. reflexivity. Qed.

(** ** A snapshot of the session *)

Definition whole : Doc := after [hi_update; del_update; yo_update].

Lemma whole_fits : update_ok (snapshot whole).
Proof.
  split_and!; [| | |].
  - assert (Clients (snapshot whole) =
      [MkBlock 2 0 [SItem (MkItem (NewID 2 0) None None (Some (MkParent true t_name zeroID)) false []
         (ContentString [121; 111]) None None None false false)];
       MkBlock 1 0 [SItem (MkItem (NewID 1 0) None None (Some (MkParent true t_name zeroID)) false []
         (ContentString [104]) None None None false false);
         SItem (MkItem (NewID 1 1) (Some (NewID 1 0)) None None false []
         (ContentString [105]) None None None false false)]]) as -> by (vm_compute; reflexivity).
    repeat constructor; try done; exists (MkParent true t_name zeroID); by repeat constructor.
  - vm_compute. reflexivity.
  - vm_compute. done.
  - exists {[1 := [MkRange 0 1]]}. split; [vm_compute; reflexivity|]. split; [|by vm_compute].
    intros c rs H. apply lookup_singleton_Some in H as [<- <-]. by repeat constructor.
Qed.

Lemma snapshot_restores_witness :
  exists b d', EncodeStateAsUpdate ∅ whole = Ok b /\ ApplyUpdate b (NewDoc 7) = Ok d'
    /\ restored whole d' /\ Doc_StateVector d' = Doc_StateVector whole.
Proof. apply (snapshot_restores whole 7); [session|apply whole_fits]. Defined.

Lemma documents_are_causal_witness : built (skel (store whole)) /\ causal (skel (store whole)).
Proof. apply (documents_are_causal whole). session. Defined.

(** ** Two replicas

    One has the "h" of "hi" and "yo", the other all of "hi": the first is sent the rest of
    an item, the second an item. *)

Definition h_update : bytes := [1; 1; 1; 0; 4; 1; 1; 116; 1; 104; 0].
Definition near : Doc := after [h_update; yo_update].
Definition far : Doc := after [hi_update].

Lemma one_struct_meets t st :
  (forall c pre s rest, Store_Structs st c = pre ++ s :: rest ->
     pre = [] /\ (StructLen s <=? State t c) || cuttable (State t c) s = true) -> meets t st.
Proof.
  intros H c pre s rest E Hk. destruct (H _ _ _ _ E) as [-> Hs]. cbn in Hk. rewrite Z.sub_0_r.
  apply orb_true_iff in Hs as [Hs%Z.leb_le|Hs]; [lia|done].
Qed.

Lemma near_asks_far : can_answer near far.
Proof.
  split.
  - apply one_struct_meets. intros c pre s rest E. destruct (decide (c = 1)) as [->|Hc].
    + vm_compute in E. destruct pre as [|x [|y pre]]; [|done..]. injection E as <- _. split; [done|vm_compute; reflexivity].
    + unfold Store_Structs, refs in E. assert (clients (store far) = {[1 := [RItem 1%positive]]}) as Hcl by (vm_compute; reflexivity).
      rewrite Hcl, lookup_singleton_ne in E by done. destruct pre; discriminate E.
  - assert (Doc_StateVector near = {[1 := 1; 2 := 2]}) as -> by (vm_compute; reflexivity).
    split; [|by vm_compute]. apply map_Forall_insert_2; [done|]. by apply map_Forall_singleton.
  - split_and!.
    + assert (Clients (answer (Doc_StateVector near) far) =
        [MkBlock 1 1 [SItem (MkItem (NewID 1 1) (Some (NewID 1 0)) None None false [] (ContentString [105])
           None None None false false)]]) as -> by (vm_compute; reflexivity).
      by repeat constructor.
    + vm_compute. reflexivity.
    + vm_compute. done.
    + exists ∅. split; [vm_compute; reflexivity|]. split; [|by vm_compute]. apply map_Forall_empty.
Qed.

Lemma far_asks_near : can_answer far near.
Proof.
  split.
  - apply one_struct_meets. intros c pre s rest E. destruct (decide (c = 1)) as [->|Hc]; [|destruct (decide (c = 2)) as [->|Hc2]].
    1,2: vm_compute in E; destruct pre as [|x [|y pre]]; [|done..]; injection E as <- _; split; [done|vm_compute; reflexivity].
    unfold Store_Structs, refs in E.
    assert (clients (store near) = {[1 := [RItem 1%positive]; 2 := [RItem 2%positive]]}) as Hcl by (vm_compute; reflexivity).
    rewrite Hcl, lookup_insert_ne, lookup_singleton_ne in E by done. destruct pre; discriminate E.
  - assert (Doc_StateVector far = {[1 := 2]}) as -> by (vm_compute; reflexivity).
    split; [|by vm_compute]. by apply map_Forall_singleton.
  - split_and!.
    + assert (Clients (answer (Doc_StateVector far) near) =
        [MkBlock 2 0 [SItem (MkItem (NewID 2 0) None None (Some (MkParent true t_name zeroID)) false [] (ContentString [121; 111])
           None None None false false)]]) as -> by (vm_compute; reflexivity).
      repeat constructor; try done; exists (MkParent true t_name zeroID); by repeat constructor.
    + vm_compute. reflexivity.
    + vm_compute. done.
    + exists ∅. split; [vm_compute; reflexivity|]. split; [|by vm_compute]. apply map_Forall_empty.
Qed.

Lemma replicas_converge_witness :
  exists a' b', exchange near far = Ok a' /\ exchange far near = Ok b' /\ Doc_StateVector a' = Doc_StateVector b'.
Proof.
  destruct (replicas_converge near far) as (a' & b' & H1 & H2 & _ & _ & H).
  - unfold near. session.
  - unfold far. session.
  - apply near_asks_far.
  - apply far_asks_near.
  - destruct H as (_ & _ & H); [vm_compute; reflexivity..|]. exists a', b'. exact (conj H1 (conj H2 H)).
Defined.

(** Both read the same afterwards. *)
Example replicas_read_same :
  (a ← exchange near far; Ok (YText_String (store a) (TRoot t_name))) = Ok [104; 105; 121; 111]
  /\ (b ← exchange far near; Ok (YText_String (store b) (TRoot t_name))) = Ok [104; 105; 121; 111].
Proof. vm_compute. split; reflexivity. Qed.
