(* ===== verification/Cluster.v ===== *)
(** * Replica traffic

    [internal/cluster/envelope.go]: the message replicas exchange and its wire form.
    [internal/cluster/bus.go]: node ids.  [internal/cluster/memory.go]: the bus that
    stays inside one process, which delivers what survives the wire form to every
    subscriber of a document. *)

From S2P Require Import Prelude Lib0.

(** ** Envelopes *)

Inductive Kind := KindUpdate | KindAwareness | KindStateVector.

#[export] Instance Kind_eq_dec : EqDecision Kind.
Proof. solve_decision. Defined.

(** [uint64(e.Kind)], and the switch of [Decode]. *)
Definition kind_code (k : Kind) : Z :=
  match k with KindUpdate => 0 | KindAwareness => 1 | KindStateVector => 2 end.

Definition kind_of (n : Z) : option Kind :=
  if n =? 0 then Some KindUpdate else if n =? 1 then Some KindAwareness
  else if n =? 2 then Some KindStateVector else None.

Definition envelopeVersion : Z := 0.

Record Envelope := MkEnvelope { env_Origin : Z; env_Kind : Kind; env_Payload : bytes }.

#[export] Instance Envelope_eq_dec : EqDecision Envelope.
Proof. solve_decision. Defined.

Definition Envelope_Encode (e : Envelope) : res bytes :=
  let enc := NewEncoderSize (Z.of_nat (length (env_Payload e)) + 16) in
  let enc := WriteVarUint envelopeVersion enc in
  let enc := WriteVarUint (env_Origin e) enc in
  let enc := WriteVarUint (kind_code (env_Kind e)) enc in
  let enc := WriteVarUint8Array (env_Payload e) enc in
  finish enc.

Definition Envelope_Decode (buf : bytes) : res Envelope :=
  let d := NewDecoder buf in
  '(version, d) ← ReadVarUint d;
  if negb (version =? envelopeVersion) then Err ErrVersion
  else
    '(origin, d) ← ReadVarUint d;
    if MaxSafeInteger <? origin then Err ErrOriginOutOfRange
    else
      '(kind, d) ← ReadVarUint d;
      match kind_of kind with
      | None => Err ErrKind
      | Some k =>
          '(payload, d) ← ReadVarUint8Array d;
          if Done d then Ok (MkEnvelope origin k payload) else Err ErrTrailingBytes
      end.

(** ** Node ids *)

(** [binary.BigEndian.Uint64]. *)
Definition BigEndian_Uint64 (b : bytes) : Z := foldl (fun n x => Z.lor (Z.shiftl n 8) x) 0 (take 8 b).

(** [NewNodeID] on the eight random bytes it read. *)
Definition NewNodeID (b : bytes) : Z :=
  let id := Z.land (BigEndian_Uint64 b) MaxSafeInteger in
  if id =? 0 then 1 else id.

(** ** The in-process bus *)

(** Subscriptions are told apart by their address; [deliver] is the only thing a
    subscription does, so publishing is the list of deliveries it makes. *)
Record Memory := MkMemory { m_subs : gmap bytes (list positive); m_closed : bool; m_next : positive }.

Definition NewMemory : Memory := MkMemory ∅ false 1.

Definition Memory_Publish (room : bytes) (env : Envelope) (m : Memory) : res (list (positive * Envelope)) :=
  if m_closed m then Err ErrBusClosed
  else
    raw ← Envelope_Encode env;
    decoded ← Envelope_Decode raw;
    Ok (map (fun s => (s, decoded)) (default [] (m_subs m !! room))).

Definition Memory_Subscribe (room : bytes) (m : Memory) : res (positive * Memory) :=
  if m_closed m then Err ErrBusClosed
  else
    let s := m_next m in
    Ok (s, MkMemory (<[room := default [] (m_subs m !! room) ++ [s]]> (m_subs m)) false (Pos.succ s)).

(** The first occurrence of [s] removed. *)
Fixpoint remove_first (s : positive) (l : list positive) : list positive :=
  match l with
  | [] => []
  | x :: l => if Pos.eqb x s then l else x :: remove_first s l
  end.

Definition memorySub_Close (room : bytes) (s : positive) (m : Memory) : Memory :=
  let subs := remove_first s (default [] (m_subs m !! room)) in
  MkMemory (match subs with [] => delete room (m_subs m) | _ => <[room := subs]> (m_subs m) end)
    (m_closed m) (m_next m).

Definition Memory_Close (m : Memory) : Memory := MkMemory (m_subs m) true (m_next m).

(** ** Properties of envelopes *)

Lemma kind_of_code k : kind_of (kind_code k) = Some k.
Proof. by destruct k. Qed.

Lemma kind_safe k : safe (kind_code k).
Proof. unfold safe, MaxSafeInteger. destruct k; cbn; lia. Qed.

Definition envelope_ok (e : Envelope) : Prop := safe (env_Origin e) /\ short (env_Payload e).

Definition envelope_bytes (e : Envelope) : bytes :=
  varuint_bytes envelopeVersion ++ varuint_bytes (env_Origin e)
  ++ varuint_bytes (kind_code (env_Kind e)) ++ string_bytes (env_Payload e).

Lemma version_safe : safe envelopeVersion.
Proof. unfold safe, envelopeVersion, MaxSafeInteger. lia. Qed.

Lemma Envelope_Encode_ok e : envelope_ok e -> Envelope_Encode e = Ok (envelope_bytes e).
Proof.
  intros [Ho Hp]. unfold Envelope_Encode, NewEncoderSize.
  rewrite (WriteVarUint_writes _ version_safe), (WriteVarUint_writes _ Ho),
    (WriteVarUint_writes _ (kind_safe _)), (WriteVarUint8Array_writes _ Hp).
  unfold envelope_bytes, finish. cbn [Enc_Err enc_err Bytes enc_buf app]. by rewrite <- !app_assoc.
Qed.

Lemma Envelope_Decode_ok e : envelope_ok e -> Envelope_Decode (envelope_bytes e) = Ok e.
Proof.
  intros [Ho Hp]. unfold Envelope_Decode.
  pose proof (unread_new (envelope_bytes e)) as Hd. unfold envelope_bytes in Hd at 2.
  read_step (ReadVarUint_reads _ version_safe). cbn [negb Z.eqb envelopeVersion].
  read_step (ReadVarUint_reads _ Ho). rewrite (proj2 (Z.ltb_ge _ _)) by apply Ho.
  read_step (ReadVarUint_reads _ (kind_safe (env_Kind e))). rewrite kind_of_code.
  rewrite <- (app_nil_r (string_bytes _)) in Hd. read_step (ReadVarUint8Array_reads _ Hp).
  rewrite !advance_advance.
  match goal with |- context [advance ?n _] =>
    replace n with (length (envelope_bytes e)) by (unfold envelope_bytes; rewrite !length_app; lia) end.
  rewrite done_advance. by destruct e.
Qed.

(** An envelope survives the wire exactly when its origin fits; one that does not
    is refused by [Encode], never written wrong. *)
Theorem Envelope_roundtrip e :
  0 <= env_Origin e < two64 -> short (env_Payload e) ->
  match Envelope_Encode e with
  | Ok b => env_Origin e <= MaxSafeInteger /\ Envelope_Decode b = Ok e
  | Err err => MaxSafeInteger < env_Origin e /\ err = ErrIntegerOutOfRange
  end.
Proof.
  intros Ho Hp. destruct (decide (env_Origin e <= MaxSafeInteger)) as [Hs|Hs].
  - assert (envelope_ok e) as Hok by (split; [unfold safe; lia|done]).
    rewrite (Envelope_Encode_ok _ Hok). split; [done|]. by apply Envelope_Decode_ok.
  - unfold Envelope_Encode, NewEncoderSize. rewrite (WriteVarUint_writes _ version_safe).
    unfold WriteVarUint at 2. cbn [enc_err]. rewrite (proj2 (Z.ltb_lt _ _)) by lia.
    unfold fail. cbn [enc_err enc_buf].
    rewrite WriteVarUint_sticky, WriteVarUint8Array_sticky by done. cbn. split; [lia|done].
Qed.

Lemma Envelope_Decode_inv buf e :
  Envelope_Decode buf = Ok e -> safe (env_Origin e) /\ (length (env_Payload e) <= length buf)%nat.
Proof.
  intros H. unfold Envelope_Decode in H. res_inv. case_if; [done|]. res_inv. case_if; [done|]. res_inv.
  destruct (kind_of _) as [k|]; [|done]. res_inv. case_if; [|done]. res_inv. cbn [env_Origin env_Payload].
  destruct (ReadVarUint_consumes _ _ _ Hm) as [C1 C2]; [cbn; lia|].
  destruct (ReadVarUint_consumes _ _ _ Hm0) as [C3 C4]; [rewrite C1; lia|].
  destruct (ReadVarUint_consumes _ _ _ Hm1) as [C5 C6]; [rewrite C3; lia|].
  apply varuint_read_range in Hm0. split; [unfold safe; lia|].
  change buf with (dec_buf (NewDecoder buf)). rewrite <- C1, <- C3, <- C5.
  eapply ReadVarString_length; [unfold ReadVarString; rewrite Hm2; done|]. rewrite C5. lia.
Qed.

(** Every envelope a replica accepts can be written back out and reads the same. *)
Theorem Envelope_relay buf e :
  Z.of_nat (length buf) <= MaxSafeInteger -> Envelope_Decode buf = Ok e ->
  exists b, Envelope_Encode e = Ok b /\ Envelope_Decode b = Ok e.
Proof.
  intros Hb H. apply Envelope_Decode_inv in H as [Ho Hp].
  assert (envelope_ok e) as Hok by (split; [done|unfold short; lia]).
  exists (envelope_bytes e). auto using Envelope_Encode_ok, Envelope_Decode_ok.
Qed.

(** ** Properties of the bus *)

(** A node id is never zero and always fits an envelope. *)
Theorem NewNodeID_safe b : 1 <= NewNodeID b <= MaxSafeInteger.
Proof.
  unfold NewNodeID. change MaxSafeInteger with (Z.ones 53). rewrite Z.land_ones by lia.
  pose proof (Z.mod_pos_bound (BigEndian_Uint64 b) (2 ^ 53)) as Hm.
  change (Z.ones 53) with (2 ^ 53 - 1). case_if; lia.
Qed.

(** Addresses handed out are fresh, and a document is listed only while it has
    subscribers. *)
Record bus_ok (m : Memory) : Prop := {
  bus_fresh : forall room l s, m_subs m !! room = Some l -> s ∈ l -> (s < m_next m)%positive;
  bus_nodup : forall room l, m_subs m !! room = Some l -> NoDup l /\ l <> [];
}.

Definition subscribed (m : Memory) (room : bytes) (s : positive) : Prop :=
  s ∈ default [] (m_subs m !! room).

Lemma remove_first_spec s l x : NoDup l -> x ∈ remove_first s l <-> x ∈ l /\ x <> s.
Proof.
  induction 1 as [|y l Hy Hn IH]; cbn; [set_solver|].
  destruct (Pos.eqb_spec y s) as [->|Hne]; [|rewrite elem_of_cons, IH; set_solver]. set_solver.
Qed.

Lemma remove_first_NoDup s l : NoDup l -> NoDup (remove_first s l).
Proof.
  induction 1 as [|y l Hy Hn IH]; cbn; [constructor|]. destruct (Pos.eqb_spec y s); [done|].
  constructor; [|done]. rewrite remove_first_spec by done. set_solver.
Qed.

Lemma default_NoDup m room : bus_ok m -> NoDup (default [] (m_subs m !! room)).
Proof.
  intros [_ Hn]. destruct (m_subs m !! room) as [l|] eqn:E; cbn; [by apply Hn in E as [? _]|constructor].
Qed.

Inductive bus_reachable : Memory -> Prop :=
  | bus_new : bus_reachable NewMemory
  | bus_subscribe m room s m' : bus_reachable m -> Memory_Subscribe room m = Ok (s, m') -> bus_reachable m'
  | bus_unsubscribe m room s : bus_reachable m -> bus_reachable (memorySub_Close room s m)
  | bus_shut m : bus_reachable m -> bus_reachable (Memory_Close m).

Lemma bus_reachable_ok m : bus_reachable m -> bus_ok m.
Proof.
  induction 1 as [|m room s m' _ IH H|m room s _ IH|m _ IH].
  - split; cbn; intros ? ? *; by rewrite lookup_empty.
  - unfold Memory_Subscribe in H. case_if; [done|]. res_inv. destruct IH as [H1 H2].
    pose proof (default_NoDup m room (Build_bus_ok _ H1 H2)) as Hn.
    assert (Hlt : forall s, s ∈ default [] (m_subs m !! room) -> (s < m_next m)%positive).
    { intros s. destruct (m_subs m !! room) as [l|] eqn:El; cbn; [eauto|set_solver]. }
    split; cbn; intros room' l *; rewrite lookup_insert; case_decide; subst.
    + intros [= <-] [Hs|Hs]%elem_of_app; [apply Hlt in Hs; lia|set_solver by lia].
    + intros Hl Hs. specialize (H1 _ _ _ Hl Hs). lia.
    + intros [= <-]. split; [|by destruct (default _ _)]. apply NoDup_app. split_and!; [done| |apply NoDup_singleton].
      intros x Hx%Hlt ->%list_elem_of_singleton. lia.
    + by apply H2.
  - destruct IH as [H1 H2]. pose proof (default_NoDup m room (Build_bus_ok _ H1 H2)) as Hn.
    assert (Hlt : forall x, x ∈ remove_first s (default [] (m_subs m !! room)) -> (x < m_next m)%positive).
    { intros x [Hx _]%remove_first_spec; [|done]. destruct (m_subs m !! room) as [l|] eqn:El; cbn in Hx; [eauto|set_solver]. }
    pose proof (remove_first_NoDup s _ Hn) as Hn'. unfold memorySub_Close.
    destruct (remove_first s _) as [|y r] eqn:Er; split; cbn; intros room' l *;
      rewrite ?lookup_delete, ?lookup_insert; case_decide; subst; eauto; try done; intros [= <-]; auto.
  - by destruct IH as [H1 H2].
Qed.

(** Publishing on an open bus hands every current subscriber of the document, and
    nobody else, the envelope exactly as it was sent; a subscription that was closed
    gets nothing, and a closed bus refuses. *)
Theorem Memory_Publish_exact m room env :
  bus_reachable m -> envelope_ok env ->
  if m_closed m then Memory_Publish room env m = Err ErrBusClosed
  else exists out, Memory_Publish room env m = Ok out /\ NoDup out.*1
    /\ (forall s e, (s, e) ∈ out <-> e = env /\ subscribed m room s)
    /\ forall s, ~ subscribed (memorySub_Close room s m) room s.
Proof.
  intros Hr Hok. apply bus_reachable_ok in Hr. unfold Memory_Publish. destruct (m_closed m); [done|].
  rewrite (Envelope_Encode_ok _ Hok). cbn [mbind res_bind]. rewrite (Envelope_Decode_ok _ Hok). cbn [mbind res_bind].
  eexists. split; [done|]. pose proof (default_NoDup m room Hr) as Hn. split_and!.
  - rewrite <- list_fmap_compose. cbn. by rewrite list_fmap_id.
  - intros s e. rewrite list_elem_of_fmap. unfold subscribed. naive_solver.
  - intros s. unfold subscribed, memorySub_Close.
    pose proof (remove_first_spec s _ s Hn) as Hs. destruct (remove_first s _) as [|y r]; cbn.
    + rewrite lookup_delete_eq. set_solver.
    + rewrite lookup_insert_eq. cbn. rewrite Hs. tauto.
Qed.

Definition sample_envelope : Envelope := MkEnvelope 7 KindUpdate [0; 0].

Lemma Envelope_roundtrip_witness :
  exists b, Envelope_Encode sample_envelope = Ok b /\ Envelope_Decode b = Ok sample_envelope.
Proof.
  pose proof (Envelope_roundtrip sample_envelope) as H.
  destruct (Envelope_Encode sample_envelope) as [b|] eqn:E; [|by vm_compute in E].
  exists b. split; [reflexivity|]. apply H; [cbn; unfold two64; lia|done].
Defined.

Lemma Envelope_relay_witness :
  exists buf e b, Envelope_Decode buf = Ok e /\ Envelope_Encode e = Ok b /\ Envelope_Decode b = Ok e.
Proof.
  destruct (Envelope_Encode sample_envelope) as [buf|] eqn:E; [|by vm_compute in E].
  assert (D : Envelope_Decode buf = Ok sample_envelope) by (vm_compute in E; by simplify_eq).
  destruct (Envelope_relay buf sample_envelope) as (b & H1 & H2);
    [vm_compute in E; simplify_eq; done|exact D|]. by exists buf, sample_envelope, b.
Defined.

Definition one_subscriber : Memory :=
  match Memory_Subscribe [100] NewMemory with Ok (_, m) => m | Err _ => NewMemory end.

Lemma Memory_Publish_exact_witness :
  exists out, Memory_Publish [100] sample_envelope one_subscriber = Ok out /\ NoDup out.*1.
Proof.
  destruct (Memory_Publish_exact one_subscriber [100] sample_envelope) as (out & H1 & H2 & _).
  - eapply (bus_subscribe NewMemory [100]); [constructor|reflexivity].
  - by split.
  - by exists out.
Defined.
