(* ===== verification/Redis.v ===== *)
(** * The Redis bus

    [internal/cluster/redis.go]: one subscriber connection shared by every room of a
    node, as a transition system of the callers of [Subscribe] and [Close], the receive
    loop, the connection and the server.

    What the bus relies on of Redis and go-redis is written out: commands reach the
    server in the order they were written; a SUBSCRIBE is confirmed; a message published
    on a channel is queued for the connection if it is subscribed at that moment;
    confirmations and messages come back in the order the server made them; after a lost
    connection go-redis subscribes again to the channels it was asked for and not asked
    to leave, and what was in flight is gone. *)

From stdpp Require Import strings.
From S2P Require Import Prelude Lib0 Cluster.

Definition DefaultPrefix : bytes := str "ycollab".
Definition config_prefix (p : bytes) : bytes := if decide (p = []) then DefaultPrefix else p.

Section Redis.
Context (prefix : bytes).

Definition channel (room : bytes) : bytes := prefix ++ str ":room:" ++ room.

(** ** The bus *)

(** A subscription is known by its address; [rd_ready] are the [ready] channels that were
    closed, each known by the subscription that waits on it. *)
Record Redis := MkRedis {
  rd_handlers : gmap bytes (list positive);
  rd_pending : gmap bytes positive;
  rd_ready : gset positive;
  rd_started : bool;
  rd_closed : bool;
  rd_next : positive;
}.

Definition OpenRedis : Redis := MkRedis ∅ ∅ ∅ false false 1.

Definition listeners (r : Redis) (ch : bytes) : list positive := default [] (rd_handlers r !! ch).

(** The critical section of [Subscribe]: the subscription and whether it is the first. *)
Definition Subscribe (room : bytes) (r : Redis) : res (positive * bool) * Redis :=
  if rd_closed r then (Err ErrBusClosed, r)
  else
    let s := rd_next r in
    let first := bool_decide (listeners r (channel room) = []) in
    (Ok (s, first),
     MkRedis (<[channel room := listeners r (channel room) ++ [s]]> (rd_handlers r)) (rd_pending r) (rd_ready r) true
       false (Pos.succ s)).

(** [subscribeAndWait], before and after it waits. *)
Definition await (ch : bytes) (s : positive) (r : Redis) : Redis :=
  MkRedis (rd_handlers r) (<[ch := s]> (rd_pending r)) (rd_ready r) (rd_started r) (rd_closed r) (rd_next r).
Definition stop_waiting (ch : bytes) (r : Redis) : Redis :=
  MkRedis (rd_handlers r) (delete ch (rd_pending r)) (rd_ready r) (rd_started r) (rd_closed r) (rd_next r).

Definition confirmed (ch : bytes) (r : Redis) : Redis :=
  match rd_pending r !! ch with
  | Some s => MkRedis (rd_handlers r) (delete ch (rd_pending r)) ({[s]} ∪ rd_ready r) (rd_started r) (rd_closed r) (rd_next r)
  | None => r
  end.

(** The critical section of [subscription.Close]: whether to unsubscribe. *)
Definition sub_Close (ch : bytes) (s : positive) (r : Redis) : bool * Redis :=
  let left := remove_first s (listeners r ch) in
  let hs := match left with [] => delete ch (rd_handlers r) | _ => <[ch := left]> (rd_handlers r) end in
  (bool_decide (left = []) && negb (rd_closed r),
   MkRedis hs (rd_pending r) (rd_ready r) (rd_started r) (rd_closed r) (rd_next r)).

Definition Redis_Close (r : Redis) : Redis :=
  MkRedis (rd_handlers r) (rd_pending r) (rd_ready r) (rd_started r) true (rd_next r).

(** [dispatch]: the deliveries it makes, taken at the moment it reads the listeners. *)
Definition dispatch (ch raw : bytes) (r : Redis) : list (positive * Envelope) :=
  match Envelope_Decode raw with
  | Ok env => map (fun s => (s, env)) (listeners r ch)
  | Err _ => []
  end.

(** [Publish]: what goes to the server. *)
Definition Redis_Publish (room : bytes) (env : Envelope) : res (bytes * bytes) :=
  raw ← Envelope_Encode env; Ok (channel room, raw).

(** ** The connection and the server *)

Inductive ps_command := SUBSCRIBE (ch : bytes) | UNSUBSCRIBE (ch : bytes).
Inductive ps_reply := Confirm (ch : bytes) | Message (ch raw : bytes).

Record wire_state := MkWireState {
  (** What go-redis was asked to be subscribed to. *)
  ws_asked : gset bytes;
  ws_out : list ps_command;
  ws_in : list ps_reply;
  (** What the server has this connection subscribed to. *)
  ws_subs : gset bytes;
}.

Definition ps_Subscribe (ch : bytes) (w : wire_state) : wire_state :=
  MkWireState ({[ch]} ∪ ws_asked w) (ws_out w ++ [SUBSCRIBE ch]) (ws_in w) (ws_subs w).
Definition ps_Unsubscribe (ch : bytes) (w : wire_state) : wire_state :=
  MkWireState (ws_asked w ∖ {[ch]}) (ws_out w ++ [UNSUBSCRIBE ch]) (ws_in w) (ws_subs w).

(** The server handles a command. *)
Definition serve_command (c : ps_command) (w : wire_state) : wire_state :=
  match c with
  | SUBSCRIBE ch => MkWireState (ws_asked w) (ws_out w) (ws_in w ++ [Confirm ch]) ({[ch]} ∪ ws_subs w)
  | UNSUBSCRIBE ch => MkWireState (ws_asked w) (ws_out w) (ws_in w) (ws_subs w ∖ {[ch]})
  end.

Definition serve_publish (ch raw : bytes) (w : wire_state) : wire_state :=
  if decide (ch ∈ ws_subs w) then MkWireState (ws_asked w) (ws_out w) (ws_in w ++ [Message ch raw]) (ws_subs w) else w.

Definition reconnect (w : wire_state) : wire_state :=
  MkWireState (ws_asked w) (map SUBSCRIBE (elements (ws_asked w))) [] ∅.

(** ** The system *)

(** Where a call is. *)
Inductive call :=
  | Subscribing (room : bytes)
  | Awaiting (room : bytes) (s : positive)
  | Sending (room : bytes) (s : positive)
  | Waiting (room : bytes) (s : positive)
  | GivingUp (room : bytes) (s : positive)
  | Subscribed (room : bytes) (s : positive)
  | Closing (room : bytes) (s : positive)
  | Leaving (ch : bytes)
  | Returned.

Record bus_system := MkBusSystem {
  bs_bus : Redis;
  bs_wire : wire_state;
  bs_calls : gmap nat call;
  (** Ghost: what anybody published on the server, the room each subscription is for, and
      the envelopes handed to it, oldest first. *)
  bs_published : list (bytes * bytes);
  bs_rooms : gmap positive bytes;
  bs_delivered : list (positive * Envelope);
}.

Definition with_bus (r : Redis) (x : bus_system) : bus_system :=
  MkBusSystem r (bs_wire x) (bs_calls x) (bs_published x) (bs_rooms x) (bs_delivered x).
Definition with_wire (w : wire_state) (x : bus_system) : bus_system :=
  MkBusSystem (bs_bus x) w (bs_calls x) (bs_published x) (bs_rooms x) (bs_delivered x).
Definition with_call (t : nat) (c : call) (x : bus_system) : bus_system :=
  MkBusSystem (bs_bus x) (bs_wire x) (<[t := c]> (bs_calls x)) (bs_published x) (bs_rooms x) (bs_delivered x).
Definition with_room (s : positive) (room : bytes) (x : bus_system) : bus_system :=
  MkBusSystem (bs_bus x) (bs_wire x) (bs_calls x) (bs_published x) (<[s := room]> (bs_rooms x)) (bs_delivered x).

Inductive bstep (x : bus_system) : bus_system -> Prop :=
  | b_begin t room : bs_calls x !! t = None -> bstep x (with_call t (Subscribing room) x)
  | b_refused t room r :
      bs_calls x !! t = Some (Subscribing room) -> Subscribe room (bs_bus x) = (Err ErrBusClosed, r) ->
      bstep x (with_call t Returned x)
  | b_register t room s first r :
      bs_calls x !! t = Some (Subscribing room) -> Subscribe room (bs_bus x) = (Ok (s, first), r) ->
      bstep x (with_call t (if first then Awaiting room s else Subscribed room s) (with_room s room (with_bus r x)))
  | b_await t room s :
      bs_calls x !! t = Some (Awaiting room s) ->
      bstep x (with_call t (Sending room s) (with_bus (await (channel room) s (bs_bus x)) x))
  | b_send t room s :
      bs_calls x !! t = Some (Sending room s) ->
      bstep x (with_call t (Waiting room s) (with_wire (ps_Subscribe (channel room) (bs_wire x)) x))
  (** go-redis notes the channel before it fails to write the command. *)
  | b_send_fails t room s :
      bs_calls x !! t = Some (Sending room s) ->
      bstep x (with_call t (GivingUp room s)
        (with_wire (MkWireState ({[channel room]} ∪ ws_asked (bs_wire x)) (ws_out (bs_wire x)) (ws_in (bs_wire x)) (ws_subs (bs_wire x))) x))
  | b_ready t room s :
      bs_calls x !! t = Some (Waiting room s) -> s ∈ rd_ready (bs_bus x) ->
      bstep x (with_call t (Subscribed room s) (with_bus (stop_waiting (channel room) (bs_bus x)) x))
  (** The bus is closed, or the time is up. *)
  | b_gives_up t room s :
      bs_calls x !! t = Some (Waiting room s) -> bstep x (with_call t (GivingUp room s) x)
  | b_forgets t room s :
      bs_calls x !! t = Some (GivingUp room s) ->
      bstep x (with_call t (Closing room s) (with_bus (stop_waiting (channel room) (bs_bus x)) x))
  | b_close t room s :
      bs_calls x !! t = Some (Subscribed room s) -> bstep x (with_call t (Closing room s) x)
  | b_remove t room s leave r :
      bs_calls x !! t = Some (Closing room s) -> sub_Close (channel room) s (bs_bus x) = (leave, r) ->
      bstep x (with_call t (if leave then Leaving (channel room) else Returned) (with_bus r x))
  | b_unsubscribe t ch :
      bs_calls x !! t = Some (Leaving ch) ->
      bstep x (with_call t Returned (with_wire (ps_Unsubscribe ch (bs_wire x)) x))
  | b_unsubscribe_fails t ch :
      bs_calls x !! t = Some (Leaving ch) -> bstep x (with_call t Returned x)
  (** The server, others who publish, and the connection. *)
  | b_serves c out :
      ws_out (bs_wire x) = c :: out ->
      bstep x (with_wire (serve_command c (MkWireState (ws_asked (bs_wire x)) out (ws_in (bs_wire x)) (ws_subs (bs_wire x)))) x)
  | b_publish ch raw :
      bstep x (MkBusSystem (bs_bus x) (serve_publish ch raw (bs_wire x)) (bs_calls x) (bs_published x ++ [(ch, raw)])
                 (bs_rooms x) (bs_delivered x))
  | b_reconnect : bstep x (with_wire (reconnect (bs_wire x)) x)
  (** The receive loop, which runs from the first subscription on. *)
  | b_confirmed ch rest :
      rd_started (bs_bus x) = true -> ws_in (bs_wire x) = Confirm ch :: rest ->
      bstep x (with_bus (confirmed ch (bs_bus x))
        (with_wire (MkWireState (ws_asked (bs_wire x)) (ws_out (bs_wire x)) rest (ws_subs (bs_wire x))) x))
  | b_dispatch ch raw rest :
      rd_started (bs_bus x) = true -> ws_in (bs_wire x) = Message ch raw :: rest ->
      bstep x (MkBusSystem (bs_bus x)
        (MkWireState (ws_asked (bs_wire x)) (ws_out (bs_wire x)) rest (ws_subs (bs_wire x))) (bs_calls x)
        (bs_published x) (bs_rooms x) (bs_delivered x ++ dispatch ch raw (bs_bus x)))
  | b_shutdown : bstep x (with_bus (Redis_Close (bs_bus x)) x).

Definition bus_start : bus_system := MkBusSystem OpenRedis (MkWireState ∅ [] [] ∅) ∅ [] ∅ [].

Inductive bus_run : bus_system -> Prop :=
  | br_start : bus_run bus_start
  | br_step x y : bus_run x -> bstep x y -> bus_run y.

(** ** What a room hears *)

Definition decoded (raw : bytes) : option Envelope := match Envelope_Decode raw with Ok e => Some e | Err _ => None end.

(** What [s] was handed, what is on its way on a channel, what was published there. *)
Definition received (s : positive) (l : list (positive * Envelope)) : list Envelope :=
  omap (fun x => if decide (x.1 = s) then Some x.2 else None) l.
Definition in_flight (ch : bytes) (l : list ps_reply) : list Envelope :=
  omap (fun m => match m with Message c raw => if decide (c = ch) then decoded raw else None | Confirm _ => None end) l.
Definition sent_on (ch : bytes) (l : list (bytes * bytes)) : list Envelope :=
  omap (fun x => if decide (x.1 = ch) then decoded x.2 else None) l.

Lemma channel_inj a b : channel a = channel b -> a = b.
Proof. unfold channel. intros H%app_inv_head. by apply app_inv_head in H. Qed.

Lemma received_app s a b : received s (a ++ b) = received s a ++ received s b.
Proof. apply omap_app. Qed.

Lemma received_none s l : s ∉ l.*1 -> received s l = [].
Proof.
  induction l as [|[s' e] l IH]; [done|]. cbn. intros [Hn Hl]%not_elem_of_cons. rewrite decide_False by done. by apply IH.
Qed.

(** One delivery to each listener. *)
Lemma received_fanout s e l : NoDup l ->
  received s (map (fun s => (s, e)) l) = if decide (s ∈ l) then [e] else [].
Proof.
  induction 1 as [|x l Hx Hl IH]; [by rewrite decide_False by apply not_elem_of_nil|].
  cbn. unfold received in IH. rewrite IH. destruct (decide (x = s)) as [->|Hne].
  - rewrite (decide_False (P := s ∈ l)), decide_True by (done || by left). done.
  - cbn. repeat case_decide; set_solver.
Qed.

Lemma received_dispatch s ch raw r : NoDup (listeners r ch) ->
  received s (dispatch ch raw r) = if decide (s ∈ listeners r ch) then option_list (decoded raw) else [].
Proof.
  intros Hn. unfold dispatch, decoded. destruct (Envelope_Decode raw) as [e|]; [by rewrite received_fanout|]. by case_decide.
Qed.

Lemma remove_first_sub s l : remove_first s l `sublist_of` l.
Proof.
  induction l as [|x l IH]; [done|]. cbn. destruct (Pos.eqb x s); [by apply sublist_cons|by apply sublist_skip].
Qed.

Record bus_inv (x : bus_system) : Prop := {
  bi_room : forall ch s, s ∈ listeners (bs_bus x) ch -> exists room, bs_rooms x !! s = Some room /\ channel room = ch;
  bi_once : forall ch, NoDup (listeners (bs_bus x) ch);
  bi_fresh : forall s, is_Some (bs_rooms x !! s) -> (s < rd_next (bs_bus x))%positive;
  bi_known : forall s, s ∈ (bs_delivered x).*1 -> is_Some (bs_rooms x !! s);
  bi_heard : forall s room, bs_rooms x !! s = Some room ->
    received s (bs_delivered x) ++ in_flight (channel room) (ws_in (bs_wire x)) `sublist_of` sent_on (channel room) (bs_published x);
  bi_flight : forall ch, in_flight ch (ws_in (bs_wire x)) `sublist_of` sent_on ch (bs_published x);
}.

(** Steps that leave the registrations, the ghosts and the messages on their way. *)
Lemma bus_inv_frame x y :
  bus_inv x -> (forall ch, listeners (bs_bus y) ch `sublist_of` listeners (bs_bus x) ch) ->
  rd_next (bs_bus y) = rd_next (bs_bus x) -> bs_rooms y = bs_rooms x -> bs_delivered y = bs_delivered x ->
  bs_published y = bs_published x -> (forall ch, in_flight ch (ws_in (bs_wire y)) `sublist_of` in_flight ch (ws_in (bs_wire x))) ->
  bus_inv y.
Proof.
  intros [H1 H2 H3 H4 H5 H6] El En Er Ed Ep Ef. split; rewrite ?Er, ?Ed, ?Ep, ?En; try done.
  - intros ch s Hs. apply H1. by eapply elem_of_sublist.
  - intros ch. by eapply sublist_NoDup.
  - intros s room Hr. etrans; [|by apply H5]. by apply sublist_app.
  - intros ch. etrans; [apply Ef|apply H6].
Qed.

Lemma in_flight_app ch a b : in_flight ch (a ++ b) = in_flight ch a ++ in_flight ch b.
Proof. apply omap_app. Qed.

Lemma sent_on_app ch a b : sent_on ch (a ++ b) = sent_on ch a ++ sent_on ch b.
Proof. apply omap_app. Qed.

Lemma listeners_insert r ch l ch' :
  default [] (<[ch := l]> (rd_handlers r) !! ch') = if decide (ch' = ch) then l else listeners r ch'.
Proof. unfold listeners. case_decide; subst; [by rewrite lookup_insert_eq|by rewrite lookup_insert_ne]. Qed.

Lemma bus_inv_register room s first r x t :
  bus_inv x -> Subscribe room (bs_bus x) = (Ok (s, first), r) ->
  bus_inv (with_call t (if first then Awaiting room s else Subscribed room s) (with_room s room (with_bus r x))).
Proof.
  intros [H1 H2 H3 H4 H5 H6]. unfold Subscribe. destruct (rd_closed (bs_bus x)); [done|]. intros [= <- <- <-].
  set (s := rd_next (bs_bus x)) in *.
  assert (Hs : bs_rooms x !! s = None).
  { apply eq_None_not_Some. intros Hs%H3. subst s. lia. }
  split; cbn [bs_bus bs_rooms bs_delivered bs_wire bs_published with_call with_room with_bus rd_next].
  - intros ch s'. unfold listeners at 1. cbn. rewrite listeners_insert. case_decide as Ec; [subst ch|].
    + intros [Hs'| ->%list_elem_of_singleton]%elem_of_app; [|exists room; by rewrite lookup_insert_eq].
      destruct (H1 _ _ Hs') as (room' & Hr & E). exists room'. split; [|done]. rewrite lookup_insert_ne; [done|]. intros <-. congruence.
    + intros Hs'. destruct (H1 _ _ Hs') as (room' & Hr & E). exists room'. split; [|done].
      rewrite lookup_insert_ne; [done|]. intros <-. congruence.
  - intros ch. unfold listeners at 1. cbn. rewrite listeners_insert. case_decide; [|done].
    apply NoDup_app. split_and!; [done| |by apply NoDup_singleton].
    intros s' Hs' ->%list_elem_of_singleton. destruct (H1 _ _ Hs') as (room' & Hr & _). congruence.
  - intros s' [<-|[_ Hs']]%lookup_insert_is_Some; [lia|]. apply H3 in Hs'. lia.
  - intros s' Hs'. apply lookup_insert_is_Some'. right. by apply H4.
  - intros s' room' Hr. apply lookup_insert_Some in Hr as [[<- <-]|[_ Hr]]; [|by apply H5].
    rewrite received_none; [apply H6|]. intros Hs'%H4. rewrite Hs in Hs'. by destruct Hs'.
  - done.
Qed.

Lemma bus_inv_dispatch x ch raw rest :
  bus_inv x -> ws_in (bs_wire x) = Message ch raw :: rest ->
  bus_inv (MkBusSystem (bs_bus x) (MkWireState (ws_asked (bs_wire x)) (ws_out (bs_wire x)) rest (ws_subs (bs_wire x)))
    (bs_calls x) (bs_published x) (bs_rooms x) (bs_delivered x ++ dispatch ch raw (bs_bus x))).
Proof.
  intros [H1 H2 H3 H4 H5 H6] E. split; cbn [bs_bus bs_wire bs_published bs_rooms bs_delivered ws_in]; try done.
  - intros s. rewrite fmap_app. intros [Hs|Hs]%elem_of_app; [by apply H4|].
    unfold dispatch in Hs. destruct (Envelope_Decode raw) as [e|]; [|by apply elem_of_nil in Hs].
    apply list_elem_of_fmap in Hs as ((s' & e') & -> & Hs). apply list_elem_of_fmap in Hs as (s'' & [= -> ->] & Hs).
    destruct (H1 _ _ Hs) as (room & Hr & _). by exists room.
  - intros s room Hr. etrans; [|by apply (H5 s)]. rewrite received_app, received_dispatch, <- app_assoc by done. apply sublist_app; [done|].
    rewrite E. cbn [in_flight omap list_omap]. fold (in_flight (channel room)).
    case_decide as Hs.
    + destruct (H1 _ _ Hs) as (room' & Hr' & Ec). rewrite Hr in Hr'. injection Hr' as <-.
      rewrite decide_True by done. destruct (decoded raw); cbn; [by apply sublist_skip|done].
    + cbn. destruct (if decide (ch = channel room) then decoded raw else None); [by apply sublist_cons|done].
  - intros c. etrans; [|apply (H6 c)]. rewrite E. cbn [in_flight omap list_omap]. fold (in_flight c).
    destruct (if decide (ch = c) then decoded raw else None); [by apply sublist_cons|done].
Qed.

Lemma bus_inv_publish x ch raw :
  bus_inv x ->
  bus_inv (MkBusSystem (bs_bus x) (serve_publish ch raw (bs_wire x)) (bs_calls x) (bs_published x ++ [(ch, raw)])
    (bs_rooms x) (bs_delivered x)).
Proof.
  intros [H1 H2 H3 H4 H5 H6].
  assert (forall c l, l ++ in_flight c (ws_in (bs_wire x)) `sublist_of` sent_on c (bs_published x) ->
    l ++ in_flight c (ws_in (serve_publish ch raw (bs_wire x))) `sublist_of` sent_on c (bs_published x ++ [(ch, raw)])) as Hadd.
  { intros c l Hl. rewrite sent_on_app. unfold serve_publish. case_decide.
    - cbn [ws_in]. rewrite in_flight_app, app_assoc. by apply sublist_app.
    - by apply sublist_inserts_r. }
  split; cbn [bs_bus bs_wire bs_published bs_rooms bs_delivered]; try done.
  - intros s room Hr. by apply Hadd, H5.
  - intros c. by apply (Hadd c []), H6.
Qed.

Lemma bstep_inv x y : bus_inv x -> bstep x y -> bus_inv y.
Proof.
  intros Hx [t room Ht|t room r Ht Hs|t room s first r Ht Hs|t room s Ht|t room s Ht|t room s Ht|t room s Ht Hr|t room s Ht
    |t room s Ht|t room s Ht|t room s leave r Ht Hc|t ch Ht|t ch Ht|c out Ho|ch raw| |ch rest Hst Hi|ch raw rest Hst Hi| ];
    try (by apply bus_inv_register) || (by apply bus_inv_dispatch) || (by apply bus_inv_publish); try (by apply (bus_inv_frame x)).
  - unfold sub_Close in Hc. injection Hc as _ <-. apply (bus_inv_frame x); try done. intros ch. cbn.
    assert (forall l, l `sublist_of` listeners (bs_bus x) (channel room) ->
      default [] (match l with [] => delete (channel room) (rd_handlers (bs_bus x)) | _ => <[channel room := l]> (rd_handlers (bs_bus x)) end !! ch)
      `sublist_of` listeners (bs_bus x) ch) as Hl; [|apply Hl, remove_first_sub].
    intros [|p l] Hl.
    + destruct (decide (ch = channel room)) as [->|]; [rewrite lookup_delete_eq; apply sublist_nil_l|by rewrite lookup_delete_ne].
    + rewrite listeners_insert. by case_decide; subst.
  - apply (bus_inv_frame x); try done. intros ch. destruct c as [c|c]; [|done].
    cbn [bs_wire with_wire serve_command ws_in]. rewrite in_flight_app. cbn [in_flight omap list_omap]. by rewrite app_nil_r.
  - apply (bus_inv_frame x); try done. intros ch. apply sublist_nil_l.
  - apply (bus_inv_frame x); try done.
    + intros c. cbn. unfold confirmed. by destruct (rd_pending (bs_bus x) !! ch).
    + cbn. unfold confirmed. by destruct (rd_pending (bs_bus x) !! ch).
    + intros c. cbn. rewrite Hi. done.
Qed.

(** C29. What a room hears over Redis.  However subscriptions, closings, other publishers,
    lost connections and the receive loop interleave, the envelopes handed to a
    subscription are a subsequence of what was published for its own room and decodes:
    in order, none twice, none of another room, none made up. *)
Theorem redis_in_order x s room :
  bus_run x -> bs_rooms x !! s = Some room ->
  received s (bs_delivered x) `sublist_of` sent_on (channel room) (bs_published x)
  /\ forall other, channel other = channel room -> other = room.
Proof.
  intros Hr Hs. assert (bus_inv x) as Hx.
  { clear Hs. induction Hr as [|x y _ IH Hst]; [|by eapply bstep_inv].
    split; cbn; try done; [intros ch s0 H0; by apply elem_of_nil in H0|intros; apply NoDup_nil_2|by intros s0 []|..]; intros s0 H0;
      by apply elem_of_nil in H0. }
  split; [|by intros other ?%channel_inj]. etrans; [|by apply Hx]. by apply sublist_inserts_r.
Qed.
End Redis.

(** ** A node *)

Definition demo_prefix : bytes := str "y".
Definition notes : bytes := str "n".
Definition hello : bytes := envelope_bytes (MkEnvelope 3 KindUpdate [1]).

Ltac side := first [reflexivity | by vm_compute; set_solver].
Tactic Notation "next" uconstr(c) :=
  lazymatch goal with R : bus_run ?p ?x |- _ =>
    let R' := fresh in eassert (bus_run p _) as R' by (eapply (br_step p x _ R); eapply c; side); clear R; rename R' into R;
    lazymatch type of R with bus_run _ ?y => let y' := eval vm_compute in y in change (bus_run p y') in R end end.

(** One room subscribes, and hears one envelope. *)
Lemma heard_run : exists x, bus_run demo_prefix x /\ bs_rooms x !! 1%positive = Some notes
  /\ received 1 (bs_delivered x) = [MkEnvelope 3 KindUpdate [1]].
Proof.
  pose proof (br_start demo_prefix) as R.
  next (b_begin _ _ 0 notes).
  next (b_register _ _ 0 notes 1%positive true _).
  next (b_await _ _ 0 notes 1%positive).
  next (b_send _ _ 0 notes 1%positive).
  next (b_serves _ _ _ _).
  next (b_publish _ _ (channel demo_prefix notes) hello).
  next (b_confirmed _ _ _ _).
  next (b_dispatch _ _ _ _ _).
  eexists. split; [exact R|]. by vm_compute.
Qed.

Lemma redis_in_order_witness :
  exists x, received 1 (bs_delivered x) = [MkEnvelope 3 KindUpdate [1]]
    /\ [MkEnvelope 3 KindUpdate [1]] `sublist_of` sent_on (channel demo_prefix notes) (bs_published x).
Proof.
  destruct heard_run as (x & H1 & H2 & H3). exists x. split; [exact H3|]. rewrite <- H3.
  apply (redis_in_order demo_prefix x 1 notes H1 H2).
Defined.

(** The last listener of a channel leaves while the next one arrives: [Close] decides to
    unsubscribe, the newcomer subscribes and is confirmed, and then the UNSUBSCRIBE goes
    out.  [Subscribe] has returned, nothing is in flight, and the room is registered; but
    the server has nothing for this connection, and a reconnection will not ask. *)
Example unsubscribe_races_subscribe :
  exists x, bus_run demo_prefix x
    /\ bs_calls x !! 1%nat = Some (Subscribed notes 2) /\ bs_calls x !! 0%nat = Some Returned
    /\ listeners (bs_bus x) (channel demo_prefix notes) = [2%positive]
    /\ ws_out (bs_wire x) = [] /\ ws_in (bs_wire x) = [] /\ ws_subs (bs_wire x) = ∅ /\ ws_asked (bs_wire x) = ∅.
Proof.
  pose proof (br_start demo_prefix) as R.
  next (b_begin _ _ 0 notes).
  next (b_register _ _ 0 notes 1%positive true _).
  next (b_await _ _ 0 notes 1%positive).
  next (b_send _ _ 0 notes 1%positive).
  next (b_serves _ _ _ _).
  next (b_confirmed _ _ _ _).
  next (b_ready _ _ 0 notes 1%positive).
  next (b_close _ _ 0 notes 1%positive).
  next (b_remove _ _ 0 notes 1%positive true _).
  next (b_begin _ _ 1 notes).
  next (b_register _ _ 1 notes 2%positive true _).
  next (b_await _ _ 1 notes 2%positive).
  next (b_send _ _ 1 notes 2%positive).
  next (b_serves _ _ _ _).
  next (b_confirmed _ _ _ _).
  next (b_ready _ _ 1 notes 2%positive).
  next (b_unsubscribe _ _ 0 (channel demo_prefix notes)).
  next (b_serves _ _ _ _).
  eexists. split; [exact R|]. by vm_compute.
Qed.
