(* ===== verification/Text.v ===== *)
(** * Text

    What the HTTP-facing packages use of Go's [strings], [strconv] and [unicode/utf8],
    on strings as lists of bytes: splitting and trimming, decimal integers, and UTF-8
    decoding, validity and encoding. *)

From stdpp Require Import strings.
From S2P Require Import Prelude.

(** ** Splitting and trimming *)

(** [strings.Cut] at a one-byte separator. *)
Fixpoint cut (sep : Z) (s : bytes) : option (bytes * bytes) :=
  match s with
  | [] => None
  | c :: s =>
      if c =? sep then Some ([], s)
      else match cut sep s with Some (a, b) => Some (c :: a, b) | None => None end
  end.

(** [strings.SplitSeq] at a one-byte separator: always at least one part. *)
Fixpoint split_on (sep : Z) (s : bytes) : list bytes :=
  match s with
  | [] => [[]]
  | c :: s =>
      if c =? sep then [] :: split_on sep s
      else match split_on sep s with p :: ps => (c :: p) :: ps | [] => [[c]] end
  end.

(** [strings.CutPrefix]. *)
Fixpoint cut_prefix (p s : bytes) : option bytes :=
  match p, s with
  | [], _ => Some s
  | x :: p, y :: s => if x =? y then cut_prefix p s else None
  | _ :: _, [] => None
  end.

(** [strings.Trim] with a set of ASCII characters. *)
Definition in_set (cutset : bytes) (c : Z) : bool := existsb (Z.eqb c) cutset.

Fixpoint trim_left (cutset s : bytes) : bytes :=
  match s with
  | c :: t => if in_set cutset c then trim_left cutset t else s
  | [] => []
  end.

Definition Trim (cutset s : bytes) : bytes := rev (trim_left cutset (rev (trim_left cutset s))).

(** The UTF-8 encodings of the runes for which [unicode.IsSpace] holds.  UTF-8 being
    prefix-free, a string starts (ends) with such a rune exactly when one of these is a
    prefix (suffix) of it. *)
Definition spaces : list bytes :=
  [[9]; [10]; [11]; [12]; [13]; [32]; [0xC2; 0x85]; [0xC2; 0xA0]; [0xE1; 0x9A; 0x80]]
  ++ map (fun n => [0xE2; 0x80; 0x80 + Z.of_nat n]) (seq 0 11)
  ++ [[0xE2; 0x80; 0xA8]; [0xE2; 0x80; 0xA9]; [0xE2; 0x80; 0xAF]; [0xE2; 0x81; 0x9F]; [0xE3; 0x80; 0x80]].

Fixpoint first_some {A B} (f : A -> option B) (l : list A) : option B :=
  match l with
  | [] => None
  | x :: l => match f x with Some y => Some y | None => first_some f l end
  end.

(** Strips elements of [ps] from the front while there is one. *)
Fixpoint strip (ps : list bytes) (fuel : nat) (s : bytes) : bytes :=
  match fuel with
  | O => s
  | S fuel =>
      match first_some (fun p => cut_prefix p s) ps with
      | Some t => strip ps fuel t
      | None => s
      end
  end.

(** [strings.TrimSpace]. *)
Definition TrimSpace (s : bytes) : bytes :=
  let s := strip spaces (length s) s in
  rev (strip (map (@rev Z) spaces) (length s) (rev s)).

(** ** Decimal integers ([strconv]) *)

Fixpoint digits (fuel : nat) (n : Z) (acc : bytes) : bytes :=
  match fuel with
  | O => acc
  | S fuel => if n <? 10 then (48 + n) :: acc else digits fuel (n / 10) ((48 + n mod 10) :: acc)
  end.

(** [strconv.FormatInt(n, 10)] and [strconv.Itoa]; an [int64] has at most 19 digits. *)
Definition FormatInt (n : Z) : bytes :=
  if n <? 0 then 45 :: digits 20 (- n) [] else digits 20 n [].

Fixpoint undigits (acc : Z) (s : bytes) : option Z :=
  match s with
  | [] => Some acc
  | c :: s => if (48 <=? c) && (c <=? 57) then undigits (10 * acc + (c - 48)) s else None
  end.

Definition parse_magnitude (neg : bool) (s : bytes) : option Z :=
  if decide (s = []) then None
  else match undigits 0 s with
       | None => None
       | Some n =>
           if neg then if n <=? two63 then Some (- n) else None
           else if n <? two63 then Some n else None
       end.

(** [strconv.ParseInt(s, 10, 64)]. *)
Definition ParseInt (s : bytes) : option Z :=
  match s with
  | [] => None
  | c :: t =>
      if c =? 45 then parse_magnitude true t
      else if c =? 43 then parse_magnitude false t
      else parse_magnitude false s
  end.

(** ** UTF-8 *)

Definition RuneError : Z := 0xFFFD.

Definition within (lo hi b : Z) : bool := (lo <=? b) && (b <=? hi).

(** The second byte a lead byte admits, and how many bytes the encoding has. *)
Definition lead (b : Z) : option (Z * Z * nat) :=
  if within 0xC2 0xDF b then Some (0x80, 0xBF, 2%nat)
  else if b =? 0xE0 then Some (0xA0, 0xBF, 3%nat)
  else if b =? 0xED then Some (0x80, 0x9F, 3%nat)
  else if within 0xE1 0xEF b then Some (0x80, 0xBF, 3%nat)
  else if b =? 0xF0 then Some (0x90, 0xBF, 4%nat)
  else if within 0xF1 0xF3 b then Some (0x80, 0xBF, 4%nat)
  else if b =? 0xF4 then Some (0x80, 0x8F, 4%nat)
  else None.

Definition tail_byte (b : Z) : bool := within 0x80 0xBF b.

(** [utf8.DecodeRuneInString]: the rune and its width, or [None] where Go returns
    [RuneError] for an invalid or missing encoding. *)
Definition DecodeRune (s : bytes) : option (Z * nat) :=
  match s with
  | [] => None
  | b0 :: t =>
      if within 0 0x7F b0 then Some (b0, 1%nat) else
      match lead b0, t with
      | Some (lo, hi, 2%nat), b1 :: _ =>
          if within lo hi b1 then Some ((b0 - 0xC0) * 64 + (b1 - 0x80), 2%nat) else None
      | Some (lo, hi, 3%nat), b1 :: b2 :: _ =>
          if within lo hi b1 && tail_byte b2
          then Some ((b0 - 0xE0) * 4096 + (b1 - 0x80) * 64 + (b2 - 0x80), 3%nat) else None
      | Some (lo, hi, 4%nat), b1 :: b2 :: b3 :: _ =>
          if within lo hi b1 && tail_byte b2 && tail_byte b3
          then Some ((b0 - 0xF0) * 262144 + (b1 - 0x80) * 4096 + (b2 - 0x80) * 64 + (b3 - 0x80), 4%nat)
          else None
      | _, _ => None
      end
  end.

(** [range] over a string: each rune, or [None] for a byte that is not part of one.
    [skip] counts the bytes of the current rune still to pass. *)
Fixpoint scan (skip : nat) (s : bytes) : list (option Z) :=
  match s with
  | [] => []
  | _ :: t =>
      match skip with
      | S k => scan k t
      | O => match DecodeRune s with
             | Some (r, n) => Some r :: scan (n - 1) t
             | None => None :: scan 0 t
             end
      end
  end.

Definition runes (s : bytes) : list (option Z) := scan 0 s.

(** [utf8.ValidString]. *)
Definition ValidString (s : bytes) : bool := forallb (fun o => bool_decide (is_Some o)) (runes s).

(** [utf8.EncodeRune] of a Unicode scalar value. *)
Definition EncodeRune (r : Z) : bytes :=
  if r <? 0x80 then [r]
  else if r <? 0x800 then [0xC0 + r / 64; 0x80 + r mod 64]
  else if r <? 0x10000 then [0xE0 + r / 4096; 0x80 + (r / 64) mod 64; 0x80 + r mod 64]
  else [0xF0 + r / 262144; 0x80 + (r / 4096) mod 64; 0x80 + (r / 64) mod 64; 0x80 + r mod 64].

Definition encode_runes (rs : list Z) : bytes := rs ≫= EncodeRune.

(** [strings.ToValidUTF8(s, "")]: the runes of [s], its invalid bytes dropped. *)
Definition ToValidUTF8 (s : bytes) : bytes := encode_runes (omap id (runes s)).

(** [strings.Map] on a valid string. *)
Definition MapRunes (f : Z -> Z) (s : bytes) : bytes := encode_runes (map f (omap id (runes s))).

Definition scalar (r : Z) : Prop := 0 <= r < 0xD800 \/ 0xE000 <= r < 0x110000.

(** ** Lemmas on splitting and trimming *)

Lemma cut_app sep a b : sep ∉ a -> cut sep (a ++ sep :: b) = Some (a, b).
Proof.
  induction a as [|c a IH]; cbn; intros H; [by rewrite Z.eqb_refl|].
  apply not_elem_of_cons in H as [Hc H]. apply Z.eqb_neq in Hc. rewrite Z.eqb_sym in Hc.
  by rewrite Hc, IH.
Qed.

Lemma cut_inv sep s : forall a b, cut sep s = Some (a, b) -> s = a ++ sep :: b /\ sep ∉ a.
Proof.
  induction s as [|c s IH]; cbn; intros a b; [done|]. destruct (c =? sep) eqn:E; bool_arith.
  - intros [= <- <-]. subst. split; [done|apply not_elem_of_nil].
  - destruct (cut sep s) as [[a' b']|]; [|done]. intros [= <- <-].
    destruct (IH a' b' eq_refl) as [-> H]. split; [done|]. apply not_elem_of_cons. split; [congruence|done].
Qed.

Lemma split_on_none sep a : sep ∉ a -> split_on sep a = [a].
Proof.
  induction a as [|c a IH]; cbn; intros H; [done|].
  apply not_elem_of_cons in H as [Hc H]. apply Z.eqb_neq in Hc. rewrite Z.eqb_sym in Hc.
  by rewrite Hc, IH.
Qed.

Lemma split_on_app sep a b : sep ∉ a -> split_on sep (a ++ sep :: b) = a :: split_on sep b.
Proof.
  induction a as [|c a IH]; cbn; intros H; [by rewrite Z.eqb_refl|].
  apply not_elem_of_cons in H as [Hc H]. apply Z.eqb_neq in Hc. rewrite Z.eqb_sym in Hc.
  by rewrite Hc, IH.
Qed.

Lemma split_on_cons sep s : exists p ps, split_on sep s = p :: ps.
Proof. induction s as [|c s (p & ps & E)]; cbn; [eauto|]. destruct (c =? sep); [eauto|]. rewrite E. eauto. Qed.

(** Splitting what was written in two pieces around the separator. *)
Lemma split_on_app_gen sep a b : split_on sep (a ++ sep :: b) = split_on sep a ++ split_on sep b.
Proof.
  induction a as [|c a IH]; cbn; [by rewrite Z.eqb_refl|].
  destruct (c =? sep); [by rewrite IH|]. rewrite IH.
  destruct (split_on_cons sep a) as (p & ps & ->). done.
Qed.

Lemma cut_prefix_app p s : cut_prefix p (p ++ s) = Some s.
Proof. induction p as [|x p IH]; cbn; [done|]. by rewrite Z.eqb_refl. Qed.

Lemma cut_prefix_inv p : forall s t, cut_prefix p s = Some t -> s = p ++ t.
Proof.
  induction p as [|x p IH]; cbn; intros s t; [congruence|]. destruct s as [|y s]; [done|].
  destruct (x =? y) eqn:E; [|done]. bool_arith. intros H. f_equal; [done|auto].
Qed.

(** A visible ASCII character starts no space and ends none. *)
Definition graphic (c : Z) : Prop := 33 <= c <= 126.

Lemma cut_prefix_head p c s t : cut_prefix p (c :: s) = Some t -> p <> [] -> head p = Some c.
Proof. destruct p as [|x p]; cbn; [done|]. destruct (x =? c) eqn:E; [|done]. bool_arith. by intros; subst. Qed.

Definition starts_space (ps : list bytes) : Prop := Forall (fun p => exists x t, p = x :: t /\ ~ graphic x) ps.

Lemma first_some_none {A B} (f : A -> option B) l : Forall (fun x => f x = None) l -> first_some f l = None.
Proof. induction 1 as [|x l Hx Hl IH]; cbn; [done|]. by rewrite Hx. Qed.

Lemma strip_graphic ps fuel c s : starts_space ps -> graphic c -> strip ps fuel (c :: s) = c :: s.
Proof.
  intros Hps Hc. destruct fuel as [|fuel]; cbn; [done|].
  rewrite first_some_none; [done|]. eapply Forall_impl; [exact Hps|].
  intros p (x & t & -> & Hx). cbn. destruct (x =? c) eqn:E; [|done]. bool_arith. by subst.
Qed.

Lemma spaces_start : starts_space spaces.
Proof. repeat (constructor; [do 2 eexists; split; [reflexivity|unfold graphic; lia]|]). constructor. Qed.

Lemma spaces_end : starts_space (map (@rev Z) spaces).
Proof. repeat (constructor; [do 2 eexists; split; [reflexivity|unfold graphic; lia]|]). constructor. Qed.

(** Trimming leaves a string alone whose first and last bytes are visible. *)
Lemma TrimSpace_graphic s c d t :
  s = c :: t -> last s = Some d -> graphic c -> graphic d -> TrimSpace s = s.
Proof.
  intros -> Hl Hc Hd. unfold TrimSpace.
  rewrite (strip_graphic _ _ c t spaces_start Hc).
  apply last_Some in Hl as [l El]. rewrite El, rev_app_distr. cbn [rev app].
  rewrite (strip_graphic _ _ d _ spaces_end Hd). cbn [rev]. by rewrite rev_involutive.
Qed.

Lemma strip_suffix ps fuel : forall s, exists p, s = p ++ strip ps fuel s.
Proof.
  induction fuel as [|fuel IH]; intros s; cbn; [by exists []|].
  destruct (first_some _ ps) as [t|] eqn:E; [|by exists []].
  assert (exists p, s = p ++ t) as [p ->].
  { clear IH. induction ps as [|q ps IH]; cbn in E; [done|].
    destruct (cut_prefix q s) eqn:Eq; [|auto]. injection E as ->.
    exists q. by apply cut_prefix_inv. }
  destruct (IH t) as [p' Hp']. exists (p ++ p'). rewrite <- app_assoc. by f_equal.
Qed.

(** Trimming takes a prefix and a suffix off. *)
Lemma TrimSpace_infix s : exists p q, s = p ++ TrimSpace s ++ q.
Proof.
  unfold TrimSpace. destruct (strip_suffix spaces (length s) s) as [p Hp].
  set (u := strip spaces (length s) s) in *.
  destruct (strip_suffix (map (@rev Z) spaces) (length u) (rev u)) as [q Hq].
  exists p, (rev q). rewrite Hp at 1. f_equal.
  rewrite <- (rev_involutive u) at 1. rewrite Hq at 1. by rewrite rev_app_distr.
Qed.

Lemma TrimSpace_length s : (length (TrimSpace s) <= length s)%nat.
Proof. destruct (TrimSpace_infix s) as (p & q & E). rewrite E at 2. rewrite !length_app. lia. Qed.

(** ** Decimal integers *)

Lemma digits_spec fuel : forall n acc, 0 <= n < 10 ^ Z.of_nat fuel -> (0 < fuel)%nat ->
  exists ds, digits fuel n acc = ds ++ acc /\ ds <> []
  /\ Forall (fun c => 48 <= c <= 57) ds /\ (forall a s, undigits a (ds ++ s) = undigits (a * 10 ^ Z.of_nat (length ds) + n) s).
Proof.
  induction fuel as [|fuel IH]; intros n acc Hn Hf; [lia|].
  cbn [digits]. destruct (n <? 10) eqn:E; bool_arith.
  - exists [48 + n]. split_and!; [done|done|repeat constructor; lia|].
    intros a s. cbn. replace ((48 <=? 48 + n) && (48 + n <=? 57)) with true.
    { f_equal. lia. }
    symmetry. apply andb_true_iff. split; apply Z.leb_le; lia.
  - assert (0 < fuel)%nat as Hf'.
    { destruct fuel; [|lia]. change (10 ^ Z.of_nat 1) with 10 in Hn. lia. }
    destruct (IH (n / 10) ((48 + n mod 10) :: acc)) as (ds & E1 & E2 & E3 & E4); [|done|].
    { rewrite Nat2Z.inj_succ, Z.pow_succ_r in Hn by lia.
      split; [apply Z.div_pos; lia|apply Z.div_lt_upper_bound; lia]. }
    pose proof (Z.mod_pos_bound n 10 ltac:(lia)).
    exists (ds ++ [48 + n mod 10]). split_and!.
    + rewrite E1. by rewrite <- app_assoc.
    + by destruct ds.
    + apply Forall_app. split; [done|]. repeat constructor; lia.
    + intros a s. rewrite <- app_assoc, E4. cbn.
      replace ((48 <=? 48 + n mod 10) && (48 + n mod 10 <=? 57)) with true.
      2:{ symmetry. apply andb_true_iff. split; apply Z.leb_le; lia. }
      f_equal. rewrite length_app. cbn. rewrite Nat2Z.inj_add, Z.pow_add_r by lia.
      cbn. pose proof (Z.div_mod n 10). lia.
Qed.

(** [FormatInt] writes an optional sign and digits, and [ParseInt] reads them back. *)
Lemma FormatInt_shape n : - two63 <= n < two63 ->
  exists ds, FormatInt n = (if n <? 0 then [45] else []) ++ ds /\ ds <> []
  /\ Forall (fun c => 48 <= c <= 57) ds /\ undigits 0 ds = Some (Z.abs n).
Proof.
  intros Hn. unfold FormatInt. unfold two63 in Hn.
  destruct (digits_spec 20 (Z.abs n) []) as (ds & E1 & E2 & E3 & E4); [|lia|].
  { change (10 ^ Z.of_nat 20) with 100000000000000000000. lia. }
  rewrite app_nil_r in E1. exists ds.
  specialize (E4 0 []). rewrite app_nil_r in E4. cbn in E4.
  destruct (n <? 0) eqn:E; bool_arith.
  - replace (- n) with (Z.abs n) by lia. rewrite E1. done.
  - replace n with (Z.abs n) at 1 by lia. rewrite E1. done.
Qed.

Lemma ParseInt_FormatInt n : - two63 <= n < two63 -> ParseInt (FormatInt n) = Some n.
Proof.
  intros Hn. destruct (FormatInt_shape n Hn) as (ds & -> & Hne & Hd & Hu). unfold ParseInt, parse_magnitude.
  unfold two63 in *. destruct (n <? 0) eqn:E; bool_arith; cbn [app].
  - rewrite Z.eqb_refl, decide_False, Hu by done. case_if; [f_equal|]; lia.
  - destruct ds as [|c ds]; [done|]. inversion Hd as [|? ? Hc _]; subst.
    do 2 (case_if; [lia|]). rewrite decide_False, Hu by done. case_if; [f_equal|]; lia.
Qed.

Lemma undigits_chars c t : forall a m, undigits a t = Some m -> c ∈ t -> 48 <= c <= 57.
Proof.
  induction t as [|d t IH]; cbn; intros a m H Hc; [by apply elem_of_nil in Hc|].
  case_if_in H; [|done]. apply elem_of_cons in Hc as [->|Hc]; [lia|eauto].
Qed.

(** A character that is neither a digit nor a sign is in no parsable integer. *)
Lemma ParseInt_chars s n c : ParseInt s = Some n -> c ∈ s -> 48 <= c <= 57 \/ c = 43 \/ c = 45.
Proof.
  assert (forall neg t, parse_magnitude neg t = Some n -> c ∈ t -> 48 <= c <= 57) as Hp.
  { intros neg t. unfold parse_magnitude. case_decide; [done|].
    destruct (undigits 0 t) eqn:E; [|done]. eauto using undigits_chars. }
  unfold ParseInt. intros H Hc. destruct s as [|d s]; [done|].
  repeat case_if; subst; [..|by eauto]; apply elem_of_cons in Hc as [->|Hc]; eauto.
Qed.

(** ** UTF-8 *)

Ltac utf8_arith := unfold within, tail_byte, scalar in *; bool_arith; Z.to_euclidean_division_equations; lia.

Lemma within_true lo hi b : lo <= b <= hi -> within lo hi b = true.
Proof. intros H. unfold within. apply andb_true_iff. split; apply Z.leb_le; lia. Qed.

Lemma within_false lo hi b : b < lo \/ hi < b -> within lo hi b = false.
Proof. intros H. unfold within. apply andb_false_iff. rewrite !Z.leb_gt. lia. Qed.

Lemma within_inv lo hi b : within lo hi b = true -> lo <= b <= hi.
Proof. unfold within. intros H. bool_arith. lia. Qed.

Lemma within_not lo hi b : within lo hi b = false -> b < lo \/ hi < b.
Proof. unfold within. rewrite andb_false_iff, !Z.leb_gt. done. Qed.

Ltac within_arith :=
  unfold tail_byte in *; bool_arith;
  repeat match goal with
  | H : within _ _ _ = true |- _ => apply within_inv in H
  | H : within _ _ _ = false |- _ => apply within_not in H
  | H : (_ && _) = false |- _ => apply andb_false_iff in H as [H|H]
  end.

(** Decoding reads exactly what encoding a Unicode scalar value writes. *)
Lemma DecodeRune_inv s r n : DecodeRune s = Some (r, n) ->
  scalar r /\ n = length (EncodeRune r) /\ s = EncodeRune r ++ drop n s.
Proof.
  unfold DecodeRune, lead. intros H.
  repeat (case_match; try done); simplify_eq; within_arith; subst;
    (split; [unfold scalar; lia|]); unfold EncodeRune; repeat case_if;
    try (Z.to_euclidean_division_equations; lia); (split; [done|]); cbn; rewrite ?drop_0; repeat f_equal;
    Z.to_euclidean_division_equations; lia.
Qed.

Lemma DecodeRune_encode r t : scalar r -> DecodeRune (EncodeRune r ++ t) = Some (r, length (EncodeRune r)).
Proof.
  unfold scalar, EncodeRune. intros Hr. repeat case_if; cbn [app DecodeRune length].
  - by rewrite within_true by lia.
  - unfold lead.
    rewrite (within_false 0 127), (within_true 194 223) by (Z.to_euclidean_division_equations; lia).
    rewrite within_true by (Z.to_euclidean_division_equations; lia).
    do 2 f_equal. Z.to_euclidean_division_equations; lia.
  - unfold lead, tail_byte.
    rewrite (within_false 0 127), (within_false 194 223) by (Z.to_euclidean_division_equations; lia).
    repeat case_if; within_arith; try (Z.to_euclidean_division_equations; lia);
    cbn; do 2 f_equal; Z.to_euclidean_division_equations; lia.
  - unfold lead, tail_byte.
    rewrite (within_false 0 127), (within_false 194 223) by (Z.to_euclidean_division_equations; lia).
    repeat case_if; within_arith; try (Z.to_euclidean_division_equations; lia);
    cbn; do 2 f_equal; Z.to_euclidean_division_equations; lia.
Qed.

Lemma EncodeRune_shape r : scalar r -> exists b t, EncodeRune r = b :: t
  /\ tail_byte b = false /\ Forall (fun c => tail_byte c = true) t /\ (length t <= 3)%nat.
Proof.
  unfold scalar, EncodeRune. intros Hr.
  repeat case_if; do 2 eexists; (split; [reflexivity|]); (split; [|split; [|cbn; lia]]);
    repeat constructor; (apply within_true || apply within_false); Z.to_euclidean_division_equations; lia.
Qed.

Lemma encode_runes_cons r rs : encode_runes (r :: rs) = EncodeRune r ++ encode_runes rs.
Proof. done. Qed.

Lemma encode_runes_app rs rs' : encode_runes (rs ++ rs') = encode_runes rs ++ encode_runes rs'.
Proof. apply bind_app. Qed.

Lemma scan_skip u t : scan (length u) (u ++ t) = scan 0 t.
Proof. induction u as [|c u IH]; cbn; [by destruct t|done]. Qed.

Lemma runes_encode rs t : Forall scalar rs -> runes (encode_runes rs ++ t) = map Some rs ++ runes t.
Proof.
  induction 1 as [|r rs Hr Hrs IH]; cbn [map app]; [done|].
  rewrite encode_runes_cons, <- app_assoc, <- IH. unfold runes.
  pose proof (DecodeRune_encode r (encode_runes rs ++ t) Hr) as Hd.
  destruct (EncodeRune_shape r Hr) as (b & u & E & _). rewrite E in *. cbn [app scan] in *.
  rewrite Hd. f_equal. cbn [length]. rewrite Nat.sub_succ, Nat.sub_0_r. apply scan_skip.
Qed.

Lemma runes_scalar s o : o ∈ runes s -> from_option scalar True o.
Proof.
  unfold runes. generalize 0%nat as k. induction s as [|b s IH]; intros k; cbn [scan].
  { by rewrite elem_of_nil. }
  destruct k as [|k]; [|apply IH]. destruct (DecodeRune (b :: s)) as [[r n]|] eqn:E.
  - rewrite elem_of_cons. intros [->|H]; [|by eapply IH]. by apply DecodeRune_inv in E as (? & _).
  - rewrite elem_of_cons. intros [->|H]; [done|by eapply IH].
Qed.

Lemma runes_scalars s : Forall scalar (omap id (runes s)).
Proof.
  apply Forall_forall. intros r Hr. apply list_elem_of_omap in Hr as (o & Ho & E).
  destruct o as [r'|]; [|done]. injection E as ->. by apply runes_scalar in Ho.
Qed.

(** Reading the runes of a string and writing them back never makes it longer, and
    gives it back when every byte belongs to one. *)
Lemma encode_runes_scan s : forall k,
  (length (encode_runes (omap id (scan k s))) <= length s - k)%nat
  /\ (forallb (fun o => bool_decide (is_Some o)) (scan k s) = true ->
      (k <= length s)%nat -> encode_runes (omap id (scan k s)) = drop k s).
Proof.
  induction s as [|b s IH]; intros k; cbn [scan]; [by rewrite drop_nil|].
  destruct k as [|k].
  2:{ destruct (IH k) as [H1 H2]. cbn [length drop]. split; [lia|]. intros Hv Hk. apply H2; [done|lia]. }
  destruct (DecodeRune (b :: s)) as [[r n]|] eqn:E.
  - apply DecodeRune_inv in E as (Hr & Hn & Es).
    assert (length (EncodeRune r) + length (drop n (b :: s)) = length (b :: s))%nat as Hl.
    { rewrite <- length_app, <- Es. done. }
    rewrite length_drop in Hl.
    destruct (EncodeRune_shape r Hr) as (b' & u & E' & _ & _ & _).
    destruct (IH (n - 1)%nat) as [H1 H2]. cbn [omap list_omap id forallb length drop] in *.
    rewrite encode_runes_cons, length_app. rewrite E' in Hn, Hl |- *. cbn [length] in *. split; [lia|].
    rewrite bool_decide_true by done. cbn [andb]. intros Hv _. rewrite H2 by (done || lia).
    rewrite E' in Es. etrans; [|symmetry; exact Es]. f_equal. subst n. cbn [drop]. by rewrite Nat.sub_succ, Nat.sub_0_r.
  - destruct (IH 0%nat) as [H1 _]. cbn [omap list_omap id forallb length] in *. split; [lia|].
    by rewrite bool_decide_false by (by intros [? ?]).
Qed.

(** A string is valid exactly when it is the encoding of Unicode scalar values. *)
Lemma ValidString_iff s : ValidString s = true <-> exists rs, Forall scalar rs /\ s = encode_runes rs.
Proof.
  split.
  - intros H. exists (omap id (runes s)). split; [apply runes_scalars|].
    destruct (encode_runes_scan s 0) as [_ E]. unfold runes. rewrite E; [done|exact H|lia].
  - intros (rs & Hrs & ->). unfold ValidString.
    rewrite <- (app_nil_r (encode_runes rs)), runes_encode by done. cbn. rewrite app_nil_r.
    induction rs as [|r rs IH]; [done|]. inversion Hrs; subst. auto.
Qed.

Lemma ValidString_runes rs : Forall scalar rs -> ValidString (encode_runes rs) = true.
Proof. intros H. apply ValidString_iff. eauto. Qed.

Lemma omap_runes_encode rs : Forall scalar rs -> omap id (runes (encode_runes rs)) = rs.
Proof.
  intros H. rewrite <- (app_nil_r (encode_runes rs)), runes_encode by done. cbn. rewrite app_nil_r.
  clear H. induction rs as [|r rs IH]; [done|]. cbn. by f_equal.
Qed.

Lemma ToValidUTF8_length s : (length (ToValidUTF8 s) <= length s)%nat.
Proof. destruct (encode_runes_scan s 0) as [H _]. unfold ToValidUTF8, runes. lia. Qed.

(** UTF-8 is self-synchronising: an encoded rune at either end of an encoded string is
    the first or last of its runes. *)
Lemma encode_prefix rs r t : Forall scalar rs -> scalar r -> encode_runes rs = EncodeRune r ++ t ->
  exists rs', rs = r :: rs' /\ t = encode_runes rs'.
Proof.
  intros Hrs Hr E. destruct Hrs as [|r' rs Hr' Hrs].
  { destruct (EncodeRune_shape r Hr) as (b & u & E' & _). by rewrite E' in E. }
  exists rs. rewrite encode_runes_cons in E.
  pose proof (DecodeRune_encode r' (encode_runes rs) Hr') as H1. rewrite E in H1.
  rewrite DecodeRune_encode in H1 by done. injection H1 as -> _. split; [done|]. by apply app_inv_head in E.
Qed.

Lemma tail_suffix (b b' : Z) (u u' x y : bytes) :
  x ++ b :: u = y ++ b' :: u' -> tail_byte b = false -> tail_byte b' = false ->
  Forall (fun c => tail_byte c = true) u -> Forall (fun c => tail_byte c = true) u' ->
  x = y /\ b :: u = b' :: u'.
Proof.
  revert y. induction x as [|c x IH]; intros y E Hb Hb' Hu Hu'; destruct y as [|d y]; cbn in E.
  - done.
  - injection E as -> ->. apply Forall_app in Hu as [_ Hu]. inversion Hu; subst. congruence.
  - injection E as -> <-. apply Forall_app in Hu' as [_ Hu']. inversion Hu'; subst. congruence.
  - injection E as -> E. destruct (IH y E) as [-> ->]; done.
Qed.

Lemma encode_suffix rs r t : Forall scalar rs -> scalar r -> encode_runes rs = t ++ EncodeRune r ->
  exists rs', rs = rs' ++ [r] /\ t = encode_runes rs'.
Proof.
  intros Hrs Hr E. destruct (EncodeRune_shape r Hr) as (b & u & E1 & E2 & E3 & _).
  destruct rs as [|r' rs _] using rev_ind; [by rewrite E1 in E; destruct t|].
  apply Forall_app in Hrs as [Hrs Hr']. inversion Hr' as [|? ? Hs _]; subst. exists rs.
  rewrite encode_runes_app in E. cbn in E. rewrite app_nil_r in E.
  destruct (EncodeRune_shape r' Hs) as (b' & u' & E1' & E2' & E3' & _).
  pose proof E as Ei. rewrite E1, E1' in Ei. apply tail_suffix in Ei as [-> Eb]; [|done..].
  split; [|done]. do 2 f_equal.
  pose proof (DecodeRune_encode r [] Hr) as Hd. pose proof (DecodeRune_encode r' [] Hs) as Hd'.
  rewrite E1 in Hd. rewrite E1', Eb in Hd'. rewrite Hd in Hd'. by injection Hd'.
Qed.

Lemma spaces_runes : Forall (fun p => exists r, scalar r /\ p = EncodeRune r) spaces.
Proof.
  assert (Forall (fun p => exists r, DecodeRune p = Some (r, length p)) spaces) as H.
  { repeat (constructor; [eexists; reflexivity|]). constructor. }
  eapply Forall_impl; [exact H|]. intros p [r Hr]. apply DecodeRune_inv in Hr as (H1 & H2 & H3).
  exists r. split; [done|]. by rewrite drop_all, app_nil_r in H3.
Qed.

Lemma first_some_inv {A B} (f : A -> option B) l y : first_some f l = Some y -> exists x, x ∈ l /\ f x = Some y.
Proof.
  induction l as [|x l IH]; cbn; [done|]. destruct (f x) eqn:E.
  - intros [= ->]. exists x. split; [left|done].
  - intros H. destruct (IH H) as (z & ? & ?). exists z. split; [by right|done].
Qed.

Lemma strip_front fuel : forall rs, Forall scalar rs ->
  exists n, strip spaces fuel (encode_runes rs) = encode_runes (drop n rs).
Proof.
  induction fuel as [|fuel IH]; intros rs Hrs; cbn [strip]; [by exists 0%nat|].
  destruct (first_some _ spaces) as [t|] eqn:E; [|by exists 0%nat].
  apply first_some_inv in E as (p & Hp & E). apply cut_prefix_inv in E.
  pose proof spaces_runes as Hs. rewrite Forall_forall in Hs. destruct (Hs p Hp) as (r & Hr & ->).
  apply encode_prefix in E as (rs' & -> & ->); [|done..]. inversion Hrs; subst.
  destruct (IH rs') as [n ->]; [done|]. by exists (S n).
Qed.

Lemma strip_back fuel : forall rs, Forall scalar rs ->
  exists n, rev (strip (map (@rev Z) spaces) fuel (rev (encode_runes rs))) = encode_runes (take n rs).
Proof.
  induction fuel as [|fuel IH]; intros rs Hrs; cbn [strip].
  { exists (length rs). by rewrite rev_involutive, firstn_all. }
  destruct (first_some _ _) as [t|] eqn:E.
  2:{ exists (length rs). by rewrite rev_involutive, firstn_all. }
  apply first_some_inv in E as (p & Hp & E). apply cut_prefix_inv in E.
  apply list_elem_of_In, in_map_iff in Hp as (q & <- & Hq). apply list_elem_of_In in Hq.
  pose proof spaces_runes as Hs. rewrite Forall_forall in Hs. destruct (Hs q Hq) as (r & Hr & ->).
  apply (f_equal (@rev Z)) in E. rewrite rev_involutive, rev_app_distr, rev_involutive in E.
  apply encode_suffix in E as (rs' & -> & Et); [|done..]. apply Forall_app in Hrs as [Hrs _].
  assert (t = rev (encode_runes rs')) as -> by (rewrite <- Et; by rewrite rev_involutive).
  destruct (IH rs' Hrs) as [n ->]. exists (n `min` length rs')%nat.
  rewrite take_app_le by lia. by rewrite <- take_take, firstn_all.
Qed.

(** Trimming a valid string drops whole runes at its ends. *)
Lemma TrimSpace_runes rs : Forall scalar rs ->
  exists n m, TrimSpace (encode_runes rs) = encode_runes (take m (drop n rs)).
Proof.
  intros Hrs. unfold TrimSpace. destruct (strip_front (length (encode_runes rs)) rs Hrs) as [n ->].
  destruct (strip_back (length (encode_runes (drop n rs))) (drop n rs)) as [m ->]; [by apply Forall_drop|].
  eauto.
Qed.
