(* ===== verification/Base64.v ===== *)
(** * Base64

    What [cmd/server] uses of Go's [encoding/base64]: the padded standard and URL
    encodings.  A decoder drops line breaks wherever they are, takes padding only at the
    very end and does not look at the unused bits of the last character, as
    [Encoding.decodeQuantum] without [Strict]. *)

From stdpp Require Import strings.
From S2P Require Import Prelude Lib0.

(** The two alphabets of the package. *)
Definition encodeStd : bytes := str "ABCDEFGHIJKLMNOPQRSTUVWXYZabcdefghijklmnopqrstuvwxyz0123456789+/".
Definition encodeURL : bytes := str "ABCDEFGHIJKLMNOPQRSTUVWXYZabcdefghijklmnopqrstuvwxyz0123456789-_".
Definition StdPadding : Z := 61.

Section Encoding.
Context (alphabet : bytes).

Definition enc_char (v : Z) : Z := nth (Z.to_nat (Z.land v 0x3F)) alphabet 0.

(** [decodeMap]: the place of a character in the alphabet. *)
Definition dec_char (c : Z) : option Z :=
  fst <$> find (fun x => x.2 =? c) (zip (Z.of_nat <$> seq 0 64) alphabet).

Fixpoint EncodeToString (src : bytes) : bytes :=
  match src with
  | b0 :: b1 :: b2 :: rest =>
      let val := Z.lor (Z.shiftl b0 16) (Z.lor (Z.shiftl b1 8) b2) in
      enc_char (Z.shiftr val 18) :: enc_char (Z.shiftr val 12) :: enc_char (Z.shiftr val 6) :: enc_char val
      :: EncodeToString rest
  | [b0; b1] =>
      let val := Z.lor (Z.shiftl b0 16) (Z.shiftl b1 8) in
      [enc_char (Z.shiftr val 18); enc_char (Z.shiftr val 12); enc_char (Z.shiftr val 6); StdPadding]
  | [b0] =>
      let val := Z.shiftl b0 16 in
      [enc_char (Z.shiftr val 18); enc_char (Z.shiftr val 12); StdPadding; StdPadding]
  | [] => []
  end.

(** The quanta, once the line breaks are gone. *)
Fixpoint quanta (src : bytes) : option bytes :=
  match src with
  | [] => Some []
  | c0 :: c1 :: c2 :: c3 :: rest =>
      d0 ← dec_char c0;
      d1 ← dec_char c1;
      let val := Z.lor (Z.shiftl d0 18) (Z.shiftl d1 12) in
      match dec_char c2 with
      | None =>
          if (c2 =? StdPadding) && (c3 =? StdPadding) && bool_decide (rest = [])
          then Some [Z.land (Z.shiftr val 16) 0xFF] else None
      | Some d2 =>
          let val := Z.lor val (Z.shiftl d2 6) in
          match dec_char c3 with
          | None =>
              if (c3 =? StdPadding) && bool_decide (rest = [])
              then Some [Z.land (Z.shiftr val 16) 0xFF; Z.land (Z.shiftr val 8) 0xFF] else None
          | Some d3 =>
              let val := Z.lor val d3 in
              out ← quanta rest;
              Some (Z.land (Z.shiftr val 16) 0xFF :: Z.land (Z.shiftr val 8) 0xFF :: Z.land val 0xFF :: out)
          end
      end
  | _ => None
  end.

Definition line_break (c : Z) : bool := (c =? 10) || (c =? 13).

Definition DecodeString (s : bytes) : option bytes := quanta (filter (fun c => line_break c = false) s).
End Encoding.

(** ** Round trip *)

(** An alphabet of 64 different characters, none of them padding or a line break. *)
Definition alphabet_ok (alphabet : bytes) : bool :=
  forallb (fun v => bool_decide (dec_char alphabet (enc_char alphabet v) = Some v)
                    && negb (line_break (enc_char alphabet v))) (Z.of_nat <$> seq 0 64)
  && bool_decide (dec_char alphabet StdPadding = None).

Lemma encodeStd_ok : alphabet_ok encodeStd = true.
Proof. by vm_compute. Qed.

Lemma encodeURL_ok : alphabet_ok encodeURL = true.
Proof. by vm_compute. Qed.

Lemma lor_shift a b n : 0 <= n -> 0 <= b < 2 ^ n -> Z.lor (Z.shiftl a n) b = a * 2 ^ n + b.
Proof.
  intros Hn Hb. rewrite <- Z.shiftl_mul_pow2 by done.
  assert (Z.land (Z.shiftl a n) b = 0) as H0.
  { apply Z.bits_inj'. intros k Hk. rewrite Z.land_spec, Z.shiftl_spec, Z.bits_0 by done.
    destruct (decide (k < n)) as [?|?].
    - by rewrite Z.testbit_neg_r by lia.
    - rewrite <- (Z.mod_small b (2 ^ n)) by done. rewrite Z.mod_pow2_bits_high by lia. by rewrite andb_false_r. }
  rewrite Z.add_nocarry_lxor by done. symmetry. by apply Z.lxor_lor.
Qed.

Lemma land_255 v : Z.land v 255 = v mod 256.
Proof. by apply (Z.land_ones v 8). Qed.

Section RoundTrip.
Context (alphabet : bytes) (Hal : alphabet_ok alphabet = true).

Lemma enc_char_mod v : enc_char alphabet v = enc_char alphabet (v mod 64).
Proof. unfold enc_char. rewrite !land_63. by rewrite Z.mod_mod. Qed.

Lemma alphabet_at v : 0 <= v < 64 ->
  dec_char alphabet (enc_char alphabet v) = Some v /\ line_break (enc_char alphabet v) = false.
Proof.
  intros Hv. apply andb_true_iff in Hal as [H _]. rewrite forallb_forall in H.
  specialize (H v). destruct (proj1 (andb_true_iff _ _) (H ltac:(
    apply list_elem_of_In, list_elem_of_fmap; exists (Z.to_nat v); rewrite elem_of_seq; split; lia))) as [H1 H2].
  apply bool_decide_eq_true in H1. by apply negb_true_iff in H2.
Qed.

Lemma dec_enc v : dec_char alphabet (enc_char alphabet v) = Some (v mod 64).
Proof. rewrite enc_char_mod. apply alphabet_at. by apply Z.mod_pos_bound. Qed.

Lemma enc_not_break v : line_break (enc_char alphabet v) = false.
Proof. rewrite enc_char_mod. apply alphabet_at. by apply Z.mod_pos_bound. Qed.

Lemma dec_padding : dec_char alphabet StdPadding = None.
Proof. apply andb_true_iff in Hal as [_ H]. by apply bool_decide_eq_true in H. Qed.

(** Lists of bytes three at a time. *)
Lemma triples (P : bytes -> Prop) :
  P [] -> (forall a, P [a]) -> (forall a b, P [a; b]) -> (forall a b c l, P l -> P (a :: b :: c :: l)) -> forall l, P l.
Proof.
  intros H0 H1 H2 H3 l. enough (P l /\ (forall a, P (a :: l)) /\ (forall a b, P (a :: b :: l))) as [? _] by done.
  induction l as [|x l (IH1 & IH2 & IH3)]; [by eauto|]. repeat split; eauto.
Qed.

Lemma EncodeToString_no_break l : filter (fun c => line_break c = false) (EncodeToString alphabet l) = EncodeToString alphabet l.
Proof.
  induction l as [|a|a b|a b c l IH] using triples; [done|..]; cbn [EncodeToString];
    repeat (rewrite filter_cons_True; [|first [apply enc_not_break|done]]); [done..|by rewrite IH].
Qed.

Ltac flatten := rewrite ?Z.shiftr_div_pow2, ?Z.shiftl_mul_pow2, ?land_255 by lia;
  change (2 ^ 6) with 64; change (2 ^ 8) with 256; change (2 ^ 12) with 4096; change (2 ^ 16) with 65536; change (2 ^ 18) with 262144.
Ltac quantum := flatten; try lia; Z.to_euclidean_division_equations; lia.

Lemma quanta_EncodeToString l : Forall (fun x => 0 <= x < 256) l -> quanta alphabet (EncodeToString alphabet l) = Some l.
Proof.
  induction l as [|a|a b|a b c l IH] using triples; intros Hl; [done|..];
    repeat (apply Forall_cons in Hl as [? Hl]); cbn [EncodeToString quanta]; rewrite !dec_enc, ?dec_padding; cbn [mbind option_bind].
  - change (StdPadding =? StdPadding) with true. rewrite bool_decide_true by done. cbn [andb].
    do 2 f_equal. rewrite !lor_shift; quantum.
  - change (StdPadding =? StdPadding) with true. rewrite bool_decide_true by done. cbn [andb].
    assert (Z.lor (Z.shiftl a 16) (Z.shiftl b 8) = a * 65536 + b * 256) as ->.
    { rewrite lor_shift; quantum. }
    rewrite <- Z.lor_assoc.
    rewrite (lor_shift _ _ 12) by quantum. rewrite (lor_shift _ _ 18) by quantum.
    do 3 f_equal; [|f_equal]; quantum.
  - rewrite IH by done. cbn [mbind option_bind].
    assert (Z.lor (Z.shiftl a 16) (Z.lor (Z.shiftl b 8) c) = a * 65536 + b * 256 + c) as ->.
    { rewrite (lor_shift b c 8), lor_shift; quantum. }
    rewrite <- !Z.lor_assoc.
    rewrite (lor_shift _ _ 6) by quantum. rewrite (lor_shift _ _ 12) by quantum. rewrite (lor_shift _ _ 18) by quantum.
    f_equal; f_equal; [|f_equal; [|f_equal]]; quantum.
Qed.

(** Bytes survive encoding and decoding. *)
Lemma DecodeString_EncodeToString l :
  Forall (fun x => 0 <= x < 256) l -> DecodeString alphabet (EncodeToString alphabet l) = Some l.
Proof. intros Hl. unfold DecodeString. rewrite EncodeToString_no_break. by apply quanta_EncodeToString. Qed.
End RoundTrip.

(** "Man", "Ma", "M", and a line break inside the text. *)
Example base64_rfc :
  EncodeToString encodeStd (str "Man") = str "TWFu" /\ EncodeToString encodeStd (str "Ma") = str "TWE="
  /\ EncodeToString encodeStd (str "M") = str "TQ==" /\ DecodeString encodeStd (str "TW" ++ [10] ++ str "Fu") = Some (str "Man")
  /\ DecodeString encodeStd (str "TQ=") = None /\ DecodeString encodeStd (str "TR==") = Some (str "M").
Proof. by vm_compute. Qed.
