(* ===== verification/Http.v ===== *)
(** * Requests, responses and handlers

    What the administrative handlers of [cmd/server] use of [net/http]: a request as a
    handler sees it, the calls it makes on its [ResponseWriter] and what the client gets
    of them, and [http.Error].

    A handler shares the server with everything else that runs, so it is a program
    ([prog]) whose steps are its critical sections: a lookup under a lock, a command a
    room handles, a statement of the database.  [run] executes one by itself; [exec] lets
    anything happen between its steps. *)

From stdpp Require Import strings.
From S2P Require Import Prelude Text.

(** ** Programs of critical sections *)

Section Prog.
Context {I S : Type}.

Inductive prog (A : Type) : Type :=
  | Done (a : A)
  | Do {X : Type} (f : I -> S -> X * S) (k : X -> prog A).
Arguments Done {A} a.
Arguments Do {A X} f k.

#[export] Instance prog_ret : MRet prog := @Done.
#[export] Instance prog_bind : MBind prog := fun A B f =>
  fix bind (p : prog A) : prog B :=
    match p with
    | Done a => f a
    | Do g k => Do g (fun x => bind (k x))
    end.

(** One critical section. *)
Definition atomically {X} (f : I -> S -> X * S) : prog X := Do f Done.

(** Alone on the server; the [n]th step gets the [n]th input. *)
Fixpoint run {A} (input : nat -> I) (n : nat) (p : prog A) (s : S) : A * S :=
  match p with
  | Done a => (a, s)
  | Do f k => let '(x, s) := f (input n) s in run input (Datatypes.S n) (k x) s
  end.

(** The same, with what others do before each step. *)
Fixpoint run_among {A} (others : list (S -> S)) (input : I) (p : prog A) (s : S) : A * S :=
  match p with
  | Done a => (a, s)
  | Do f k =>
      let '(o, others) := match others with o :: os => (o, os) | [] => (id, []) end in
      let '(x, s) := f input (o s) in run_among others input (k x) s
  end.

(** Among others, which may make a step of [env] before each of its own. *)
Fixpoint exec {A} (env : S -> S -> Prop) (p : prog A) (s : S) (a : A) (s' : S) : Prop :=
  match p with
  | Done b => a = b /\ s' = s
  | Do f k => exists i s1, env s s1 /\ exec env (k (f i s1).1) (f i s1).2 a s'
  end.

Lemma run_exec {A} input (p : prog A) : forall n s, exec eq p s (run input n p s).1 (run input n p s).2.
Proof.
  induction p as [a|X f k IH]; intros n s; cbn [run exec]; [done|].
  exists (input n), s. split; [done|]. destruct (f (input n) s) as [x s1]. apply IH.
Qed.

(** A program stops when its steps are made, whatever the others do. *)
Lemma exec_total {A} env (p : prog A) (i : I) : (forall s, exists s1, env s s1) -> forall s, exists a s', exec env p s a s'.
Proof.
  intros Hr. induction p as [a|X f k IH]; intros s; cbn [exec]; [by eexists _, _|].
  destruct (Hr s) as [s1 H1]. destruct (IH (f i s1).1 (f i s1).2) as (a & s' & H). by exists a, s', i, s1.
Qed.

Lemma exec_bind {A B} env (f : A -> prog B) (p : prog A) : forall s b s',
  exec env (p ≫= f) s b s' <-> exists a s1, exec env p s a s1 /\ exec env (f a) s1 b s'.
Proof.
  induction p as [a|X g k IH]; intros s b s'.
  - split; [by exists a, s|by intros (? & ? & [-> ->] & ?)].
  - change (Do g k ≫= f) with (Do g (fun x => k x ≫= f)). cbn [exec]. split.
    + intros (i & s1 & He & (a & s2 & H1 & H2)%IH). exists a, s2. split; [by exists i, s1|done].
    + intros (a & s2 & (i & s1 & He & H1) & H2). exists i, s1. split; [done|]. apply IH. by exists a, s2.
Qed.

Lemma exec_atomically {X} env (f : I -> S -> X * S) s x s' :
  exec env (atomically f) s x s' <-> exists i s1, env s s1 /\ f i s1 = (x, s').
Proof.
  split; [intros (i & s1 & H & -> & ->); exists i, s1; by destruct (f i s1)|].
  intros (i & s1 & H & E). exists i, s1. cbn. by rewrite E.
Qed.

Lemma exec_ret {A} env (a b : A) s s' : exec env (mret a) s b s' <-> b = a /\ s' = s.
Proof. done. Qed.

Lemma run_bind_Done {A B} input n (f : A -> prog B) a s : run input n (mret a ≫= f) s = run input n (f a) s.
Proof. done. Qed.

(** Rely and guarantee: if the others make only steps of [rely], each step of the program
    is one of [guar] and it ends in [Q]. *)
Fixpoint rg {A} (rely guar : S -> S -> Prop) (Q : A -> S -> Prop) (p : prog A) (s : S) : Prop :=
  match p with
  | Done a => Q a s
  | Do f k => forall i s1, rely s s1 -> guar s1 (f i s1).2 /\ rg rely guar Q (k (f i s1).1) (f i s1).2
  end.

Lemma rg_mono {A} rely guar (Q Q' : A -> S -> Prop) (p : prog A) : forall s,
  (forall a s, Q a s -> Q' a s) -> rg rely guar Q p s -> rg rely guar Q' p s.
Proof.
  induction p as [a|X f k IH]; intros s HQ; cbn [rg]; [apply HQ|]. intros H i s1 Hr. destruct (H i s1 Hr) as [H1 H2]. auto.
Qed.

Lemma rg_bind {A B} rely guar (Q : B -> S -> Prop) (f : A -> prog B) (p : prog A) : forall s,
  rg rely guar (fun a => rg rely guar Q (f a)) p s -> rg rely guar Q (p ≫= f) s.
Proof.
  induction p as [a|X g k IH]; intros s H; [done|]. intros i s1 Hr. destruct (H i s1 Hr) as [H1 H2]. split; [done|]. by apply IH.
Qed.

Lemma rg_ret {A} rely guar (Q : A -> S -> Prop) a s : Q a s -> rg rely guar Q (mret a) s.
Proof. done. Qed.

Lemma rg_atomically {X} rely guar (Q : X -> S -> Prop) (f : I -> S -> X * S) s :
  (forall i s1 x s2, rely s s1 -> f i s1 = (x, s2) -> guar s1 s2 /\ Q x s2) -> rg rely guar Q (atomically f) s.
Proof. intros H i s1 Hr. cbn. destruct (f i s1) as [x s2] eqn:E. by eapply H. Qed.

Lemma rg_exec {A} rely guar (Q : A -> S -> Prop) (p : prog A) : forall s a s',
  rg rely guar Q p s -> exec rely p s a s' -> Q a s'.
Proof.
  induction p as [b|X f k IH]; intros s a s' H; cbn [exec]; [by intros [-> ->]|].
  intros (i & s1 & Hr & He). destruct (H i s1 Hr) as [_ H2]. by eapply IH.
Qed.

(** Alone on the server, at moments for which [ok] holds, the program ends in [Q]. *)
Fixpoint alone {A} (ok : I -> Prop) (Q : A -> S -> Prop) (p : prog A) (s : S) : Prop :=
  match p with
  | Done a => Q a s
  | Do f k => forall i, ok i -> alone ok Q (k (f i s).1) (f i s).2
  end.

Lemma alone_mono {A} ok (Q Q' : A -> S -> Prop) (p : prog A) : forall s,
  (forall a s, Q a s -> Q' a s) -> alone ok Q p s -> alone ok Q' p s.
Proof. induction p as [a|X f k IH]; intros s HQ; cbn [alone]; [apply HQ|]. eauto. Qed.

Lemma alone_bind {A B} ok (Q : B -> S -> Prop) (f : A -> prog B) (p : prog A) : forall s,
  alone ok (fun a => alone ok Q (f a)) p s -> alone ok Q (p ≫= f) s.
Proof. induction p as [a|X g k IH]; intros s H; [done|]. intros i Hi. by apply IH, H. Qed.

Lemma alone_ret {A} ok (Q : A -> S -> Prop) a s : Q a s -> alone ok Q (mret a) s.
Proof. done. Qed.

Lemma alone_atomically {X} ok (Q : X -> S -> Prop) (f : I -> S -> X * S) s :
  (forall i x s', ok i -> f i s = (x, s') -> Q x s') -> alone ok Q (atomically f) s.
Proof. intros H i Hi. cbn. destruct (f i s) as [x s'] eqn:E. by eapply H. Qed.

Lemma alone_run {A} ok (Q : A -> S -> Prop) (p : prog A) input : (forall n, ok (input n)) ->
  forall n s, alone ok Q p s -> Q (run input n p s).1 (run input n p s).2.
Proof.
  intros Hok. induction p as [a|X f k IH]; intros n s H; cbn [run]; [done|].
  specialize (H (input n) (Hok n)). destruct (f (input n) s) as [x s1]. by apply IH.
Qed.
End Prog.

Arguments prog : clear implicits.
Arguments Done {I S A} a.
Arguments Do {I S A X} f k.

(** ** Requests *)

Record http_request := MkRequest {
  rq_Method : bytes;
  (** [URL.Path], and its segments as [http.ServeMux] matches them: the escaped path cut
      at its slashes, each segment unescaped. *)
  rq_Path : bytes;
  rq_segments : list bytes;
  rq_Query : gmap bytes (list bytes);
  (** The first value of each header, by its canonical name. *)
  rq_Header : gmap bytes bytes;
  rq_Body : bytes;
  (** The connection breaks before the body is read. *)
  rq_cut : bool;
  rq_ContentLength : Z;
  rq_RemoteAddr : bytes;
  (** Set while the request is served: the wildcards of the route that matched, and the
      credential in its context. *)
  rq_name : bytes;
  rq_id : bytes;
  rq_credential : option bytes;
}.

(** [r.URL.Query().Get] and [r.Header.Get]. *)
Definition query_get (k : bytes) (r : http_request) : bytes :=
  match rq_Query r !! k with Some (v :: _) => v | _ => [] end.
Definition header_get (k : bytes) (r : http_request) : bytes := default [] (rq_Header r !! k).

(** [mux] sets the path values of the pattern it matched. *)
Definition with_values (name id : bytes) (r : http_request) : http_request :=
  MkRequest (rq_Method r) (rq_Path r) (rq_segments r) (rq_Query r) (rq_Header r) (rq_Body r) (rq_cut r)
    (rq_ContentLength r) (rq_RemoteAddr r) name id (rq_credential r).

(** [io.ReadAll(http.MaxBytesReader(w, r.Body, max))]. *)
Definition read_body (max : Z) (r : http_request) : option bytes :=
  if rq_cut r || (max <? Z.of_nat (length (rq_Body r))) then None else Some (rq_Body r).

(** ** Responses *)

(** What a handler does to its [ResponseWriter]. *)
Inductive wcall :=
  | SetHeader (k v : bytes)
  | DelHeader (k : bytes)
  | WriteHeader (status : Z)
  | Write (b : bytes).

(** The headers leave with the status, and the first [Write] sends one if none was
    sent; a second [WriteHeader] is ignored. *)
Record response := MkResponse {
  rs_header : gmap bytes bytes;
  rs_sent : option (Z * gmap bytes bytes);
  rs_body : bytes;
}.

Definition no_response : response := MkResponse ∅ None [].

Definition write_status (status : Z) (w : response) : response :=
  match rs_sent w with
  | Some _ => w
  | None => MkResponse (rs_header w) (Some (status, rs_header w)) (rs_body w)
  end.

Definition respond (w : response) (c : wcall) : response :=
  match c with
  | SetHeader k v => MkResponse (<[k := v]> (rs_header w)) (rs_sent w) (rs_body w)
  | DelHeader k => MkResponse (delete k (rs_header w)) (rs_sent w) (rs_body w)
  | WriteHeader status => write_status status w
  | Write b => let w := write_status 200 w in MkResponse (rs_header w) (rs_sent w) (rs_body w ++ b)
  end.

(** A handler that returns without writing has answered 200. *)
Definition rs_status (w : response) : Z := from_option fst 200 (rs_sent w).
Definition rs_headers (w : response) : gmap bytes bytes := from_option snd (rs_header w) (rs_sent w).

(** [http.Error] and [http.NotFound]. *)
Definition http_Error (text : bytes) (status : Z) : list wcall :=
  [DelHeader (str "Content-Length"); SetHeader (str "Content-Type") (str "text/plain; charset=utf-8");
   SetHeader (str "X-Content-Type-Options") (str "nosniff"); WriteHeader status; Write (text ++ [10])].

Definition NotFound : list wcall := http_Error (str "404 page not found") 404.
