(* ===== verification/Uuid.v ===== *)
(** * Document and owner identifiers

    [internal/store/uuid.go]: documents and tenants are keyed by UUIDs, parsed from
    the canonical form or derived from a name by a version 5 hash.  SHA-1 is the
    standard library's; the section takes it as [sha1], of which only the length of
    its digest is used. *)

From S2P Require Import Prelude.

(** [type UUID [16]byte]. *)
Abbreviation UUID := (list Z) (only parsing).

Definition uuid_ok (u : UUID) : Prop := length u = 16%nat /\ Forall (fun b => 0 <= b < 256) u.

Definition NilUUID : UUID := repeat 0 16.
Definition documentNamespace : UUID :=
  [0x5f; 0x2b; 0x9a; 0x1e; 0x7c; 0x64; 0x4d; 0x8f; 0xa3; 0x11; 0x0e; 0x6d; 0xc2; 0x84; 0xb7; 0x59].
Definition ownerNamespace : UUID :=
  [0xb7; 0x3c; 0x41; 0xd8; 0x0a; 0x9f; 0x4e; 0x26; 0x8c; 0x5d; 0x92; 0xf0; 0x17; 0x6b; 0xe3; 0xa4].

(** ** Hexadecimal ([encoding/hex]) *)

Definition hex_digit (n : Z) : Z := if n <? 10 then 48 + n else 87 + n.

(** [hex.Encode]. *)
Definition hex_encode (b : bytes) : bytes :=
  b ≫= fun x => [hex_digit (Z.shiftr x 4); hex_digit (Z.land x 15)].

Definition from_hex (c : Z) : option Z :=
  if (48 <=? c) && (c <=? 57) then Some (c - 48)
  else if (97 <=? c) && (c <=? 102) then Some (c - 87)
  else if (65 <=? c) && (c <=? 70) then Some (c - 55)
  else None.

(** [hex.Decode]: digits of either case, an even number of them. *)
Fixpoint hex_decode (s : bytes) : option bytes :=
  match s with
  | [] => Some []
  | a :: b :: s =>
      x ← from_hex a; y ← from_hex b; r ← hex_decode s;
      Some (Z.lor (Z.shiftl x 4) y :: r)
  | _ => None
  end.

Definition dash : Z := 45.

(** The 8-4-4-4-12 groups, as ranges of the text. *)
Definition groups : list (nat * nat) := [(0, 8); (9, 13); (14, 18); (19, 23); (24, 36)]%nat.
Definition slice (s : bytes) (g : nat * nat) : bytes := take (g.2 - g.1) (drop g.1 s).

(** [UUID.String]. *)
Definition UUID_String (u : UUID) : bytes :=
  hex_encode (take 4 u) ++ [dash] ++ hex_encode (take 2 (drop 4 u)) ++ [dash]
  ++ hex_encode (take 2 (drop 6 u)) ++ [dash] ++ hex_encode (take 2 (drop 8 u)) ++ [dash]
  ++ hex_encode (take 6 (drop 10 u)).

Definition dash_at (s : bytes) (i : nat) : bool := bool_decide (s !! i = Some dash).

Definition ParseUUID (s : bytes) : res UUID :=
  if negb (length s =? 36)%nat || negb (dash_at s 8) || negb (dash_at s 13)
     || negb (dash_at s 18) || negb (dash_at s 23)
  then Err ErrBadUUID
  else match mapM (fun g => hex_decode (slice s g)) groups with
       | Some gs => Ok (concat gs)
       | None => Err ErrBadUUID
       end.

Section Derive.
Context (sha1 : bytes -> bytes).

Definition uuidV5 (namespace : UUID) (name : bytes) : UUID :=
  let out := take 16 (sha1 (namespace ++ name)) in
  alter (fun b => Z.lor (Z.land b 0x3f) 0x80) 8%nat
    (alter (fun b => Z.lor (Z.land b 0x0f) 0x50) 6%nat out).

Definition DocumentID (name : bytes) : UUID :=
  match ParseUUID name with Ok id => id | Err _ => uuidV5 documentNamespace name end.

Definition OwnerID (tenant : bytes) : UUID :=
  if decide (tenant = []) then NilUUID
  else match ParseUUID tenant with Ok id => id | Err _ => uuidV5 ownerNamespace tenant end.
End Derive.

(** ** Round trips *)

Definition byte (b : Z) : Prop := 0 <= b < 256.

(** A statement about one byte, by inspection of the 256 of them. *)
Lemma all_bytes (P : Z -> bool) : forallb P (seqZ 0 256) = true -> forall b, byte b -> P b = true.
Proof. intros H b Hb. eapply forallb_forall in H; [exact H|]. apply list_elem_of_In, elem_of_seqZ. unfold byte in Hb. lia. Qed.

Lemma hex_digits_roundtrip b : byte b ->
  exists x y, from_hex (hex_digit (Z.shiftr b 4)) = Some x /\ from_hex (hex_digit (Z.land b 15)) = Some y
    /\ Z.lor (Z.shiftl x 4) y = b.
Proof.
  intros Hb.
  assert (H : bool_decide (hex_decode (hex_encode [b]) = Some [b]) = true).
  { revert b Hb. apply all_bytes. vm_compute. reflexivity. }
  apply bool_decide_eq_true in H. cbn in H.
  destruct (from_hex (hex_digit (Z.shiftr b 4))) as [x|]; [|done]. cbn in H.
  destruct (from_hex (hex_digit (Z.land b 15))) as [y|]; [|done]. cbn in H.
  exists x, y. by injection H as ->.
Qed.

Lemma hex_decode_encode b : Forall byte b -> hex_decode (hex_encode b) = Some b.
Proof.
  induction 1 as [|x b Hx Hb IH]; [done|].
  destruct (hex_digits_roundtrip x Hx) as (y & z & E1 & E2 & E3).
  unfold hex_encode in *. cbn. rewrite E1, E2. cbn. rewrite IH. cbn. by rewrite E3.
Qed.

Lemma hex_encode_length b : length (hex_encode b) = (2 * length b)%nat.
Proof. unfold hex_encode. induction b as [|x b IH]; [done|]. cbn. rewrite IH. lia. Qed.

Lemma from_hex_range c x : from_hex c = Some x -> 0 <= x < 16.
Proof. unfold from_hex. repeat case_if; intros; simplify_eq; bool_arith; lia. Qed.

Lemma hex_decode_ok s : forall b, hex_decode s = Some b -> Forall byte b /\ length s = (2 * length b)%nat.
Proof.
  induction s as [s IH] using (induction_ltof1 _ length). unfold ltof in IH.
  destruct s as [|a [|c s]]; intros b H; cbn in H; simplify_eq; [done|].
  destruct (from_hex a) as [x|] eqn:Ea; [|done]. destruct (from_hex c) as [y|] eqn:Ec; [|done].
  cbn in H. destruct (hex_decode s) as [r|] eqn:Er; [|done]. cbn in H. simplify_eq.
  destruct (IH s ltac:(cbn; lia) r Er) as [H1 H2]. split; [|cbn; lia].
  constructor; [|done]. apply from_hex_range in Ea, Ec. unfold byte.
  assert (H : forallb (fun x => forallb (fun y => bool_decide (0 <= Z.lor (Z.shiftl x 4) y < 256)) (seqZ 0 16)) (seqZ 0 16) = true)
    by (vm_compute; reflexivity).
  eapply forallb_forall in H; [eapply forallb_forall in H; [by apply bool_decide_eq_true in H|]|];
    apply list_elem_of_In, elem_of_seqZ; lia.
Qed.

(** The text of five groups between dashes is cut back into those groups. *)
Lemma ParseUUID_groups p0 p1 p2 p3 p4 :
  length p0 = 8%nat -> length p1 = 4%nat -> length p2 = 4%nat -> length p3 = 4%nat -> length p4 = 12%nat ->
  ParseUUID (p0 ++ [dash] ++ p1 ++ [dash] ++ p2 ++ [dash] ++ p3 ++ [dash] ++ p4)
  = match mapM hex_decode [p0; p1; p2; p3; p4] with Some gs => Ok (concat gs) | None => Err ErrBadUUID end.
Proof.
  intros H0 H1 H2 H3 H4.
  do 8 (destruct p0 as [|? p0]; [done|]). do 4 (destruct p1 as [|? p1]; [done|]).
  do 4 (destruct p2 as [|? p2]; [done|]). do 4 (destruct p3 as [|? p3]; [done|]).
  do 12 (destruct p4 as [|? p4]; [done|]).
  destruct p0, p1, p2, p3, p4; try done.
Qed.

Lemma ParseUUID_String_ok u : uuid_ok u -> ParseUUID (UUID_String u) = Ok u.
Proof.
  intros [Hl Hb]. unfold UUID_String.
  assert (Hf : forall n m, Forall byte (take n (drop m u))) by (intros; by apply Forall_take, Forall_drop).
  rewrite ParseUUID_groups by (rewrite hex_encode_length, length_take, ?length_drop, Hl; reflexivity).
  unfold mapM. rewrite !hex_decode_encode by (apply (Hf _ 0%nat) || apply Hf). cbn.
  rewrite app_nil_r. f_equal.
  do 16 (destruct u as [|? u]; [done|]). by destruct u.
Qed.

Lemma ParseUUID_valid s u : ParseUUID s = Ok u -> uuid_ok u.
Proof.
  unfold ParseUUID. case_if; [done|]. bool_arith.
  destruct (mapM _ _) as [gs|] eqn:E; [|done]. intros [= <-].
  assert (length s = 36%nat) as Hs by (by apply Nat.eqb_eq).
  apply mapM_Some in E. unfold groups in E.
  assert (Hg : forall g x, hex_decode (slice s g) = Some x -> Forall byte x /\ (2 * length x = Nat.min (g.2 - g.1) (length s - g.1))%nat).
  { intros g x Hx. apply hex_decode_ok in Hx as [? Hx]. split; [done|]. rewrite <- Hx.
    unfold slice. rewrite length_take, length_drop. lia. }
  repeat match goal with H : Forall2 _ (_ :: _) _ |- _ => apply Forall2_cons_inv_l in H as (? & ? & ?%Hg & H & ->) end.
  apply Forall2_nil_inv_l in E as ->. destruct_and!. cbn [concat].
  rewrite Hs in *. cbn in *. split; [rewrite !length_app; cbn; lia|].
  rewrite !Forall_app. by split_and!.
Qed.

(** ** Derived identifiers *)

Section Derived.
Context (sha1 : bytes -> bytes).
(** A SHA-1 digest is 20 bytes. *)
Hypothesis sha1_digest : forall b, length (sha1 b) = 20%nat /\ Forall byte (sha1 b).

Lemma version_byte : forall b, byte b ->
  let v := Z.lor (Z.land b 15) 80 in byte v /\ Z.shiftr v 4 = 5.
Proof.
  intros b Hb.
  assert (H : bool_decide (0 <= Z.lor (Z.land b 15) 80 < 256 /\ Z.shiftr (Z.lor (Z.land b 15) 80) 4 = 5) = true)
    by (revert b Hb; apply all_bytes; vm_compute; reflexivity).
  by apply bool_decide_eq_true in H.
Qed.

Lemma variant_byte : forall b, byte b ->
  let v := Z.lor (Z.land b 63) 128 in byte v /\ Z.shiftr v 6 = 2.
Proof.
  intros b Hb.
  assert (H : bool_decide (0 <= Z.lor (Z.land b 63) 128 < 256 /\ Z.shiftr (Z.lor (Z.land b 63) 128) 6 = 2) = true)
    by (revert b Hb; apply all_bytes; vm_compute; reflexivity).
  by apply bool_decide_eq_true in H.
Qed.

(** A derived identifier is a version 5 UUID of the RFC 4122 variant. *)
Definition version5 (u : UUID) : Prop :=
  uuid_ok u /\ exists b6 b8, u !! 6%nat = Some b6 /\ u !! 8%nat = Some b8
    /\ Z.shiftr b6 4 = 5 /\ Z.shiftr b8 6 = 2.

Lemma uuidV5_ok ns name : version5 (uuidV5 sha1 ns name).
Proof.
  unfold uuidV5. destruct (sha1_digest (ns ++ name)) as [Hl Hb].
  set (out := take 16 (sha1 (ns ++ name))).
  assert (length out = 16%nat) as Ho by (unfold out; rewrite length_take; lia).
  assert (Forall byte out) as Hf by (by apply Forall_take).
  destruct (lookup_lt_is_Some_2 out 6) as [x6 E6]; [lia|].
  destruct (lookup_lt_is_Some_2 out 8) as [x8 E8]; [lia|].
  pose proof (Forall_lookup_1 _ _ _ _ Hf E6) as B6. pose proof (Forall_lookup_1 _ _ _ _ Hf E8) as B8.
  destruct (version_byte _ B6) as [V1 V2]. destruct (variant_byte _ B8) as [W1 W2].
  split; [split|].
  - by rewrite !length_alter.
  - apply Forall_alter; [apply Forall_alter; [done|]|]; intros x _ Hx.
    + by apply version_byte.
    + by apply variant_byte.
  - exists (Z.lor (Z.land x6 15) 80), (Z.lor (Z.land x8 63) 128). split_and!; [| |done..].
    + rewrite list_lookup_alter_ne, list_lookup_alter_eq, E6 by done. done.
    + rewrite list_lookup_alter_eq, list_lookup_alter_ne, E8 by done. done.
Qed.

Lemma DocumentID_ok name : uuid_ok (DocumentID sha1 name).
Proof. unfold DocumentID. destruct (ParseUUID name) eqn:E; [by eapply ParseUUID_valid|apply uuidV5_ok]. Qed.

(** Every name has an identifier: a canonical UUID is its own, any other name gets a
    version 5 one; the empty tenant and only it by spelling is nobody's; and an
    identifier survives being printed. *)
Theorem DocumentID_spec name tenant u :
  uuid_ok u ->
  DocumentID sha1 (UUID_String u) = u /\ OwnerID sha1 (UUID_String u) = u
  /\ uuid_ok (DocumentID sha1 name) /\ uuid_ok (OwnerID sha1 tenant)
  /\ (is_ok (ParseUUID name) = false -> version5 (DocumentID sha1 name))
  /\ OwnerID sha1 [] = NilUUID
  /\ (is_ok (ParseUUID tenant) = false -> OwnerID sha1 tenant = NilUUID -> tenant = []).
Proof.
  intros Hu. pose proof (ParseUUID_String_ok u Hu) as Hp. unfold DocumentID, OwnerID. rewrite !Hp.
  split_and!; [done| | | | |done|].
  - case_decide as E; [|done]. exfalso. by rewrite E in Hp.
  - apply DocumentID_ok.
  - case_decide; [split; [done|]; by repeat constructor|].
    destruct (ParseUUID tenant) eqn:E; [by eapply ParseUUID_valid|]. apply uuidV5_ok.
  - destruct (ParseUUID name); [done|]. intros _. apply uuidV5_ok.
  - destruct (ParseUUID tenant); [done|]. intros _. case_decide; [done|]. intros E.
    destruct (uuidV5_ok ownerNamespace tenant) as [_ (b6 & b8 & H6 & _ & V & _)]. rewrite E in H6.
    cbn in H6. simplify_eq.
Qed.
End Derived.

(** A digest to run the definitions with. *)
Definition toy_sha1 (b : bytes) : bytes := repeat 7 20.

Lemma DocumentID_spec_witness :
  DocumentID toy_sha1 (UUID_String documentNamespace) = documentNamespace
  /\ OwnerID toy_sha1 [110; 111] <> NilUUID.
Proof.
  destruct (DocumentID_spec toy_sha1 ltac:(intros; split; [reflexivity|by repeat constructor])
    [] [110; 111] documentNamespace) as (H1 & _ & _ & _ & _ & _ & H).
  - split; [reflexivity|]. by repeat constructor.
  - split; [exact H1|]. intros E. by specialize (H eq_refl E).
Defined.
