(* ===== verification/Signature.v ===== *)
(** * Request signatures

    [internal/signature/signature.go]: the HMAC scheme of the webhook and of the
    authorisation callback.  [hmac secret m] stands for HMAC-SHA256 of [m], of which
    only the size of its digest is used; instants are the seconds and nanoseconds of
    [time.Time], with the saturating [Sub] of the standard library. *)

From stdpp Require Import strings.
From S2P Require Import Prelude Uuid Text.

(** ** Instants and durations ([time]) *)

(** Seconds since year 1 as an [int64], and nanoseconds within the second. *)
Record Time := MkTime { t_sec : Z; t_nsec : Z }.

Definition second : Z := 1000000000.
Definition unixToInternal : Z := 62135596800.

(** [time.Unix(secs, 0)] and [Time.Unix]. *)
Definition time_Unix (secs : Z) : Time := MkTime (s64 (secs + unixToInternal)) 0.
Definition Unix (t : Time) : Z := s64 (t_sec t - unixToInternal).

(** [Time.Add]. *)
Definition time_Add (t : Time) (d : Z) : Time :=
  let n := t_nsec t + d in MkTime (s64 (t_sec t + n / second)) (n mod second).

Definition time_before (t u : Time) : bool :=
  (t_sec t <? t_sec u) || (t_sec t =? t_sec u) && (t_nsec t <? t_nsec u).

#[export] Instance Time_eq_dec : EqDecision Time.
Proof. solve_decision. Defined.

Definition maxDuration : Z := two63 - 1.
Definition minDuration : Z := - two63.

(** [Time.Sub] of wall-clock readings: exact, or saturated when out of range. *)
Definition time_Sub (t u : Time) : Z :=
  let d := s64 (s64 (t_sec t - t_sec u) * second + (t_nsec t - t_nsec u)) in
  if decide (time_Add u d = t) then d
  else if time_before t u then minDuration else maxDuration.

Definition time_ok (t : Time) : Prop := - two63 <= t_sec t < two63 /\ 0 <= t_nsec t < second.

(** Within 292 years of each other, the difference of two instants is exact. *)
Lemma time_Sub_exact t u : time_ok t -> time_ok u ->
  let d := (t_sec t - t_sec u) * second + (t_nsec t - t_nsec u) in
  - two63 <= d < two63 -> time_Sub t u = d.
Proof.
  intros Ht Hu d Hd. unfold time_Sub.
  assert (s64 (s64 (t_sec t - t_sec u) * second + (t_nsec t - t_nsec u)) = d) as ->.
  { unfold time_ok, second, two63 in *. subst d.
    rewrite (s64_small (t_sec t - t_sec u)) by (unfold two63; lia). by apply s64_small. }
  rewrite decide_True; [done|]. unfold time_Add. destruct t as [ts tn], u as [us un]. cbn in *.
  unfold time_ok, second in *. cbn in *.
  replace (un + d) with (tn + (ts - us) * 1000000000) by (subst d; lia).
  rewrite Z.div_add, Z.mod_add, Z.div_small, Z.mod_small by lia.
  f_equal. rewrite s64_small; lia.
Qed.

(** ** Signing *)

Inductive SigError := MalformedHeader | BadTimestamp | TooOld (age : Z) | NotHex | DoesNotMatch.

Section Signature.
Context (hmac : bytes -> bytes -> bytes).

(** The text that is signed: the timestamp, a dot and the body. *)
Definition signed (ts body : bytes) : bytes := ts ++ str "." ++ body.

Definition Sign (secret : bytes) (at_ : Time) (body : bytes) : bytes :=
  let t := FormatInt (Unix at_) in
  str "t=" ++ t ++ str ",v1=" ++ hex_encode (hmac secret (signed t body)).

(** One round of the loop over the comma-separated parts of the header. *)
Definition header_part (acc : bytes * bytes) (part : bytes) : bytes * bytes :=
  match cut 61 (TrimSpace part) with
  | None => acc
  | Some (k, v) =>
      if decide (k = str "t") then (v, acc.2)
      else if decide (k = str "v1") then (acc.1, v)
      else acc
  end.

Definition header_fields (header : bytes) : bytes * bytes :=
  foldl header_part ([], []) (split_on 44 header).

(** [None] is a nil error. *)
Definition Verify (secret header body : bytes) (now : Time) (tolerance : Z) : option SigError :=
  let '(ts, sig) := header_fields header in
  if decide (ts = []) then Some MalformedHeader
  else if decide (sig = []) then Some MalformedHeader
  else match ParseInt ts with
  | None => Some BadTimestamp
  | Some secs =>
      let age := time_Sub now (time_Unix secs) in
      if (0 <? tolerance) && ((age <? - tolerance) || (tolerance <? age)) then Some (TooOld age)
      else match hex_decode sig with
           | None => Some NotHex
           | Some want =>
               if decide (want = hmac secret (signed ts body)) then None else Some DoesNotMatch
           end
  end.

(** The timestamp holds no dot, so the signed text determines both of its parts. *)
Lemma signed_inj ts ts' body body' n n' :
  ParseInt ts = Some n -> ParseInt ts' = Some n' ->
  signed ts body = signed ts' body' -> ts = ts' /\ body = body'.
Proof.
  intros H H' E. assert (forall t m, ParseInt t = Some m -> 46 ∉ t) as Hd.
  { intros t m Hp Hc. apply (ParseInt_chars _ _ _ Hp) in Hc. lia. }
  pose proof (cut_app 46 ts body (Hd _ _ H)) as C. pose proof (cut_app 46 ts' body' (Hd _ _ H')) as C'.
  unfold signed in E. change (str "." ++ body) with (46 :: body) in E.
  change (str "." ++ body') with (46 :: body') in E. rewrite E, C' in C. by injection C.
Qed.

Lemma Unix_range t : - two63 <= Unix t < two63.
Proof. apply s64_range. Qed.

Lemma time_Unix_Unix t : time_ok t -> time_Unix (Unix t) = MkTime (t_sec t) 0.
Proof.
  intros [H _]. unfold time_Unix, Unix. f_equal. unfold s64.
  set (x := (t_sec t - unixToInternal + two63) mod two64).
  replace (x - two63 + unixToInternal + two63) with (x + unixToInternal) by lia. subst x.
  rewrite Z.add_mod_idemp_l by (unfold two64; lia).
  replace (t_sec t - unixToInternal + two63 + unixToInternal) with (t_sec t + two63) by lia.
  rewrite Z.mod_small; unfold two63, two64 in *; lia.
Qed.

Lemma FormatInt_graphic n : - two63 <= n < two63 ->
  44 ∉ FormatInt n /\ 61 ∉ FormatInt n /\ exists c d t, FormatInt n = c :: t
  /\ last (FormatInt n) = Some d /\ graphic d.
Proof.
  intros H. pose proof (ParseInt_FormatInt n H) as Hp.
  assert (forall c, c ∈ FormatInt n -> 48 <= c <= 57 \/ c = 43 \/ c = 45) as Hc.
  { intros c. by apply ParseInt_chars with n. }
  split_and!; [intros Hx; apply Hc in Hx; lia..|].
  destruct (FormatInt n) as [|c t] eqn:E; [done|]. exists c.
  destruct (last (c :: t)) as [d|] eqn:El; [|by apply last_None in El].
  exists d, t. split_and!; [done..|]. assert (d ∈ c :: t) as Hd.
  { apply last_Some in El as [l ->]. set_solver. }
  apply Hc in Hd. unfold graphic. lia.
Qed.

Lemma hex_digit_range n : 0 <= n < 16 -> 48 <= hex_digit n <= 57 \/ 97 <= hex_digit n <= 102.
Proof. intros H. unfold hex_digit. case_if; lia. Qed.

Lemma hex_encode_chars b c : Forall byte b -> c ∈ hex_encode b -> 48 <= c <= 57 \/ 97 <= c <= 102.
Proof.
  intros Hb Hc. apply list_elem_of_bind in Hc as (x & Hc & Hx). rewrite Forall_forall in Hb.
  specialize (Hb x Hx). unfold Uuid.byte in Hb.
  assert (0 <= Z.shiftr x 4 < 16) as H1.
  { rewrite Z.shiftr_div_pow2 by lia. change (2 ^ 4) with 16. Z.to_euclidean_division_equations; lia. }
  assert (0 <= Z.land x 15 < 16) as H2.
  { change 15 with (Z.ones 4). rewrite Z.land_ones by lia. apply Z.mod_pos_bound. lia. }
  repeat (apply elem_of_cons in Hc as [->|Hc]; [by apply hex_digit_range|]). by apply elem_of_nil in Hc.
Qed.

(** The header [Sign] writes is read back as its two fields. *)
Lemma header_fields_Sign secret at_ body :
  Forall byte (hmac secret (signed (FormatInt (Unix at_)) body)) ->
  hmac secret (signed (FormatInt (Unix at_)) body) <> [] ->
  header_fields (Sign secret at_ body)
  = (FormatInt (Unix at_), hex_encode (hmac secret (signed (FormatInt (Unix at_)) body))).
Proof.
  intros Hm Hne. unfold header_fields, Sign.
  destruct (FormatInt_graphic (Unix at_) (Unix_range at_)) as (H44 & H61 & c & d & t & Et & El & Hd).
  set (x := FormatInt (Unix at_)) in *. set (m := hmac secret (signed x body)) in *.
  assert (44 ∉ hex_encode m) as Hh44.
  { intros H. apply hex_encode_chars in H; [lia|done]. }
  replace (str "t=" ++ x ++ str ",v1=" ++ hex_encode m)
    with ((str "t=" ++ x) ++ 44 :: (str "v1=" ++ hex_encode m)) by (by rewrite <- app_assoc).
  rewrite split_on_app, split_on_none.
  2:{ cbn. rewrite !not_elem_of_cons. split_and!; (lia || done). }
  2:{ cbn. rewrite !not_elem_of_cons. split_and!; (lia || done). }
  cbn [foldl]. unfold header_part at 2.
  rewrite (TrimSpace_graphic _ 116 d (61 :: x)); [|done| |unfold graphic; lia|done].
  2:{ cbn. rewrite Et in El |- *. done. }
  change (str "t=" ++ x) with ([116] ++ 61 :: x). rewrite cut_app by (rewrite not_elem_of_cons; set_solver by lia).
  rewrite decide_True by done. cbn [snd].
  destruct (hex_encode m) as [|a h] eqn:Eh.
  { destruct m; [done|]. by cbn in Eh. }
  destruct (last (a :: h)) as [e|] eqn:Ee; [|by apply last_None in Ee].
  unfold header_part. rewrite (TrimSpace_graphic _ 118 e (49 :: 61 :: a :: h)).
  - change (str "v1=" ++ a :: h) with ([118; 49] ++ 61 :: a :: h).
    rewrite cut_app by (rewrite !not_elem_of_cons; set_solver by lia).
    rewrite decide_False by done. by rewrite decide_True by done.
  - done.
  - cbn. cbn in Ee. by rewrite Ee.
  - unfold graphic; lia.
  - assert (e ∈ hex_encode m) as He.
    { rewrite Eh. apply last_Some in Ee as [l ->]. set_solver. }
    apply hex_encode_chars in He; [unfold graphic; lia|done].
Qed.

Definition fresh_enough (tolerance : Z) (now sent : Time) : Prop :=
  0 < tolerance -> - tolerance <= time_Sub now sent <= tolerance.

Lemma stale_iff tolerance now sent :
  (0 <? tolerance) && ((time_Sub now sent <? - tolerance) || (tolerance <? time_Sub now sent)) = false
  <-> fresh_enough tolerance now sent.
Proof.
  unfold fresh_enough. rewrite andb_false_iff, orb_false_iff, !Z.ltb_ge. lia.
Qed.

(** Everything an accepted header says. *)
Lemma Verify_accepts secret header body now tolerance :
  Verify secret header body now tolerance = None <->
  exists secs, ParseInt (header_fields header).1 = Some secs
  /\ hex_decode (header_fields header).2 = Some (hmac secret (signed (header_fields header).1 body))
  /\ (header_fields header).2 <> [] /\ fresh_enough tolerance now (time_Unix secs).
Proof.
  unfold Verify. destruct (header_fields header) as [ts sig]. cbn [fst snd]. split.
  - repeat case_decide; [done..|]. destruct (ParseInt ts) as [secs|]; [|done].
    destruct (_ && _) eqn:E; [done|]. apply stale_iff in E.
    destruct (hex_decode sig) as [want|] eqn:Eh; [|done]. case_decide; [|done]. subst. eauto.
  - intros (secs & Hp & Hh & Hne & Hf). rewrite decide_False by (by intros ->).
    rewrite decide_False, Hp by done. apply stale_iff in Hf. rewrite Hf, Hh. by rewrite decide_True.
Qed.

(** HMAC-SHA256 returns 32 bytes. *)
Context (hmac_bytes : forall secret m, Forall byte (hmac secret m)).
Context (hmac_size : forall secret m, length (hmac secret m) = 32%nat).

Lemma hmac_not_nil secret m : hmac secret m <> [].
Proof. intros E. pose proof (hmac_size secret m) as H. by rewrite E in H. Qed.

(** A header signed for one body is accepted with a body exactly when it is recent
    enough and the two signed texts have the same digest; with its own body, exactly
    when it is recent enough. *)
Theorem Verify_Sign secret at_ body body' now tolerance :
  time_ok at_ ->
  Verify secret (Sign secret at_ body') body now tolerance = None <->
  fresh_enough tolerance now (MkTime (t_sec at_) 0)
  /\ hmac secret (signed (FormatInt (Unix at_)) body) = hmac secret (signed (FormatInt (Unix at_)) body').
Proof.
  intros Ht. rewrite Verify_accepts, header_fields_Sign by (done || apply hmac_not_nil). cbn [fst snd].
  rewrite hex_decode_encode, ParseInt_FormatInt by (done || apply Unix_range). split.
  - intros (secs & [= <-] & [= E] & _ & Hf). by rewrite time_Unix_Unix in Hf.
  - intros [Hf E]. exists (Unix at_). rewrite time_Unix_Unix, E by done. split_and!; [done..| |done].
    pose proof (hmac_size secret (signed (FormatInt (Unix at_)) body')) as Hl.
    intros Hn. apply (f_equal length) in Hn. rewrite hex_encode_length, Hl in Hn. done.
Qed.

(** Reusing the digest of a genuine request in a header of one's own gets nowhere: if
    such a header is accepted, then the body is the one that was signed, the timestamp is
    the one that was signed and it is still recent, unless two different texts, both
    named here, have the same HMAC. *)
Theorem signature_binds secret header body now tolerance at_ body' :
  time_ok at_ ->
  Verify secret header body now tolerance = None ->
  hex_decode (header_fields header).2 = Some (hmac secret (signed (FormatInt (Unix at_)) body')) ->
  let ts := (header_fields header).1 in
  (body = body' /\ ts = FormatInt (Unix at_) /\ fresh_enough tolerance now (MkTime (t_sec at_) 0))
  \/ (signed ts body <> signed (FormatInt (Unix at_)) body'
      /\ hmac secret (signed ts body) = hmac secret (signed (FormatInt (Unix at_)) body')).
Proof.
  intros Ht Hv Hd ts. apply Verify_accepts in Hv as (secs & Hp & Hh & _ & Hf). fold ts in Hp, Hh.
  rewrite Hh in Hd. injection Hd as Hd.
  destruct (decide (signed ts body = signed (FormatInt (Unix at_)) body')) as [E|E]; [left|by right].
  pose proof (ParseInt_FormatInt _ (Unix_range at_)) as Hp'.
  destruct (signed_inj _ _ _ _ _ _ Hp Hp' E) as [E1 E2].
  rewrite E1, Hp' in Hp. injection Hp as <-. rewrite time_Unix_Unix in Hf by done. done.
Qed.
End Signature.

(** A stand-in digest: a checksum of secret and text, padded to the size of SHA-256. *)
Definition toy_hmac (secret m : bytes) : bytes :=
  let sum := foldl (fun a b => (a * 31 + b) mod 251) 7 (secret ++ m) in sum :: repeat 0 31.

Lemma toy_hmac_bytes secret m : Forall byte (toy_hmac secret m).
Proof.
  unfold toy_hmac. constructor; [|by vm_compute; repeat constructor].
  assert (forall l a, 0 <= a < 251 -> 0 <= foldl (fun a b => (a * 31 + b) mod 251) a l < 251) as H.
  { induction l as [|x l IH]; cbn; intros a Ha; [done|]. apply IH, Z.mod_pos_bound. lia. }
  specialize (H (secret ++ m) 7 ltac:(lia)). unfold byte. lia.
Qed.

Definition noon : Time := MkTime 63900000000 500.

Lemma Verify_Sign_witness :
  Verify toy_hmac (str "key") (Sign toy_hmac (str "key") noon (str "{}")) (str "{}") (time_Add noon (3 * second)) (5 * second) = None.
Proof.
  apply (Verify_Sign toy_hmac toy_hmac_bytes (fun _ _ => eq_refl) (str "key") noon); [done|].
  split; [|done]. by vm_compute.
Defined.

Lemma signature_binds_witness :
  (header_fields (Sign toy_hmac (str "key") noon (str "{}"))).1 = FormatInt (Unix noon).
Proof.
  destruct (signature_binds toy_hmac (str "key") (Sign toy_hmac (str "key") noon (str "{}")) (str "{}") noon second noon (str "{}"))
    as [(_ & H & _)|[H _]]; [done|by vm_compute|by vm_compute|exact H|]. by destruct H.
Defined.
