(* ===== verification/Auth.v ===== *)
(** * Tokens

    [internal/auth/auth.go]: a verifier is a list of keys, a clock and a policy on top
    of signed tokens.  Parsing and checking a JWT is the work of [golang-jwt]; it is the
    parameter [ParseWithClaims], which answers with the claims or with the set of errors
    [errors.Is] finds in its answer. *)

From stdpp Require Import strings.
From S2P Require Import Prelude Text Signature.

Abbreviation Permission := (list Z) (only parsing).
Definition PermissionRead : Permission := str "read".
Definition PermissionWrite : Permission := str "write".

(** [Expiry] is what [GetExpirationTime] answers for the registered claims. *)
Record Claims := MkClaims {
  cl_Subject : bytes;
  cl_Expiry : res (option Time);
  cl_Doc : bytes;
  cl_Perm : Permission;
  cl_Own : bytes;
}.

Record Grant := MkGrant {
  g_Subject : bytes;
  g_Doc : bytes;
  g_Owner : bytes;
  g_Write : bool;
  g_ExpiresAt : option Time;
}.

#[export] Instance Grant_eq_dec : EqDecision Grant.
Proof. solve_decision. Defined.

(** The errors of [golang-jwt] that this package tells apart. *)
Inductive JwtError := ErrTokenExpired | ErrTokenNotValidYet | ErrTokenSignatureInvalid | ErrTokenOther.

#[export] Instance JwtError_eq_dec : EqDecision JwtError.
Proof. solve_decision. Defined.

(** What [jwt.NewParser] is configured with. *)
Record Parser := MkParser { p_methods : list bytes; p_leeway : Z }.

Record Config := MkConfig {
  cfg_Secrets : list bytes;
  cfg_Leeway : Z;
  cfg_RequireExpiry : bool;
  cfg_MaxLifetime : Z;
}.

Definition DefaultLeeway : Z := 30 * second.

Record Verifier := MkVerifier {
  v_secrets : list bytes;
  v_leeway : Z;
  v_requireExpiry : bool;
  v_maxLifetime : Z;
  v_parser : Parser;
}.

Inductive ConfigError := ShortSecret (len : nat) | NoSecret.

(** The loop of [NewVerifier] over the configured keys. *)
Fixpoint usable_secrets (secrets : list bytes) : ConfigError + list bytes :=
  match secrets with
  | [] => inr []
  | s :: rest =>
      if decide (s = []) then usable_secrets rest
      else if (length s <? 32)%nat then inl (ShortSecret (length s))
      else match usable_secrets rest with
           | inl e => inl e
           | inr l => inr (s :: l)
           end
  end.

Definition NewVerifier (cfg : Config) : ConfigError + Verifier :=
  match usable_secrets (cfg_Secrets cfg) with
  | inl e => inl e
  | inr [] => inl NoSecret
  | inr secrets =>
      let leeway := if cfg_Leeway cfg <=? 0 then DefaultLeeway else cfg_Leeway cfg in
      inr (MkVerifier secrets leeway (cfg_RequireExpiry cfg) (cfg_MaxLifetime cfg)
             (MkParser [str "HS256"] leeway))
  end.

Section Verify.
Context (ParseWithClaims : Parser -> Time -> bytes -> bytes -> Claims + list JwtError).

(** The loop over the keys: the claims under the first key that accepts the token, or
    the last error. *)
Fixpoint try_secrets (p : Parser) (now : Time) (token : bytes) (secrets : list bytes)
  (lastErr : list JwtError) : Claims + list JwtError :=
  match secrets with
  | [] => inr lastErr
  | s :: rest =>
      match ParseWithClaims p now s token with
      | inl claims => inl claims
      | inr err => try_secrets p now token rest err
      end
  end.

(** The checks made on accepted claims, in the order of the code. *)
Definition check_claims (v : Verifier) (now : Time) (claims : Claims) (doc : bytes) : res Grant :=
  if decide (cl_Doc claims = []) then Err ErrInvalidToken
  else if decide (cl_Doc claims <> doc) then Err ErrWrongDoc
  else match cl_Expiry claims with
  | Err _ => Err ErrInvalidToken
  | Ok expiry =>
      if match expiry with
         | None => v_requireExpiry v
         | Some e =>
             (0 <? v_maxLifetime v) && (s64 (v_maxLifetime v + v_leeway v) <? time_Sub e now)
         end
      then Err ErrInvalidToken
      else
        let perm := if decide (cl_Perm claims = []) then PermissionRead else cl_Perm claims in
        if decide (perm = PermissionRead \/ perm = PermissionWrite)
        then Ok (MkGrant (cl_Subject claims) (cl_Doc claims) (cl_Own claims)
                   (bool_decide (perm = PermissionWrite)) expiry)
        else Err ErrInvalidToken
  end.

(** [now] is read by the parser and again by the lifetime check. *)
Definition Verifier_Verify (v : Verifier) (now now' : Time) (token doc : bytes) : res Grant :=
  if decide (token = []) then Err ErrMissingToken
  else match try_secrets (v_parser v) now token (v_secrets v) [] with
  | inr err =>
      if bool_decide (ErrTokenExpired ∈ err) || bool_decide (ErrTokenNotValidYet ∈ err)
      then Err ErrExpired else Err ErrInvalidToken
  | inl claims => check_claims v now' claims doc
  end.

Lemma try_secrets_inl p now token secrets : forall lastErr claims,
  try_secrets p now token secrets lastErr = inl claims <->
  exists pre s post, secrets = pre ++ s :: post
  /\ Forall (fun k => exists err, ParseWithClaims p now k token = inr err) pre
  /\ ParseWithClaims p now s token = inl claims.
Proof.
  induction secrets as [|k rest IH]; intros lastErr claims; cbn.
  { split; [done|]. by intros ([] & ? & ? & ? & _). }
  destruct (ParseWithClaims p now k token) as [c|err] eqn:E.
  - split.
    + intros [= ->]. exists [], k, rest. split; [done|split; [constructor|done]].
    + intros (pre & s & post & Es & Hp & Hs). destruct pre as [|k' pre].
      * injection Es as -> _. congruence.
      * injection Es as <- _. inversion Hp as [|? ? [? ?] ?]; subst. congruence.
  - rewrite IH. split.
    + intros (pre & s & post & -> & Hp & Hs). exists (k :: pre), s, post. split; [done|].
      split; [constructor; eauto|done].
    + intros (pre & s & post & Es & Hp & Hs). destruct pre as [|k' pre].
      * injection Es as -> _. congruence.
      * injection Es as <- ->. inversion Hp; subst. eauto 10.
Qed.

(** When every key refuses, the error kept is the last key's. *)
Lemma try_secrets_last p now token secrets s err : forall lastErr,
  Forall (fun k => exists e, ParseWithClaims p now k token = inr e) secrets ->
  ParseWithClaims p now s token = inr err ->
  try_secrets p now token (secrets ++ [s]) lastErr = inr err.
Proof.
  intros lastErr H Hs. revert lastErr. induction H as [|k l [e He] Hl IH]; intros lastErr; cbn.
  - by rewrite Hs.
  - by rewrite He.
Qed.

(** What a set of claims must say to be granted, and what the grant then is. *)
Definition admissible (v : Verifier) (now : Time) (claims : Claims) (doc : bytes) (expiry : option Time) : Prop :=
  cl_Doc claims = doc /\ doc <> [] /\ cl_Expiry claims = Ok expiry
  /\ (cl_Perm claims = [] \/ cl_Perm claims = PermissionRead \/ cl_Perm claims = PermissionWrite)
  /\ (expiry = None -> v_requireExpiry v = false)
  /\ (forall e, expiry = Some e -> 0 < v_maxLifetime v -> time_Sub e now <= s64 (v_maxLifetime v + v_leeway v)).

Lemma check_claims_iff v now claims doc g :
  check_claims v now claims doc = Ok g <->
  exists expiry, admissible v now claims doc expiry
  /\ g = MkGrant (cl_Subject claims) doc (cl_Own claims) (bool_decide (cl_Perm claims = PermissionWrite)) expiry.
Proof.
  unfold check_claims, admissible. split.
  - destruct (decide (cl_Doc claims = [])) as [|Hne]; [done|].
    destruct (decide (cl_Doc claims <> doc)) as [|Hd]; [done|]. apply dec_stable in Hd. subst doc.
    destruct (cl_Expiry claims) as [expiry|]; [|done]. cbn zeta.
    destruct (match expiry with None => _ | Some _ => _ end) eqn:E; [done|].
    destruct (decide (_ \/ _)) as [Hp|]; [|done]. intros [= <-]. exists expiry. split_and!; try done.
    + case_decide; tauto.
    + by intros ->.
    + intros e -> H. apply andb_false_iff in E. rewrite !Z.ltb_ge in E. lia.
    + do 2 f_equal. apply bool_decide_ext. case_decide as E'; [rewrite E'|]; naive_solver.
  - intros (expiry & (Hd & Hne & He & Hp & H1 & H2) & ->).
    rewrite decide_False by congruence. rewrite decide_False by tauto. rewrite He.
    replace (match expiry with None => _ | Some _ => _ end) with false.
    2:{ destruct expiry as [e|]; [|by rewrite H1]. symmetry. apply andb_false_iff. rewrite !Z.ltb_ge.
        destruct (decide (0 < v_maxLifetime v)); [right; by apply H2|left; lia]. }
    rewrite decide_True.
    2:{ case_decide; naive_solver. }
    rewrite Hd. do 2 f_equal. apply bool_decide_ext. case_decide as E; [rewrite E|]; naive_solver.
Qed.

(** What [NewVerifier] guarantees of the verifiers it returns: every key is configured
    and long enough, there is one, and the algorithm is pinned. *)
Lemma usable_secrets_ok secrets : forall l, usable_secrets secrets = inr l ->
  l = filter (fun s => s <> []) secrets /\ Forall (fun s => (32 <= length s)%nat) l.
Proof.
  induction secrets as [|s rest IH]; cbn [usable_secrets]; intros l; [by intros [= <-]|].
  case_decide as E; [|destruct (length s <? 32)%nat eqn:El; [done|]].
  - intros H. rewrite filter_cons_False by tauto. auto.
  - destruct (usable_secrets rest) as [|l'] eqn:Er; [done|]. intros [= <-].
    destruct (IH l' eq_refl) as [-> Hl]. rewrite filter_cons_True by exact E.
    apply Nat.ltb_ge in El. split; [done|]. by constructor.
Qed.

Lemma NewVerifier_ok cfg v : NewVerifier cfg = inr v ->
  v_secrets v = filter (fun s => s <> []) (cfg_Secrets cfg) /\ v_secrets v <> []
  /\ Forall (fun s => (32 <= length s)%nat) (v_secrets v)
  /\ p_methods (v_parser v) = [str "HS256"] /\ 0 < v_leeway v
  /\ v_requireExpiry v = cfg_RequireExpiry cfg /\ v_maxLifetime v = cfg_MaxLifetime cfg.
Proof.
  unfold NewVerifier. destruct (usable_secrets _) as [|l] eqn:E; [done|].
  apply usable_secrets_ok in E as [E Hl]. destruct l as [|s l]; [done|]. intros [= <-]. cbn.
  split_and!; try done. case_if; [|lia]. unfold DefaultLeeway, second. lia.
Qed.

(** C35. A token is granted exactly when some configured key, of at least 32 bytes, signed
    claims that name this document, carry a known permission and respect the expiry
    policy; the grant then is for this document, for the tenant of the claims, and
    allows writing only if they say so. *)
Theorem Verify_grants cfg v now now' token doc g :
  NewVerifier cfg = inr v ->
  Verifier_Verify v now now' token doc = Ok g <->
  token <> [] /\ exists pre s post claims expiry,
    filter (fun s => s <> []) (cfg_Secrets cfg) = pre ++ s :: post /\ (32 <= length s)%nat
    /\ Forall (fun k => exists err, ParseWithClaims (MkParser [str "HS256"] (v_leeway v)) now k token = inr err) pre
    /\ ParseWithClaims (MkParser [str "HS256"] (v_leeway v)) now s token = inl claims
    /\ admissible v now' claims doc expiry
    /\ g = MkGrant (cl_Subject claims) doc (cl_Own claims) (bool_decide (cl_Perm claims = PermissionWrite)) expiry.
Proof.
  intros Hv. destruct (NewVerifier_ok _ _ Hv) as (Hs & _ & Hl & _).
  assert (v_parser v = MkParser [str "HS256"] (v_leeway v)) as Hp.
  { revert Hv. unfold NewVerifier. destruct (usable_secrets _) as [|[|? ?]]; [done..|]. by intros [= <-]. }
  unfold Verifier_Verify. rewrite Hp. case_decide as Ht; [by split; [|intros [? _]]|].
  destruct (try_secrets _ _ _ _ _) as [claims|err] eqn:E.
  - rewrite check_claims_iff. apply try_secrets_inl in E as (pre & s & post & Es & Hpre & Hacc).
    rewrite Es in Hl. pose proof Hl as Hls. apply Forall_app in Hls as [_ Hls]. inversion Hls; subst.
    split.
    + intros (expiry & Ha & ->). split; [done|]. exists pre, s, post, claims, expiry. by rewrite <- Hs.
    + intros (_ & pre' & s' & post' & claims' & expiry & Es' & _ & Hpre' & Hacc' & Ha & ->).
      exists expiry. enough (claims' = claims) as -> by done.
      assert (try_secrets (MkParser [str "HS256"] (v_leeway v)) now token (v_secrets v) [] = inl claims') as E1
        by (apply try_secrets_inl; rewrite Hs; eauto 10).
      assert (try_secrets (MkParser [str "HS256"] (v_leeway v)) now token (v_secrets v) [] = inl claims) as E2
        by (apply try_secrets_inl; eauto 10).
      congruence.
  - split; [by destruct (_ || _)|].
    intros (_ & pre & s & post & claims & expiry & Es & _ & Hpre & Hacc & _).
    assert (try_secrets (MkParser [str "HS256"] (v_leeway v)) now token (v_secrets v) [] = inl claims) as E1
      by (apply try_secrets_inl; rewrite Hs; eauto 10).
    congruence.
Qed.

(** While a key is being rotated, an expired token signed with any key but the last one
    listed is reported as invalid: the signature error of the last key replaces the
    expiry the right key found. *)
Theorem rotation_masks_expiry v now now' token doc pre s post last_ :
  v_secrets v = pre ++ s :: post ++ [last_] -> token <> [] ->
  ParseWithClaims (v_parser v) now s token = inr [ErrTokenExpired] ->
  Forall (fun k => ParseWithClaims (v_parser v) now k token = inr [ErrTokenSignatureInvalid]) (pre ++ post ++ [last_]) ->
  Verifier_Verify v now now' token doc = Err ErrInvalidToken.
Proof.
  intros Hs Ht He Ho. unfold Verifier_Verify. rewrite decide_False by done.
  rewrite Hs. apply Forall_app in Ho as [H1 Ho]. apply Forall_app in Ho as [H2 H3].
  inversion H3 as [|? ? H4 _]; subst.
  replace (pre ++ s :: post ++ [last_]) with ((pre ++ s :: post) ++ [last_]) by (by rewrite <- app_assoc).
  erewrite try_secrets_last; [|apply Forall_app; split; [|constructor]|exact H4].
  - by rewrite !bool_decide_false by set_solver.
  - eapply Forall_impl; [exact H1|]. cbn. eauto.
  - eauto.
  - eapply Forall_impl; [exact H2|]. cbn. eauto.
Qed.
End Verify.

(** ** Where the token comes from *)

(** The answers of [URL.Query().Get] and [Header.Get] this server reads of a request. *)
Record HttpRequest := MkHttpRequest {
  rq_token : bytes;
  rq_authorization : bytes;
  rq_origin : bytes;
}.

Definition TokenFromRequest (r : HttpRequest) : bytes :=
  if decide (rq_token r <> []) then rq_token r
  else if decide (rq_authorization r <> []) then
    match cut_prefix (str "Bearer ") (rq_authorization r) with
    | Some rest => TrimSpace rest
    | None => []
    end
  else [].

Definition OriginFromRequest (r : HttpRequest) : bytes := rq_origin r.

(** ** Minting *)

Definition auth_Sign (SignedString : Claims -> bytes -> bytes) (secret : bytes) (claims : Claims) : ConfigError + bytes :=
  if (length secret <? 32)%nat then inl (ShortSecret (length secret)) else inr (SignedString claims secret).

(** A stand-in parser for two keys and one token: signed with [key_a], expired. *)
Definition key_a : bytes := repeat 97 32.
Definition key_b : bytes := repeat 98 32.
Definition toy_claims : Claims := MkClaims (str "ann") (Ok (Some noon)) (str "notes") PermissionWrite [].
Definition toy_parse (p : Parser) (now : Time) (key token : bytes) : Claims + list JwtError :=
  if decide (key = key_a) then
    if time_before (time_Add noon (p_leeway p)) now then inr [ErrTokenExpired] else inl toy_claims
  else inr [ErrTokenSignatureInvalid].

Definition toy_config (keys : list bytes) : Config := MkConfig keys 0 true (3600 * second).
Definition toy_verifier (keys : list bytes) : Verifier :=
  MkVerifier keys DefaultLeeway true (3600 * second) (MkParser [str "HS256"] DefaultLeeway).

Lemma Verify_grants_witness :
  Verifier_Verify toy_parse (toy_verifier [key_b; key_a]) noon noon (str "tok") (str "notes")
  = Ok (MkGrant (str "ann") (str "notes") [] true (Some noon)).
Proof.
  apply (Verify_grants toy_parse (toy_config [key_b; []; key_a])); [done|]. split; [done|].
  exists [key_b], key_a, [], toy_claims, (Some noon).
  split_and!; [done|cbn; lia| |done| |done].
  - constructor; [by eexists|constructor].
  - unfold admissible. split_and!; [done|done|done|by right; right|done|]. intros e [= <-] _. by vm_compute.
Defined.

Lemma rotation_masks_expiry_witness :
  Verifier_Verify toy_parse (toy_verifier [key_a; key_b]) (time_Add noon (60 * second)) noon (str "tok") (str "notes")
  = Err ErrInvalidToken
  /\ Verifier_Verify toy_parse (toy_verifier [key_b; key_a]) (time_Add noon (60 * second)) noon (str "tok") (str "notes")
     = Err ErrExpired.
Proof.
  split; [|done].
  apply (rotation_masks_expiry toy_parse _ _ _ _ _ [] key_a [] key_b); [done..|].
  constructor; [done|constructor].
Defined.
