(* ===== verification/Callback.v ===== *)
(** * The authorisation callback

    [internal/auth/callback.go]: ask an HTTP endpoint whether a connection may open a
    document, remember its decisions for a bounded time and let concurrent askers of one
    question share a request.

    [Callback] is the state behind the mutex; [cached], [begin], [publish] are its three
    critical sections, [ask] the request between them.  The endpoint's side is an
    [outcome]: what [http.Client.Do] and the body gave.  Decoding JSON is [encoding/json]'s
    work, taken as the functions [Unmarshal] and [json_Valid].  Instants are integers, the
    nanoseconds of the injected clock. *)

From stdpp Require Import strings.
From S2P Require Import Prelude Text Signature Auth.

Definition maxReason : nat := 200.

(** [Canceled] is the error of a context that ended. *)
Inductive CallbackError := ErrUnavailable | ErrDenied (reason : bytes) | Canceled.

#[export] Instance CallbackError_eq_dec : EqDecision CallbackError.
Proof. solve_decision. Defined.

Definition DefaultCallbackTimeout : Z := 3 * second.
Definition DefaultCacheSize : Z := 4096.

Record CallbackConfig := MkCallbackConfig {
  cc_Timeout : Z;
  cc_CacheTTL : Z;
  cc_CacheSize : Z;
  cc_FailOpen : bool;
}.

(** The defaulting of [NewCallback], for a URL it accepts. *)
Definition NewCallback_cfg (cfg : CallbackConfig) : CallbackConfig :=
  MkCallbackConfig
    (if cc_Timeout cfg <=? 0 then DefaultCallbackTimeout else cc_Timeout cfg)
    (if cc_CacheTTL cfg <? 0 then 0 else cc_CacheTTL cfg)
    (if cc_CacheSize cfg <=? 0 then DefaultCacheSize else cc_CacheSize cfg)
    (cc_FailOpen cfg).

Record Request := MkRequest {
  r_Document : bytes;
  r_Token : bytes;
  r_IP : bytes;
  r_Origin : bytes;
}.

#[export] Instance Request_eq_dec : EqDecision Request.
Proof. solve_decision. Defined.

Record callbackResponse := MkResponse {
  cr_Allow : option bool;
  cr_Write : bool;
  cr_Subject : bytes;
  cr_Owner : bytes;
  cr_Reason : bytes;
  cr_TTL : Z;
}.

Record decision := MkDecision {
  d_grant : Grant;
  d_err : option CallbackError;
  d_expires : Z;
}.

Record answer := MkAnswer {
  a_grant : Grant;
  a_err : option CallbackError;
  a_ttl : Z;
  a_cacheable : bool;
}.

Definition no_grant : Grant := MkGrant [] [] [] false None.

(** ** Text from the endpoint *)

(** [unicode.IsControl]. *)
Definition IsControl (r : Z) : bool := within 0 0x1F r || within 0x7F 0x9F r.

Definition sanitize (s : bytes) : bytes :=
  let s := if (maxReason <? length s)%nat then take maxReason s else s in
  let s := ToValidUTF8 s in
  let s := MapRunes (fun r => if IsControl r then 32 else r) s in
  let s := TrimSpace s in
  if ValidString s then s else [].

Definition denied (reason : bytes) : CallbackError := ErrDenied (sanitize reason).

(** The text of the error, which the gateway sends to the client. *)
Definition error_text (e : CallbackError) : bytes :=
  match e with
  | ErrUnavailable => str "authorization service unavailable"
  | ErrDenied reason => if decide (reason = []) then str "denied" else str "denied: " ++ reason
  | Canceled => str "context canceled"
  end.

(** ** One request *)

(** What came of it: it could not be built, [Do] failed (and whether the asker's context
    was cancelled by then), or a response with its status, the part of its body that was
    read, and whether reading failed. *)
Inductive outcome :=
  | NotSent
  | Failed (cancelled : bool)
  | Replied (status : Z) (payload : bytes) (read_failed : bool).

Section Ask.
Context (Unmarshal : bytes -> option callbackResponse) (json_Valid : bytes -> bool).
Context (cfg : CallbackConfig).

Definition unavailable : answer :=
  if cc_FailOpen cfg then MkAnswer (MkGrant [] [] [] true None) None 0 false
  else MkAnswer no_grant (Some ErrUnavailable) 0 false.

Definition reasonFrom (payload : bytes) : bytes :=
  match Unmarshal payload with
  | Some a => if decide (cr_Reason a <> []) then cr_Reason a else if json_Valid payload then [] else payload
  | None => if json_Valid payload then [] else payload
  end.

Definition refusal (reason : bytes) (ttl : Z) (cacheable : bool) : answer :=
  MkAnswer no_grant (Some (denied reason)) ttl cacheable.

Definition ask (req : Request) (o : outcome) : answer :=
  match o with
  | NotSent => unavailable
  | Failed true => MkAnswer no_grant (Some Canceled) 0 false
  | Failed false => unavailable
  | Replied status payload read_failed =>
      if (status =? 401) || (status =? 403) then refusal (reasonFrom payload) 0 true
      else if negb (status =? 200) && ((status =? 408) || (status =? 429) || (500 <=? status)) then unavailable
      else if negb (status =? 200) then refusal [] 0 false
      else if read_failed then unavailable
      else match Unmarshal payload with
      | None => refusal [] 0 false
      | Some decoded =>
          let ttl := s64 (cr_TTL decoded * second) in
          match cr_Allow decoded with
          | None => refusal [] 0 false
          | Some false => refusal (cr_Reason decoded) ttl true
          | Some true =>
              MkAnswer (MkGrant (sanitize (cr_Subject decoded)) (r_Document req)
                          (sanitize (cr_Owner decoded)) (cr_Write decoded) None)
                None ttl true
          end
      end
  end.

(** ** The shared state *)

(** [asking] names the flight in the air for a key; [flights] holds what each flight's
    channel will deliver, [None] until it is closed. *)
Record Callback := MkCallback {
  cb_decided : gmap bytes decision;
  cb_asking : gmap bytes nat;
  cb_flights : gmap nat (option answer);
}.

Definition key_of (req : Request) : bytes := r_Document req ++ [0] ++ r_Token req.

Definition cached (now : Z) (key : bytes) (c : Callback) : option (Grant * option CallbackError) * Callback :=
  if cc_CacheTTL cfg <=? 0 then (None, c)
  else match cb_decided c !! key with
       | None => (None, c)
       | Some d =>
           if negb (now <? d_expires d)
           then (None, MkCallback (delete key (cb_decided c)) (cb_asking c) (cb_flights c))
           else (Some (d_grant d, d_err d), c)
       end.

(** The second critical section: the flight to join, or a new one. *)
Definition begin (key : bytes) (f : nat) (c : Callback) : option nat * Callback :=
  match cb_asking c !! key with
  | Some g => (Some g, c)
  | None => (None, MkCallback (cb_decided c) (<[key := f]> (cb_asking c)) (<[f := None]> (cb_flights c)))
  end.

Definition remember (now : Z) (key : bytes) (a : answer) (m : gmap bytes decision) : gmap bytes decision :=
  let life := if (0 <? a_ttl a) && (a_ttl a <? cc_CacheTTL cfg) then a_ttl a else cc_CacheTTL cfg in
  let m :=
    if cc_CacheSize cfg <=? Z.of_nat (size m) then
      let m := filter (fun kd => now < d_expires kd.2) m in
      if cc_CacheSize cfg <=? Z.of_nat (size m) then ∅ else m
    else m in
  <[key := MkDecision (a_grant a) (a_err a) (now + life)]> m.

(** The third critical section. *)
Definition publish (now : Z) (key : bytes) (a : answer) (c : Callback) : Callback :=
  MkCallback
    (if (0 <? cc_CacheTTL cfg) && a_cacheable a then remember now key a (cb_decided c) else cb_decided c)
    (delete key (cb_asking c)) (cb_flights c).

(** [close(f.done)]. *)
Definition close_flight (f : nat) (a : answer) (c : Callback) : Callback :=
  MkCallback (cb_decided c) (cb_asking c) (<[f := Some a]> (cb_flights c)).

(** [Authorize] when nothing else runs: the cache, then the request.  A flight left in
    the air by somebody else is then waited for until the context ends. *)
Definition Authorize (now later : Z) (f : nat) (req : Request) (o : outcome) (c : Callback)
  : (Grant * option CallbackError) * Callback :=
  let key := key_of req in
  match cached now key c with
  | (Some r, c) => (r, c)
  | (None, c) =>
      match begin key f c with
      | (Some _, c) => ((no_grant, Some Canceled), c)
      | (None, c) =>
          let a := ask req o in
          ((a_grant a, a_err a), close_flight f a (publish later key a c))
      end
  end.

Definition CacheLen (c : Callback) : Z := Z.of_nat (size (cb_decided c)).
End Ask.

(** ** What reaches the client is printable *)

Definition blank (r : Z) : Z := if IsControl r then 32 else r.

Lemma blank_scalar r : scalar r -> scalar (blank r).
Proof. unfold blank. case_if; [unfold scalar; lia|done]. Qed.

Lemma blank_not_control r : IsControl (blank r) = false.
Proof. unfold blank. case_if; [done|done]. Qed.

Lemma encode_blank_length rs : Forall scalar rs ->
  (length (encode_runes (map blank rs)) <= length (encode_runes rs))%nat.
Proof.
  induction 1 as [|r rs Hr Hrs IH]; [done|]. cbn [map]. rewrite !encode_runes_cons, !length_app.
  destruct (EncodeRune_shape r Hr) as (b & t & E & _). unfold blank at 1. case_if; [|lia].
  rewrite E. cbn. lia.
Qed.

(** Whatever the endpoint sends, the text kept is at most 200 bytes of valid UTF-8 without
    control characters; the last check of [sanitize] never fires. *)
Lemma sanitize_ok s : exists rs, sanitize s = encode_runes rs /\ Forall scalar rs
  /\ Forall (fun r => IsControl r = false) rs /\ (length (sanitize s) <= maxReason)%nat.
Proof.
  unfold sanitize. set (s1 := if (maxReason <? length s)%nat then take maxReason s else s).
  assert (length s1 <= maxReason)%nat as Hl.
  { subst s1. destruct (maxReason <? length s)%nat eqn:E; [rewrite length_take; lia|].
    apply Nat.ltb_ge in E. lia. }
  clearbody s1. pose proof (ToValidUTF8_length s1) as Hl1. pose proof (runes_scalars s1) as Hs.
  unfold ToValidUTF8 in *. set (rs := omap id (runes s1)) in *. clearbody rs. cbn zeta.
  change (fun r => if IsControl r then 32 else r) with blank.
  unfold MapRunes. rewrite omap_runes_encode by done.
  assert (Forall scalar (map blank rs)) as Hb.
  { apply Forall_fmap. eapply Forall_impl; [exact Hs|]. intros r. apply blank_scalar. }
  pose proof (encode_blank_length rs Hs) as Hl2.
  pose proof (TrimSpace_length (encode_runes (map blank rs))) as Hl3.
  destruct (TrimSpace_runes (map blank rs) Hb) as (n & m & E). rewrite E in Hl3 |- *.
  assert (Forall scalar (take m (drop n (map blank rs)))) as Ht by (by apply Forall_take, Forall_drop).
  rewrite ValidString_runes by done. eexists. split; [done|]. split; [done|]. split; [|lia].
  apply Forall_take, Forall_drop, Forall_fmap, Forall_true. intros r. apply blank_not_control.
Qed.

(** ** What an answer can be *)

(** The endpoint said yes to this request. *)
Definition allows (Unmarshal : bytes -> option callbackResponse) (o : outcome) (d : callbackResponse) : Prop :=
  exists payload, o = Replied 200 payload false /\ Unmarshal payload = Some d /\ cr_Allow d = Some true.

(** The endpoint did not answer: it could not be reached, is overloaded or broken. *)
Definition unreachable (o : outcome) : Prop :=
  o = NotSent \/ o = Failed false \/ (exists p, o = Replied 200 p true)
  \/ exists status p b, o = Replied status p b /\ (status = 408 \/ status = 429 \/ 500 <= status).

Lemma ask_grants U V cfg req o : a_err (ask U V cfg req o) = None ->
  (exists d, allows U o d /\ a_cacheable (ask U V cfg req o) = true
     /\ a_ttl (ask U V cfg req o) = s64 (cr_TTL d * second)
     /\ a_grant (ask U V cfg req o)
        = MkGrant (sanitize (cr_Subject d)) (r_Document req) (sanitize (cr_Owner d)) (cr_Write d) None)
  \/ (cc_FailOpen cfg = true /\ unreachable o /\ a_cacheable (ask U V cfg req o) = false
     /\ a_grant (ask U V cfg req o) = MkGrant [] [] [] true None).
Proof.
  destruct o as [|[]|status payload rf]; cbn; unfold unavailable, unreachable, allows.
  - destruct (cc_FailOpen cfg); cbn; [|done]. eauto 10.
  - done.
  - destruct (cc_FailOpen cfg); cbn; [|done]. eauto 10.
  - destruct (status =? 200) eqn:E2; bool_arith; [subst status; cbn|].
    + destruct rf; [destruct (cc_FailOpen cfg); cbn; [|done]; eauto 10|].
      destruct (U payload) as [d|] eqn:Eu; [|done]. destruct (cr_Allow d) as [[]|] eqn:Ea; [|done..].
      intros _. left. exists d. eauto 10.
    + destruct (_ || _); [done|]. cbn [negb andb].
      destruct (_ || _) eqn:E; [|done]. destruct (cc_FailOpen cfg); cbn; [|done]. intros _. right.
      split; [done|]. split; [|done]. do 3 right. exists status, payload, rf. split; [done|].
      apply orb_true_iff in E as [E|E]; [apply orb_true_iff in E as [E|E]|]; bool_arith; auto.
Qed.

(** Only an answer of the endpoint itself may be remembered. *)
Lemma ask_cacheable U V cfg req o : a_cacheable (ask U V cfg req o) = true ->
  exists status payload rf, o = Replied status payload rf /\ (status = 200 \/ status = 401 \/ status = 403)
  /\ a_err (ask U V cfg req o) <> Some Canceled.
Proof.
  destruct o as [|[]|status payload rf]; cbn; unfold unavailable.
  - by destruct (cc_FailOpen cfg).
  - done.
  - by destruct (cc_FailOpen cfg).
  - intros H. exists status, payload, rf. split; [done|].
    destruct (_ || _) eqn:E; [apply orb_true_iff in E as [E|E]; bool_arith; auto|].
    destruct (status =? 200) eqn:E2; bool_arith; cbn in *.
    + split; [auto|]. destruct rf; [by destruct (cc_FailOpen cfg)|]. destruct (U payload) as [d|]; [|done].
      by destruct (cr_Allow d) as [[]|].
    + destruct (_ || _); [by destruct (cc_FailOpen cfg)|done].
Qed.

(** ** The cache *)

Lemma remember_size cfg now key a m : 0 < cc_CacheSize cfg ->
  Z.of_nat (size m) <= cc_CacheSize cfg -> Z.of_nat (size (remember cfg now key a m)) <= cc_CacheSize cfg.
Proof.
  intros Hc Hm. unfold remember.
  assert (forall m' : gmap bytes decision, Z.of_nat (size m') < cc_CacheSize cfg ->
    forall x, Z.of_nat (size (<[key := x]> m')) <= cc_CacheSize cfg) as H.
  { intros m' Hm' x. destruct (m' !! key) as [y|] eqn:E.
    - rewrite map_size_insert_Some by eauto. lia.
    - rewrite map_size_insert_None by done. lia. }
  apply H. destruct (cc_CacheSize cfg <=? Z.of_nat (size m)) eqn:E1; bool_arith; [|lia].
  destruct (cc_CacheSize cfg <=? Z.of_nat (size (filter _ m))) eqn:E2; bool_arith; [|lia].
  rewrite map_size_empty. lia.
Qed.

Lemma remember_lookup cfg now key a m k d : remember cfg now key a m !! k = Some d ->
  (k = key /\ d_grant d = a_grant a /\ d_err d = a_err a
   /\ d_expires d = now + (if (0 <? a_ttl a) && (a_ttl a <? cc_CacheTTL cfg) then a_ttl a else cc_CacheTTL cfg))
  \/ m !! k = Some d.
Proof.
  unfold remember. rewrite lookup_insert_Some. intros [[<- <-]|[_ H]]; [by left|right].
  repeat case_if; [by rewrite lookup_empty in H| |done]. by apply map_lookup_filter_Some in H as [? _].
Qed.
