(* ===== verification/CallbackSys.v ===== *)
(** * Concurrent authorisations

    The callback of [Callback.v] under every interleaving: each connection being
    authorised is a thread of [Callback.Authorize], between whose critical sections any
    others may run.  The invariant [cinv] gives what an authorisation may ever answer,
    the bound on the cache, the single flight, and that nobody waits for a request that
    no one is making. *)

From stdpp Require Import strings.
From S2P Require Import Prelude Text Signature Auth Callback.

(** Where a thread is in [Authorize].  A thread that leads flight [f] asks (since instant
    [a]), has its answer (since [q]), has published it and closes the channel; one that
    joined waits. *)
Inductive pc :=
  | Checking
  | Missed
  | Waiting (f : nat)
  | Asking (f : nat) (a : Z)
  | Answered (f : nat) (a q : Z) (o : outcome)
  | Publishing (f : nat) (o : outcome)
  | Finished (at_ : Z) (r : Grant * option CallbackError).

Record thread := MkThread { th_req : Request; th_arrived : Z; th_pc : pc }.

(** When an exchange with the endpoint began, when the endpoint had replied, and when the
    answer was published to the cache and to whoever waits. *)
Record times := MkTimes { asked : Z; replied : Z; published : Z }.

(** [sy_log] lists the exchanges with the endpoint that were published. *)
Record sys := MkSys {
  sy_cb : Callback;
  sy_threads : gmap nat thread;
  sy_clock : Z;
  sy_next : nat;
  sy_log : list (times * Request * outcome);
}.

Section System.
Context (U : bytes -> option callbackResponse) (V : bytes -> bool) (cfg : CallbackConfig).

Abbreviation ask := (ask U V cfg).

Definition goto (t : nat) (th : thread) (p : pc) (s : sys) : sys :=
  MkSys (sy_cb s) (<[t := MkThread (th_req th) (th_arrived th) p]> (sy_threads s)) (sy_clock s) (sy_next s) (sy_log s).

Definition with_cb (c : Callback) (s : sys) : sys :=
  MkSys c (sy_threads s) (sy_clock s) (sy_next s) (sy_log s).

Definition init (now : Z) : sys := MkSys (MkCallback ∅ ∅ ∅) ∅ now 0 [].

Inductive cstep : sys -> sys -> Prop :=
  | step_tick s d : 0 <= d ->
      cstep s (MkSys (sy_cb s) (sy_threads s) (sy_clock s + d) (sy_next s) (sy_log s))
  | step_arrive s t req : sy_threads s !! t = None ->
      cstep s (goto t (MkThread req (sy_clock s) Checking) Checking s)
  | step_hit s t th r c : sy_threads s !! t = Some th -> th_pc th = Checking ->
      cached cfg (sy_clock s) (key_of (th_req th)) (sy_cb s) = (Some r, c) ->
      cstep s (goto t th (Finished (sy_clock s) r) (with_cb c s))
  | step_miss s t th c : sy_threads s !! t = Some th -> th_pc th = Checking ->
      cached cfg (sy_clock s) (key_of (th_req th)) (sy_cb s) = (None, c) ->
      cstep s (goto t th Missed (with_cb c s))
  | step_join s t th f c : sy_threads s !! t = Some th -> th_pc th = Missed ->
      begin (key_of (th_req th)) (sy_next s) (sy_cb s) = (Some f, c) ->
      cstep s (goto t th (Waiting f) (with_cb c s))
  | step_lead s t th c : sy_threads s !! t = Some th -> th_pc th = Missed ->
      begin (key_of (th_req th)) (sy_next s) (sy_cb s) = (None, c) ->
      cstep s (let s' := goto t th (Asking (sy_next s) (sy_clock s)) (with_cb c s) in
               MkSys (sy_cb s') (sy_threads s') (sy_clock s') (S (sy_next s')) (sy_log s'))
  | step_reply s t th f a o : sy_threads s !! t = Some th -> th_pc th = Asking f a ->
      cstep s (goto t th (Answered f a (sy_clock s) o) s)
  | step_publish s t th f a q o : sy_threads s !! t = Some th -> th_pc th = Answered f a q o ->
      cstep s (let s' := goto t th (Publishing f o)
                           (with_cb (publish cfg (sy_clock s) (key_of (th_req th)) (ask (th_req th) o) (sy_cb s)) s) in
               MkSys (sy_cb s') (sy_threads s') (sy_clock s') (sy_next s')
                 (sy_log s' ++ [(MkTimes a q (sy_clock s), th_req th, o)]))
  | step_close s t th f o : sy_threads s !! t = Some th -> th_pc th = Publishing f o ->
      let a := ask (th_req th) o in
      cstep s (goto t th (Finished (sy_clock s) (a_grant a, a_err a)) (with_cb (close_flight f a (sy_cb s)) s))
  | step_wake s t th f a : sy_threads s !! t = Some th -> th_pc th = Waiting f ->
      cb_flights (sy_cb s) !! f = Some (Some a) ->
      cstep s (goto t th (Finished (sy_clock s) (a_grant a, a_err a)) s)
  | step_give_up s t th f : sy_threads s !! t = Some th -> th_pc th = Waiting f ->
      cstep s (goto t th (Finished (sy_clock s) (no_grant, Some Canceled)) s).

Inductive csteps (now : Z) : sys -> Prop :=
  | csteps_init : csteps now (init now)
  | csteps_step s s' : csteps now s -> cstep s s' -> csteps now s'.

(** The flight a thread's request is in the air for, and the one it has yet to close. *)
Definition in_air (p : pc) : option nat :=
  match p with Asking f _ => Some f | Answered f _ _ _ => Some f | _ => None end.
Definition owns (p : pc) : option nat :=
  match p with Publishing f _ => Some f | _ => in_air p end.

(** A thread asks after it arrived, and is answered after it asked. *)
Definition stamped (arrived now : Z) (p : pc) : Prop :=
  match p with
  | Asking _ a => arrived <= a <= now
  | Answered _ a q _ => arrived <= a /\ a <= q <= now
  | _ => True
  end.

(** How long an answer is good for once remembered. *)
Definition life (a : answer) : Z :=
  if (0 <? a_ttl a) && (a_ttl a <? cc_CacheTTL cfg) then a_ttl a else cc_CacheTTL cfg.

(** An answer thread [th] may give at instant [at_]: one the endpoint gave to the same
    question, published either since the thread arrived or recently enough to be
    remembered. *)
Definition genuine (log : list (times * Request * outcome)) (th : thread) (at_ : Z) (r : Grant * option CallbackError) : Prop :=
  exists p req o, (p, req, o) ∈ log /\ key_of req = key_of (th_req th)
  /\ r = (a_grant (ask req o), a_err (ask req o)) /\ published p <= at_
  /\ (th_arrived th <= published p \/ a_cacheable (ask req o) = true /\ at_ < published p + life (ask req o)).

(** Somebody is going to close flight [f] for the question [key], or has closed it, with
    an answer published no earlier than [since]. *)
Definition served (s : sys) (f : nat) (key : bytes) (since : Z) : Prop :=
  (exists t th, sy_threads s !! t = Some th /\ in_air (th_pc th) = Some f /\ key_of (th_req th) = key)
  \/ exists p req o, (p, req, o) ∈ sy_log s /\ key_of req = key /\ since <= published p
     /\ (cb_flights (sy_cb s) !! f = Some (Some (ask req o))
         \/ exists t th, sy_threads s !! t = Some th /\ th_req th = req /\ th_pc th = Publishing f o).

Record cinv (s : sys) : Prop := {
  ci_log : forall p req o, (p, req, o) ∈ sy_log s -> asked p <= replied p /\ replied p <= published p <= sy_clock s;
  ci_stamped : forall t th, sy_threads s !! t = Some th -> stamped (th_arrived th) (sy_clock s) (th_pc th);
  ci_size : Z.of_nat (size (cb_decided (sy_cb s))) <= cc_CacheSize cfg;
  ci_decided : forall k d, cb_decided (sy_cb s) !! k = Some d ->
    exists p req o, (p, req, o) ∈ sy_log s /\ key_of req = k /\ a_cacheable (ask req o) = true
    /\ d_grant d = a_grant (ask req o) /\ d_err d = a_err (ask req o) /\ d_expires d = published p + life (ask req o);
  ci_arrived : forall t th, sy_threads s !! t = Some th -> th_arrived th <= sy_clock s;
  ci_air : forall k f, cb_asking (sy_cb s) !! k = Some f ->
    exists t th, sy_threads s !! t = Some th /\ in_air (th_pc th) = Some f /\ key_of (th_req th) = k;
  ci_asking : forall t th f, sy_threads s !! t = Some th -> in_air (th_pc th) = Some f ->
    cb_asking (sy_cb s) !! key_of (th_req th) = Some f;
  ci_owner : forall t t' th th' f, sy_threads s !! t = Some th -> sy_threads s !! t' = Some th' ->
    owns (th_pc th) = Some f -> owns (th_pc th') = Some f -> t = t';
  ci_open : forall t th f, sy_threads s !! t = Some th -> owns (th_pc th) = Some f ->
    (f < sy_next s)%nat /\ cb_flights (sy_cb s) !! f = Some None;
  ci_next : forall f x, cb_flights (sy_cb s) !! f = Some x -> (f < sy_next s)%nat;
  ci_publishing : forall t th f o, sy_threads s !! t = Some th -> th_pc th = Publishing f o ->
    exists p, (p, th_req th, o) ∈ sy_log s /\ th_arrived th <= asked p;
  ci_waiting : forall t th f, sy_threads s !! t = Some th -> th_pc th = Waiting f ->
    served s f (key_of (th_req th)) (th_arrived th);
  ci_finished : forall t th at_ r, sy_threads s !! t = Some th -> th_pc th = Finished at_ r ->
    r = (no_grant, Some Canceled) \/ genuine (sy_log s) th at_ r;
}.

Lemma in_air_owns p f : in_air p = Some f -> owns p = Some f.
Proof. by destruct p. Qed.

(** A flight stays served while its owner does: a step may only move owners as listed. *)
Lemma served_step s s' f key since :
  served s f key since ->
  (forall e, e ∈ sy_log s -> e ∈ sy_log s') ->
  (forall a, cb_flights (sy_cb s) !! f = Some (Some a) -> cb_flights (sy_cb s') !! f = Some (Some a)) ->
  (forall t th, sy_threads s !! t = Some th -> owns (th_pc th) = Some f ->
     sy_threads s' !! t = Some th \/ key_of (th_req th) = key /\ served s' f key since
     \/ key_of (th_req th) <> key) ->
  served s' f key since.
Proof.
  intros [(t & th & Ht & Ha & Hk)|(p & req & o & Hl & Hk & Hs & [Hf|(t & th & Ht & Hr & Hp)])] Hlog Hfl Hmv.
  - destruct (Hmv t th Ht (in_air_owns _ _ Ha)) as [H|[[_ H]|H]]; [left; eauto|done|done].
  - right. exists p, req, o. eauto 10.
  - destruct (Hmv t th Ht) as [H|[[_ H]|H]]; [by rewrite Hp| |done|by subst].
    right. exists p, req, o. split_and!; [auto..|]. right. eauto.
Qed.

(** A thread that owns no flight moves, and the cache at most forgets. *)
Lemma cinv_quiet s t th pc' c :
  cinv s ->
  (sy_threads s !! t = None /\ th_arrived th = sy_clock s
   \/ exists th0, sy_threads s !! t = Some th0 /\ owns (th_pc th0) = None /\ th_arrived th0 = th_arrived th) ->
  owns pc' = None ->
  cb_asking c = cb_asking (sy_cb s) -> cb_flights c = cb_flights (sy_cb s) ->
  (size (cb_decided c) <= size (cb_decided (sy_cb s)))%nat ->
  (forall k d, cb_decided c !! k = Some d -> cb_decided (sy_cb s) !! k = Some d) ->
  (forall f, pc' = Waiting f -> served s f (key_of (th_req th)) (th_arrived th)) ->
  (forall at_ r, pc' = Finished at_ r -> r = (no_grant, Some Canceled) \/ genuine (sy_log s) th at_ r) ->
  cinv (goto t th pc' (with_cb c s)).
Proof.
  intros H Ht Hpc Ec Ef Hsz Hd Hw Hfin.
  assert (forall t' th' f, <[t := MkThread (th_req th) (th_arrived th) pc']> (sy_threads s) !! t' = Some th' ->
    owns (th_pc th') = Some f -> sy_threads s !! t' = Some th') as Hown.
  { intros t' th' f. rewrite lookup_insert_Some. intros [[<- <-]|[_ ?]] ?; [by cbn in *; congruence|done]. }
  assert (forall t' th', sy_threads s !! t' = Some th' -> owns (th_pc th') <> None ->
    <[t := MkThread (th_req th) (th_arrived th) pc']> (sy_threads s) !! t' = Some th') as Hkeep.
  { intros t' th' H1 H2. rewrite lookup_insert_ne; [done|]. intros ->.
    destruct Ht as [[? _]|(th0 & ? & ? & _)]; congruence. }
  assert (forall f k z, served s f k z -> served (goto t th pc' (with_cb c s)) f k z) as Hsv.
  { intros f k z Hs. eapply served_step; [exact Hs|done|cbn; by rewrite Ef|].
    intros t' th' H1 H2. left. apply Hkeep; [done|]. by rewrite H2. }
  constructor; cbn [goto with_cb sy_cb sy_threads sy_clock sy_next sy_log]; rewrite ?Ec, ?Ef.
  - apply (ci_log _ H).
  - intros t' th'. rewrite lookup_insert_Some. intros [[<- <-]|[_ H1]]; [by destruct pc'|by apply (ci_stamped _ H t')].
  - pose proof (ci_size _ H). lia.
  - intros k d Hk. by apply (ci_decided _ H), Hd.
  - intros t' th'. rewrite lookup_insert_Some. intros [[<- <-]|[_ H1]]; [|by apply (ci_arrived _ H t')].
    cbn. destruct Ht as [[_ ->]|(th0 & H1 & _ & <-)]; [done|]. by apply (ci_arrived _ H t).
  - intros k f Hk. destruct (ci_air _ H k f Hk) as (t' & th' & H1 & H2 & H3). exists t', th'.
    split; [|done]. apply Hkeep; [done|]. by rewrite (in_air_owns _ _ H2).
  - intros t' th' f H1 H2. apply (ci_asking _ H t'); [|done]. by eapply Hown, in_air_owns.
  - intros t1 t2 th1 th2 f H1 H2 H3 H4. eapply (ci_owner _ H); eauto.
  - intros t' th' f H1 H2. apply (ci_open _ H t' th'); eauto.
  - apply (ci_next _ H).
  - intros t' th' f o H1 H2. apply (ci_publishing _ H t' th' f); [|done]. eapply Hown; [done|]. by rewrite H2.
  - intros t' th' f. rewrite lookup_insert_Some. intros [[<- <-]|[_ H1]] H2; apply Hsv; [by apply Hw|].
    by apply (ci_waiting _ H t').
  - intros t' th' at_ r. rewrite lookup_insert_Some. intros [[<- <-]|[_ H1]] H2; [by apply Hfin|].
    by apply (ci_finished _ H t').
Qed.

Context (size_pos : 0 < cc_CacheSize cfg).

Lemma cinv_init now : cinv (init now).
Proof.
  constructor; cbn; try (intros *; rewrite ?lookup_empty, ?elem_of_nil; done).
  rewrite map_size_empty. lia.
Qed.

Lemma cinv_tick s d : 0 <= d -> cinv s ->
  cinv (MkSys (sy_cb s) (sy_threads s) (sy_clock s + d) (sy_next s) (sy_log s)).
Proof.
  intros Hd H. destruct H. constructor; cbn; try done.
  - intros p req o Hp. specialize (ci_log0 p req o Hp). lia.
  - intros t th Ht. specialize (ci_stamped0 t th Ht). destruct (th_pc th); cbn in *; lia.
  - intros t th Ht. specialize (ci_arrived0 t th Ht). lia.
Qed.

(** Case analysis on which thread of the changed table is meant. *)
Ltac lookup_cases :=
  repeat match goal with
  | H : <[_ := _]> _ !! _ = Some _ |- _ => apply lookup_insert_Some in H as [[<- <-]|[? H]]
  end; cbn [th_pc th_req th_arrived in_air owns] in *; simplify_eq.

Lemma cinv_lead s t th c : cinv s -> sy_threads s !! t = Some th -> th_pc th = Missed ->
  begin (key_of (th_req th)) (sy_next s) (sy_cb s) = (None, c) ->
  cinv (MkSys c (<[t := MkThread (th_req th) (th_arrived th) (Asking (sy_next s) (sy_clock s))]> (sy_threads s))
          (sy_clock s) (S (sy_next s)) (sy_log s)).
Proof.
  intros H Ht Hpc Hb. unfold begin in Hb. destruct (cb_asking (sy_cb s) !! _) as [g|] eqn:Ea; [done|].
  injection Hb as <-.
  assert (cb_flights (sy_cb s) !! sy_next s = None) as Hn.
  { destruct (_ !! sy_next s) as [x|] eqn:E; [|done]. apply (ci_next _ H) in E. lia. }
  assert (forall t' th', sy_threads s !! t' = Some th' -> owns (th_pc th') <> None -> t' <> t) as Hne.
  { intros t' th' H1 H2 ->. rewrite Ht in H1. injection H1 as <-. by rewrite Hpc in H2. }
  constructor; cbn [sy_cb sy_threads sy_clock sy_next sy_log cb_decided cb_asking cb_flights].
  - apply (ci_log _ H).
  - intros t' th' H1. lookup_cases; [|by apply (ci_stamped _ H t')]. cbn. split; [by apply (ci_arrived _ H t)|done].
  - apply (ci_size _ H).
  - apply (ci_decided _ H).
  - intros t' th' H1. lookup_cases; [by apply (ci_arrived _ H t)|by apply (ci_arrived _ H t')].
  - intros k f Hk. apply lookup_insert_Some in Hk as [[<- <-]|[Hk1 Hk]].
    + exists t. eexists. by rewrite lookup_insert_eq.
    + destruct (ci_air _ H k f Hk) as (t' & th' & H1 & H2 & H3). exists t', th'.
      rewrite lookup_insert_ne; [done|]. symmetry. eapply Hne; [done|]. by rewrite (in_air_owns _ _ H2).
  - intros t' th' f H1 H2. lookup_cases; [by rewrite lookup_insert_eq|].
    pose proof (ci_asking _ H t' th' f H1 H2) as H3.
    rewrite lookup_insert_ne; [done|]. intros E. rewrite E in Ea. congruence.
  - intros t1 t2 th1 th2 f H1 H2 H3 H4. lookup_cases; [done|..].
    + destruct (ci_open _ H t1 th1 (sy_next s)) as [? _]; [done..|lia].
    + destruct (ci_open _ H t2 th2 (sy_next s)) as [? _]; [done..|lia].
    + by eapply (ci_owner _ H).
  - intros t' th' f H1 H2. lookup_cases; [rewrite lookup_insert_eq; split; [lia|done]|].
    destruct (ci_open _ H t' th' f) as [H3 H4]; [done..|]. split; [lia|].
    rewrite lookup_insert_ne; [done|]. intros E. lia.
  - intros f x Hx. apply lookup_insert_Some in Hx as [[<- _]|[_ Hx]]; [lia|]. apply (ci_next _ H) in Hx. lia.
  - intros t' th' f o H1 H2. lookup_cases. by eapply (ci_publishing _ H).
  - intros t' th' f H1 H2. lookup_cases. eapply served_step; [by apply (ci_waiting _ H t')|done|..]; cbn.
    + intros a Hf. rewrite lookup_insert_ne; [done|]. intros <-. congruence.
    + intros t1 th1 H3 H4. left. rewrite lookup_insert_ne; [done|]. symmetry. eapply Hne; [done|]. by rewrite H4.
  - intros t' th' at_ r H1 H2. lookup_cases. by apply (ci_finished _ H t').
Qed.

(** A leader gets its reply, or publishes it: it keeps its flight. *)
Lemma cinv_reply s t th f a o : cinv s -> sy_threads s !! t = Some th -> th_pc th = Asking f a ->
  cinv (goto t th (Answered f a (sy_clock s) o) s).
Proof.
  intros H Ht Hpc. constructor; cbn [goto sy_cb sy_threads sy_clock sy_next sy_log].
  - apply (ci_log _ H).
  - intros t' th' H1. lookup_cases; [|by apply (ci_stamped _ H t')].
    pose proof (ci_stamped _ H t th Ht) as Hst. rewrite Hpc in Hst. cbn in *. lia.
  - apply (ci_size _ H).
  - apply (ci_decided _ H).
  - intros t' th' H1. lookup_cases; [by apply (ci_arrived _ H t)|by apply (ci_arrived _ H t')].
  - intros k g Hk. destruct (ci_air _ H k g Hk) as (t' & th' & H1 & H2 & H3). destruct (decide (t' = t)) as [->|Hn].
    + exists t. eexists. rewrite lookup_insert_eq. split; [done|]. cbn. split; [|congruence].
      rewrite Ht in H1. injection H1 as <-. by rewrite Hpc in H2.
    + exists t', th'. by rewrite lookup_insert_ne by done.
  - intros t' th' g H1 H2. lookup_cases; [|by apply (ci_asking _ H t')].
    apply (ci_asking _ H t th); [done|]. by rewrite Hpc.
  - intros t1 t2 th1 th2 g H1 H2 H3 H4. lookup_cases; [done|..].
    + eapply (ci_owner _ H t1 t th1 th); [done|done|done|by rewrite Hpc].
    + eapply (ci_owner _ H t t2 th th2); [done|done|by rewrite Hpc|done].
    + by eapply (ci_owner _ H).
  - intros t' th' g H1 H2. lookup_cases; [|by apply (ci_open _ H t' th')].
    apply (ci_open _ H t th); [done|by rewrite Hpc].
  - apply (ci_next _ H).
  - intros t' th' g o' H1 H2. lookup_cases. by eapply (ci_publishing _ H).
  - intros t' th' g H1 H2. lookup_cases. eapply served_step; [by apply (ci_waiting _ H t')|done|done|]; cbn.
    intros t1 th1 H3 H4. destruct (decide (t1 = t)) as [->|Hn]; [|left; by rewrite lookup_insert_ne by done].
    right. rewrite Ht in H3. injection H3 as <-. rewrite Hpc in H4. injection H4 as <-.
    destruct (decide (key_of (th_req th) = key_of (th_req th'))) as [E|E]; [left|by right].
    split; [done|]. left. exists t. eexists. cbn. by rewrite lookup_insert_eq.
  - intros t' th' at_ r H1 H2. lookup_cases. by apply (ci_finished _ H t').
Qed.

Lemma cinv_publish s t th f a q o : cinv s -> sy_threads s !! t = Some th -> th_pc th = Answered f a q o ->
  cinv (MkSys (publish cfg (sy_clock s) (key_of (th_req th)) (ask (th_req th) o) (sy_cb s))
          (<[t := MkThread (th_req th) (th_arrived th) (Publishing f o)]> (sy_threads s))
          (sy_clock s) (sy_next s) (sy_log s ++ [(MkTimes a q (sy_clock s), th_req th, o)])).
Proof.
  intros H Ht Hpc. assert (owns (th_pc th) = Some f) as Hown by (by rewrite Hpc).
  pose proof (ci_stamped _ H t th Ht) as Hst. rewrite Hpc in Hst. cbn in Hst.
  assert (forall e, e ∈ sy_log s -> e ∈ sy_log s ++ [(MkTimes a q (sy_clock s), th_req th, o)]) as Hlog by set_solver.
  constructor; cbn [sy_cb sy_threads sy_clock sy_next sy_log publish cb_decided cb_asking cb_flights].
  - intros p req o'. rewrite elem_of_app, list_elem_of_singleton. intros [Hp|[= -> _ _]]; [by eapply (ci_log _ H)|cbn; lia].
  - intros t' th' H1. lookup_cases; [done|by apply (ci_stamped _ H t')].
  - case_if; [|apply (ci_size _ H)]. apply remember_size; [done|apply (ci_size _ H)].
  - intros k d Hd. case_if.
    + apply remember_lookup in Hd as [(-> & Hg & He & Hx)|Hd].
      * exists (MkTimes a q (sy_clock s)), (th_req th), o. split_and!; [set_solver|done..].
      * destruct (ci_decided _ H k d Hd) as (p & req & o' & ? & ?). exists p, req, o'. split; [auto|done].
    + destruct (ci_decided _ H k d Hd) as (p & req & o' & ? & ?). exists p, req, o'. split; [auto|done].
  - intros t' th' H1. lookup_cases; [by apply (ci_arrived _ H t)|by apply (ci_arrived _ H t')].
  - intros k g Hk. apply lookup_delete_Some in Hk as [Hk1 Hk].
    destruct (ci_air _ H k g Hk) as (t' & th' & H1 & H2 & H3). exists t', th'.
    rewrite lookup_insert_ne; [done|]. intros <-. rewrite Ht in H1. congruence.
  - intros t' th' g H1 H2. lookup_cases. pose proof (ci_asking _ H t' th' g H1 H2) as H3.
    rewrite lookup_delete_ne; [done|]. intros E. rewrite <- E in H3.
    assert (cb_asking (sy_cb s) !! key_of (th_req th) = Some f) as H4.
    { apply (ci_asking _ H t); [done|]. by rewrite Hpc. }
    rewrite H3 in H4. injection H4 as ->.
    enough (t = t') by done. eapply (ci_owner _ H t t' th th'); eauto using in_air_owns.
  - intros t1 t2 th1 th2 g H1 H2 H3 H4. lookup_cases; [done|..].
    + eapply (ci_owner _ H t1 t th1 th); eauto.
    + eapply (ci_owner _ H t t2 th th2); eauto.
    + by eapply (ci_owner _ H).
  - intros t' th' g H1 H2. lookup_cases; [by apply (ci_open _ H t th)|by apply (ci_open _ H t' th')].
  - apply (ci_next _ H).
  - intros t' th' g o' H1 H2. lookup_cases.
    + exists (MkTimes a q (sy_clock s)). split; [set_solver|]. cbn. lia.
    + destruct (ci_publishing _ H t' th' g o') as (p & ? & ?); [done..|]. eauto.
  - intros t' th' g H1 H2. lookup_cases. eapply served_step; [by apply (ci_waiting _ H t')|done|done|]; cbn.
    intros t1 th1 H3 H4. destruct (decide (t1 = t)) as [->|Hn]; [|left; by rewrite lookup_insert_ne by done].
    right. rewrite Ht in H3. injection H3 as <-. rewrite Hown in H4. injection H4 as <-.
    destruct (decide (key_of (th_req th) = key_of (th_req th'))) as [E|E]; [left|by right].
    split; [done|]. right. exists (MkTimes a q (sy_clock s)), (th_req th), o. cbn. split_and!; [set_solver|done| |].
    + by apply (ci_arrived _ H t').
    + right. exists t. eexists. by rewrite lookup_insert_eq.
  - intros t' th' at_ r H1 H2. lookup_cases. destruct (ci_finished _ H t' th' at_ r) as [?|(p & req & o' & ? & ?)]; [done..|by left|].
    right. exists p, req, o'. split; [auto|done].
Qed.

Lemma cinv_close s t th f o : cinv s -> sy_threads s !! t = Some th -> th_pc th = Publishing f o ->
  let a := ask (th_req th) o in
  cinv (goto t th (Finished (sy_clock s) (a_grant a, a_err a)) (with_cb (close_flight f a (sy_cb s)) s)).
Proof.
  intros H Ht Hpc a. assert (owns (th_pc th) = Some f) as Hown by (by rewrite Hpc).
  destruct (ci_open _ H t th f Ht Hown) as [Hn Hf].
  assert (forall t' th' g, sy_threads s !! t' = Some th' -> owns (th_pc th') = Some g -> t <> t' -> g <> f) as Hne.
  { intros t' th' g H1 H2 H3 ->. apply H3. by eapply (ci_owner _ H t t' th th'). }
  constructor; cbn [goto with_cb close_flight sy_cb sy_threads sy_clock sy_next sy_log cb_decided cb_asking cb_flights].
  - apply (ci_log _ H).
  - intros t' th' H1. lookup_cases; [done|by apply (ci_stamped _ H t')].
  - apply (ci_size _ H).
  - apply (ci_decided _ H).
  - intros t' th' H1. lookup_cases; [by apply (ci_arrived _ H t)|by apply (ci_arrived _ H t')].
  - intros k g Hk. destruct (ci_air _ H k g Hk) as (t' & th' & H1 & H2 & H3). exists t', th'.
    rewrite lookup_insert_ne; [done|]. intros <-. rewrite Ht in H1. injection H1 as <-. by rewrite Hpc in H2.
  - intros t' th' g H1 H2. lookup_cases. by apply (ci_asking _ H t').
  - intros t1 t2 th1 th2 g H1 H2 H3 H4. lookup_cases. by eapply (ci_owner _ H).
  - intros t' th' g H1 H2. lookup_cases. rewrite lookup_insert_ne; [by apply (ci_open _ H t' th')|].
    intros <-. by eapply Hne.
  - intros g x Hx. apply lookup_insert_Some in Hx as [[<- _]|[_ Hx]]; [done|]. by apply (ci_next _ H) in Hx.
  - intros t' th' g o' H1 H2. lookup_cases. by eapply (ci_publishing _ H).
  - intros t' th' g H1 H2. lookup_cases.
    destruct (ci_waiting _ H t' th' g H1 H2)
      as [(t1 & th1 & H3 & H4 & H5)|(p & req & o' & Hl & Hk & Hs & [Hg|(t1 & th1 & H3 & H4 & H5)])].
    + left. exists t1, th1. cbn. rewrite lookup_insert_ne; [done|]. intros <-.
      rewrite Ht in H3. injection H3 as <-. by rewrite Hpc in H4.
    + right. exists p, req, o'. cbn. split_and!; [done..|]. left. rewrite lookup_insert_ne; [done|].
      intros <-. congruence.
    + right. exists p, req, o'. cbn. split_and!; [done..|]. destruct (decide (t1 = t)) as [->|Hd].
      * left. rewrite Ht in H3. injection H3 as <-. rewrite Hpc in H5. injection H5 as <- <-. subst req.
        by rewrite lookup_insert_eq.
      * right. exists t1, th1. by rewrite lookup_insert_ne by done.
  - intros t' th' at_ r H1 H2. lookup_cases; [|by apply (ci_finished _ H t')].
    right. destruct (ci_publishing _ H t th f o Ht Hpc) as (p & Hp & Hle). exists p, (th_req th), o.
    destruct (ci_log _ H _ _ _ Hp) as (L1 & L2 & L3). split_and!; [done..|lia|left; cbn; lia].
Qed.

Lemma cached_cases now key c r c' : cached cfg now key c = (r, c') ->
  cb_asking c' = cb_asking c /\ cb_flights c' = cb_flights c
  /\ (size (cb_decided c') <= size (cb_decided c))%nat
  /\ (forall k d, cb_decided c' !! k = Some d -> cb_decided c !! k = Some d)
  /\ (forall x, r = Some x -> exists d, cb_decided c !! key = Some d /\ x = (d_grant d, d_err d) /\ now < d_expires d).
Proof.
  unfold cached. case_if; [by intros [= <- <-]; split_and!|].
  destruct (cb_decided c !! key) as [d|] eqn:Ed; [|by intros [= <- <-]; split_and!].
  case_if; intros [= <- <-]; cbn.
  - split_and!; [done..| | |done].
    + apply map_subseteq_size, delete_subseteq.
    + intros k d' Hk. by apply lookup_delete_Some in Hk as [_ ?].
  - split_and!; [done..|]. intros x [= <-]. eauto.
Qed.

Lemma cstep_inv s s' : cinv s -> cstep s s' -> cinv s'.
Proof.
  intros H Hs. destruct Hs as [s d Hd|s t req Ht|s t th r c Ht Hp Hc|s t th c Ht Hp Hc|s t th f c Ht Hp Hb
    |s t th c Ht Hp Hb|s t th f a o Ht Hp|s t th f a q o Ht Hp|s t th f o Ht Hp a|s t th f a Ht Hp Hf|s t th f Ht Hp].
  - by apply cinv_tick.
  - assert (s = with_cb (sy_cb s) s) as E by (by destruct s). rewrite E at 2. apply cinv_quiet; auto; done.
  - apply cached_cases in Hc as (H1 & H2 & H3 & H4 & H5). apply cinv_quiet; auto; [|done|].
    + right. exists th. by rewrite Hp.
    + intros at_ r' [= <- <-]. right. destruct (H5 r eq_refl) as (d & Hd & -> & Hlt).
      destruct (ci_decided _ H _ _ Hd) as (p & req & o & Hl & Hk & Hc & -> & -> & He).
      exists p, req, o. split_and!; [done..|by apply (ci_log _ H p req o)|]. right. split; [done|lia].
  - apply cached_cases in Hc as (H1 & H2 & H3 & H4 & _). apply cinv_quiet; auto; [|done..].
    right. exists th. by rewrite Hp.
  - unfold begin in Hb. destruct (cb_asking (sy_cb s) !! _) as [g|] eqn:Ea; [|done]. injection Hb as -> <-.
    apply cinv_quiet; auto; [right; exists th; by rewrite Hp| |done].
    intros f' [= <-]. left. by apply (ci_air _ H).
  - exact (cinv_lead s t th c H Ht Hp Hb).
  - by apply cinv_reply.
  - exact (cinv_publish s t th f a q o H Ht Hp).
  - by apply cinv_close.
  - assert (s = with_cb (sy_cb s) s) as E by (by destruct s). rewrite E at 2. apply cinv_quiet; auto; [|done|].
    + right. exists th. by rewrite Hp.
    + intros at_ r [= <- <-]. right.
      destruct (ci_waiting _ H t th f Ht Hp)
        as [(t1 & th1 & H3 & H4 & H5)|(p & req & o' & Hl & Hk & Hs & [Hg|(t1 & th1 & H3 & H4 & H5)])].
      * destruct (ci_open _ H t1 th1 f H3 (in_air_owns _ _ H4)) as [_ ?]. congruence.
      * rewrite Hf in Hg. injection Hg as ->. exists p, req, o'. split_and!; [done..|by apply (ci_log _ H p req o')|by left].
      * destruct (ci_open _ H t1 th1 f H3) as [_ ?]; [by rewrite H5|]. congruence.
  - assert (s = with_cb (sy_cb s) s) as E by (by destruct s). rewrite E at 2. apply cinv_quiet; auto; [|done|].
    + right. exists th. by rewrite Hp.
    + intros at_ r [= <- <-]. by left.
Qed.

Lemma csteps_inv now s : csteps now s -> cinv s.
Proof. induction 1; [apply cinv_init|by eapply cstep_inv]. Qed.

(** A document name without a NUL is recovered from the cache key. *)
Lemma key_of_inj req req' : 0 ∉ r_Document req -> 0 ∉ r_Document req' -> key_of req = key_of req' ->
  r_Document req = r_Document req' /\ r_Token req = r_Token req'.
Proof.
  intros H H' E. pose proof (cut_app 0 _ (r_Token req) H) as C. pose proof (cut_app 0 _ (r_Token req') H') as C'.
  unfold key_of in E. cbn in E. rewrite E, C' in C. by injection C.
Qed.

Lemma life_bound a : life a <= cc_CacheTTL cfg /\ (0 < a_ttl a -> life a <= a_ttl a).
Proof. unfold life. destruct (_ && _) eqn:E; bool_arith; [lia|]. apply andb_false_iff in E. rewrite !Z.ltb_ge in E. lia. Qed.

(** C34. Whatever runs at the same time, a connection is let in only on an answer of the
    endpoint, or because the endpoint could not be reached and the operator chose
    fail-open.  The endpoint was asked about the same document and token joined by a NUL:
    this very document and this very token, unless a document name contains a NUL
    ([nul_confuses_documents]).  The endpoint allowed it, and its answer was published
    after the connection arrived (the connection may have joined a request that was
    already in the air), or less than the cache's lifetime, and the lifetime the endpoint
    asked for, before the connection was let in; an outage was published after the
    connection arrived. *)
Theorem authorization_genuine now s t th at_ g :
  csteps now s -> sy_threads s !! t = Some th -> th_pc th = Finished at_ (g, None) ->
  exists p req o, (p, req, o) ∈ sy_log s /\ asked p <= replied p <= published p /\ published p <= at_
  /\ r_Document req ++ [0] ++ r_Token req = r_Document (th_req th) ++ [0] ++ r_Token (th_req th)
  /\ (0 ∉ r_Document req -> 0 ∉ r_Document (th_req th) ->
      r_Document req = r_Document (th_req th) /\ r_Token req = r_Token (th_req th))
  /\ ((exists d, allows U o d
        /\ g = MkGrant (sanitize (cr_Subject d)) (r_Document req) (sanitize (cr_Owner d)) (cr_Write d) None
        /\ (th_arrived th <= published p
            \/ at_ < published p + cc_CacheTTL cfg
               /\ (0 < s64 (cr_TTL d * second) -> at_ < published p + s64 (cr_TTL d * second))))
      \/ (cc_FailOpen cfg = true /\ unreachable o /\ th_arrived th <= published p /\ g = MkGrant [] [] [] true None)).
Proof.
  intros Hs Ht Hp. pose proof (csteps_inv _ _ Hs) as H.
  destruct (ci_finished _ H t th at_ (g, None) Ht Hp) as [?|(p & req & o & Hl & Hk & Hr & Hle & Hw)]; [done|].
  exists p, req, o. destruct (ci_log _ H _ _ _ Hl) as (L1 & L2 & _).
  split_and!; [done..|by apply Hk|intros H1 H2; by apply key_of_inj|]. injection Hr as -> Hn. symmetry in Hn.
  destruct (ask_grants _ _ _ _ _ Hn) as [(d & Ha & Hc & Httl & Hg)|(Hf & Hu & Hc & Hg)].
  - left. exists d. rewrite Hg. split_and!; [done..|]. destruct Hw as [?|[_ Hw]]; [by left|right].
    pose proof (life_bound (ask req o)) as [H1 H2]. rewrite Httl in H2. split; [lia|]. intros H3. specialize (H2 H3). lia.
  - right. split_and!; [done..| |done]. destruct Hw as [?|[? _]]; [done|congruence].
Qed.

(** However many connections are being authorised at once, the cache keeps its bound,
    the endpoint is asked each question at most once at a time, and everybody who waits
    waits for a request that somebody is making or has made. *)
Theorem callback_single_flight now s :
  csteps now s ->
  CacheLen (sy_cb s) <= cc_CacheSize cfg
  /\ (forall t t' th th' f f', sy_threads s !! t = Some th -> sy_threads s !! t' = Some th' ->
       in_air (th_pc th) = Some f -> in_air (th_pc th') = Some f' -> key_of (th_req th) = key_of (th_req th') -> t = t')
  /\ (forall t th f, sy_threads s !! t = Some th -> th_pc th = Waiting f ->
       (exists a, cb_flights (sy_cb s) !! f = Some (Some a))
       \/ exists t' th', sy_threads s !! t' = Some th' /\ owns (th_pc th') = Some f /\ key_of (th_req th') = key_of (th_req th)).
Proof.
  intros Hs. pose proof (csteps_inv _ _ Hs) as H. split_and!.
  - apply (ci_size _ H).
  - intros t t' th th' f f' H1 H2 H3 H4 E.
    pose proof (ci_asking _ H t th f H1 H3) as A1. pose proof (ci_asking _ H t' th' f' H2 H4) as A2.
    rewrite E, A2 in A1. injection A1 as ->. eapply (ci_owner _ H); eauto using in_air_owns.
  - intros t th f H1 H2.
    destruct (ci_waiting _ H t th f H1 H2)
      as [(t1 & th1 & H3 & H4 & H5)|(p & req & o' & Hl & Hk & Hsc & [Hg|(t1 & th1 & H3 & H4 & H5)])].
    + right. eauto 10 using in_air_owns.
    + left. eauto.
    + right. exists t1, th1. subst req. by rewrite H5.
Qed.
End System.

(** ** Two ways in which the shared state shows through *)

(** The cache key joins document and token with a NUL, which either may contain: a
    decision for the document [doc\0x] answers for the document [doc], whatever the
    endpoint would say. *)
Theorem nul_confuses_documents U V cfg now now' later f o f' later' o' doc x token ip ip' origin origin' :
  let req := MkRequest (doc ++ [0] ++ x) token ip origin in
  let req' := MkRequest doc (x ++ [0] ++ token) ip' origin' in
  let a := ask U V cfg req o in
  a_cacheable a = true -> a_ttl a <= 0 -> now <= later -> 0 < cc_CacheTTL cfg -> now' < later + cc_CacheTTL cfg ->
  (Authorize U V cfg now' later' f' req' o' (Authorize U V cfg now later f req o (MkCallback ∅ ∅ ∅)).2).1
  = (a_grant a, a_err a).
Proof.
  intros req req' a Hc Ht _ Hpos Hnow.
  assert (key_of req' = key_of req) as Ek.
  { unfold key_of, req, req'. cbn. by rewrite <- app_assoc. }
  assert (0 <? a_ttl a = false) as Ht0 by (apply Z.ltb_ge; lia).
  assert (cc_CacheTTL cfg <=? 0 = false) as Hp0 by (apply Z.leb_gt; lia).
  assert ((Authorize U V cfg now later f req o (MkCallback ∅ ∅ ∅)).2
    = close_flight f a (publish cfg later (key_of req) a
        (MkCallback ∅ (<[key_of req := f]> ∅) (<[f := None]> ∅)))) as ->.
  { unfold Authorize, cached, begin. rewrite Hp0. cbn [cb_decided cb_asking cb_flights].
    rewrite lookup_empty. cbn [cb_asking]. by rewrite lookup_empty. }
  unfold Authorize, cached. rewrite Hp0, Ek. cbn [cb_decided close_flight publish].
  replace (0 <? cc_CacheTTL cfg) with true by (symmetry; by apply Z.ltb_lt). rewrite Hc. cbn [andb].
  unfold remember. rewrite lookup_insert_eq, Ht0. cbn [andb d_expires].
  replace (now' <? later + cc_CacheTTL cfg) with true by (symmetry; by apply Z.ltb_lt). done.
Qed.

Definition yes : callbackResponse := MkResponse (Some true) true (str "ann") [] [] 0.
Definition demo_cfg : CallbackConfig := MkCallbackConfig (3 * second) (60 * second) 4096 false.

Lemma nul_confuses_documents_witness :
  (Authorize (fun p => if decide (p = []) then Some yes else None) (fun _ => false) demo_cfg (5 * second) (5 * second) 1
     (MkRequest (str "payroll") (str "x" ++ [0] ++ str "mine") [] []) (Replied 403 (str "no") false)
     (Authorize (fun p => if decide (p = []) then Some yes else None) (fun _ => false) demo_cfg 0 second 0
        (MkRequest (str "payroll" ++ [0] ++ str "x") (str "mine") [] []) (Replied 200 [] false) (MkCallback ∅ ∅ ∅)).2).1
  = (MkGrant (str "ann") (str "payroll" ++ [0] ++ str "x") [] true None, None).
Proof.
  etrans; [apply (nul_confuses_documents _ _ demo_cfg 0 (5 * second) second); [done|by vm_compute|done..]|].
  by vm_compute.
Defined.

(** The request in the air carries its first asker's context: when that connection goes
    away, everybody who joined is answered with the cancellation, although none of them
    gave up. *)
Theorem asker_cancels_waiters U V cfg req now :
  exists s th a, csteps U V cfg now s /\ sy_threads s !! 1%nat = Some th /\ th_req th = req /\ th_pc th = Waiting 0
  /\ cb_flights (sy_cb s) !! 0%nat = Some (Some a) /\ a_err a = Some Canceled.
Proof.
  pose (T p := MkThread req now p).
  assert (forall A F, cached cfg now (key_of req) (MkCallback ∅ A F) = (None, MkCallback ∅ A F)) as Hc.
  { intros A F. unfold cached. cbn. rewrite lookup_empty. by case_if. }
  pose proof (csteps_init U V cfg now) as H0.
  unshelve epose proof (csteps_step _ _ _ _ _ _ H0 (step_arrive U V cfg _ 0 req _)) as H1; [done|].
  unshelve epose proof (csteps_step _ _ _ _ _ _ H1 (step_miss U V cfg _ 0 (T Checking) _ _ _ _)) as H2;
    [|cbn; by rewrite lookup_insert_eq|done|apply Hc|].
  unshelve epose proof (csteps_step _ _ _ _ _ _ H2 (step_lead U V cfg _ 0 (T Missed) _ _ _ _)) as H3;
    [|cbn; by rewrite lookup_insert_eq|done|unfold begin; cbn; rewrite lookup_empty; reflexivity|].
  unshelve epose proof (csteps_step _ _ _ _ _ _ H3 (step_arrive U V cfg _ 1 req _)) as H4;
    [cbn; by rewrite !lookup_insert_ne by done|].
  unshelve epose proof (csteps_step _ _ _ _ _ _ H4 (step_miss U V cfg _ 1 (T Checking) _ _ _ _)) as H5;
    [|cbn; by rewrite lookup_insert_eq|done|apply Hc|].
  unshelve epose proof (csteps_step _ _ _ _ _ _ H5 (step_join U V cfg _ 1 (T Missed) 0 _ _ _ _)) as H6;
    [|cbn; by rewrite lookup_insert_eq|done|unfold begin; cbn; rewrite lookup_insert_eq; reflexivity|].
  unshelve epose proof (csteps_step _ _ _ _ _ _ H6 (step_reply U V cfg _ 0 (T (Asking 0 now)) 0 now (Failed true) _ _)) as H7;
    [cbn; by rewrite !(lookup_insert_ne _ 1%nat 0%nat), lookup_insert_eq by done|done|].
  unshelve epose proof (csteps_step _ _ _ _ _ _ H7 (step_publish U V cfg _ 0 (T (Answered 0 now now (Failed true))) 0 now now (Failed true) _ _)) as H8;
    [cbn; by rewrite lookup_insert_eq|done|].
  unshelve epose proof (csteps_step _ _ _ _ _ _ H8 (step_close U V cfg _ 0 (T (Publishing 0 (Failed true))) 0 (Failed true) _ _)) as H9;
    [cbn; by rewrite lookup_insert_eq|done|].
  eexists _, (T (Waiting 0)), _. split; [exact H9|]. cbn. split_and!.
  - by rewrite !(lookup_insert_ne _ 0%nat 1%nat), lookup_insert_eq by done.
  - done.
  - done.
  - by rewrite lookup_insert_eq.
  - done.
Qed.

(** ** A run: one connection asks, a second is answered from the cache *)

Definition demo_U (p : bytes) : option callbackResponse := if decide (p = []) then Some yes else None.
Definition demo_V (p : bytes) : bool := false.
Definition demo_req : Request := MkRequest (str "notes") (str "tok") [] [].

Lemma callback_demo : exists s th g, csteps demo_U demo_V demo_cfg 0 s
  /\ (forall p req o, (p, req, o) ∈ sy_log s -> req = demo_req)
  /\ sy_threads s !! 1%nat = Some th /\ th_req th = demo_req /\ th_pc th = Finished 0 (g, None).
Proof.
  pose (T p := MkThread demo_req 0 p). pose (reply := Replied 200 [] false).
  pose proof (csteps_init demo_U demo_V demo_cfg 0) as H0.
  unshelve epose proof (csteps_step _ _ _ _ _ _ H0 (step_arrive _ _ demo_cfg _ 0 demo_req _)) as H1; [done|].
  unshelve epose proof (csteps_step _ _ _ _ _ _ H1 (step_miss _ _ demo_cfg _ 0 (T Checking) _ _ _ _)) as H2;
    [|cbn; by rewrite lookup_insert_eq|done|unfold cached; cbn; rewrite lookup_empty; reflexivity|].
  unshelve epose proof (csteps_step _ _ _ _ _ _ H2 (step_lead _ _ demo_cfg _ 0 (T Missed) _ _ _ _)) as H3;
    [|cbn; by rewrite lookup_insert_eq|done|unfold begin; cbn; rewrite lookup_empty; reflexivity|].
  unshelve epose proof (csteps_step _ _ _ _ _ _ H3 (step_reply demo_U demo_V demo_cfg _ 0 (T (Asking 0 0)) 0 0 reply _ _)) as H4;
    [cbn; by rewrite lookup_insert_eq|done|].
  unshelve epose proof (csteps_step _ _ _ _ _ _ H4 (step_publish _ _ demo_cfg _ 0 (T (Answered 0 0 0 reply)) 0 0 0 reply _ _)) as H5;
    [cbn; by rewrite lookup_insert_eq|done|].
  unshelve epose proof (csteps_step _ _ _ _ _ _ H5 (step_arrive _ _ demo_cfg _ 1 demo_req _)) as H6;
    [cbn; by rewrite !lookup_insert_ne by done|].
  unshelve epose proof (csteps_step _ _ _ _ _ _ H6 (step_hit _ _ demo_cfg _ 1 (T Checking)
    (MkGrant (str "ann") (str "notes") [] true None, None) _ _ _ _)) as H7;
    [|cbn; by rewrite lookup_insert_eq|done|by vm_compute|].
  eexists _, (T (Finished 0 (_, None))), _. split; [exact H7|]. cbn. split_and!.
  - intros p req o H. apply elem_of_cons in H as [[= -> -> ->]|H]; [|by apply elem_of_nil in H].
    done.
  - by rewrite lookup_insert_eq.
  - done.
  - done.
Qed.

Lemma authorization_genuine_witness :
  exists s th g, csteps demo_U demo_V demo_cfg 0 s /\ sy_threads s !! 1%nat = Some th
  /\ exists p req o, (p, req, o) ∈ sy_log s /\ published p <= 0 /\ r_Document req = str "notes" /\ r_Token req = str "tok"
  /\ (exists d, allows demo_U o d /\ g_Doc g = str "notes").
Proof.
  destruct callback_demo as (s & th & g & Hs & Hl & Ht & Hr & Hp). exists s, th, g. split; [done|]. split; [done|].
  destruct (authorization_genuine demo_U demo_V demo_cfg ltac:(done) 0 s 1 th 0 g Hs Ht Hp)
    as (p & req & o & H1 & _ & H2 & _ & _ & H5).
  pose proof (Hl _ _ _ H1) as ->. exists p, demo_req, o. split_and!; [done..|].
  destruct H5 as [(d & Ha & -> & _)|(Hf & _)]; [|done]. by exists d.
Defined.

Lemma callback_single_flight_witness :
  exists s, csteps demo_U demo_V demo_cfg 0 s /\ sy_threads s !! 1%nat <> None /\ CacheLen (sy_cb s) <= 4096.
Proof.
  destruct callback_demo as (s & th & g & Hs & _ & Ht & _). exists s. split; [done|]. split; [by rewrite Ht|].
  apply (callback_single_flight demo_U demo_V demo_cfg ltac:(done) 0 s Hs).
Defined.
