(* ===== verification/Webhook.v ===== *)
(** * Webhooks

    [internal/hook]: events of the rooms are queued by [Emit], which never waits, and
    delivered by a fixed number of workers that retry.  [Webhook] is the sender's state,
    with one [worker] per goroutine of [work]; [wstep] are the steps that may interleave,
    each the code between two points where a goroutine can be overtaken.  What a receiver
    does is a [reply]. *)

From stdpp Require Import strings relations.
From S2P Require Import Prelude Text Signature.

Inductive Kind := KindChange | KindStore.

#[export] Instance Kind_eq_dec : EqDecision Kind.
Proof. solve_decision. Defined.

Definition kind_name (k : Kind) : bytes :=
  match k with KindChange => str "document.change" | KindStore => str "document.store" end.

Definition Kinds : list Kind := [KindChange; KindStore].

Definition ParseKind (s : bytes) : option Kind :=
  list_find (fun k => kind_name k = s) Kinds ≫= fun p => Some p.2.

(** [splitList] of [cmd/server/main.go]. *)
Definition splitList (s : bytes) : list bytes :=
  filter (fun p => p <> []) (map TrimSpace (split_on 44 s)).

(** [hookKinds]: an unknown name is the error. *)
Definition hookKinds (s : bytes) : bytes + list Kind :=
  match splitList s with
  | [] => inr Kinds
  | names =>
      foldr (fun n acc => match ParseKind n with
                          | None => inl n
                          | Some k => match acc with inl e => inl e | inr ks => inr (k :: ks) end
                          end) (inr []) names
  end.

Record Event := MkEvent {
  e_Doc : bytes;
  e_Kind : Kind;
  e_At : Z;
  e_Node : Z;
  e_Clients : Z;
  e_Updates : Z;
  e_StateVector : bytes;
  e_State : bytes;
}.

#[export] Instance Event_eq_dec : EqDecision Event.
Proof. solve_decision. Defined.

(** ** Configuration *)

Definition DefaultTimeout : Z := 5 * second.
Definition DefaultQueue : Z := 1024.
Definition DefaultWorkers : Z := 4.
Definition DefaultRetries : Z := 2.
Definition DefaultBackoff : Z := 500000000.

Record hook_Config := MkHookConfig {
  h_Events : list Kind;
  h_Timeout : Z;
  h_Queue : Z;
  h_Workers : Z;
  h_Retries : Z;
  h_Backoff : Z;
}.

Definition setDefaults (c : hook_Config) : hook_Config :=
  MkHookConfig (h_Events c)
    (if h_Timeout c <=? 0 then DefaultTimeout else h_Timeout c)
    (if h_Queue c <=? 0 then DefaultQueue else h_Queue c)
    (if h_Workers c <=? 0 then DefaultWorkers else h_Workers c)
    (if h_Retries c <? 0 then 0 else h_Retries c)
    (if h_Backoff c <=? 0 then DefaultBackoff else h_Backoff c).

(** ** One request *)

(** What a request came to: the receiver's status, or no response at all. *)
Inductive reply := Status (code : Z) | NoResponse.

Inductive post_error := StatusError (code : Z) | TransportError.

(** [post]: nil, or an error and whether it is worth another try. *)
Definition post (r : reply) : option (bool * post_error) :=
  match r with
  | NoResponse => Some (true, TransportError)
  | Status code =>
      if (200 <=? code) && (code <? 300) then None
      else if (code =? 429) || (500 <=? code) then Some (true, StatusError code)
      else Some (false, StatusError code)
  end.

Inductive fail_reason := server_error | throttled | rejected | transport.

Definition reasonOf (e : post_error) : fail_reason :=
  match e with
  | StatusError code => if 500 <=? code then server_error else if code =? 429 then throttled else rejected
  | TransportError => transport
  end.

(** ** The sender *)

(** A worker waits on the queue, is posting an event for the given attempt with the given
    backoff, sleeps before that attempt, or has returned. *)
Inductive worker :=
  | Idle
  | Posting (e : Event) (attempt backoff : Z)
  | Sleeping (e : Event) (attempt backoff : Z)
  | Exited.

#[export] Instance worker_eq_dec : EqDecision worker.
Proof. solve_decision. Defined.

(** [sent], [failed] and [dropped] list the events behind the three counters, and
    [emitted] the ones [Emit] took responsibility for. *)
Record Webhook := MkWebhook {
  w_queue : list Event;
  w_closed : bool;
  w_stopped : bool;
  w_workers : list worker;
  w_attempts : Z;
  w_emitted : list Event;
  w_sent : list Event;
  w_failed : list (Event * fail_reason);
  w_dropped : list Event;
}.

Section Sender.
Context (cfg : hook_Config).

Definition NewWebhook : Webhook :=
  MkWebhook [] false false (replicate (Z.to_nat (h_Workers cfg)) Idle) 0 [] [] [] [].

Definition want (k : Kind) : bool :=
  if decide (h_Events cfg = []) then true else bool_decide (k ∈ h_Events cfg).

Definition Emit (e : Event) (w : Webhook) : Webhook :=
  if negb (want (e_Kind e)) then w
  else if w_closed w then w
  else if Z.of_nat (length (w_queue w)) <? h_Queue cfg
  then MkWebhook (w_queue w ++ [e]) (w_closed w) (w_stopped w) (w_workers w) (w_attempts w)
         (e :: w_emitted w) (w_sent w) (w_failed w) (w_dropped w)
  else MkWebhook (w_queue w) (w_closed w) (w_stopped w) (w_workers w) (w_attempts w)
         (e :: w_emitted w) (w_sent w) (w_failed w) (e :: w_dropped w).

(** [Close]: the flag and the channel under one lock; then, if time runs out, [stop]. *)
Definition hook_Close (w : Webhook) : Webhook :=
  MkWebhook (w_queue w) true (w_stopped w) (w_workers w) (w_attempts w)
    (w_emitted w) (w_sent w) (w_failed w) (w_dropped w).

Definition stop (w : Webhook) : Webhook :=
  MkWebhook (w_queue w) (w_closed w) true (w_workers w) (w_attempts w)
    (w_emitted w) (w_sent w) (w_failed w) (w_dropped w).

Definition set_worker (i : nat) (k : worker) (w : Webhook) : Webhook :=
  MkWebhook (w_queue w) (w_closed w) (w_stopped w) (<[i := k]> (w_workers w)) (w_attempts w)
    (w_emitted w) (w_sent w) (w_failed w) (w_dropped w).

(** The head of the loop of [work]: receive from the queue, or leave the loop once it is
    closed and empty.  [None]: the goroutine is blocked. *)
Definition work (i : nat) (w : Webhook) : option Webhook :=
  match w_queue w with
  | [] => if w_closed w then Some (set_worker i Exited w) else None
  | e :: q =>
      Some
        (if w_stopped w
         then MkWebhook q (w_closed w) (w_stopped w) (w_workers w) (w_attempts w)
                (w_emitted w) (w_sent w) (w_failed w) (e :: w_dropped w)
         else MkWebhook q (w_closed w) (w_stopped w) (<[i := Posting e 0 (h_Backoff cfg)]> (w_workers w))
                (w_attempts w) (w_emitted w) (w_sent w) (w_failed w) (w_dropped w))
  end.

(** One round of the loop of [deliver]: the request's outcome decides. *)
Definition deliver (i : nat) (e : Event) (attempt backoff : Z) (r : reply) (w : Webhook) : Webhook :=
  match post r with
  | None =>
      MkWebhook (w_queue w) (w_closed w) (w_stopped w) (<[i := Idle]> (w_workers w)) (w_attempts w + 1)
        (w_emitted w) (e :: w_sent w) (w_failed w) (w_dropped w)
  | Some (retryable, err) =>
      if negb retryable || (h_Retries cfg <=? attempt) || w_stopped w
      then MkWebhook (w_queue w) (w_closed w) (w_stopped w) (<[i := Idle]> (w_workers w)) (w_attempts w + 1)
             (w_emitted w) (w_sent w) ((e, reasonOf err) :: w_failed w) (w_dropped w)
      else MkWebhook (w_queue w) (w_closed w) (w_stopped w)
             (<[i := Sleeping e (attempt + 1) (s64 (backoff * 2))]> (w_workers w)) (w_attempts w + 1)
             (w_emitted w) (w_sent w) (w_failed w) (w_dropped w)
  end.

(** The wait before a retry, for a draw [jitter] of [Int64N(backoff/2 + 1)]. *)
Definition retry_wait (backoff jitter : Z) : Z := s64 (backoff + jitter).

(** What the goroutines of [work] do. *)
Inductive worker_step : Webhook -> Webhook -> Prop :=
  | wstep_work w w' i : w_workers w !! i = Some Idle -> work i w = Some w' -> worker_step w w'
  | wstep_post w i e n b r : w_workers w !! i = Some (Posting e n b) -> worker_step w (deliver i e n b r w)
  | wstep_wake w i e n b : w_workers w !! i = Some (Sleeping e n b) -> worker_step w (set_worker i (Posting e n b) w).

(** Steps of the whole: rooms emit, the server closes the sender and may lose patience. *)
Inductive wstep : Webhook -> Webhook -> Prop :=
  | wstep_emit w e : wstep w (Emit e w)
  | wstep_close w : wstep w (hook_Close w)
  | wstep_stop w : w_closed w = true -> wstep w (stop w)
  | wstep_worker w w' : worker_step w w' -> wstep w w'.

Inductive wsteps : Webhook -> Prop :=
  | wsteps_init : wsteps NewWebhook
  | wsteps_step w w' : wsteps w -> wstep w w' -> wsteps w'.

(** ** What the workers hold *)

Definition hand (k : worker) : list Event :=
  match k with Posting e _ _ | Sleeping e _ _ => [e] | _ => [] end.

(** Requests already made for the event a worker holds. *)
Definition tries (k : worker) : Z :=
  match k with Posting _ n _ | Sleeping _ n _ => n | _ => 0 end.

Fixpoint tried (l : list worker) : Z := match l with [] => 0 | k :: l => tries k + tried l end.

Lemma hand_insert l i k k' : l !! i = Some k -> (<[i := k']> l ≫= hand) ++ hand k ≡ₚ (l ≫= hand) ++ hand k'.
Proof.
  revert i. induction l as [|x l IH]; intros i H; [done|]. destruct i as [|i]; cbn in *.
  - injection H as ->. solve_Permutation.
  - rewrite <- !app_assoc. apply Permutation_app_head, IH. done.
Qed.

Lemma tried_insert l i k k' : l !! i = Some k -> tried (<[i := k']> l) = tried l - tries k + tries k'.
Proof.
  revert i. induction l as [|x l IH]; intros i H; [done|]. destruct i as [|i]; cbn in H.
  - injection H as ->. cbn. lia.
  - change (tries x + tried (<[i := k']> l) = tries x + tried l - tries k + tries k'). rewrite (IH i) by done. lia.
Qed.

Context (retries_ok : 0 <= h_Retries cfg) (queue_ok : 0 < h_Queue cfg).

Definition worker_ok (closed : bool) (queue : list Event) (k : worker) : Prop :=
  0 <= tries k <= h_Retries cfg /\ (k = Exited -> closed = true /\ queue = []).

Record winv (w : Webhook) : Prop := {
  wi_queue : Z.of_nat (length (w_queue w)) <= h_Queue cfg;
  wi_workers : length (w_workers w) = Z.to_nat (h_Workers cfg);
  wi_ok : Forall (worker_ok (w_closed w) (w_queue w)) (w_workers w);
  wi_conserve : w_emitted w ≡ₚ w_sent w ++ (w_failed w).*1 ++ w_dropped w ++ w_queue w ++ (w_workers w ≫= hand);
  wi_attempts : w_attempts w <= (h_Retries cfg + 1) * Z.of_nat (length (w_sent w) + length (w_failed w)) + tried (w_workers w);
  wi_stopped : w_stopped w = true -> w_closed w = true;
}.

Lemma hand_idle n : replicate n Idle ≫= hand = [].
Proof. by induction n. Qed.

Lemma tried_idle n : tried (replicate n Idle) = 0.
Proof. by induction n. Qed.

Lemma winv_init : winv NewWebhook.
Proof.
  constructor; cbn.
  - lia.
  - apply length_replicate.
  - apply Forall_replicate. unfold worker_ok. cbn. done || (split; [lia|done]).
  - by rewrite hand_idle.
  - rewrite tried_idle. lia.
  - done.
Qed.

Lemma worker_ok_mono closed closed' queue queue' k :
  (closed = true /\ queue = [] -> closed' = true /\ queue' = []) ->
  worker_ok closed queue k -> worker_ok closed' queue' k.
Proof. unfold worker_ok. intros H [? ?]. split; auto. Qed.

Lemma Forall_set {A} (P : A -> Prop) l i x : Forall P l -> P x -> Forall P (<[i := x]> l).
Proof. intros. by apply Forall_insert. Qed.

Lemma winv_emit w e : winv w -> winv (Emit e w).
Proof.
  intros H. unfold Emit. repeat case_if; [done|done|..]; destruct H; constructor; cbn; try done; try (by intros Hs; rewrite <- E0; auto).
  - rewrite length_app. cbn. lia.
  - eapply Forall_impl; [done|]. intros k. apply worker_ok_mono. intros [? _]. congruence.
  - rewrite wi_conserve0. solve_Permutation.
  - by rewrite E0 in wi_ok0.
  - rewrite wi_conserve0. solve_Permutation.
Qed.

Lemma winv_worker w w' : winv w -> worker_step w w' -> winv w'.
Proof.
  intros H Hs. destruct Hs as [w w' i Hi Hw|w i e n b r Hi|w i e n b Hi].
  - pose proof (hand_insert _ _ _ Exited Hi) as P1. pose proof (tried_insert _ _ _ Exited Hi) as T1.
    unfold work in Hw. destruct (w_queue w) as [|e q] eqn:Eq.
    + destruct (w_closed w) eqn:Ec; [|done]. injection Hw as <-. cbn in *. rewrite app_nil_r in P1. rewrite app_nil_r in P1.
      destruct H. constructor; cbn; rewrite ?Eq, ?Ec in *; try done.
      * by rewrite length_insert.
      * apply Forall_set; [done|]. split; [cbn; lia|done].
      * by rewrite P1.
      * lia.
    + destruct (w_stopped w) eqn:Es; injection Hw as <-; destruct H; constructor; cbn; rewrite ?Eq, ?Es in *; try done.
      * cbn in *. lia.
      * eapply Forall_impl; [done|]. intros k. apply worker_ok_mono. by intros [_ ?].
      * rewrite wi_conserve0. cbn. solve_Permutation.
      * cbn in *. lia.
      * by rewrite length_insert.
      * apply Forall_set; [|split; [cbn; lia|done]].
        eapply Forall_impl; [done|]. intros k. apply worker_ok_mono. by intros [_ ?].
      * pose proof (hand_insert _ _ _ (Posting e 0 (h_Backoff cfg)) Hi) as P2. cbn in P2. rewrite app_nil_r in P2.
        rewrite wi_conserve0, P2. solve_Permutation.
      * rewrite (tried_insert _ _ _ _ Hi). cbn. lia.
  - assert (worker_ok (w_closed w) (w_queue w) (Posting e n b)) as [Hn _].
    { destruct H as [_ _ H _ _ _]. rewrite Forall_forall in H. apply H. by eapply list_elem_of_lookup_2. }
    cbn in Hn. unfold deliver. destruct (post r) as [[retryable err]|].
    + destruct (_ || _) eqn:E.
      * pose proof (hand_insert _ _ _ Idle Hi) as P. cbn in P. rewrite app_nil_r in P.
        destruct H. constructor; cbn; try done.
        -- by rewrite length_insert.
        -- apply Forall_set; [done|]. split; [cbn; lia|done].
        -- rewrite wi_conserve0, <- P. solve_Permutation.
        -- rewrite (tried_insert _ _ _ _ Hi). cbn. lia.
      * apply orb_false_iff in E as [E _]. apply orb_false_iff in E as [_ E]. apply Z.leb_gt in E.
        pose proof (hand_insert _ _ _ (Sleeping e (n + 1) (s64 (b * 2))) Hi) as P. cbn in P.
        destruct H. constructor; cbn; try done.
        -- by rewrite length_insert.
        -- apply Forall_set; [done|]. split; [cbn; lia|done].
        -- apply (Permutation_app_inv_r [e]) in P. by rewrite wi_conserve0, P.
        -- rewrite (tried_insert _ _ _ _ Hi). cbn. lia.
    + pose proof (hand_insert _ _ _ Idle Hi) as P. cbn in P. rewrite app_nil_r in P.
      destruct H. constructor; cbn; try done.
      * by rewrite length_insert.
      * apply Forall_set; [done|]. split; [cbn; lia|done].
      * rewrite wi_conserve0, <- P. solve_Permutation.
      * rewrite (tried_insert _ _ _ _ Hi). cbn. lia.
  - assert (worker_ok (w_closed w) (w_queue w) (Sleeping e n b)) as [Hn _].
    { destruct H as [_ _ H _ _ _]. rewrite Forall_forall in H. apply H. by eapply list_elem_of_lookup_2. }
    pose proof (hand_insert _ _ _ (Posting e n b) Hi) as P. cbn in P, Hn. apply (Permutation_app_inv_r [e]) in P.
    destruct H. constructor; cbn; try done.
    + by rewrite length_insert.
    + apply Forall_set; [done|]. split; [cbn; lia|done].
    + by rewrite wi_conserve0, P.
    + rewrite (tried_insert _ _ _ _ Hi). cbn. lia.
Qed.

Lemma wsteps_inv w : wsteps w -> winv w.
Proof.
  induction 1 as [|w w' _ IH Hs]; [apply winv_init|]. destruct Hs as [w e|w|w Hc|w w' Hs].
  - by apply winv_emit.
  - destruct IH. constructor; cbn; try done. eapply Forall_impl; [done|]. intros k. apply worker_ok_mono. by intros [_ ?].
  - destruct IH. by constructor.
  - by eapply winv_worker.
Qed.

(** ** Shutting down *)

(** After [Close] nothing is emitted any more: the workers run, and the server may lose
    patience once. *)
Definition closing_step (w w' : Webhook) : Prop :=
  worker_step w w' \/ w_stopped w = false /\ w' = stop w.

Definition work_left (k : worker) : Z :=
  match k with
  | Idle => 1
  | Posting _ n _ => 2 * (h_Retries cfg - n) + 2
  | Sleeping _ n _ => 2 * (h_Retries cfg - n) + 3
  | Exited => 0
  end.

Fixpoint total (l : list worker) : Z := match l with [] => 0 | k :: l => work_left k + total l end.

Lemma work_total_insert l i k k' : l !! i = Some k -> total (<[i := k']> l) = total l - work_left k + work_left k'.
Proof.
  revert i. induction l as [|x l IH]; intros i H; [done|]. destruct i as [|i]; cbn in H.
  - injection H as ->. cbn. lia.
  - change (work_left x + total (<[i := k']> l) = work_left x + total l - work_left k + work_left k').
    rewrite (IH i) by done. lia.
Qed.

Lemma work_left_pos closed queue k : worker_ok closed queue k -> 0 <= work_left k.
Proof. unfold worker_ok. destruct k; cbn; lia. Qed.

(** How much a closed sender may still do. *)
Definition remaining (w : Webhook) : Z :=
  (2 * h_Retries cfg + 4) * Z.of_nat (length (w_queue w)) + total (w_workers w) + (if w_stopped w then 0 else 1).

Lemma remaining_pos w : winv w -> 0 <= remaining w.
Proof.
  intros H. unfold remaining. assert (0 <= total (w_workers w)).
  { pose proof (wi_ok _ H) as Ho. induction Ho as [|k l Hk _ IH]; cbn; [lia|]. apply work_left_pos in Hk. lia. }
  destruct (w_stopped w); nia.
Qed.

Lemma closing_decreases w w' : winv w -> closing_step w w' -> remaining w' < remaining w.
Proof.
  intros H [Hs|[Hs ->]]; unfold remaining; [|cbn; rewrite Hs; lia].
  destruct Hs as [w w' i Hi Hw|w i e n b r Hi|w i e n b Hi].
  - unfold work in Hw. destruct (w_queue w) as [|e q] eqn:Eq.
    + destruct (w_closed w); [|done]. injection Hw as <-. cbn. rewrite Eq, (work_total_insert _ _ _ _ Hi). cbn. lia.
    + destruct (w_stopped w) eqn:Es; injection Hw as <-; cbn; rewrite ?Es; [nia|].
      rewrite (work_total_insert _ _ _ _ Hi). cbn. nia.
  - assert (worker_ok (w_closed w) (w_queue w) (Posting e n b)) as [Hn _].
    { pose proof (wi_ok _ H) as Ho. rewrite Forall_forall in Ho. apply Ho. by eapply list_elem_of_lookup_2. }
    cbn in Hn. unfold deliver. destruct (post r) as [[retryable err]|]; [destruct (_ || _) eqn:E|]; cbn;
      rewrite (work_total_insert _ _ _ _ Hi); cbn; lia.
  - cbn. rewrite (work_total_insert _ _ _ _ Hi). cbn. lia.
Qed.

(** A closed sender with a goroutine left can go on. *)
Lemma closing_progress w i k : w_closed w = true -> w_workers w !! i = Some k -> k <> Exited ->
  exists w', worker_step w w'.
Proof.
  intros Hc Hi Hk. destruct k as [|e n b|e n b|]; [|eexists|eexists|done].
  - destruct (work i w) as [w'|] eqn:E; [exists w'; by eapply wstep_work|].
    unfold work in E. destruct (w_queue w); [by rewrite Hc in E|done].
  - by apply (wstep_post _ _ _ _ _ NoResponse Hi).
  - by apply (wstep_wake _ _ _ _ _ Hi).
Qed.

Lemma worker_step_keeps w w' : worker_step w w' ->
  w_closed w' = w_closed w /\ w_stopped w' = w_stopped w /\ w_emitted w' = w_emitted w
  /\ (w_stopped w = false -> w_dropped w' = w_dropped w).
Proof.
  intros Hs. destruct Hs as [w w' i Hi Hw|w i e n b r Hi|w i e n b Hi]; [|unfold deliver; repeat case_match; done|done].
  unfold work in Hw. destruct (w_queue w); [destruct (w_closed w) eqn:Ec; [|done]|destruct (w_stopped w) eqn:Es];
    simplify_eq; cbn; by rewrite ?Ec, ?Es.
Qed.

Lemma closing_keeps w w' : closing_step w w' -> winv w -> w_closed w = true ->
  winv w' /\ w_closed w' = true /\ w_emitted w' = w_emitted w
  /\ (w_stopped w' = false -> w_stopped w = false /\ w_dropped w' = w_dropped w).
Proof.
  intros [Hs|[Hs ->]] H Hc.
  - pose proof (worker_step_keeps _ _ Hs) as (H1 & H2 & H3 & H4). split_and!; [by eapply winv_worker|congruence|done|].
    intros Hn. split; [congruence|]. apply H4. congruence.
  - split_and!; [|done..]. destruct H. by constructor.
Qed.

Lemma closing_run n w w' : nsteps closing_step n w w' -> winv w -> w_closed w = true ->
  winv w' /\ w_closed w' = true /\ w_emitted w' = w_emitted w
  /\ Z.of_nat n <= remaining w - remaining w'
  /\ (w_stopped w' = false -> w_dropped w' = w_dropped w).
Proof.
  induction 1 as [w|n w1 w2 w3 H12 H23 IH]; intros H Hc; [split_and!; done || lia|].
  destruct (closing_keeps _ _ H12 H Hc) as (H1 & H2 & H3 & H4). pose proof (closing_decreases _ _ H H12).
  destruct (IH H1 H2) as (I1 & I2 & I3 & I4 & I5). split_and!; [done|done|congruence|lia|].
  intros Hn. rewrite I5 by done. enough (w_stopped w2 = false) by (by apply H4).
  destruct (w_stopped w2) eqn:E; [|done]. exfalso. clear - E H23 Hn. induction H23 as [|n w1 w2 w3 H12 H23 IH]; [congruence|].
  apply IH; [|done]. destruct H12 as [Hs|[? ->]]; [|done]. destruct (worker_step_keeps _ _ Hs) as (_ & -> & _). done.
Qed.
End Sender.

(** C38. Every event the sender ever took responsibility for is in exactly one place: sent,
    given up on, dropped, queued or with a worker.  The queue never exceeds its bound
    and no event is tried more than one time plus the configured retries. *)
Theorem hook_conservation c w :
  wsteps (setDefaults c) w ->
  w_emitted w ≡ₚ w_sent w ++ (w_failed w).*1 ++ w_dropped w ++ w_queue w ++ (w_workers w ≫= hand)
  /\ Z.of_nat (length (w_queue w)) <= h_Queue (setDefaults c)
  /\ length (w_workers w) = Z.to_nat (h_Workers (setDefaults c))
  /\ w_attempts w <= (h_Retries (setDefaults c) + 1) * Z.of_nat (length (w_sent w) + length (w_failed w))
                     + tried (w_workers w)
  /\ Forall (fun k => 0 <= tries k <= h_Retries (setDefaults c)) (w_workers w).
Proof.
  intros Hw. assert (0 <= h_Retries (setDefaults c)) as H1 by (cbn; case_if; lia).
  assert (0 < h_Queue (setDefaults c)) as H2 by (cbn; case_if; unfold DefaultQueue; lia).
  pose proof (wsteps_inv _ H1 H2 w Hw) as []. split_and!; try done.
  eapply Forall_impl; [done|]. by intros k [? _].
Qed.

(** [Close] terminates whatever the receiver does: a closed sender can make only so many
    steps, it can make one as long as a worker is left, and when none is left every
    event has been sent, given up on or dropped; none is dropped unless the deadline
    passed. *)
Theorem Close_drains c w n w' :
  wsteps (setDefaults c) w -> w_closed w = true -> nsteps (closing_step (setDefaults c)) n w w' ->
  Z.of_nat n <= remaining (setDefaults c) w
  /\ (w_stopped w' = false -> w_dropped w' = w_dropped w)
  /\ ((forall w'', ~ worker_step (setDefaults c) w' w'') ->
      Forall (fun k => k = Exited) (w_workers w')
      /\ w_emitted w ≡ₚ w_sent w' ++ (w_failed w').*1 ++ w_dropped w').
Proof.
  intros Hw Hc Hn. assert (0 <= h_Retries (setDefaults c)) as H1 by (cbn; case_if; lia).
  assert (0 < h_Queue (setDefaults c)) as H2 by (cbn; case_if; unfold DefaultQueue; lia).
  assert (0 < h_Workers (setDefaults c)) as H3 by (cbn; case_if; unfold DefaultWorkers; lia).
  pose proof (wsteps_inv _ H1 H2 w Hw) as Hi.
  destruct (closing_run _ H1 n w w' Hn Hi Hc) as (I1 & I2 & I3 & I4 & I5).
  pose proof (remaining_pos _ H1 w' I1). split; [lia|]. split; [done|]. intros Hstuck.
  assert (Forall (fun k => k = Exited) (w_workers w')) as He.
  { apply Forall_lookup. intros i k Hk. destruct (decide (k = Exited)) as [|Hne]; [done|].
    destruct (closing_progress (setDefaults c) w' i k I2 Hk Hne) as [w'' Hs]. by destruct (Hstuck w''). }
  split; [done|]. rewrite <- I3, (wi_conserve _ _ I1).
  assert (w_queue w' = []) as ->.
  { pose proof (wi_workers _ _ I1) as Hl. pose proof (wi_ok _ _ I1) as Ho.
    destruct (w_workers w') as [|k l]; [cbn [length] in Hl; lia|]. inversion Ho as [|? ? [_ Hx] _]; subst.
    inversion He; subst. by apply Hx. }
  assert (w_workers w' ≫= hand = []) as ->.
  { clear - He. induction He as [|k l -> _ IH]; [done|]. cbn. done. }
  by rewrite app_nil_r.
Qed.

(** ** A run: the receiver fails once, then the server closes the sender *)

Definition one_worker : hook_Config := MkHookConfig [] 0 8 1 2 0.
Definition saved : Event := MkEvent (str "notes") KindStore 0 0 1 3 [] [].

Definition busy : Webhook :=
  hook_Close (deliver (setDefaults one_worker) 0 saved 0 DefaultBackoff (Status 503)
    (MkWebhook [] false false [Posting saved 0 DefaultBackoff] 0 [saved] [] [] [])).

Lemma busy_reachable : wsteps (setDefaults one_worker) busy.
Proof.
  eapply wsteps_step; [|apply wstep_close]. eapply wsteps_step; [|by apply wstep_worker, wstep_post].
  eapply wsteps_step; [|apply wstep_worker, (wstep_work _ (Emit (setDefaults one_worker) saved (NewWebhook (setDefaults one_worker))) _ 0)]; [|done..].
  eapply wsteps_step; [apply wsteps_init|apply wstep_emit].
Qed.

Lemma hook_conservation_witness : [saved] ≡ₚ (w_workers busy ≫= hand) /\ w_attempts busy <= 3 * 0 + 1.
Proof.
  destruct (hook_conservation one_worker busy busy_reachable) as (H1 & _ & _ & H2 & _). split; [exact H1|exact H2].
Defined.

Lemma Close_drains_witness :
  Forall (fun k => k = Exited) [Exited] /\ w_emitted busy ≡ₚ [saved].
Proof.
  destruct (Close_drains one_worker busy 3
    (set_worker 0 Exited (deliver (setDefaults one_worker) 0 saved 1 (2 * DefaultBackoff) (Status 204)
       (set_worker 0 (Posting saved 1 (2 * DefaultBackoff)) busy))) busy_reachable eq_refl) as (_ & _ & H).
  - eapply nsteps_l; [left; by apply (wstep_wake _ _ 0 saved 1 (2 * DefaultBackoff))|].
    eapply nsteps_l; [left; by apply (wstep_post _ _ 0 saved 1 (2 * DefaultBackoff) (Status 204))|].
    eapply nsteps_l; [left; by apply (wstep_work _ _ _ 0)|]. apply nsteps_O.
  - apply H. intros w'' Hs. inversion Hs as [? ? i Hi Hw|? i e n b r Hi|? i e n b Hi]; subst;
      (destruct i as [|[|i]]; [cbn in Hi; discriminate Hi..|cbn in Hi; discriminate Hi]).
Defined.
