(* ===== verification/ClientIP.v ===== *)
(** * Client addresses

    [internal/gateway/clientip.go]: which address a request is attributed to.  Addresses
    and prefixes are those of [net/netip]: a 32 or 128 bit number, the latter with a
    zone.  Reading and printing their text is the library's work and enters as
    [ParseAddr], [ParsePrefix], [addr_String] and [SplitHostPort]. *)

From stdpp Require Import strings.
From S2P Require Import Prelude Text.

Inductive Addr := InvalidAddr | V4 (n : Z) | V6 (n : Z) (zone : bytes).

#[export] Instance Addr_eq_dec : EqDecision Addr.
Proof. solve_decision. Defined.

Record Prefix := MkPrefix { px_addr : Addr; px_bits : Z }.

Definition IsValid (a : Addr) : bool := match a with InvalidAddr => false | _ => true end.
Definition BitLen (a : Addr) : Z := match a with InvalidAddr => 0 | V4 _ => 32 | V6 _ _ => 128 end.

(** ::ffff:0:0/96, where IPv4 addresses live in IPv6. *)
Definition mapped : Z := 0xFFFF.

Definition Unmap (a : Addr) : Addr :=
  match a with
  | V6 n _ => if Z.shiftr n 32 =? mapped then V4 (n mod 2 ^ 32) else a
  | _ => a
  end.

(** [Prefix.Contains]: same family, no zone, and equal in the leading bits. *)
Definition Contains (p : Prefix) (a : Addr) : bool :=
  match px_addr p, a with
  | V4 m, V4 n => Z.shiftr m (32 - px_bits p) =? Z.shiftr n (32 - px_bits p)
  | V6 m _, V6 n zone => bool_decide (zone = []) && (Z.shiftr m (128 - px_bits p) =? Z.shiftr n (128 - px_bits p))
  | _, _ => false
  end.

(** [type Proxies struct]. *)
Abbreviation Proxies := (list Prefix) (only parsing).

Definition loopback : Proxies := [MkPrefix (V4 0x7F000000) 8; MkPrefix (V6 1 []) 128].
Definition private : Proxies :=
  [MkPrefix (V4 0x0A000000) 8; MkPrefix (V4 0xAC100000) 12; MkPrefix (V4 0xC0A80000) 16;
   MkPrefix (V4 0xA9FE0000) 16; MkPrefix (V4 0x7F000000) 8; MkPrefix (V6 1 []) 128;
   MkPrefix (V6 (Z.shiftl 0xFC00 112) []) 7; MkPrefix (V6 (Z.shiftl 0xFE80 112) []) 10].

(** [strings.ToLower] as far as comparing with an ASCII word goes: the letters A to Z, and
    the two runes outside ASCII whose lower case is in it. *)
Definition lower_rune (r : Z) : Z :=
  if within 65 90 r then r + 32 else if r =? 0x130 then 105 else if r =? 0x212A then 107 else r.

Definition lower_is (word : bytes) (s : bytes) : bool :=
  bool_decide (map (fun o => match o with Some r => lower_rune r | None => RuneError end) (runes s) = word).

Section Netip.
Context (ParseAddr : bytes -> option Addr) (ParsePrefix : bytes -> option Prefix).
Context (addr_String : Addr -> bytes) (SplitHostPort : bytes -> option bytes).

(** The error is the entry that could not be read. *)
Fixpoint ParseProxies (entries : list bytes) : bytes + Proxies :=
  match entries with
  | [] => inr []
  | raw :: rest =>
      let entry := TrimSpace raw in
      let found :=
        if decide (entry = []) then Some []
        else if lower_is (str "loopback") entry then Some loopback
        else if lower_is (str "private") entry then Some private
        else match ParsePrefix entry with
             | Some prefix => Some [prefix]
             | None => match ParseAddr entry with
                       | Some addr => Some [MkPrefix addr (BitLen addr)]
                       | None => None
                       end
             end in
      match found with
      | None => inl raw
      | Some nets => match ParseProxies rest with inl e => inl e | inr p => inr (nets ++ p) end
      end
  end.

Definition Any (p : Proxies) : bool := negb (bool_decide (p = [])).

Definition trusts (p : Proxies) (addr : Addr) : bool := existsb (fun n => Contains n (Unmap addr)) p.

Definition peerAddr (remote : bytes) : Addr :=
  let host := match SplitHostPort remote with Some h => h | None => remote end in
  match ParseAddr (Trim (str "[]") host) with
  | Some addr => Unmap addr
  | None => InvalidAddr
  end.

(** The entries of the [X-Forwarded-For] headers, in order. *)
Definition hops_of (headers : list bytes) : list bytes :=
  headers ≫= fun h => filter (fun v => v <> []) (map TrimSpace (split_on 44 h)).

(** The loop from the right; [hops] is reversed. *)
Fixpoint walk (p : Proxies) (peer : Addr) (hops : list bytes) : bytes :=
  match hops with
  | [] => addr_String peer
  | h :: left_ =>
      match ParseAddr (Trim (str "[]") h) with
      | None => addr_String peer
      | Some addr => if negb (trusts p addr) then addr_String (Unmap addr) else walk p peer left_
      end
  end.

Definition ClientIP (p : Proxies) (remote : bytes) (forwarded : list bytes) : bytes :=
  let peer := peerAddr remote in
  if negb (Any p) then addr_String peer
  else if negb (IsValid peer) || negb (trusts p peer) then addr_String peer
  else walk p peer (rev (hops_of forwarded)).

(** A hop that ends the walk: it cannot be read, or it is not trusted. *)
Definition decisive (p : Proxies) (h : bytes) : bool :=
  match ParseAddr (Trim (str "[]") h) with None => true | Some addr => negb (trusts p addr) end.

Lemma walk_app p peer l1 l2 l2' : existsb (decisive p) l1 = true -> walk p peer (l1 ++ l2) = walk p peer (l1 ++ l2').
Proof.
  induction l1 as [|h l1 IH]; cbn; [done|]. unfold decisive at 1.
  destruct (ParseAddr _) as [addr|]; [|done]. destruct (trusts p addr); cbn; [auto|done].
Qed.

Lemma walk_trusted p peer l1 l2 : existsb (decisive p) l1 = false -> walk p peer (l1 ++ l2) = walk p peer l2.
Proof.
  induction l1 as [|h l1 IH]; cbn; [done|]. unfold decisive at 1.
  destruct (ParseAddr _) as [addr|]; [|done]. destruct (trusts p addr); cbn; [auto|done].
Qed.

Lemma hops_of_app hs hs' : hops_of (hs ++ hs') = hops_of hs ++ hops_of hs'.
Proof. apply bind_app. Qed.

(** A proxy that appends to the header line it received adds hops on the right. *)
Lemma hops_of_comma v t : hops_of [v ++ 44 :: t] = hops_of [v] ++ hops_of [t].
Proof. unfold hops_of. cbn. rewrite !app_nil_r, split_on_app_gen, map_app. apply filter_app. Qed.

Lemma ClientIP_direct_ok p remote forwarded :
  trusts p (peerAddr remote) = false -> ClientIP p remote forwarded = addr_String (peerAddr remote).
Proof. intros H. unfold ClientIP. rewrite H. cbn. rewrite orb_true_r. by destruct (Any p). Qed.

(** C40. The address of a request cannot be chosen by its client.  A client that reaches the
    server without a trusted proxy is attributed to its socket's address whatever headers
    it sends.  Behind trusted proxies, the outermost of which appended the address [a] it
    saw to whatever header the client sent, and the others the (trusted) address of the
    proxy before them, the request is attributed to [a], whatever the client wrote. *)
Theorem ClientIP_unforgeable p remote forged line a t addr proxies :
  (trusts p (peerAddr remote) = false ->
   forall headers, ClientIP p remote headers = addr_String (peerAddr remote))
  /\ (IsValid (peerAddr remote) = true -> trusts p (peerAddr remote) = true ->
      hops_of [t] = a :: proxies -> ParseAddr (Trim (str "[]") a) = Some addr -> trusts p addr = false ->
      (forall h, h ∈ proxies -> decisive p h = false) ->
      ClientIP p remote (forged ++ [line ++ 44 :: t]) = addr_String (Unmap addr)).
Proof.
  split; [intros H headers; by apply ClientIP_direct_ok|]. intros Hv Hp Ht Ha Hn Hpr.
  unfold ClientIP. assert (Any p = true) as -> by (by destruct p). rewrite Hv, Hp. cbn [negb orb].
  rewrite hops_of_app, hops_of_comma, Ht. rewrite !rev_app_distr. cbn [rev].
  rewrite <- !app_assoc, walk_trusted.
  - cbn [walk app]. by rewrite Ha, Hn.
  - clear - Hpr. destruct (existsb (decisive p) (rev proxies)) eqn:E; [|done].
    apply existsb_exists in E as (h & Hh & Hd). apply in_rev, list_elem_of_In in Hh. by rewrite Hpr in Hd.
Qed.

(** An entry that names an IPv4 address in its IPv6 form is accepted and never matches
    anything: the addresses it is compared with have been unmapped. *)
Lemma Unmap_not_mapped a n zone : Unmap a = V6 n zone -> Z.shiftr n 32 <> mapped.
Proof. unfold Unmap. destruct a as [| |m z]; [done..|]. case_if; [done|]. by intros [= -> ->]. Qed.

Theorem mapped_entry_never_trusts n a : Z.shiftr n 32 = mapped -> 0 <= n < 2 ^ 128 ->
  Contains (MkPrefix (V6 n []) (BitLen (V6 n []))) (Unmap a) = false
  /\ Contains (MkPrefix (Unmap (V6 n [])) 32) (Unmap (V6 n [])) = true.
Proof.
  intros Hn Hr. split.
  - destruct (Unmap a) as [|m|m zone] eqn:E; cbn; [done..|]. apply Unmap_not_mapped in E.
    apply andb_false_iff. right. apply Z.eqb_neq. rewrite !Z.shiftr_0_r. congruence.
  - unfold Unmap. rewrite Hn. cbn. apply Z.eqb_refl.
Qed.
End Netip.

(** ** A toy reader: an address is written as one byte *)

Definition toy_ParseAddr (s : bytes) : option Addr := match s with [n] => Some (V4 (0x0A000000 + n)) | _ => None end.
Definition toy_String (a : Addr) : bytes := match a with V4 n => [n mod 256] | _ => [] end.

(** One trusted network, 10.0.0.64/26, and a proxy in it. *)
Definition toy_proxies : Proxies := [MkPrefix (V4 0x0A000040) 26].

Lemma ClientIP_unforgeable_witness :
  ClientIP toy_ParseAddr toy_String (fun _ => None) toy_proxies [65] [[1; 44; 2]; [3] ++ 44 :: [200; 44; 66]] = [200].
Proof.
  etrans; [apply (ClientIP_unforgeable toy_ParseAddr toy_String (fun _ => None) toy_proxies [65] [[1; 44; 2]] [3] [200] [200; 44; 66] (V4 (0x0A000000 + 200)) [[66]])|].
  1-5: by vm_compute.
  2: by vm_compute.
  intros h Hh. apply list_elem_of_singleton in Hh as ->. by vm_compute.
Defined.

Lemma mapped_entry_never_trusts_witness :
  Contains (MkPrefix (V6 0xFFFF0A000001 []) 128) (Unmap (V6 0xFFFF0A000001 [])) = false.
Proof. apply (mapped_entry_never_trusts 0xFFFF0A000001 (V6 0xFFFF0A000001 [])); [by vm_compute|lia]. Defined.
