(* ===== verification/Pack.v ===== *)
(** * Stored blobs

    [internal/pack/pack.go]: snapshots and versions are deflated when that makes them
    smaller, and the codec is recorded beside the bytes.  [compress/flate] is the
    standard library's; [deflate] and [inflate] stand for its writer and reader, which
    fail or not, and the section's hypothesis is what RFC 1951 promises of them. *)

From S2P Require Import Prelude.

(** [type Codec int16]. *)
Definition Raw : Z := 0.
Definition Deflate : Z := 1.
Definition minSize : Z := 256.

Section Flate.
Context (deflate inflate : bytes -> option bytes).

Definition Pack (b : bytes) : bytes * Z :=
  if Z.of_nat (length b) <? minSize then (b, Raw)
  else match deflate b with
       | None => (b, Raw)
       | Some buf => if Z.of_nat (length b) <=? Z.of_nat (length buf) then (b, Raw) else (buf, Deflate)
       end.

Definition Unpack (b : bytes) (c : Z) : res bytes :=
  if c =? Raw then Ok b
  else if c =? Deflate then
    match inflate b with Some out => Ok out | None => Err ErrDecompress end
  else Err ErrUnknownCodec.

Lemma Unpack_Pack_ok b :
  (forall x y, deflate x = Some y -> inflate y = Some x) ->
  let '(stored, codec) := Pack b in
  Unpack stored codec = Ok b /\ (length stored <= length b)%nat
  /\ (Z.of_nat (length b) < minSize -> stored = b /\ codec = Raw).
Proof.
  intros Hflate. unfold Pack. case_if; [done|].
  destruct (deflate b) as [buf|] eqn:Eb; [|split_and!; [done..|lia]].
  case_if; [split_and!; [done..|lia]|]. split_and!; [|lia..].
  unfold Unpack. cbn. by rewrite (Hflate _ _ Eb).
Qed.

(** What was packed unpacks to the same bytes, storing never makes a blob bigger,
    and nothing below [minSize] is touched. *)
Theorem Unpack_Pack b :
  (forall x y, deflate x = Some y -> inflate y = Some x) ->
  let '(stored, codec) := Pack b in
  Unpack stored codec = Ok b /\ (length stored <= length b)%nat
  /\ (Z.of_nat (length b) < minSize -> stored = b /\ codec = Raw).
Proof. apply Unpack_Pack_ok. Qed.

(** A codec this build does not know is refused, whatever the bytes. *)
Theorem Unpack_unknown b c : c <> Raw -> c <> Deflate -> Unpack b c = Err ErrUnknownCodec.
Proof.
  intros H1 H2. unfold Unpack. rewrite (proj2 (Z.eqb_neq _ _) H1), (proj2 (Z.eqb_neq _ _) H2). done.
Qed.
End Flate.

(** A compressor that folds one long run, to run the definitions with. *)
Definition run300 : bytes := repeat 0 300.
Definition toy_deflate (b : bytes) : option bytes :=
  if decide (b = run300) then Some [1] else Some (0 :: b).
Definition toy_inflate (b : bytes) : option bytes :=
  match b with
  | 0 :: b => Some b
  | [1] => Some run300
  | _ => None
  end.

Lemma toy_flate x y : toy_deflate x = Some y -> toy_inflate y = Some x.
Proof. unfold toy_deflate. case_decide; intros; by simplify_eq. Qed.

Lemma Unpack_Pack_witness :
  let '(stored, codec) := Pack toy_deflate run300 in
  stored = [1] /\ codec = Deflate /\ Unpack toy_inflate stored codec = Ok run300.
Proof.
  pose proof (Unpack_Pack toy_deflate toy_inflate run300 toy_flate) as H.
  change (Pack toy_deflate run300) with ([1], Deflate) in *. by split_and!; [..|apply H].
Defined.
