(* ===== verification/Store.v ===== *)
(** * The document store

    [internal/store]: documents, their update log and their versions in three tables,
    with large blobs optionally in object storage.  [Database] is the state of the
    tables and of the bucket; every operation is one of the package's methods, with
    its SQL statements as changes of the tables.

    A call to the database or to the bucket can fail.  [faults] says which calls of an
    operation do; a failed transaction leaves the tables as they were, and what it had
    already put in the bucket stays there.  [Compact] and [SaveVersion] hold the
    document's advisory lock from start to commit, so each is one step.  [compress/flate]
    is the section's [deflate] and [inflate]; PostgreSQL's clock is the argument [now]. *)

From stdpp Require Import strings pretty.
From S2P Require Import Prelude Uuid Pack.

(** ** State *)

(** A row of [documents]. *)
Record DocRow := MkDocRow {
  owner_id : UUID;
  doc_name : bytes;
  snapshot : option bytes;
  snapshot_codec : Z;
  snapshot_key : bytes;
  snapshot_bytes : Z;
  snapshot_seq : Z;
  updated_at : Z;
}.

(** A row of [doc_updates], under its document and its [seq]. *)
Record LogRow := MkLogRow { log_payload : bytes; log_created_at : Z }.

(** A row of [doc_versions], under its document and its [id]. *)
Record VersionRow := MkVersionRow {
  ver_created_at : Z;
  ver_state_vector : bytes;
  ver_payload : bytes;
  ver_codec : Z;
  ver_blob_key : bytes;
  ver_blob_bytes : Z;
  ver_label : bytes;
}.

Record Database := MkDatabase {
  documents : gmap UUID DocRow;
  doc_updates : gmap UUID (gmap Z LogRow);
  doc_versions : gmap UUID (gmap Z VersionRow);
  (** The identity columns: the next value each hands out. *)
  next_seq : Z;
  next_version : Z;
  (** The bucket, and whether this server was told to use one ([UseBlobs]). *)
  objects : gmap bytes bytes;
  useBlobs : bool;
}.

Definition set_documents (m : gmap UUID DocRow) (db : Database) : Database :=
  MkDatabase m (doc_updates db) (doc_versions db) (next_seq db) (next_version db) (objects db) (useBlobs db).
Definition set_updates (m : gmap UUID (gmap Z LogRow)) (n : Z) (db : Database) : Database :=
  MkDatabase (documents db) m (doc_versions db) n (next_version db) (objects db) (useBlobs db).
Definition set_versions (m : gmap UUID (gmap Z VersionRow)) (n : Z) (db : Database) : Database :=
  MkDatabase (documents db) (doc_updates db) m (next_seq db) n (objects db) (useBlobs db).
Definition set_objects (m : gmap bytes bytes) (db : Database) : Database :=
  MkDatabase (documents db) (doc_updates db) (doc_versions db) (next_seq db) (next_version db) m (useBlobs db).

Definition log_of (db : Database) (id : UUID) : gmap Z LogRow := default ∅ (doc_updates db !! id).
Definition versions_of (db : Database) (id : UUID) : gmap Z VersionRow := default ∅ (doc_versions db !! id).

(** The calls an operation makes that can fail. *)
Inductive call :=
  | Begin | AdvisoryLock | InsertRow | SelectOwner | SelectDoc | SelectRows | SelectKeys
  | ReadResult | PutObject | GetObject | DropObject | UpdateRow | DeleteRows | Commit.
Definition faults := call -> bool.
Definition no_faults : faults := fun _ => false.

(** ** Blobs ([blobs.go]) *)

(** [fmt.Sprintf("snapshots/%s/%d", id, seq)]. *)
Definition snapshotKey (id : UUID) (seq : Z) : bytes :=
  str "snapshots/" ++ UUID_String id ++ str "/" ++ str (pretty seq).

(** [versionKey], with the bytes its random source gave. *)
Definition versionKey (id : UUID) (rnd : bytes) : bytes :=
  str "versions/" ++ UUID_String id ++ str "/" ++ hex_encode rnd.

Section Flate.
Context (deflate inflate : bytes -> option bytes).
#[local] Notation Pack := (Pack.Pack deflate).
#[local] Notation Unpack := (Pack.Unpack inflate).

Definition putBlob (f : faults) (key body : bytes) (db : Database) : res (bytes * Database) :=
  if negb (useBlobs db) then Ok ([], db)
  else if f PutObject then Err ErrObject
  else Ok (key, set_objects (<[key := body]> (objects db)) db).

Definition putVersionBlob (f : faults) (id : UUID) (rnd body : bytes) (db : Database) : res (bytes * Database) :=
  if negb (useBlobs db) then Ok ([], db) else putBlob f (versionKey id rnd) body db.

Definition readBlob (f : faults) (key inline : bytes) (codec : Z) (db : Database) : res bytes :=
  if decide (key = []) then Unpack inline codec
  else if negb (useBlobs db) then Err ErrNoBlobs
  else if f GetObject then Err ErrObject
  else match objects db !! key with
       | Some body => Unpack body codec
       | None => Err ErrObject
       end.

Definition dropBlob (f : faults) (key : bytes) (db : Database) : Database :=
  if decide (key = []) then db
  else if negb (useBlobs db) then db
  else if f DropObject then db
  else set_objects (delete key (objects db)) db.

Definition dropBlobs (f : faults) (keys : list bytes) (db : Database) : Database :=
  foldl (fun db k => dropBlob f k db) db keys.

(** The non-empty keys a document's rows name. *)
Definition version_keys (m : gmap Z VersionRow) : list bytes :=
  filter (fun k => k <> []) (map (fun x => ver_blob_key x.2) (map_to_list m)).
Definition blobKeysFor (f : faults) (id : UUID) (db : Database) : res (list bytes) :=
  if negb (useBlobs db) then Ok []
  else if f SelectKeys then Err ErrDatabase
  else Ok (filter (fun k => k <> []) (match documents db !! id with Some r => [snapshot_key r] | None => [] end)
           ++ version_keys (versions_of db id)).

(** ** Documents ([store.go]) *)

Definition new_row (owner : UUID) (name : bytes) (now : Z) : DocRow :=
  MkDocRow owner name None Raw [] 0 0 now.

Definition ensureIn (f : faults) (now : Z) (id : UUID) (name : bytes) (owner : UUID) (db : Database)
    : res (UUID * Database) :=
  if f InsertRow then Err ErrDatabase
  else
    let db := match documents db !! id with
              | Some _ => db
              | None => set_documents (<[id := new_row owner name now]> (documents db)) db
              end in
    if f SelectOwner then Err ErrDatabase
    else match documents db !! id with
         | Some r => Ok (owner_id r, db)
         | None => Err ErrDatabase
         end.

Definition Ensure (f : faults) (now : Z) (id : UUID) (name : bytes) (owner : UUID) (db : Database)
    : res (UUID * Database) :=
  if f Begin then Err ErrDatabase
  else
    r ← ensureIn f now id name owner db;
    if f Commit then Err ErrDatabase else Ok r.

(** [type Document struct]. *)
Record Document := MkDocument {
  Snapshot : option bytes;
  SnapshotSeq : Z;
  Updates : list bytes;
  Seqs : list Z;
  LastSeq : Z;
  Owner : UUID;
}.

(** Rows in [ORDER BY seq]. *)
Definition asc {A} (m : gmap Z A) : list Z := rev (keys_desc m).
Definition rows {A} (m : gmap Z A) : list (Z * A) := omap (fun k => (fun r => (k, r)) <$> m !! k) (asc m).

Definition read_document (f : faults) (id : UUID) (r : DocRow) (db : Database) : res Document :=
  snap ← (if decide (snapshot r = None /\ snapshot_key r = []) then Ok None
          else b ← readBlob f (snapshot_key r) (default [] (snapshot r)) (snapshot_codec r) db; Ok (Some b));
  if f SelectRows then Err ErrDatabase
  else
    let log := rows (log_of db id) in
    Ok (MkDocument snap (snapshot_seq r) (map (fun x => log_payload x.2) log) log.*1
          (foldl (fun last seq => if last <? seq then seq else last) (snapshot_seq r) log.*1) (owner_id r)).

Definition load (f : faults) (now : Z) (id : UUID) (name : bytes) (owner : UUID) (any : bool) (db : Database)
    : res (Document * Database) :=
  if f Begin then Err ErrDatabase
  else
    db ← (if any then Ok db
          else '(found, db) ← ensureIn f now id name owner db;
               if decide (found = owner) then Ok db else Err ErrWrongOwner);
    if f SelectDoc then Err ErrDatabase
    else match documents db !! id with
         | None => if any then Ok (MkDocument None 0 [] [] 0 NilUUID, db) else Err ErrDatabase
         | Some r =>
             doc ← read_document f id r db;
             if f Commit then Err ErrDatabase else Ok (doc, db)
         end.

Definition Load f now id name owner db := load f now id name owner false db.
Definition LoadAny f now id db := load f now id [] NilUUID true db.

(** The rows [INSERT ... SELECT unnest] adds. *)
Fixpoint insert_rows (now seq : Z) (payloads : list bytes) (m : gmap Z LogRow) : gmap Z LogRow :=
  match payloads with
  | [] => m
  | p :: ps => insert_rows now (seq + 1) ps (<[seq := MkLogRow p now]> m)
  end.

(** The statement commits by itself: a failure to read its result back comes after. *)
Definition Append (f : faults) (now : Z) (id : UUID) (payloads : list bytes) (db : Database)
    : res (list Z) * Database :=
  match payloads with
  | [] => (Ok [], db)
  | _ =>
      if f InsertRow then (Err ErrDatabase, db)
      else match documents db !! id with
           | None => (Err ErrDatabase, db)
           | Some _ =>
               let n := Z.of_nat (length payloads) in
               let m := insert_rows now (next_seq db) payloads (log_of db id) in
               let db' := set_updates (<[id := m]> (doc_updates db)) (next_seq db + n) db in
               if f ReadResult then (Err ErrDatabase, db')
               else (Ok (seqZ (next_seq db) n), db')
           end
  end.

Definition watermark_of (folded : list Z) : Z := foldl (fun w seq => if w <? seq then seq else w) 0 folded.

Definition Compact (f : faults) (now : Z) (id : UUID) (snap : bytes) (folded : list Z) (db : Database)
    : option GoError * Database :=
  if decide (folded = []) then (None, db)
  else
    let watermark := watermark_of folded in
    if f Begin || f AdvisoryLock then (Some ErrDatabase, db)
    else
      let '(packed, codec) := Pack snap in
      match putBlob f (snapshotKey id watermark) packed db with
      | Err e => (Some e, db)
      | Ok (key, db1) =>
          let stored := Z.of_nat (length packed) in
          let column := if decide (key = []) then Some packed else None in
          match documents db1 !! id with
          | None => (Some ErrDatabase, db1)
          | Some r =>
              if f SelectKeys || f UpdateRow then (Some ErrDatabase, db1)
              else if negb (snapshot_seq r <? watermark) then (Some ErrStaleSnapshot, dropBlob f key db1)
              else if f DeleteRows then (Some ErrDatabase, db1)
              else if f Commit then (Some ErrDatabase, dropBlob f key db1)
              else
                let r' := MkDocRow (owner_id r) (doc_name r) column codec key stored watermark now in
                let log := filter (fun x => x.1 ∉ folded) (log_of db1 id) in
                let db2 := set_updates (<[id := log]> (doc_updates db1)) (next_seq db1)
                  (set_documents (<[id := r']> (documents db1)) db1) in
                (None, if decide (snapshot_key r <> [] /\ snapshot_key r <> key)
                       then dropBlob f (snapshot_key r) db2 else db2)
          end
      end.

(** What [ON DELETE CASCADE] leaves. *)
Definition delete_document (id : UUID) (db : Database) : Database :=
  MkDatabase (delete id (documents db)) (delete id (doc_updates db)) (delete id (doc_versions db))
    (next_seq db) (next_version db) (objects db) (useBlobs db).

Definition Delete (f : faults) (id : UUID) (db : Database) : res bool * Database :=
  match blobKeysFor f id db with
  | Err e => (Err e, db)
  | Ok keys =>
      if f DeleteRows then (Err ErrDatabase, db)
      else match documents db !! id with
           | None => (Ok false, db)
           | Some _ => (Ok true, dropBlobs f keys (delete_document id db))
           end
  end.

Definition UpdateCount (f : faults) (id : UUID) (db : Database) : res Z :=
  if f SelectRows then Err ErrDatabase else Ok (Z.of_nat (size (log_of db id))).

(** Activity since [before]: the row itself, or a log row. *)
Definition idle (before : Z) (db : Database) (id : UUID) (r : DocRow) : bool :=
  (updated_at r <? before)
  && forallb (fun x => log_created_at x.2 <? before) (map_to_list (log_of db id)).

Definition idle_documents (before : Z) (db : Database) : list (UUID * DocRow) :=
  filter (fun x => idle before db x.1 x.2 = true) (map_to_list (documents db)).

Definition DeleteIdle (f : faults) (before : Z) (db : Database) : res Z * Database :=
  if useBlobs db && f SelectKeys then (Err ErrDatabase, db)
  else if f DeleteRows then (Err ErrDatabase, db)
  else
    let gone := idle_documents before db in
    let versionKeys := if useBlobs db then gone ≫= (fun x => version_keys (versions_of db x.1)) else [] in
    let snapshotKeys := filter (fun k => k <> []) (map (fun x => snapshot_key x.2) gone) in
    let db' := foldl (fun db x => delete_document x.1 db) db gone in
    if f ReadResult then (Err ErrDatabase, db')
    else (Ok (Z.of_nat (length gone)), dropBlobs f versionKeys (dropBlobs f snapshotKeys db')).

Definition SetOwner (f : faults) (id owner : UUID) (db : Database) : res bool * Database :=
  if f UpdateRow then (Err ErrDatabase, db)
  else match documents db !! id with
       | None => (Ok false, db)
       | Some r =>
           let r' := MkDocRow owner (doc_name r) (snapshot r) (snapshot_codec r) (snapshot_key r)
             (snapshot_bytes r) (snapshot_seq r) (updated_at r) in
           (Ok true, set_documents (<[id := r']> (documents db)) db)
       end.

(** [Store.Name]: gives a name to a row that has none. *)
Definition SetName (f : faults) (id : UUID) (name : bytes) (db : Database) : res bool * Database :=
  if f UpdateRow then (Err ErrDatabase, db)
  else match documents db !! id with
       | None => (Ok false, db)
       | Some r =>
           if decide (doc_name r = []) then
             let r' := MkDocRow (owner_id r) name (snapshot r) (snapshot_codec r) (snapshot_key r)
               (snapshot_bytes r) (snapshot_seq r) (updated_at r) in
             (Ok true, set_documents (<[id := r']> (documents db)) db)
           else (Ok false, db)
       end.

(** ** Versions ([versions.go]) *)

(** [type Version struct]. *)
Record Version := MkVersion {
  ver_ID : Z;
  ver_CreatedAt : Z;
  ver_StateVector : bytes;
  ver_Label : bytes;
  ver_Bytes : Z;
  ver_Payload : option bytes;
}.

(** The row with the highest id. *)
Definition newest {A} (m : gmap Z A) : option A := k ← head (keys_desc m); m !! k.

(** The [NOT EXISTS] of the insert: the newest version is too young, or says the same. *)
Definition says_nothing_new (now minAge : Z) (sv : bytes) (m : gmap Z VersionRow) : bool :=
  match newest m with
  | Some v => (now - minAge <? ver_created_at v) || bool_decide (ver_state_vector v = sv)
  | None => false
  end.

Definition SaveVersion (f : faults) (now : Z) (rnd : bytes) (id : UUID) (sv payload label : bytes)
    (minAge : Z) (db : Database) : res bool * Database :=
  if decide (payload = []) then (Err ErrNoPayload, db)
  else if f Begin || f AdvisoryLock then (Err ErrDatabase, db)
  else
    let '(packed, codec) := Pack payload in
    match putVersionBlob f id rnd packed db with
    | Err e => (Err e, db)
    | Ok (key, db1) =>
        let stored := Z.of_nat (length packed) in
        let column := if decide (key = []) then packed else [] in
        if f InsertRow then (Err ErrDatabase, dropBlob f key db1)
        else if bool_decide (documents db1 !! id = None)
                || says_nothing_new now minAge sv (versions_of db1 id)
        then
          let db2 := dropBlob f key db1 in
          if f Commit then (Err ErrDatabase, db2) else (Ok false, db2)
        else if f Commit then (Err ErrDatabase, db1)
        else
          let v := MkVersionRow now sv column codec key stored label in
          let m := <[next_version db1 := v]> (versions_of db1 id) in
          (Ok true, set_versions (<[id := m]> (doc_versions db1)) (next_version db1 + 1) db1)
    end.

Definition ListVersions (f : faults) (id : UUID) (limit : Z) (db : Database) : res (list Version) :=
  let limit := if limit <=? 0 then 50 else limit in
  if f SelectRows then Err ErrDatabase
  else
    let m := versions_of db id in
    Ok (omap (fun k => (fun v => MkVersion k (ver_created_at v) (ver_state_vector v) (ver_label v)
           (if decide (ver_blob_key v = []) then Z.of_nat (length (ver_payload v)) else ver_blob_bytes v) None)
         <$> m !! k) (take (Z.to_nat limit) (keys_desc m))).

Definition LoadVersion (f : faults) (id : UUID) (version : Z) (db : Database) : res Version :=
  if f SelectRows then Err ErrDatabase
  else match versions_of db id !! version with
       | None => Err ErrNoVersion
       | Some v =>
           b ← readBlob f (ver_blob_key v) (ver_payload v) (ver_codec v) db;
           Ok (MkVersion version (ver_created_at v) (ver_state_vector v) (ver_label v)
                 (Z.of_nat (length b)) (Some b))
       end.

Definition PruneVersions (f : faults) (id : UUID) (keep : Z) (db : Database) : res Z * Database :=
  if keep <=? 0 then (Ok 0, db)
  else if f DeleteRows then (Err ErrDatabase, db)
  else
    let m := versions_of db id in
    let kept := take (Z.to_nat keep) (keys_desc m) in
    let gone := filter (fun x => x.1 ∉ kept) m in
    let db' := set_versions (<[id := filter (fun x => x.1 ∈ kept) m]> (doc_versions db)) (next_version db) db in
    if f ReadResult then (Err ErrDatabase, db')
    else (Ok (Z.of_nat (size gone)), dropBlobs f (version_keys gone) db').

Definition VersionCount (f : faults) (id : UUID) (db : Database) : res Z :=
  if f SelectRows then Err ErrDatabase else Ok (Z.of_nat (size (versions_of db id))).
End Flate.
