(* ===== verification/StoreProps.v ===== *)
(** * What the store promises

    Blobs stay readable, compaction is all or nothing, the log keeps every row it was
    not told to fold, and a document is only ever shown to its owner. *)

From stdpp Require Import strings pretty.
From S2P Require Import Prelude Uuid Pack Store.

(** ** Object keys *)

#[export] Instance str_inj : Inj (=) (=) str.
Proof.
  intros s t H. rewrite <- (String.string_of_list_ascii_of_string s), <- (String.string_of_list_ascii_of_string t).
  f_equal. unfold str in H. revert H. generalize (String.list_ascii_of_string s) (String.list_ascii_of_string t).
  induction l as [|a l IH]; intros [|b k] H; cbn in H; try done. injection H as H1 H2.
  f_equal; [|by apply IH]. apply N2Z.inj in H1. rewrite <- (Ascii.ascii_N_embedding a), <- (Ascii.ascii_N_embedding b).
  by f_equal.
Qed.

Lemma UUID_String_length u : uuid_ok u -> length (UUID_String u) = 36%nat.
Proof.
  intros [Hl _]. unfold UUID_String. rewrite !length_app, !hex_encode_length, !length_take, !length_drop, Hl. done.
Qed.

Lemma UUID_String_inj u v : uuid_ok u -> uuid_ok v -> UUID_String u = UUID_String v -> u = v.
Proof. intros Hu Hv H. apply ParseUUID_String_ok in Hu, Hv. rewrite H in Hu. congruence. Qed.

Lemma key_inj (p : bytes) u v (a b : bytes) :
  uuid_ok u -> uuid_ok v -> p ++ UUID_String u ++ a = p ++ UUID_String v ++ b -> u = v /\ a = b.
Proof.
  intros Hu Hv H. apply app_inv_head in H.
  apply app_inj_1 in H as [H1 H2]; [|by rewrite !UUID_String_length].
  split; [by apply UUID_String_inj|done].
Qed.

Lemma snapshotKey_inj id id' s s' :
  uuid_ok id -> uuid_ok id' -> snapshotKey id s = snapshotKey id' s' -> id = id' /\ s = s'.
Proof.
  intros H1 H2 H. apply key_inj in H as [-> H]; [|done..]. split; [done|].
  apply app_inv_head in H. by simplify_eq.
Qed.

Lemma versionKey_inj id id' r r' :
  uuid_ok id -> uuid_ok id' -> versionKey id r = versionKey id' r' -> id = id'.
Proof. intros H1 H2 H. by apply key_inj in H as [-> _]. Qed.

Lemma snapshot_version_keys id id' s r : snapshotKey id s <> versionKey id' r.
Proof. done. Qed.

Lemma snapshotKey_ne id s : snapshotKey id s <> [].
Proof. done. Qed.
Lemma versionKey_ne id r : versionKey id r <> [].
Proof. done. Qed.

(** ** The abstract store: what a reader can see *)

Record VersionView := MkVersionView {
  vv_created : Z; vv_state_vector : bytes; vv_label : bytes; vv_payload : res bytes }.

Record DocView := MkDocView {
  vw_owner : UUID;
  vw_name : bytes;
  vw_snapshot : res (option bytes);
  vw_seq : Z;
  vw_log : gmap Z LogRow;
  vw_versions : gmap Z VersionView;
}.

Lemma watermark_spec folded :
  0 <= watermark_of folded /\ (forall s, s ∈ folded -> s <= watermark_of folded)
  /\ (watermark_of folded = 0 \/ watermark_of folded ∈ folded).
Proof.
  unfold watermark_of. induction folded as [|x l IH] using rev_ind.
  { split_and!; [done| |by left]. by intros s ?%elem_of_nil. }
  rewrite foldl_app. cbn. destruct IH as (H1 & H2 & H3).
  split_and!.
  - case_if; bool_arith; lia.
  - intros s [Hs|Hs%list_elem_of_singleton]%elem_of_app; [specialize (H2 s Hs)|]; case_if; bool_arith; lia.
  - case_if; bool_arith; [right; set_solver|]. destruct H3; [by left|right; set_solver].
Qed.

Section Flate.
Context (deflate inflate : bytes -> option bytes).
#[local] Notation read := (readBlob inflate no_faults).

Definition snapshot_read (r : DocRow) (db : Database) : res (option bytes) :=
  if decide (snapshot r = None /\ snapshot_key r = []) then Ok None
  else b ← read (snapshot_key r) (default [] (snapshot r)) (snapshot_codec r) db; Ok (Some b).

Definition version_view (db : Database) (v : VersionRow) : VersionView :=
  MkVersionView (ver_created_at v) (ver_state_vector v) (ver_label v)
    (read (ver_blob_key v) (ver_payload v) (ver_codec v) db).

(** The document [id] as a reader sees it, wherever its bytes are. *)
Definition view (db : Database) (id : UUID) : option DocView :=
  (fun r => MkDocView (owner_id r) (doc_name r) (snapshot_read r db) (snapshot_seq r)
              (log_of db id) (version_view db <$> versions_of db id)) <$> documents db !! id.

(** [key] is named by a row. *)
Definition named (db : Database) (key : bytes) : Prop :=
  (exists id r, documents db !! id = Some r /\ snapshot_key r = key)
  \/ (exists id v ver, versions_of db id !! v = Some ver /\ ver_blob_key ver = key).

(** Every row's blob can be read, but the snapshots of the documents in [lost]; keys are
    the ones the package derives, and the identity columns are ahead of the rows. *)
Record db_ok_but (lost : UUID -> Prop) (db : Database) : Prop := {
  ok_id : forall id r, documents db !! id = Some r -> uuid_ok id;
  ok_key : forall id r, documents db !! id = Some r ->
    snapshot_key r = [] \/ useBlobs db = true /\ snapshot_key r = snapshotKey id (snapshot_seq r);
  ok_snap : forall id r, documents db !! id = Some r -> ~ lost id -> is_ok (snapshot_read r db) = true;
  ok_vdoc : forall id v, is_Some (versions_of db id !! v) -> is_Some (documents db !! id);
  ok_vkey : forall id v ver, versions_of db id !! v = Some ver ->
    ver_blob_key ver = [] \/ useBlobs db = true /\ exists rnd, ver_blob_key ver = versionKey id rnd;
  ok_vread : forall id v ver, versions_of db id !! v = Some ver ->
    is_ok (read (ver_blob_key ver) (ver_payload ver) (ver_codec ver) db) = true;
  ok_vdistinct : forall id v v' ver ver',
    versions_of db id !! v = Some ver -> versions_of db id !! v' = Some ver' ->
    ver_blob_key ver = ver_blob_key ver' -> ver_blob_key ver <> [] -> v = v';
  ok_vnext : forall id v, is_Some (versions_of db id !! v) -> v < next_version db;
  ok_log : forall id, is_Some (doc_updates db !! id) -> is_Some (documents db !! id);
  ok_seq : forall id s, is_Some (log_of db id !! s) -> 1 <= s < next_seq db;
  ok_wm : forall id r, documents db !! id = Some r -> 0 <= snapshot_seq r < next_seq db;
  ok_next : 1 <= next_seq db;
}.

Context {lost : UUID -> Prop}.
#[local] Notation db_ok := (db_ok_but lost).
#[local] Arguments ok_id {lost db} _ _ _ _.
#[local] Arguments ok_key {lost db} _ _ _ _.
#[local] Arguments ok_vkey {lost db} _ _ _ _ _.
#[local] Arguments ok_next {lost db} _.

Lemma read_frame db m key inline codec :
  (key <> [] -> m !! key = objects db !! key) ->
  read key inline codec (set_objects m db) = read key inline codec db.
Proof. intros Hk. unfold readBlob. cbn. case_decide; [done|]. by rewrite Hk. Qed.

Lemma snapshot_read_frame db m r :
  (snapshot_key r <> [] -> m !! snapshot_key r = objects db !! snapshot_key r) ->
  snapshot_read r (set_objects m db) = snapshot_read r db.
Proof. intros H. unfold snapshot_read. case_decide; [done|]. by rewrite read_frame. Qed.

(** Changing objects no row names is invisible. *)
Lemma objects_frame db m :
  (forall k, named db k -> k <> [] -> m !! k = objects db !! k) ->
  (forall id, view (set_objects m db) id = view db id) /\ (db_ok db -> db_ok (set_objects m db)).
Proof.
  intros H.
  assert (Hs : forall id r, documents db !! id = Some r -> snapshot_read r (set_objects m db) = snapshot_read r db).
  { intros id r Hr. apply snapshot_read_frame. apply H. left. by exists id, r. }
  assert (Hv : forall id v ver, versions_of db id !! v = Some ver ->
    read (ver_blob_key ver) (ver_payload ver) (ver_codec ver) (set_objects m db)
    = read (ver_blob_key ver) (ver_payload ver) (ver_codec ver) db).
  { intros id v ver Hr. apply read_frame. apply H. right. by exists id, v, ver. }
  split.
  - intros id. unfold view. cbn. destruct (documents db !! id) as [r|] eqn:E; [|done]. cbn. f_equal. f_equal.
    + by apply (Hs id).
    + change (versions_of (set_objects m db) id) with (versions_of db id).
      apply map_fmap_ext. intros v ver Hr. unfold version_view. by rewrite (Hv _ _ _ Hr).
  - intros [K1 K2 K3 K4 K5 K6 K7 K8 K9 K10 K11 K12]. split; try done.
    + intros id r Hr Hl. rewrite (Hs id) by done. by apply (K3 id).
    + intros id v ver Hr. rewrite (Hv id v) by done. by apply (K6 id v).
Qed.

Lemma drop_frame f key db :
  ~ named db key -> (forall id, view (dropBlob f key db) id = view db id) /\ (db_ok db -> db_ok (dropBlob f key db)).
Proof.
  intros Hn. unfold dropBlob. case_decide; [done|]. repeat case_if; [done..|].
  apply objects_frame. intros k Hk _. rewrite lookup_delete_ne; [done|]. by intros ->.
Qed.

Lemma put_frame f key body db key' db' :
  ~ named db key -> putBlob f key body db = Ok (key', db') ->
  (forall id, view db' id = view db id) /\ (db_ok db -> db_ok db')
  /\ (db' = db /\ useBlobs db = false /\ key' = []
      \/ useBlobs db = true /\ key' = key /\ db' = set_objects (<[key := body]> (objects db)) db).
Proof.
  intros Hn. unfold putBlob. case_if; [intros [= <- <-]; bool_arith; split_and!; auto|].
  case_if; [done|]. intros [= <- <-]. bool_arith.
  destruct (objects_frame db (<[key := body]> (objects db))) as [H1 H2].
  { intros k Hk _. rewrite lookup_insert_ne; [done|]. by intros ->. }
  split_and!; auto.
Qed.

(** ** Compaction *)

Hypothesis flate : forall x y, deflate x = Some y -> inflate y = Some x.

(** The document after a compaction. *)
Definition compacted (snap : bytes) (folded : list Z) (v : DocView) : DocView :=
  MkDocView (vw_owner v) (vw_name v) (Ok (Some snap)) (watermark_of folded)
    (filter (fun x => x.1 ∉ folded) (vw_log v)) (vw_versions v).

Lemma snapshotKey_unnamed id w db :
  db_ok db -> uuid_ok id -> (forall r, documents db !! id = Some r -> useBlobs db = true -> snapshot_seq r <> w) ->
  ~ named db (snapshotKey id w).
Proof.
  intros Hok Hid Hw [(id' & r & Hr & Hk)|(id' & v & ver & Hv & Hk)].
  - destruct (ok_key Hok _ _ Hr) as [?|[Hb E]]; [by rewrite Hk in *|]. rewrite E in Hk.
    apply snapshotKey_inj in Hk as [-> Hs]; [|by eapply ok_id|done]. by eapply Hw.
  - destruct (ok_vkey Hok _ _ _ Hv) as [?|(Hb & rnd & E)]; [by rewrite Hk in *|].
    rewrite Hk in E. by apply snapshot_version_keys in E.
Qed.

(** The row [r] of [id] replaced and [folded] deleted from its log. *)
Definition folded_db (id : UUID) (r' : DocRow) (folded : list Z) (db : Database) : Database :=
  set_updates (<[id := filter (fun x => x.1 ∉ folded) (log_of db id)]> (doc_updates db)) (next_seq db)
    (set_documents (<[id := r']> (documents db)) db).

Lemma log_of_folded id r' folded db id' :
  log_of (folded_db id r' folded db) id'
  = if decide (id' = id) then filter (fun x => x.1 ∉ folded) (log_of db id) else log_of db id'.
Proof.
  unfold log_of, folded_db. cbn. case_decide; subst; [by rewrite lookup_insert_eq|by rewrite lookup_insert_ne].
Qed.

Lemma folded_ok id r r' folded snap db :
  db_ok db -> documents db !! id = Some r ->
  snapshot_read r' db = Ok (Some snap) ->
  snapshot_key r' = [] \/ useBlobs db = true /\ snapshot_key r' = snapshotKey id (snapshot_seq r') ->
  0 <= snapshot_seq r' < next_seq db ->
  db_ok (folded_db id r' folded db).
Proof.
  intros [K1 K2 K3 K4 K5 K6 K7 K8 K9 K10 K11 K12] Hr Hread Hkey Hseq.
  assert (Hd : forall id', is_Some (documents (folded_db id r' folded db) !! id') <-> is_Some (documents db !! id')).
  { intros id'. cbn. rewrite lookup_insert_is_Some. destruct (decide (id = id')) as [<-|]; [|naive_solver].
    rewrite Hr. split; [done|by left]. }
  assert (Hx : forall (P : UUID -> DocRow -> Prop), P id r' -> (forall id' x, documents db !! id' = Some x -> P id' x) ->
    forall id' x, documents (folded_db id r' folded db) !! id' = Some x -> P id' x).
  { intros P H1 H2 id' x. cbn. intros [[<- <-]|[? ?]]%lookup_insert_Some; auto. }
  split; try done.
  - apply Hx; [|done]. by eapply K1.
  - by apply Hx.
  - apply (Hx (fun i x => ~ lost i -> is_ok (snapshot_read x (folded_db id r' folded db)) = true)); [|done].
    intros _. change (is_ok (snapshot_read r' db) = true). by rewrite Hread.
  - intros id' v H. apply Hd. by apply (K4 id' v).
  - intros id' [m H]. apply Hd. cbn in H. apply lookup_insert_Some in H as [[<- _]|[_ H]]; [by eexists|apply K9; by eexists].
  - intros id' s. rewrite log_of_folded. case_decide; subst; [|by apply K10].
    intros [row H]. apply map_lookup_filter_Some in H as [H _]. apply (K10 id). by eexists.
  - by apply Hx.
Qed.

Lemma folded_view id r r' folded snap db :
  documents db !! id = Some r -> snapshot_read r' db = Ok (Some snap) ->
  owner_id r' = owner_id r -> doc_name r' = doc_name r -> snapshot_seq r' = watermark_of folded ->
  view (folded_db id r' folded db) id = compacted snap folded <$> view db id
  /\ forall id', id' <> id -> view (folded_db id r' folded db) id' = view db id'.
Proof.
  intros Hr Hread Ho Hn Hs. split.
  - unfold view. rewrite log_of_folded, decide_True by done. cbn. rewrite lookup_insert_eq, Hr. cbn.
    unfold compacted. cbn. rewrite Ho, Hn, Hs.
    change (snapshot_read r' (folded_db id r' folded db)) with (snapshot_read r' db). by rewrite Hread.
  - intros id' Hne. unfold view. rewrite log_of_folded, decide_False by done. cbn. by rewrite lookup_insert_ne.
Qed.

Lemma superseded_unnamed id r r' folded db :
  db_ok (folded_db id r' folded db) -> db_ok db -> documents db !! id = Some r ->
  snapshot_key r <> [] -> snapshot_key r <> snapshot_key r' ->
  ~ named (folded_db id r' folded db) (snapshot_key r).
Proof.
  intros Hok' Hok Hr Hne Hk. destruct (ok_key Hok _ _ Hr) as [?|[_ E]]; [done|].
  intros [(id' & x & Hx & Ex)|(id' & v & ver & Hv & Ex)].
  - cbn in Hx. apply lookup_insert_Some in Hx as [[<- <-]|[Hn Hx]]; [congruence|].
    destruct (ok_key Hok _ _ Hx) as [?|[_ E']]; [congruence|]. rewrite Ex, E in E'.
    apply snapshotKey_inj in E' as [? _]; [done|by eapply ok_id..].
  - destruct (ok_vkey Hok' _ _ _ Hv) as [?|(_ & rnd & E')]; [congruence|].
    rewrite Ex, E in E'. by apply snapshot_version_keys in E'.
Qed.

Lemma Compact_fresh f now id snap folded db :
  db_ok db -> uuid_ok id -> folded <> [] -> Forall (fun s => s < next_seq db) folded ->
  (forall r, documents db !! id = Some r -> useBlobs db = true -> snapshot_seq r <> watermark_of folded) ->
  let '(err, db') := Compact deflate f now id snap folded db in
  db_ok db' /\ (forall id', id' <> id -> view db' id' = view db id')
  /\ match err with
     | Some _ => view db' id = view db id
     | None => view db' id = compacted snap folded <$> view db id
               /\ exists r, documents db !! id = Some r /\ snapshot_seq r < watermark_of folded
     end.
Proof.
  intros Hok Hid Hne Hlt Hw. unfold Compact. rewrite decide_False by done.
  assert (watermark_of folded < next_seq db) as Hwm.
  { destruct (watermark_spec folded) as (_ & _ & [->|Hin]).
    - pose proof (ok_next Hok). lia.
    - rewrite Forall_forall in Hlt. by apply Hlt. }
  case_if; [done|]. pose proof (Unpack_Pack_ok deflate inflate snap flate) as Hp.
  destruct (Pack.Pack deflate snap) as [packed codec]. destruct Hp as [Hp _].
  destruct (putBlob _ _ _ _) as [[key db1]|] eqn:Eput; [|done].
  pose proof (snapshotKey_unnamed id (watermark_of folded) db Hok Hid Hw) as Hnn.
  destruct (put_frame _ _ _ _ _ _ Hnn Eput) as (V1 & K1 & Hput). specialize (K1 Hok).
  assert (Ht : documents db1 = documents db /\ next_seq db1 = next_seq db /\ (forall k, named db1 k <-> named db k)).
  { destruct Hput as [(-> & _)|(_ & _ & ->)]; done. }
  destruct Ht as (Td & Tn & Tk).
  assert (Hdrop : forall id', view (dropBlob f key db1) id' = view db id').
  { intros id'. rewrite <- V1. destruct (decide (key = [])) as [->|Hk].
    - unfold dropBlob. by rewrite decide_True.
    - destruct Hput as [(_ & _ & ->)|(_ & -> & _)]; [done|]. apply drop_frame. by rewrite Tk. }
  assert (Hdok : db_ok (dropBlob f key db1)).
  { destruct (decide (key = [])) as [->|Hk]; [unfold dropBlob; by rewrite decide_True|].
    destruct Hput as [(_ & _ & ->)|(_ & -> & _)]; [done|]. apply drop_frame; [by rewrite Tk|done]. }
  destruct (documents db1 !! id) as [r|] eqn:Er; [|done].
  case_if; [done|]. case_if; [done|]. bool_arith. case_if; [done|]. case_if; [done|].
  set (r' := MkDocRow _ _ _ codec key _ _ now). fold (folded_db id r' folded db1).
  assert (Hread : snapshot_read r' db1 = Ok (Some snap)).
  { unfold snapshot_read, readBlob, r'. cbn -[Pack.Unpack].
    destruct Hput as [(-> & _ & ->)|(Hb & -> & ->)].
    - rewrite decide_False by (by intros [[=] _]). rewrite !decide_True by done. cbn -[Pack.Unpack]. by rewrite Hp.
    - rewrite decide_False by (by intros [_ []%snapshotKey_ne]). rewrite decide_False by apply snapshotKey_ne.
      cbn -[Pack.Unpack]. rewrite Hb. cbn -[Pack.Unpack]. rewrite lookup_insert_eq. by rewrite Hp. }
  assert (Hok2 : db_ok (folded_db id r' folded db1)).
  { apply (folded_ok id r r' folded snap db1); try done.
    - destruct Hput as [(-> & _ & ->)|(Hb & -> & ->)]; [by left|by right].
    - cbn. destruct (watermark_spec folded) as [? _]. rewrite Tn. lia. }
  destruct (folded_view id r r' folded snap db1 Er Hread eq_refl eq_refl eq_refl) as [W1 W2].
  rewrite V1 in W1. setoid_rewrite V1 in W2.
  assert (Hex : exists r0, documents db !! id = Some r0 /\ snapshot_seq r0 < watermark_of folded).
  { exists r. by rewrite <- Td. }
  case_decide as E3; [|by split_and!]. destruct E3 as [E3 E4].
  destruct (drop_frame f (snapshot_key r) (folded_db id r' folded db1)) as [X1 X2].
  { by apply (superseded_unnamed id r r'). }
  split_and!; [by apply X2|intros; by rewrite X1, W2|by rewrite X1|done].
Qed.

(** Compacting to the watermark of the stored snapshot, with object storage: the new
    snapshot gets the key of the stored one. *)
Definition repeats (id : UUID) (folded : list Z) (db : Database) : Prop :=
  useBlobs db = true /\ exists r, documents db !! id = Some r /\ snapshot_seq r = watermark_of folded.

#[export] Instance repeats_dec id folded db : Decision (repeats id folded db).
Proof.
  unfold repeats. destruct (documents db !! id) as [r|]; [|right; by intros (_ & r & [=] & _)].
  destruct (decide (useBlobs db = true /\ snapshot_seq r = watermark_of folded)) as [[H1 H2]|H]; [left; eauto|right].
  intros (H1 & r' & [= <-] & H2). tauto.
Defined.

(** The document with another snapshot in place of its own, or none that can be read. *)
Definition resnapped (x : res (option bytes)) (v : DocView) : DocView :=
  MkDocView (vw_owner v) (vw_name v) x (vw_seq v) (vw_log v) (vw_versions v).

(** Changing an object under a snapshot key of [id] shows in the snapshot of [id] only. *)
Lemma objects_lost id w db m :
  db_ok db -> uuid_ok id -> lost id -> (forall k, k <> snapshotKey id w -> m !! k = objects db !! k) ->
  db_ok (set_objects m db) /\ (forall id', id' <> id -> view (set_objects m db) id' = view db id')
  /\ exists x, view (set_objects m db) id = resnapped x <$> view db id.
Proof.
  intros Hok Hid Hl Hm.
  assert (Hs : forall id' r, documents db !! id' = Some r -> id' <> id -> snapshot_read r (set_objects m db) = snapshot_read r db).
  { intros id' r Hr Hne. apply snapshot_read_frame. intros Hk. apply Hm. destruct (ok_key Hok _ _ Hr) as [?|[_ ->]]; [done|].
    intros [? _]%snapshotKey_inj; [done|by eapply (ok_id Hok)|done]. }
  assert (Hv : forall id' v ver, versions_of db id' !! v = Some ver ->
    read (ver_blob_key ver) (ver_payload ver) (ver_codec ver) (set_objects m db)
    = read (ver_blob_key ver) (ver_payload ver) (ver_codec ver) db).
  { intros id' v ver Hr. apply read_frame. intros Hk. apply Hm. destruct (ok_vkey Hok _ _ _ Hr) as [?|(_ & rnd & ->)]; [done|].
    intros E. by apply (snapshot_version_keys id id' w rnd). }
  assert (Hvv : forall id', version_view (set_objects m db) <$> versions_of db id' = version_view db <$> versions_of db id').
  { intros id'. apply map_fmap_ext. intros v ver Hr. unfold version_view. by rewrite (Hv _ _ _ Hr). }
  split_and!.
  - destruct Hok as [K1 K2 K3 K4 K5 K6 K7 K8 K9 K10 K11 K12]. split; try done.
    + intros id' r Hr Hn. rewrite (Hs id'); [by apply (K3 id')|done|by intros ->].
    + intros id' v ver Hr. rewrite (Hv id' v) by done. by apply (K6 id' v).
  - intros id' Hne. unfold view. cbn. destruct (documents db !! id') as [r|] eqn:E; [|done]. cbn.
    rewrite (Hs id') by done. change (versions_of (set_objects m db) id') with (versions_of db id'). by rewrite Hvv.
  - unfold view. cbn. destruct (documents db !! id) as [r|] eqn:E; [|by exists (Ok None)]. cbn.
    change (versions_of (set_objects m db) id) with (versions_of db id). rewrite Hvv. by eexists.
Qed.

(** Such a compaction fails, and at most changes the objects under that key. *)
Lemma Compact_repeats f now id snap folded db :
  folded <> [] -> repeats id folded db ->
  exists e m, Compact deflate f now id snap folded db = (Some e, set_objects m db)
    /\ forall k, k <> snapshotKey id (watermark_of folded) -> m !! k = objects db !! k.
Proof.
  intros Hne (Hb & r & Hr & Hw). unfold Compact. rewrite decide_False by done.
  assert (db = set_objects (objects db) db) as Hself by (by destruct db).
  case_if; [exists ErrDatabase, (objects db); by rewrite <- Hself|]. destruct (Pack.Pack deflate snap) as [packed codec].
  unfold putBlob. rewrite Hb. cbn [negb]. case_if; [eexists _, (objects db); by rewrite <- Hself|].
  set (m := <[snapshotKey id (watermark_of folded) := packed]> (objects db)).
  assert (Hm : forall k, k <> snapshotKey id (watermark_of folded) -> m !! k = objects db !! k).
  { intros k Hk. unfold m. by rewrite lookup_insert_ne. }
  cbn [documents set_objects]. rewrite Hr. case_if; [by exists ErrDatabase, m|].
  rewrite Hw, Z.ltb_irrefl. cbn [negb]. eexists _. unfold dropBlob. rewrite decide_False by done.
  repeat case_if; [by exists m..|]. exists (delete (snapshotKey id (watermark_of folded)) m). split; [done|].
  intros k Hk. rewrite lookup_delete_ne by done. by apply Hm.
Qed.

Lemma Compact_ok f now id snap folded db :
  db_ok db -> uuid_ok id -> folded <> [] -> Forall (fun s => s < next_seq db) folded ->
  (repeats id folded db -> lost id) ->
  let '(err, db') := Compact deflate f now id snap folded db in
  db_ok db' /\ (forall id', id' <> id -> view db' id' = view db id')
  /\ match err with
     | Some _ => view db' id = view db id
                 \/ repeats id folded db /\ exists x, view db' id = resnapped x <$> view db id
     | None => view db' id = compacted snap folded <$> view db id
               /\ exists r, documents db !! id = Some r /\ snapshot_seq r < watermark_of folded
     end.
Proof.
  intros Hok Hid Hne Hf Hl. destruct (decide (repeats id folded db)) as [Hr|Hr].
  - destruct (Compact_repeats f now id snap folded db Hne Hr) as (e & m & -> & Hm).
    destruct (objects_lost id (watermark_of folded) db m Hok Hid (Hl Hr) Hm) as (H1 & H2 & H3). auto.
  - pose proof (Compact_fresh f now id snap folded db Hok Hid Hne Hf) as H. destruct (Compact _ _ _ _ _ _) as [[e|] db'].
    + destruct H as (H1 & H2 & H3); [intros r Hd Hb Hw; apply Hr; split; eauto|auto].
    + apply H. intros r Hd Hb Hw. apply Hr. split; eauto.
Qed.

(** C11. Compaction is all or nothing, whichever of its calls fail.  When it succeeds, the
    document reads as the new snapshot, under a higher watermark than before, and exactly
    the rows it was told to fold are gone from its log; when it fails, the document reads
    as before; other documents always do.  Every blob a row names stays readable.  There
    is one exception: with object storage, a compaction to the watermark of the stored
    snapshot fails but may replace or remove the object of that snapshot, and nothing
    else ([same_watermark_destroys_snapshot] loses it so); [lost] names the documents to
    which that happened. *)
Theorem Compact_all_or_nothing f now id snap folded db :
  db_ok db -> uuid_ok id -> folded <> [] -> Forall (fun s => s < next_seq db) folded ->
  (repeats id folded db -> lost id) ->
  let '(err, db') := Compact deflate f now id snap folded db in
  db_ok db' /\ (forall id', id' <> id -> view db' id' = view db id')
  /\ match err with
     | Some _ => view db' id = view db id
                 \/ repeats id folded db /\ exists x, view db' id = resnapped x <$> view db id
     | None => view db' id = compacted snap folded <$> view db id
               /\ exists r, documents db !! id = Some r /\ snapshot_seq r < watermark_of folded
     end.
Proof. apply Compact_ok. Qed.
End Flate.

(** The tables and keys are in order, whatever happened to the snapshots. *)
Notation db_ok inflate := (db_ok_but inflate (fun _ => True)).

Arguments ok_id _ {_} _ _ _ _ _.
Arguments ok_key _ {_} _ _ _ _ _.
Arguments ok_snap _ {_} _ _ _ _ _ _.
Arguments ok_vdoc _ {_} _ _ _ _ _.
Arguments ok_vkey _ {_} _ _ _ _ _ _.
Arguments ok_vread _ {_} _ _ _ _ _ _.
Arguments ok_vdistinct _ {_} _ _ _ _ _ _ _ _ _ _ _.
Arguments ok_vnext _ {_} _ _ _ _ _.
Arguments ok_log _ {_} _ _ _ _.
Arguments ok_seq _ {_} _ _ _ _ _.
Arguments ok_wm _ {_} _ _ _ _ _.
Arguments ok_next _ {_} _ _.

(** Only a document with a row has versions. *)
Lemma no_row_no_versions inflate lost db id :
  db_ok_but inflate lost db -> documents db !! id = None -> versions_of db id = ∅.
Proof.
  intros Hok Hd. apply map_empty. intros v. apply eq_None_not_Some. intros H.
  destruct (ok_vdoc _ _ Hok id v H) as [r Hr]. congruence.
Qed.

(** ** Two replicas and one document *)

Definition empty_db (blobs : bool) : Database := MkDatabase ∅ ∅ ∅ 1 1 ∅ blobs.
Definition demo_id : UUID := documentNamespace.

(** A document with the updates [payloads] in its log. *)
Definition demo_db (blobs : bool) (payloads : list bytes) : Database :=
  match Ensure no_faults 0 demo_id [110] NilUUID (empty_db blobs) with
  | Ok (_, db) => (Append no_faults 0 demo_id payloads db).2
  | Err _ => empty_db blobs
  end.
Definition demo_compact (snap : bytes) (folded : list Z) (db : Database) : option GoError * Database :=
  Compact toy_deflate no_faults 5 demo_id snap folded db.
Definition demo_load (db : Database) : res (option bytes * list bytes) :=
  '(d, _) ← LoadAny toy_inflate no_faults 6 demo_id db; Ok (Snapshot d, Updates d).

(** Two replicas that loaded the same rows compact under the same watermark, hence
    under the same object key.  The second is told its snapshot is stale, and deletes
    the object the first one's row names: the document can no longer be read. *)
Example same_watermark_destroys_snapshot :
  let db := demo_db true [[7]; [8]] in
  let '(first, db1) := demo_compact [7; 8] [1; 2] db in
  let '(second, db2) := demo_compact [7; 8] [1; 2] db1 in
  first = None /\ demo_load db1 = Ok (Some [7; 8], [])
  /\ second = Some ErrStaleSnapshot /\ demo_load db2 = Err ErrObject.
Proof. vm_compute. split_and!; reflexivity. Qed.

(** A replica whose rows have higher numbers replaces the snapshot of another one,
    although its own does not contain what the other had folded: update [7] is gone. *)
Example later_watermark_overwrites_snapshot :
  let db := demo_db false [[7]; [8]] in
  let '(first, db1) := demo_compact [7] [1] db in
  let '(second, db2) := demo_compact [8] [2] db1 in
  first = None /\ demo_load db1 = Ok (Some [7], [[8]])
  /\ second = None /\ demo_load db2 = Ok (Some [8], []).
Proof. vm_compute. split_and!; reflexivity. Qed.
