(* ===== verification/StoreLog.v ===== *)
(** * The log, ownership and the life of a store

    Appending and loading, who a document is shown to, and the invariant of the tables
    and the bucket over every operation and every pattern of failures. *)

From S2P Require Import Prelude Uuid Pack Store StoreProps.

(** ** The log *)

Lemma keys_desc_insert {A} (m : gmap Z A) k x :
  (forall j, is_Some (m !! j) -> j < k) -> keys_desc (<[k := x]> m) = k :: keys_desc m.
Proof.
  intros Hk.
  apply (StronglySorted_unique_strong Z.gt); [lia|apply keys_desc_sorted| |].
  - constructor; [apply keys_desc_sorted|]. rewrite Forall_forall. intros j Hj%elem_of_keys_desc.
    apply Hk in Hj. lia.
  - rewrite keys_desc_perm, map_to_list_insert; [cbn; by rewrite keys_desc_perm|].
    destruct (m !! k) eqn:E; [|done]. specialize (Hk k ltac:(by eexists)). lia.
Qed.

Lemma omap_ext_in {A B} (f g : A -> option B) (l : list A) :
  (forall x, x ∈ l -> f x = g x) -> omap f l = omap g l.
Proof.
  induction l as [|x l IH]; intros H; [done|]. cbn. rewrite (H x) by (by left).
  rewrite IH; [done|]. intros y Hy. apply H. by right.
Qed.

Lemma elem_of_asc {A} (m : gmap Z A) k : k ∈ asc m <-> is_Some (m !! k).
Proof. unfold asc. rewrite list_elem_of_In, <- in_rev, <- list_elem_of_In. apply elem_of_keys_desc. Qed.

Lemma rows_insert {A} (m : gmap Z A) k x :
  (forall j, is_Some (m !! j) -> j < k) -> rows (<[k := x]> m) = rows m ++ [(k, x)].
Proof.
  intros Hk. unfold rows, asc. rewrite keys_desc_insert by done. cbn. rewrite omap_app. cbn.
  rewrite lookup_insert_eq. cbn. f_equal. apply omap_ext_in.
  intros j Hj. rewrite lookup_insert_ne; [done|]. intros <-.
  apply elem_of_asc, Hk in Hj. lia.
Qed.

Lemma insert_rows_lookup now ps : forall seq (m : gmap Z LogRow) j,
  is_Some (insert_rows now seq ps m !! j) <-> is_Some (m !! j) \/ seq <= j < seq + Z.of_nat (length ps).
Proof.
  induction ps as [|p ps IH]; intros seq m j; cbn [insert_rows length]; [split; [by left|intros [?|?]; [done|lia]]|].
  rewrite IH, lookup_insert_is_Some. destruct (decide (seq = j)) as [->|Hj]; [|naive_solver lia].
  split; [right; lia|]. intros _. by left; left.
Qed.

Lemma rows_insert_rows now ps : forall seq (m : gmap Z LogRow),
  (forall j, is_Some (m !! j) -> j < seq) ->
  rows (insert_rows now seq ps m) = rows m ++ zip (seqZ seq (Z.of_nat (length ps))) (map (fun p => MkLogRow p now) ps).
Proof.
  induction ps as [|p ps IH]; intros seq m Hm; cbn [insert_rows length map]; [by rewrite app_nil_r|].
  rewrite IH.
  - rewrite rows_insert by done. rewrite <- app_assoc. f_equal.
    rewrite (seqZ_cons seq) by lia. cbn. f_equal. f_equal. f_equal; lia.
  - intros j [<-|[_ Hj]]%lookup_insert_is_Some; [lia|]. apply Hm in Hj. lia.
Qed.

Section Flate.
Context (inflate : bytes -> option bytes).
#[local] Notation view := (view inflate).
Context {lost : UUID -> Prop}.
#[local] Notation db_ok := (db_ok_but inflate lost).

(** What a load returns, in terms of the view. *)
Definition loaded (v : DocView) : res Document :=
  s ← vw_snapshot v;
  let log := rows (vw_log v) in
  Ok (MkDocument s (vw_seq v) (map (fun x => log_payload x.2) log) log.*1
        (foldl (fun last seq => if last <? seq then seq else last) (vw_seq v) log.*1) (vw_owner v)).

Lemma read_document_view id r db v :
  documents db !! id = Some r -> view db id = Some v -> read_document inflate no_faults id r db = loaded v.
Proof.
  intros Hr Hv. unfold StoreProps.view in Hv. rewrite Hr in Hv. cbn in Hv. injection Hv as <-.
  unfold read_document, loaded, snapshot_read. cbn. case_decide; [done|].
  by destruct (readBlob _ _ _ _ _ _).
Qed.

Lemma LoadAny_view now id db :
  LoadAny inflate no_faults now id db =
  match view db id with
  | Some v => d ← loaded v; Ok (d, db)
  | None => Ok (MkDocument None 0 [] [] 0 NilUUID, db)
  end.
Proof.
  unfold LoadAny, load. cbn. destruct (documents db !! id) as [r|] eqn:E.
  - destruct (view db id) as [v|] eqn:Ev; [|unfold StoreProps.view in Ev; by rewrite E in Ev].
    by rewrite (read_document_view _ _ _ _ E Ev).
  - unfold StoreProps.view. by rewrite E.
Qed.

(** The document after an append. *)
Definition appended (now seq : Z) (payloads : list bytes) (v : DocView) : DocView :=
  MkDocView (vw_owner v) (vw_name v) (vw_snapshot v) (vw_seq v)
    (insert_rows now seq payloads (vw_log v)) (vw_versions v).

Lemma log_of_insert id m n db id' :
  log_of (set_updates (<[id := m]> (doc_updates db)) n db) id' = if decide (id' = id) then m else log_of db id'.
Proof. unfold log_of. cbn. case_decide; subst; [by rewrite lookup_insert_eq|by rewrite lookup_insert_ne]. Qed.

(** Appending never loses a row: it adds all of them, or, when the statement failed or
    the document is gone, none; a result that could not be read back is reported as a
    failure although the rows are there. *)
Lemma Append_ok f now id payloads db :
  db_ok db ->
  let '(out, db') := Append f now id payloads db in
  db_ok db' /\ (forall id', id' <> id -> view db' id' = view db id')
  /\ (view db' id = view db id /\ is_ok out = false \/ payloads = [] /\ db' = db /\ out = Ok []
      \/ view db' id = appended now (next_seq db) payloads <$> view db id /\ is_Some (view db id)
         /\ next_seq db' = next_seq db + Z.of_nat (length payloads)
         /\ (out = Err ErrDatabase \/ out = Ok (seqZ (next_seq db) (Z.of_nat (length payloads))))).
Proof.
  intros Hok. unfold Append. destruct payloads as [|p ps]; [by split_and!; auto|].
  set (ps' := p :: ps). case_if; [by split_and!; auto|].
  destruct (documents db !! id) as [r|] eqn:Er; [|by split_and!; auto].
  set (db' := set_updates _ _ db).
  assert (H1 : db_ok db').
  { destruct Hok as [K1 K2 K3 K4 K5 K6 K7 K8 K9 K10 K11 K12]. split; try done.
    - intros id' H. cbn in H |- *. apply lookup_insert_is_Some in H as [<-|[_ H]]; [by eexists|by apply K9].
    - intros id' s. unfold db'. rewrite log_of_insert. cbn [next_seq set_updates].
      case_decide; subst; [rewrite insert_rows_lookup|]; intros Hs.
      + destruct Hs as [Hs|Hs]; [apply K10 in Hs|]; lia.
      + apply K10 in Hs. lia.
    - intros id' x H. apply K11 in H. cbn. lia.
    - cbn. lia. }
  assert (H2 : forall id', id' <> id -> view db' id' = view db id').
  { intros id' Hne. unfold StoreProps.view, db'. rewrite log_of_insert, decide_False by done. done. }
  assert (H3 : view db' id = appended now (next_seq db) ps' <$> view db id).
  { unfold StoreProps.view, db'. rewrite log_of_insert, decide_True by done. cbn. by rewrite Er. }
  assert (H4 : is_Some (view db id)) by (unfold StoreProps.view; rewrite Er; by eexists).
  case_if; (split_and!; [done..|]; right; right; split_and!; auto).
Qed.

(** ** Rows *)

(** A document row replaced by one whose blob and position are the same, or a new one. *)
Lemma set_row_ok id r db :
  db_ok db -> uuid_ok id ->
  (documents db !! id = None /\ snapshot r = None /\ snapshot_key r = [] /\ snapshot_seq r = 0
   \/ exists r0, documents db !! id = Some r0 /\ snapshot r = snapshot r0 /\ snapshot_key r = snapshot_key r0
        /\ snapshot_codec r = snapshot_codec r0 /\ snapshot_seq r = snapshot_seq r0) ->
  db_ok (set_documents (<[id := r]> (documents db)) db).
Proof.
  intros [K1 K2 K3 K4 K5 K6 K7 K8 K9 K10 K11 K12] Hid Hr.
  assert (Hd : forall id', is_Some (documents db !! id') -> is_Some (<[id := r]> (documents db) !! id')).
  { intros id' H. rewrite lookup_insert_is_Some. destruct (decide (id = id')); auto. }
  assert (Hx : forall (P : UUID -> DocRow -> Prop), P id r -> (forall id' x, documents db !! id' = Some x -> P id' x) ->
    forall id' x, <[id := r]> (documents db) !! id' = Some x -> P id' x).
  { intros P H1 H2 id' x [[<- <-]|[? ?]]%lookup_insert_Some; auto. }
  split; try done; cbn [documents set_documents].
  - by apply Hx.
  - apply Hx; [|done]. destruct Hr as [(_ & _ & -> & _)|(r0 & H0 & _ & -> & _ & ->)]; [by left|by apply K2].
  - apply (Hx (fun i x => ~ lost i -> is_ok (snapshot_read inflate x db) = true)); [|done]. intros Hl.
    destruct Hr as [(_ & H1 & H2 & _)|(r0 & H0 & H1 & H2 & H3 & _)].
    + unfold snapshot_read. by rewrite decide_True by done.
    + unfold snapshot_read. rewrite H1, H2, H3. apply (K3 id r0 H0 Hl).
  - intros id' v H. by apply Hd, (K4 id' v).
  - intros id' H. by apply Hd, K9.
  - apply (Hx (fun _ x => 0 <= snapshot_seq x < next_seq db)); [|done].
    destruct Hr as [(_ & _ & _ & ->)|(r0 & H0 & _ & _ & _ & ->)]; [lia|by apply (K11 id)].
Qed.

Lemma view_set_row id r db id' :
  view (set_documents (<[id := r]> (documents db)) db) id' =
  if decide (id' = id) then
    Some (MkDocView (owner_id r) (doc_name r) (snapshot_read inflate r db) (snapshot_seq r)
            (log_of db id) (version_view inflate db <$> versions_of db id))
  else view db id'.
Proof.
  unfold StoreProps.view. cbn. case_decide; subst; [by rewrite lookup_insert_eq|by rewrite lookup_insert_ne].
Qed.

(** A new document. *)
Definition fresh_view (owner : UUID) (name : bytes) : DocView := MkDocView owner name (Ok None) 0 ∅ ∅.

Lemma ensureIn_ok f now id name owner db found db' :
  db_ok db -> uuid_ok id -> ensureIn f now id name owner db = Ok (found, db') ->
  let v := default (fresh_view owner name) (view db id) in
  db_ok db' /\ (forall id', id' <> id -> view db' id' = view db id') /\ view db' id = Some v /\ found = vw_owner v
  /\ next_seq db' = next_seq db.
Proof.
  intros Hok Hid. unfold ensureIn. case_if; [done|].
  destruct (documents db !! id) as [r|] eqn:Er; case_if; try done.
  - rewrite Er. intros [= <- <-].
    destruct (view db id) as [v|] eqn:Ev; unfold StoreProps.view in Ev; rewrite Er in Ev; [|done].
    cbn in Ev. injection Ev as <-. by split_and!.
  - cbn [documents set_documents]. rewrite lookup_insert_eq. intros [= <- <-]. cbn [owner_id new_row].
    assert (log_of db id = ∅ /\ versions_of db id = ∅) as [Hl Hv].
    { split; [|by eapply no_row_no_versions]. unfold log_of.
      destruct (doc_updates db !! id) eqn:E'; [|done]. destruct (ok_log _ _ Hok id) as [x Hx]; [by eexists|]. congruence. }
    split_and!.
    + apply set_row_ok; [done..|]. by left.
    + intros id' Hne. rewrite view_set_row. by rewrite decide_False.
    + rewrite view_set_row, decide_True by done. unfold StoreProps.view. rewrite Er, Hl, Hv, fmap_empty. cbn.
      unfold snapshot_read. by rewrite decide_True.
    + unfold StoreProps.view. by rewrite Er.
    + done.
Qed.

Lemma view_owner db id v : view db id = Some v -> exists r, documents db !! id = Some r /\ owner_id r = vw_owner v.
Proof. unfold StoreProps.view. destruct (documents db !! id); [|done]. intros [= <-]. eauto. Qed.

(** ** Dropping blobs *)

Lemma dropBlobs_frame f keys : forall db,
  (forall k, k ∈ keys -> ~ named db k) ->
  (forall id, view (dropBlobs f keys db) id = view db id) /\ (db_ok db -> db_ok (dropBlobs f keys db))
  /\ (forall k, named (dropBlobs f keys db) k <-> named db k)
  /\ next_seq (dropBlobs f keys db) = next_seq db.
Proof.
  induction keys as [|k keys IH]; intros db Hk; [done|].
  change (dropBlobs f (k :: keys) db) with (dropBlobs f keys (dropBlob f k db)).
  destruct (drop_frame (lost := lost) inflate f k db) as [H1 H2]; [apply Hk; by left|].
  assert (Hn : (forall k', named (dropBlob f k db) k' <-> named db k') /\ next_seq (dropBlob f k db) = next_seq db).
  { unfold dropBlob. case_decide; [done|]. by repeat case_if. }
  destruct Hn as [Hn Hs]. destruct (IH (dropBlob f k db)) as (H3 & H4 & H5 & H6).
  { intros k' Hk'. rewrite Hn. apply Hk. by right. }
  split_and!; [intros id; by rewrite H3|auto|intros k'; by rewrite H5|by rewrite H6].
Qed.

Lemma version_key_exists db id rnd : db_ok db -> named db (versionKey id rnd) -> is_Some (objects db !! versionKey id rnd).
Proof.
  intros Hok [(id' & r & Hr & Hk)|(id' & v & ver & Hv & Hk)].
  - destruct (ok_key _ _ Hok _ _ Hr) as [E|[_ E]]; rewrite Hk in E; [done|]. by destruct (snapshot_version_keys id' id (snapshot_seq r) rnd).
  - pose proof (ok_vread _ _ Hok _ _ _ Hv) as H. unfold readBlob in H. rewrite Hk in H.
    rewrite decide_False in H by done. destruct (useBlobs db); [|done]. cbn in H.
    destruct (objects db !! _); [by eexists|done].
Qed.

(** ** Deleting *)

Lemma delete_document_lookup id db id' :
  documents (delete_document id db) !! id' = (if decide (id' = id) then None else documents db !! id')
  /\ log_of (delete_document id db) id' = (if decide (id' = id) then ∅ else log_of db id')
  /\ versions_of (delete_document id db) id' = (if decide (id' = id) then ∅ else versions_of db id').
Proof.
  unfold log_of, versions_of. cbn. case_decide; subst; [by rewrite !lookup_delete_eq|by rewrite !lookup_delete_ne].
Qed.

Lemma delete_document_ok id db : db_ok db -> db_ok (delete_document id db).
Proof.
  intros [K1 K2 K3 K4 K5 K6 K7 K8 K9 K10 K11 K12].
  assert (Hd : forall id' r, documents (delete_document id db) !! id' = Some r -> documents db !! id' = Some r).
  { intros id' r H. destruct (delete_document_lookup id db id') as [E _]. rewrite E in H. by case_decide. }
  assert (Hl : forall id' j, is_Some (log_of (delete_document id db) id' !! j) -> is_Some (log_of db id' !! j)).
  { intros id' j. destruct (delete_document_lookup id db id') as (_ & -> & _). case_decide; [|done].
    rewrite lookup_empty. by intros []. }
  assert (Hv : forall id' j x, versions_of (delete_document id db) id' !! j = Some x -> versions_of db id' !! j = Some x).
  { intros id' j x. destruct (delete_document_lookup id db id') as (_ & _ & ->). case_decide; [|done].
    by rewrite lookup_empty. }
  assert (Hs : forall (m : gmap UUID DocRow) id', is_Some (delete id m !! id') <-> id <> id' /\ is_Some (m !! id'))
    by (intros; apply lookup_delete_is_Some).
  split; try done; eauto.
  - intros id' v [x H]. destruct (delete_document_lookup id db id') as (E1 & _ & E2). rewrite E1. rewrite E2 in H.
    case_decide; [by rewrite lookup_empty in H|]. apply (K4 id' v). by eexists.
  - intros id' j [x Hx]. apply Hv in Hx. apply (K8 id'). by eexists.
  - intros id' (x & H). cbn in *. apply lookup_delete_Some in H as [Hne H]. apply Hs. split; [done|]. apply K9. by eexists.
Qed.

Lemma delete_document_view id db id' :
  view (delete_document id db) id' = if decide (id' = id) then None else view db id'.
Proof.
  unfold StoreProps.view. destruct (delete_document_lookup id db id') as (-> & -> & ->). by case_decide.
Qed.

(** A row of document [id] names [k]. *)
Definition names (db : Database) (id : UUID) (k : bytes) : Prop :=
  (exists r, documents db !! id = Some r /\ snapshot_key r = k)
  \/ exists v ver, versions_of db id !! v = Some ver /\ ver_blob_key ver = k.

Lemma named_names db k : named db k <-> exists id, names db id k.
Proof.
  clear inflate. unfold named, names. split.
  - intros [(id & H)|(id & H)]; eauto.
  - intros (id & [H|H]); eauto.
Qed.

Lemma names_shape db id k :
  db_ok db -> names db id k -> k <> [] ->
  uuid_ok id /\ ((exists s, k = snapshotKey id s) \/ exists rnd, k = versionKey id rnd).
Proof.
  intros Hok [(r & Hr & <-)|(v & ver & Hv & <-)] Hk.
  - split; [by eapply ok_id|]. destruct (ok_key _ _ Hok _ _ Hr) as [?|[_ ?]]; [done|left; by eexists].
  - split; [|destruct (ok_vkey _ _ Hok _ _ _ Hv) as [?|(_ & rnd & ?)]; [done|right; by exists rnd]].
    destruct (ok_vdoc _ _ Hok id v) as [y Hy]; [by eexists|]. by eapply ok_id.
Qed.

(** No key is named by two documents. *)
Lemma names_unique db id id' k : db_ok db -> names db id k -> names db id' k -> k <> [] -> id = id'.
Proof.
  intros Hok H H' Hk. destruct (names_shape _ _ _ Hok H Hk) as [Hi S], (names_shape _ _ _ Hok H' Hk) as [Hi' S'].
  destruct S as [[s E]|[rnd E]], S' as [[s' E']|[rnd' E']]; rewrite E in E'.
  - by apply snapshotKey_inj in E' as [? _].
  - by apply snapshot_version_keys in E'.
  - symmetry in E'. by apply snapshot_version_keys in E'.
  - by apply versionKey_inj in E'.
Qed.

Lemma elem_of_version_keys (m : gmap Z VersionRow) k :
  k ∈ version_keys m -> k <> [] /\ exists v ver, m !! v = Some ver /\ ver_blob_key ver = k.
Proof.
  unfold version_keys. intros [Hk Hin]%list_elem_of_filter. split; [done|].
  apply list_elem_of_fmap in Hin as ([v ver] & -> & Hin%elem_of_map_to_list). by exists v, ver.
Qed.

Lemma names_deleted id db id' k : names (delete_document id db) id' k -> id' <> id /\ names db id' k.
Proof.
  unfold names. destruct (delete_document_lookup id db id') as (-> & _ & ->). case_decide; [|done].
  intros [(r & ? & _)|(v & ver & Hv & _)]; [done|]. by rewrite lookup_empty in Hv.
Qed.

Lemma deleted_unnamed id db k : db_ok db -> names db id k -> k <> [] -> ~ named (delete_document id db) k.
Proof.
  intros Hok H Hk [id' [Hne H']%names_deleted]%named_names. apply Hne. by eapply names_unique.
Qed.

Lemma Delete_ok f id db :
  db_ok db ->
  let '(out, db') := Delete f id db in
  db_ok db' /\ (forall id', id' <> id -> view db' id' = view db id')
  /\ match out with
     | Ok true => view db' id = None
     | _ => db' = db
     end.
Proof.
  intros Hok. unfold Delete. destruct (blobKeysFor _ _ _) as [keys|] eqn:Ek; [|done].
  case_if; [done|]. destruct (documents db !! id) as [r|] eqn:Er; [|done].
  destruct (dropBlobs_frame f keys (delete_document id db)) as (H1 & H2 & _).
  { intros k Hk. unfold blobKeysFor in Ek. case_if; [simplify_eq; by apply elem_of_nil in Hk|].
    case_if; [done|]. simplify_eq. rewrite Er in Hk. apply elem_of_app in Hk as [Hk|Hk].
    - apply list_elem_of_filter in Hk as [Hne ->%list_elem_of_singleton]. apply deleted_unnamed; [done| |done].
      left. by exists r.
    - apply elem_of_version_keys in Hk as [Hne Hk]. apply deleted_unnamed; [done| |done]. by right. }
  split_and!; [by apply H2, delete_document_ok|intros id' Hne; by rewrite H1, delete_document_view, decide_False|].
  by rewrite H1, delete_document_view, decide_True.
Qed.

(** Several documents deleted at once. *)
Lemma delete_documents_ok l : forall db,
  let db' := foldl (fun db (x : UUID * DocRow) => delete_document x.1 db) db l in
  (db_ok db -> db_ok db') /\ (forall id, view db' id = if decide (id ∈ l.*1) then None else view db id)
  /\ (forall id k, names db' id k -> id ∉ l.*1 /\ names db id k) /\ next_seq db' = next_seq db.
Proof.
  induction l as [|x l IH]; intros db; cbn [foldl fmap list_fmap].
  { split_and!; [done| |intros; split; [apply not_elem_of_nil|done]|done]. intros id. by rewrite decide_False by apply not_elem_of_nil. }
  destruct (IH (delete_document x.1 db)) as (H1 & H2 & H3 & H4). split_and!.
  - intros Hok. by apply H1, delete_document_ok.
  - intros id. rewrite H2, delete_document_view. change (list_fmap _ _ fst l) with l.*1.
    repeat case_decide; set_solver.
  - intros id k H. apply H3 in H as [Hn [Hne H]%names_deleted]. split; [|done]. change (list_fmap _ _ fst l) with l.*1. set_solver.
  - by rewrite H4.
Qed.

Lemma DeleteIdle_ok f before db :
  db_ok db ->
  let '(out, db') := DeleteIdle f before db in
  db_ok db'
  /\ ((forall id, view db' id = view db id) /\ is_ok out = false
      \/ forall id, view db' id = match documents db !! id with
                               | Some r => if idle before db id r then None else view db id
                               | None => None
                               end).
Proof.
  intros Hok. unfold DeleteIdle. case_if; [by split; auto|]. case_if; [by split; auto|].
  set (gone := idle_documents before db). set (db' := foldl _ db gone).
  destruct (delete_documents_ok gone db) as (H1 & H2 & H3 & _). fold db' in H1, H2, H3.
  assert (Hview : forall id, view db' id = match documents db !! id with
    Some r => if idle before db id r then None else view db id | None => None end).
  { intros id. rewrite H2. destruct (documents db !! id) as [r|] eqn:Er.
    - assert (id ∈ gone.*1 <-> idle before db id r = true) as Hi.
      { rewrite list_elem_of_fmap. split.
        - intros ([id' r'] & -> & [Hi Hin%elem_of_map_to_list]%list_elem_of_filter). cbn in *. congruence.
        - intros Hi. exists (id, r). split; [done|]. apply list_elem_of_filter. by rewrite elem_of_map_to_list. }
      case_decide as Hd; [rewrite (proj1 Hi Hd)|destruct (idle before db id r); [by destruct Hd; apply Hi|]]; done.
    - unfold StoreProps.view. rewrite Er. by case_decide. }
  assert (Hun : forall k id, id ∈ gone.*1 -> names db id k -> k <> [] -> ~ named db' k).
  { intros k id Hin Hnm Hk [id' [Hni Hn']%H3]%named_names. apply Hni.
    by rewrite <- (names_unique _ _ _ _ Hok Hnm Hn' Hk). }
  case_if; [split; [by apply H1|by right]|].
  destruct (dropBlobs_frame f (filter (fun k => k <> []) (map (fun x => snapshot_key x.2) gone)) db') as (D1 & D2 & D3 & _).
  { intros k [Hk Hin]%list_elem_of_filter. apply list_elem_of_fmap in Hin as ([id r] & -> & Hin). cbn in *.
    apply (Hun _ id); [apply list_elem_of_fmap; by exists (id, r)| |done]. left. exists r. split; [|done].
    apply list_elem_of_filter in Hin as [_ Hin]. by apply elem_of_map_to_list in Hin. }
  edestruct (dropBlobs_frame f (if useBlobs db then gone ≫= (fun x => version_keys (versions_of db x.1)) else []))
    as (F1 & F2 & _).
  2: { split; [apply F2, D2, H1, Hok|]. right. intros id. by rewrite F1, D1. }
  intros k Hk. rewrite D3. destruct (useBlobs db); [|by apply elem_of_nil in Hk].
  apply list_elem_of_bind in Hk as ([id r] & Hk & Hin). apply elem_of_version_keys in Hk as [Hk Hv].
  apply (Hun _ id); [apply list_elem_of_fmap; by exists (id, r)| |done]. by right.
Qed.
End Flate.
