(* ===== verification/StoreLife.v ===== *)
(** * Versions, and the life of a store

    The history operations, and the invariant of the tables and the bucket over every
    sequence of operations and every pattern of failures. *)

From S2P Require Import Prelude Uuid Pack Store StoreProps StoreLog.

Section Flate.
Context (deflate inflate : bytes -> option bytes).
Hypothesis flate : forall x y, deflate x = Some y -> inflate y = Some x.
#[local] Notation view := (view inflate).
Context {lost : UUID -> Prop}.
#[local] Notation db_ok := (db_ok_but inflate lost).

Lemma versions_of_insert id m n db id' :
  versions_of (set_versions (<[id := m]> (doc_versions db)) n db) id'
  = if decide (id' = id) then m else versions_of db id'.
Proof. unfold versions_of. cbn. case_decide; subst; [by rewrite lookup_insert_eq|by rewrite lookup_insert_ne]. Qed.

(** The versions of one document replaced. *)
Lemma set_versions_ok id (m : gmap Z VersionRow) n db :
  db_ok db -> (m <> ∅ -> is_Some (documents db !! id)) -> next_version db <= n ->
  (forall v ver, m !! v = Some ver ->
     v < n
     /\ (ver_blob_key ver = [] \/ useBlobs db = true /\ exists rnd, ver_blob_key ver = versionKey id rnd)
     /\ is_ok (readBlob inflate no_faults (ver_blob_key ver) (ver_payload ver) (ver_codec ver) db) = true) ->
  (forall v v' ver ver', m !! v = Some ver -> m !! v' = Some ver' ->
     ver_blob_key ver = ver_blob_key ver' -> ver_blob_key ver <> [] -> v = v') ->
  db_ok (set_versions (<[id := m]> (doc_versions db)) n db).
Proof.
  intros [K1 K2 K3 K4 K5 K6 K7 K8 K9 K10 K11 K12] Hd Hn Hm Hm2.
  assert (Hx : forall (P : UUID -> Z -> VersionRow -> Prop),
    (forall v ver, m !! v = Some ver -> P id v ver) ->
    (forall id' v ver, versions_of db id' !! v = Some ver -> P id' v ver) ->
    forall id' v ver, versions_of (set_versions (<[id := m]> (doc_versions db)) n db) id' !! v = Some ver -> P id' v ver).
  { intros P H1 H2 id' v ver. rewrite versions_of_insert. case_decide; subst; auto. }
  split; try done.
  - intros id' v [ver H]. revert H. apply (Hx (fun i _ _ => is_Some (documents db !! i))).
    + intros w x H. apply Hd. by intros ->.
    + intros id0 w x H. apply (K4 id0 w). by eexists.
  - apply Hx; [|done]. intros v ver H. by apply Hm in H as (_ & ? & _).
  - apply (Hx (fun _ _ ver => is_ok (readBlob inflate no_faults (ver_blob_key ver) (ver_payload ver) (ver_codec ver) db) = true)); [|done].
    intros v ver H. by apply Hm in H as (_ & _ & ?).
  - intros id' v v' ver ver'. rewrite versions_of_insert. case_decide; subst; [by apply Hm2|by apply K7].
  - intros id' v [ver H]. revert H. apply (Hx (fun _ v _ => v < n)).
    + intros w x H. by apply Hm in H as [? _].
    + intros id0 w x H. assert (w < next_version db) by (apply (K8 id0); by eexists). lia.
Qed.

Lemma view_set_versions id m n db id' :
  view (set_versions (<[id := m]> (doc_versions db)) n db) id' =
  if decide (id' = id) then
    (fun v => MkDocView (vw_owner v) (vw_name v) (vw_snapshot v) (vw_seq v) (vw_log v) (version_view inflate db <$> m))
      <$> view db id
  else view db id'.
Proof.
  unfold StoreProps.view. rewrite versions_of_insert. cbn. case_decide; subst; [|done].
  by destruct (documents db !! id).
Qed.

(** The document with one more version. *)
Definition versioned (v : Z) (now : Z) (sv label payload : bytes) (d : DocView) : DocView :=
  MkDocView (vw_owner d) (vw_name d) (vw_snapshot d) (vw_seq d) (vw_log d)
    (<[v := MkVersionView now sv label (Ok payload)]> (vw_versions d)).

Lemma SaveVersion_ok f now rnd id sv payload label minAge db :
  db_ok db -> uuid_ok id -> objects db !! versionKey id rnd = None ->
  let '(out, db') := SaveVersion deflate f now rnd id sv payload label minAge db in
  db_ok db' /\ (forall id', id' <> id -> view db' id' = view db id') /\ next_seq db' = next_seq db
  /\ match out with
     | Ok true => says_nothing_new now minAge sv (versions_of db id) = false
                  /\ view db' id = versioned (next_version db) now sv label payload <$> view db id /\ is_Some (view db id)
     | Ok false => (view db id = None \/ says_nothing_new now minAge sv (versions_of db id) = true) /\ view db' id = view db id
     | Err _ => view db' id = view db id
     end.
Proof.
  intros Hok Hid Hfresh. unfold SaveVersion. case_decide; [done|]. case_if; [done|].
  pose proof (Unpack_Pack_ok deflate inflate payload flate) as Hp.
  destruct (Pack.Pack deflate payload) as [packed codec]. destruct Hp as [Hp _].
  destruct (putVersionBlob _ _ _ _ _) as [[key db1]|] eqn:Eput; [|done].
  assert (Hnn : ~ named db (versionKey id rnd)).
  { intros Hn. destruct (version_key_exists inflate _ _ _ Hok Hn) as [x Hx]. congruence. }
  assert (Eput' : putBlob f (versionKey id rnd) packed db = Ok (key, db1)).
  { unfold putVersionBlob, putBlob in *. by destruct (useBlobs db). }
  destruct (put_frame (lost := lost) inflate _ _ _ _ _ _ Hnn Eput') as (V1 & K1 & Hput). specialize (K1 Hok). clear Eput Eput'.
  assert (Ht : documents db1 = documents db /\ (forall id, versions_of db1 id = versions_of db id)
    /\ next_seq db1 = next_seq db /\ next_version db1 = next_version db /\ (forall k, named db1 k <-> named db k)).
  { destruct Hput as [(-> & _)|(_ & _ & ->)]; done. }
  destruct Ht as (Td & Tv & Tn & Tm & Tk).
  assert (Hdrop : db_ok (dropBlob f key db1) /\ (forall id', view (dropBlob f key db1) id' = view db id')
    /\ next_seq (dropBlob f key db1) = next_seq db).
  { assert (next_seq (dropBlob f key db1) = next_seq db1) as ->
      by (unfold dropBlob; case_decide; [done|]; by repeat case_if).
    destruct (decide (key = [])) as [->|Hk].
    - unfold dropBlob. rewrite decide_True by done. by split_and!.
    - destruct Hput as [(_ & _ & ->)|(_ & -> & _)]; [done|].
      destruct (drop_frame (lost := lost) inflate f (versionKey id rnd) db1) as [D1 D2]; [by rewrite Tk|].
      split_and!; [auto|intros; by rewrite D1|done]. }
  destruct Hdrop as (Hd1 & Hd2 & Hd3).
  case_if; [by split_and!|]. rewrite Tv. destruct (bool_decide _ || _) eqn:E0.
  { assert (Hnothing : view db id = None \/ says_nothing_new now minAge sv (versions_of db id) = true).
    { apply orb_true_iff in E0 as [E0|E0]; [left|by right]. apply bool_decide_eq_true in E0.
      unfold StoreProps.view. by rewrite <- Td, E0. }
    case_if; by split_and!. }
  apply orb_false_iff in E0 as [E0 E1]. apply bool_decide_eq_false in E0.
  destruct (documents db1 !! id) as [r|] eqn:Er; [|done].
  case_if; [by split_and!|]. clear E0.
  set (row := MkVersionRow _ _ _ _ _ _ _).
  assert (Hread : readBlob inflate no_faults (ver_blob_key row) (ver_payload row) (ver_codec row) db1 = Ok payload).
  { unfold readBlob, row. cbn -[Pack.Unpack]. destruct Hput as [(-> & _ & ->)|(Hb & -> & ->)].
    - by rewrite !decide_True.
    - rewrite decide_False by done. cbn -[Pack.Unpack]. rewrite Hb. cbn -[Pack.Unpack]. by rewrite lookup_insert_eq. }
  assert (Hother : forall v ver, versions_of db id !! v = Some ver -> ver_blob_key ver <> [] -> ver_blob_key ver <> key).
  { intros v ver Hv Hne Hk. destruct Hput as [(_ & _ & E')|(_ & E' & _)]; [congruence|].
    apply Hnn. right. exists id, v, ver. split; congruence. }
  split_and!.
  - apply set_versions_ok; [done|by rewrite Er; eexists|lia| |].
    + intros v ver [[<- <-]|[Hne Hv]]%lookup_insert_Some.
      * split_and!; [lia| |by rewrite Hread]. cbn. destruct Hput as [(_ & _ & ->)|(Hb & -> & ->)]; [by left|].
        right. split; [done|]. by exists rnd.
      * rewrite <- Tv in Hv. split_and!; [|by apply (ok_vkey _ _ K1 id v)|by apply (ok_vread _ _ K1 id v)].
        assert (v < next_version db1) by (apply (ok_vnext _ _ K1 id); by eexists). lia.
    + intros v v' ver ver' [[<- <-]|[Hne Hv]]%lookup_insert_Some [[<- <-]|[Hne' Hv']]%lookup_insert_Some Hk Hnk; [done|..].
      * exfalso. cbn in Hk, Hnk. rewrite Hk in Hnk. by apply (Hother v' ver').
      * exfalso. by apply (Hother v ver).
      * by apply (ok_vdistinct _ _ Hok id v v' ver ver').
  - intros id' Hne. rewrite view_set_versions, decide_False by done. apply V1.
  - done.
  - done.
  - rewrite view_set_versions, decide_True by done. rewrite V1.
    unfold StoreProps.view. rewrite <- Td, Er. cbn. unfold versioned. cbn. f_equal. f_equal.
    rewrite fmap_insert, Tm. f_equal.
    + unfold version_view. by rewrite Hread.
    + specialize (V1 id). unfold StoreProps.view in V1. rewrite Td, <- Td, Er, Tv in V1. cbn in V1. congruence.
  - unfold StoreProps.view. rewrite <- Td, Er. by eexists.
Qed.

(** The [keep] highest ids. *)
Definition kept (keep : Z) {A} (m : gmap Z A) : gmap Z A :=
  filter (fun x => x.1 ∈ take (Z.to_nat keep) (keys_desc m)) m.

Lemma keys_desc_fmap {A B} (g : A -> B) (m : gmap Z A) : keys_desc (g <$> m) = keys_desc m.
Proof.
  apply (StronglySorted_unique_strong Z.gt); [lia|apply keys_desc_sorted..|].
  rewrite !keys_desc_perm, map_to_list_fmap, <- list_fmap_compose. apply Permutation_refl'. done.
Qed.

Lemma kept_fmap {A B} (g : A -> B) keep (m : gmap Z A) : kept keep (g <$> m) = g <$> kept keep m.
Proof.
  unfold kept. rewrite keys_desc_fmap. apply map_eq. intros k. rewrite lookup_fmap.
  apply option_eq. intros y. rewrite map_lookup_filter_Some, lookup_fmap. split.
  - intros [Hy Hk]. destruct (m !! k) as [x|] eqn:E; [|done]. cbn in Hy.
    rewrite (proj2 (map_lookup_filter_Some _ _ _ x)); done.
  - destruct (filter _ m !! k) as [x|] eqn:E; [|done]. intros Hy.
    apply map_lookup_filter_Some in E as [-> Hk]. done.
Qed.

Definition pruned (keep : Z) (d : DocView) : DocView :=
  MkDocView (vw_owner d) (vw_name d) (vw_snapshot d) (vw_seq d) (vw_log d) (kept keep (vw_versions d)).

Lemma PruneVersions_ok f id keep db :
  db_ok db ->
  let '(out, db') := PruneVersions f id keep db in
  db_ok db' /\ (forall id', id' <> id -> view db' id' = view db id') /\ next_seq db' = next_seq db
  /\ (view db' id = view db id /\ (keep <= 0 \/ is_ok out = false) \/ view db' id = pruned keep <$> view db id).
Proof.
  intros Hok. unfold PruneVersions. case_if; [by split_and!; auto|]. case_if; [by split_and!; auto|].
  set (m := versions_of db id). fold (kept keep m). set (db1 := set_versions _ _ db).
  assert (Hsub : forall v ver, kept keep m !! v = Some ver -> m !! v = Some ver /\ v ∈ take (Z.to_nat keep) (keys_desc m)).
  { intros v ver H. by apply map_lookup_filter_Some in H. }
  assert (H1 : db_ok db1).
  { apply set_versions_ok; [done| |done| |].
    - intros [v [ver H]]%map_choose. apply Hsub in H as [H _]. apply (ok_vdoc _ _ Hok id v). by eexists.
    - intros v ver [H _]%Hsub.
      split_and!; [apply (ok_vnext _ _ Hok id); by eexists|by apply (ok_vkey _ _ Hok id v)|by apply (ok_vread _ _ Hok id v)].
    - intros v v' ver ver' [H _]%Hsub [H' _]%Hsub. by apply (ok_vdistinct _ _ Hok id). }
  assert (H2 : forall id', view db1 id' = if decide (id' = id) then pruned keep <$> view db id else view db id').
  { intros id'. unfold db1. rewrite view_set_versions. case_decide; [|done]. unfold StoreProps.view.
    destruct (documents db !! id); [|done]. cbn. unfold pruned. cbn. by rewrite kept_fmap. }
  case_if.
  { split_and!; [done|intros; by rewrite H2, decide_False|done|right; by rewrite H2, decide_True]. }
  destruct (dropBlobs_frame (lost := lost) inflate f (version_keys (filter (fun x => x.1 ∉ take (Z.to_nat keep) (keys_desc m)) m)) db1)
    as (D1 & D2 & _ & D4).
  { intros k Hk. apply elem_of_version_keys in Hk as (Hne & v & ver & Hv & Hk).
    apply map_lookup_filter_Some in Hv as [Hv Hout]. intros [id' Hnm]%named_names.
    assert (id' = id) as ->.
    { apply (names_unique (lost := lost) inflate db id' id k); [done| |right; by exists v, ver|done].
      destruct Hnm as [(r & Hr & Hs)|(v' & ver' & Hv' & Hs)]; [left; by exists r|].
      right. exists v', ver'. unfold db1 in Hv'. rewrite versions_of_insert in Hv'.
      case_decide; subst; [by apply Hsub in Hv' as [? _]|done]. }
    destruct Hnm as [(r & Hr & Hs)|(v' & ver' & Hv' & Hs)].
    - destruct (ok_key _ _ Hok _ _ Hr) as [?|[_ Ek]]; [congruence|].
      destruct (ok_vkey _ _ Hok _ _ _ Hv) as [?|(_ & rnd & Ev)]; [congruence|].
      apply (snapshot_version_keys id id (snapshot_seq r) rnd). congruence.
    - unfold db1 in Hv'. rewrite versions_of_insert, decide_True in Hv' by done. apply Hsub in Hv' as [Hv' Hin].
      assert (v = v') as -> by (apply (ok_vdistinct _ _ Hok id v v' ver ver'); [done|done|congruence..]). done. }
  split_and!; [by apply D2|intros; by rewrite D1, H2, decide_False|by rewrite D4|right; by rewrite D1, H2, decide_True].
Qed.

(** ** Every operation *)

(** One call of the package; the index says whether it may reassign or remove a
    document.  [lost] collects the documents that were compacted, with object storage, to
    the watermark their snapshot already had; [StepVersion] asks that the random key is
    new. *)
Inductive store_step_but : bool -> Database -> Database -> Prop :=
  | StepEnsure f now id name owner db found db' :
      uuid_ok id -> Ensure f now id name owner db = Ok (found, db') -> store_step_but false db db'
  | StepLoad f now id name owner any db d db' :
      uuid_ok id -> load inflate f now id name owner any db = Ok (d, db') -> store_step_but false db db'
  | StepAppend f now id payloads db : store_step_but false db (Append f now id payloads db).2
  | StepCompact f now id snap folded db :
      uuid_ok id -> Forall (fun s => s < next_seq db) folded ->
      (repeats id folded db -> lost id) ->
      store_step_but false db (Compact deflate f now id snap folded db).2
  | StepVersion f now rnd id sv payload label minAge db :
      uuid_ok id -> objects db !! versionKey id rnd = None ->
      store_step_but false db (SaveVersion deflate f now rnd id sv payload label minAge db).2
  | StepPrune f id keep db : store_step_but false db (PruneVersions f id keep db).2
  | StepName f id name db : store_step_but false db (SetName f id name db).2
  | StepOwner f id owner db : store_step_but true db (SetOwner f id owner db).2
  | StepDelete f id db : store_step_but true db (Delete f id db).2
  | StepIdle f before db : store_step_but true db (DeleteIdle f before db).2.

Lemma load_ok f now id name owner any db d db' :
  db_ok db -> uuid_ok id -> load inflate f now id name owner any db = Ok (d, db') ->
  db_ok db' /\ (forall id', id' <> id -> view db' id' = view db id')
  /\ if any then db' = db
     else let v := default (fresh_view owner name) (view db id) in
          view db' id = Some v /\ vw_owner v = owner /\ Owner d = owner.
Proof.
  intros Hok Hid. unfold load. case_if; [done|]. destruct any; cbn [mbind res_bind].
  - case_if; [done|]. destruct (documents db !! id) as [r|]; [|intros [= <- <-]; done].
    intros H. res_inv. case_if; [done|]. by simplify_eq.
  - intros H. res_inv. case_decide as Ex; [|done]. injection Hk0 as <-.
    destruct (ensureIn_ok inflate _ _ _ _ _ _ _ _ Hok Hid Hm0) as (H1 & H2 & H3 & H4 & _).
    case_if_in Hk; [done|]. destruct (documents y !! id) as [r|] eqn:Er; [|done].
    destruct (read_document _ _ _ _ _) as [doc|] eqn:Ed; [|done]. cbn in Hk. case_if_in Hk; [done|].
    injection Hk as <- <-. rewrite H4 in Ex. split_and!; [done..|].
    destruct (view_owner inflate _ _ _ H3) as (r' & Hr' & Ho). rewrite Er in Hr'. injection Hr' as <-.
    unfold read_document in Ed. destruct (if decide _ then _ else _); [|done]. cbn in Ed. case_if_in Ed; [done|].
    injection Ed as <-. cbn. congruence.
Qed.

Lemma set_owner_name_ok id r r' db :
  db_ok db -> documents db !! id = Some r ->
  snapshot r' = snapshot r -> snapshot_key r' = snapshot_key r -> snapshot_codec r' = snapshot_codec r ->
  snapshot_seq r' = snapshot_seq r ->
  db_ok (set_documents (<[id := r']> (documents db)) db).
Proof.
  intros Hok Hr H1 H2 H3 H4. apply set_row_ok; [done|by eapply ok_id|]. right. by exists r.
Qed.

(** What a step does to the owners. *)
Lemma step_ok b db db' :
  store_step_but b db db' -> db_ok db ->
  db_ok db' /\ (b = false -> forall id v, view db id = Some v ->
                   exists v', view db' id = Some v' /\ vw_owner v' = vw_owner v).
Proof.
  intros Hs Hok.
  assert (Hsame : forall id0 db1, (forall id', id' <> id0 -> view db1 id' = view db id') ->
    (forall v, view db id0 = Some v -> exists v', view db1 id0 = Some v' /\ vw_owner v' = vw_owner v) ->
    forall id v, view db id = Some v -> exists v', view db1 id = Some v' /\ vw_owner v' = vw_owner v).
  { intros id0 db1 H1 H2 id v Hv. destruct (decide (id = id0)) as [->|Hne]; [auto|]. rewrite H1 by done. eauto. }
  destruct Hs as [f now id name owner db found db' Hid He|f now id name owner any db d db' Hid Hl|f now id ps db
    |f now id snap folded db Hid Hf Hw|f now rnd id sv payload label minAge db Hid Hr|f id keep db|f id name db
    |f id owner db|f id db|f before db].
  - unfold Ensure in He. case_if_in He; [done|]. res_inv. case_if; [done|]. simplify_eq.
    destruct (ensureIn_ok inflate _ _ _ _ _ _ _ _ Hok Hid Hm) as (H1 & H2 & H3 & _). split; [done|].
    intros _. apply (Hsame id); [done|]. intros v Hv. rewrite Hv in H3. eauto.
  - destruct (load_ok _ _ _ _ _ _ _ _ _ Hok Hid Hl) as (H1 & H2 & H3). split; [done|]. intros _.
    apply (Hsame id); [done|]. intros v Hv. destruct any; [subst; eauto|]. rewrite Hv in H3. destruct H3. eauto.
  - pose proof (Append_ok inflate f now id ps db Hok) as H. destruct (Append _ _ _ _ _) as [out db'].
    destruct H as (H1 & H2 & H3). split; [done|]. intros _. apply (Hsame id); [done|]. intros v Hv. cbn.
    destruct H3 as [[-> _]|[(_ & -> & _)|[-> _]]]; rewrite ?Hv; eauto.
  - destruct (decide (folded = [])) as [->|Hne]; [split; [done|eauto]|].
    pose proof (Compact_ok deflate inflate flate f now id snap folded db Hok Hid Hne Hf Hw) as H.
    destruct (Compact _ _ _ _ _ _) as [out db']. destruct H as (H1 & H2 & H3). split; [done|]. intros _.
    apply (Hsame id); [done|]. intros v Hv. cbn.
    destruct out; [destruct H3 as [-> |(_ & x & ->)]; rewrite ?Hv; eauto|]. destruct H3 as [-> _]. rewrite Hv. eauto.
  - pose proof (SaveVersion_ok f now rnd id sv payload label minAge db Hok Hid Hr) as H.
    destruct (SaveVersion _ _ _ _ _ _ _ _ _) as [out db']. destruct H as (H1 & H2 & _ & H3). split; [done|]. intros _.
    apply (Hsame id); [done|]. intros v Hv. cbn. destruct out as [[]|]; [destruct H3 as (_ & -> & _)|destruct H3 as [_ ->]|rewrite H3];
      rewrite ?Hv; eauto.
  - pose proof (PruneVersions_ok f id keep db Hok) as H. destruct (PruneVersions _ _ _ _) as [out db'].
    destruct H as (H1 & H2 & _ & H3). split; [done|]. intros _. apply (Hsame id); [done|]. intros v Hv. cbn.
    destruct H3 as [[H3 _]|H3]; rewrite H3, ?Hv; eauto.
  - unfold SetName. case_if; [split; [done|eauto]|]. destruct (documents db !! id) as [r|] eqn:Er; [|split; [done|eauto]].
    case_decide; [|split; [done|eauto]]. cbn [snd]. split; [by eapply set_owner_name_ok|]. intros _.
    apply (Hsame id); [intros; by rewrite view_set_row, decide_False|]. intros v Hv.
    rewrite view_set_row, decide_True by done. eexists. split; [done|]. cbn.
    destruct (view_owner inflate _ _ _ Hv) as (r' & Hr' & <-). congruence.
  - split; [|done]. unfold SetOwner. case_if; [done|]. destruct (documents db !! id) as [r|] eqn:Er; [|done].
    cbn [snd]. by eapply set_owner_name_ok.
  - split; [|done]. pose proof (Delete_ok inflate f id db Hok) as H. destruct (Delete _ _ _). apply H.
  - split; [|done]. pose proof (DeleteIdle_ok inflate f before db Hok) as H. destruct (DeleteIdle _ _ _). apply H.
Qed.

(** The stores a server can come to. *)
Inductive store_run_but : Database -> Prop :=
  | run_empty b : store_run_but (empty_db b)
  | run_step b db db' : store_run_but db -> store_step_but b db db' -> store_run_but db'.

Lemma empty_db_ok b : db_ok (empty_db b).
Proof.
  split; try done; cbn; intros id; unfold log_of, versions_of; cbn;
    intros; rewrite ?lookup_empty in *; destruct_and?; try done; by destruct H.
Qed.

Lemma store_run_ok db : store_run_but db -> db_ok db.
Proof. induction 1 as [b|b db db' _ IH Hs]; [apply empty_db_ok|by apply (step_ok b db)]. Qed.

(** C12. In every store a server can come to, by any operations in any order and whatever
    calls failed on the way: every version reads back, no two documents share an object,
    and the snapshot of every document reads back, unless the document was at some time
    compacted, with object storage, to the watermark its snapshot already had ([lost];
    [same_watermark_destroys_snapshot] shows that such a compaction can destroy it).
    Compactions name rows the store gave out, and keys of new versions are unused. *)
Theorem blobs_stay_readable db :
  store_run_but db ->
  (forall id r, documents db !! id = Some r -> ~ lost id -> is_ok (snapshot_read inflate r db) = true)
  /\ (forall id v ver, versions_of db id !! v = Some ver -> is_ok (LoadVersion inflate no_faults id v db) = true)
  /\ (forall id id' k, names db id k -> names db id' k -> k <> [] -> id = id').
Proof.
  intros Hok%store_run_ok. split_and!.
  - apply (ok_snap _ _ Hok).
  - intros id v ver Hv. unfold LoadVersion. rewrite Hv. cbn.
    pose proof (ok_vread _ _ Hok _ _ _ Hv) as H. by destruct (readBlob _ _ _ _ _ _).
  - intros id id' k H H' Hk. by eapply (names_unique (lost := lost) inflate).
Qed.

(** A document belongs to whoever created it: a load returns it to its owner alone, and
    nothing but reassigning or deleting it changes whose it is. *)
Theorem owner_is_settled f now id name owner db d db' :
  store_run_but db -> uuid_ok id -> Load inflate f now id name owner db = Ok (d, db') ->
  Owner d = owner /\ (forall v, view db id = Some v -> vw_owner v = owner)
  /\ forall db1, rtc (store_step_but false) db' db1 -> exists v, view db1 id = Some v /\ vw_owner v = owner.
Proof.
  intros Hok%store_run_ok Hid Hl. destruct (load_ok _ _ _ _ _ _ _ _ _ Hok Hid Hl) as (H1 & _ & H2 & H3 & H4).
  split_and!; [done|intros v Hv; by rewrite Hv in H3|].
  assert (exists v, view db' id = Some v /\ vw_owner v = owner) as Hv by eauto. clear H2 H3 H4 Hl.
  intros db1 Hr. revert H1 Hv. induction Hr as [x|x y z Hs _ IH]; [done|]. intros Hx (v & Hv & Ho).
  destruct (step_ok _ _ _ Hs Hx) as [Hy Hown]. apply IH; [done|].
  destruct (Hown eq_refl id v Hv) as (v' & Hv' & E). exists v'. by rewrite E.
Qed.

(** What was appended is what a load reads after it, in order and under the numbers
    the append returned, with the snapshot untouched. *)
Theorem Append_then_Load now now' id payloads seqs db db' d :
  store_run_but db -> documents db !! id <> None ->
  Append no_faults now id payloads db = (Ok seqs, db') ->
  LoadAny inflate no_faults now' id db = Ok (d, db) ->
  exists d', LoadAny inflate no_faults now' id db' = Ok (d', db')
    /\ Updates d' = Updates d ++ payloads /\ Seqs d' = Seqs d ++ seqs /\ Snapshot d' = Snapshot d
    /\ length seqs = length payloads /\ NoDup (Seqs d').
Proof.
  intros Hok%store_run_ok Hdoc Ha Hl.
  pose proof (Append_ok inflate no_faults now id payloads db Hok) as H. rewrite Ha in H.
  rewrite LoadAny_view in Hl. destruct (view db id) as [v|] eqn:Ev.
  2: { unfold StoreProps.view in Ev. by destruct (documents db !! id). }
  unfold loaded in Hl. destruct (vw_snapshot v) as [s|] eqn:Es; [|done]. cbn in Hl. injection Hl as <-. cbn [Updates Seqs Snapshot].
  assert (Hnd : forall m : gmap Z LogRow, NoDup (rows m).*1).
  { intros m. assert ((rows m).*1 = asc m) as ->; [|unfold asc; rewrite <- Permutation_rev; apply NoDup_keys_desc].
    unfold rows. assert (H' : forall k, k ∈ asc m -> is_Some (m !! k)) by (intros k; by rewrite elem_of_asc).
    induction (asc m) as [|k l IH]; [done|]. cbn. destruct (H' k) as [x Hx]; [by left|]. rewrite Hx. cbn.
    f_equal. apply IH. intros k' Hk'. apply H'. by right. }
  destruct H as (Hok' & _ & [[_ ?]|[(-> & -> & Eq)|(Hv & _ & _ & [?|Eq])]]); [done| |done|].
  - injection Eq as ->. rewrite LoadAny_view, Ev. unfold loaded. rewrite Es. cbn.
    eexists. split; [done|]. cbn. by rewrite !app_nil_r.
  - injection Eq as ->. rewrite LoadAny_view, Hv. cbn. unfold loaded. cbn. rewrite Es. cbn.
    eexists. split; [done|]. cbn.
    assert (rows (insert_rows now (next_seq db) payloads (vw_log v)) = rows (vw_log v)
      ++ zip (seqZ (next_seq db) (Z.of_nat (length payloads))) (map (fun p => MkLogRow p now) payloads)) as Hrows.
    { apply rows_insert_rows. intros j Hj.
      assert (vw_log v = log_of db id) as El.
      { unfold StoreProps.view in Ev. destruct (documents db !! id); [|done]. by injection Ev as <-. }
      rewrite El in Hj. by apply (ok_seq _ _ Hok) in Hj as [_ ?]. }
    assert (length (seqZ (next_seq db) (Z.of_nat (length payloads))) = length payloads) as Hlen by (rewrite length_seqZ; lia).
    split_and!; [| |done|done|apply Hnd].
    + rewrite Hrows, map_app. f_equal. rewrite <- (map_map snd log_payload). change (map snd) with (@fmap list _ (Z * LogRow)%type _ snd).
      rewrite snd_zip by (rewrite length_map; lia). rewrite map_map. apply map_id.
    + rewrite Hrows, fmap_app. f_equal. apply fst_zip. rewrite length_map. lia.
Qed.
End Flate.

(** Every call, and every store a server can come to, whatever happened to the snapshots. *)
Notation store_step deflate inflate := (@store_step_but deflate inflate (fun _ => True)).
Notation store_run deflate inflate := (@store_run_but deflate inflate (fun _ => True)).

(** ** A store with one document and two updates *)

Lemma demo_id_ok : uuid_ok demo_id.
Proof. split; [reflexivity|]. by repeat constructor. Qed.

Definition demo_row_db (blobs : bool) : Database :=
  match Ensure no_faults 0 demo_id [110] NilUUID (empty_db blobs) with
  | Ok (_, db) => db
  | Err _ => empty_db blobs
  end.

Lemma demo_row_run {lost} b : @store_run_but toy_deflate toy_inflate lost (demo_row_db b).
Proof.
  eapply run_step; [apply (run_empty _ _ b)|].
  apply (StepEnsure _ _ no_faults 0 demo_id [110] NilUUID _ NilUUID); [apply demo_id_ok|by destruct b].
Qed.

Lemma demo_store_run {lost} b ps : @store_run_but toy_deflate toy_inflate lost (demo_db b ps).
Proof.
  change (demo_db b ps) with (Append no_faults 0 demo_id ps (demo_row_db b)).2.
  eapply run_step; [apply demo_row_run|apply StepAppend].
Qed.

(** Nothing was compacted twice. *)
Definition none : UUID -> Prop := fun _ => False.

Lemma demo_fresh b ps : ~ repeats demo_id [1; 2] (demo_db b ps).
Proof. intros (_ & r & Hr & Hw). destruct b, ps; vm_compute in Hr; injection Hr as <-; by vm_compute in Hw. Qed.

Lemma Compact_all_or_nothing_witness :
  let '(err, db') := Compact toy_deflate no_faults 5 demo_id [7; 8] [1; 2] (demo_db true [[7]; [8]]) in
  err = None /\ view toy_inflate db' demo_id
    = compacted [7; 8] [1; 2] <$> view toy_inflate (demo_db true [[7]; [8]]) demo_id.
Proof.
  pose proof (Compact_all_or_nothing toy_deflate toy_inflate (lost := none) toy_flate no_faults 5 demo_id [7; 8] [1; 2]
    (demo_db true [[7]; [8]])) as H.
  destruct (Compact _ _ _ _ _ _) as [err db'] eqn:E.
  assert (err = None) as -> by (vm_compute in E; congruence).
  destruct H as (_ & _ & H & _).
  - by apply (store_run_ok toy_deflate toy_inflate toy_flate), demo_store_run.
  - apply demo_id_ok.
  - done.
  - by repeat constructor.
  - apply demo_fresh.
  - by split.
Defined.

(** A document with its snapshot and a version in object storage. *)
Definition compact_db : Database := (demo_compact [7; 8] [1; 2] (demo_db true [[7]; [8]])).2.
Definition version_db : Database :=
  (SaveVersion toy_deflate no_faults 6 demo_id demo_id [1] [7; 8] [108] 0 compact_db).2.

Lemma version_db_run : @store_run_but toy_deflate toy_inflate none version_db.
Proof.
  eapply run_step; [eapply run_step; [apply (demo_store_run true [[7]; [8]])|]|].
  - apply (StepCompact _ _ no_faults 5 demo_id [7; 8] [1; 2]); [apply demo_id_ok|by repeat constructor|apply demo_fresh].
  - apply (StepVersion _ _ no_faults 6 demo_id demo_id [1] [7; 8] [108] 0); [apply demo_id_ok|by vm_compute].
Qed.

Lemma blobs_stay_readable_witness :
  exists r ver, documents version_db !! demo_id = Some r /\ snapshot_key r <> []
    /\ is_ok (snapshot_read toy_inflate r version_db) = true
    /\ versions_of version_db demo_id !! 1 = Some ver /\ ver_blob_key ver <> []
    /\ is_ok (LoadVersion toy_inflate no_faults demo_id 1 version_db) = true.
Proof.
  destruct (blobs_stay_readable toy_deflate toy_inflate (lost := none) toy_flate version_db version_db_run) as (H1 & H2 & _).
  destruct (documents version_db !! demo_id) as [r|] eqn:Er; [|by vm_compute in Er].
  destruct (versions_of version_db demo_id !! 1) as [ver|] eqn:Ev; [|by vm_compute in Ev].
  exists r, ver. split_and!; [done| |apply (H1 demo_id); [done|intros []]|done| |by apply (H2 demo_id 1 ver)].
  - intros E. vm_compute in Er. injection Er as <-. done.
  - intros E. vm_compute in Ev. injection Ev as <-. done.
Defined.

Lemma owner_is_settled_witness :
  exists d, Load toy_inflate no_faults 1 demo_id [110] NilUUID (demo_row_db false) = Ok (d, demo_row_db false)
    /\ Owner d = NilUUID.
Proof.
  destruct (Load toy_inflate no_faults 1 demo_id [110] NilUUID (demo_row_db false)) as [[d db']|] eqn:E;
    [|by vm_compute in E].
  assert (db' = demo_row_db false) as -> by (vm_compute in E; by injection E as _ <-).
  exists d. split; [reflexivity|].
  apply (owner_is_settled toy_deflate toy_inflate (lost := none) toy_flate no_faults 1 demo_id [110] NilUUID
    (demo_row_db false) d (demo_row_db false)); [apply demo_row_run|apply demo_id_ok|exact E].
Defined.

Lemma Append_then_Load_witness :
  exists d', LoadAny toy_inflate no_faults 3 demo_id (demo_db false [[7]; [8]]) = Ok (d', demo_db false [[7]; [8]])
    /\ Updates d' = [] ++ [[7]; [8]].
Proof.
  destruct (LoadAny toy_inflate no_faults 3 demo_id (demo_row_db false)) as [[d db0]|] eqn:E; [|by vm_compute in E].
  assert (db0 = demo_row_db false /\ Updates d = []) as [-> Hd]
    by (vm_compute in E; by injection E as <- <-).
  destruct (Append_then_Load toy_deflate toy_inflate (lost := none) toy_flate 0 3 demo_id [[7]; [8]] [1; 2]
    (demo_row_db false) (demo_db false [[7]; [8]]) d) as (d' & H1 & H2 & _).
  - apply demo_row_run.
  - done.
  - reflexivity.
  - exact E.
  - exists d'. split; [exact H1|]. by rewrite H2, Hd.
Defined.
