(* ===== verification/Listing.v ===== *)
(** * Listing documents

    [internal/store/list.go]: one page of an owner's documents in the order of their
    names, and the cursor that resumes after it.

    Names are compared under the database's collation, which the schema leaves to the
    deployment: the order is the section's [name_lt], and all that is used of it is that
    it is a strict total order with the empty name first. *)

From stdpp Require Import strings.
From S2P Require Import Prelude Text Uuid Store.

Definition DefaultListLimit : Z := 100.
Definition MaxListLimit : Z := 1000.

Record Listing := MkListing {
  l_ID : UUID;
  l_Name : bytes;
  l_Owner : UUID;
  l_UpdatedAt : Z;
  l_SnapshotBytes : Z;
  l_Updates : Z;
}.

Record Cursor := MkCursor { cur_Name : bytes; cur_ID : UUID }.

Definition slash : Z := 47.

Definition Cursor_String (c : Cursor) : bytes := cur_Name c ++ [slash] ++ UUID_String (cur_ID c).

Definition ParseCursor (s : bytes) : res Cursor :=
  match cut slash s with
  | None => Err ErrBadCursor
  | Some (name, rest) =>
      match ParseUUID rest with
      | Err _ => Err ErrBadCursor
      | Ok id => Ok (MkCursor name id)
      end
  end.

Record ListRequest := MkListRequest { lr_Owner : UUID; lr_AllOwners : bool; lr_After : Cursor; lr_Limit : Z }.
Record ListPage := MkListPage { lp_Documents : list Listing; lp_Next : bytes }.

(** PostgreSQL compares uuids bytewise. *)
Fixpoint bytes_lt (a b : bytes) : bool :=
  match a, b with
  | _, [] => false
  | [], _ :: _ => true
  | x :: a, y :: b => (x <? y) || (x =? y) && bytes_lt a b
  end.

Section Order.
Context (name_lt : bytes -> bytes -> bool).

(** [(d.name, d.id) > ($3, $4)], read from right to left. *)
Definition row_lt (a b : Cursor) : bool :=
  name_lt (cur_Name a) (cur_Name b) || bool_decide (cur_Name a = cur_Name b) && bytes_lt (cur_ID a) (cur_ID b).

Definition place (l : Listing) : Cursor := MkCursor (l_Name l) (l_ID l).
Definition listed_before (a b : Listing) : Prop := row_lt (place b) (place a) = false.
#[global] Instance listed_before_dec a b : Decision (listed_before a b).
Proof. unfold listed_before. apply _. Defined.

(** A row of the query. *)
Definition listing (db : Database) (x : UUID * DocRow) : Listing :=
  let '(id, r) := x in
  MkListing id (doc_name r) (owner_id r) (updated_at r)
    (if decide (snapshot_key r = []) then Z.of_nat (length (default [] (snapshot r))) else snapshot_bytes r)
    (Z.of_nat (size (log_of db id))).

Definition selected (req : ListRequest) (l : Listing) : bool :=
  (lr_AllOwners req || bool_decide (l_Owner l = lr_Owner req)) && row_lt (lr_After req) (place l).

Definition list_rows (req : ListRequest) (db : Database) : list Listing :=
  merge_sort listed_before (filter (fun l => selected req l = true) (map (listing db) (map_to_list (documents db)))).

Definition List (f : faults) (req : ListRequest) (db : Database) : res ListPage :=
  let limit := if lr_Limit req <=? 0 then DefaultListLimit else lr_Limit req in
  let limit := if MaxListLimit <? limit then MaxListLimit else limit in
  if f SelectRows then Err ErrDatabase
  else
    let docs := take (Z.to_nat (limit + 1)) (list_rows req db) in
    if limit <? Z.of_nat (length docs)
    then match docs !! Z.to_nat (limit - 1) with
         | Some last => Ok (MkListPage (take (Z.to_nat limit) docs) (Cursor_String (place last)))
         | None => Ok (MkListPage docs [])
         end
    else Ok (MkListPage docs []).

(** A client paging through: each page's [Next] is the next request's [After]. *)
Fixpoint walk_pages (fuel : nat) (req : ListRequest) (db : Database) : res (list Listing) :=
  match fuel with
  | O => Err ErrBadCursor
  | S fuel =>
      p ← List no_faults req db;
      if decide (lp_Next p = []) then Ok (lp_Documents p)
      else
        c ← ParseCursor (lp_Next p);
        rest ← walk_pages fuel (MkListRequest (lr_Owner req) (lr_AllOwners req) c (lr_Limit req)) db;
        Ok (lp_Documents p ++ rest)
  end.
End Order.

(** ** The orders *)

Lemma bytes_lt_irrefl a : bytes_lt a a = false.
Proof. induction a as [|x a IH]; [done|]. cbn. rewrite IH, Z.ltb_irrefl, andb_false_r. done. Qed.

Lemma bytes_lt_trans a : forall b c, bytes_lt a b = true -> bytes_lt b c = true -> bytes_lt a c = true.
Proof.
  induction a as [|x a IH]; intros [|y b] [|z c]; cbn; try done.
  rewrite !orb_true_iff, !andb_true_iff, !Z.ltb_lt, !Z.eqb_eq. intros [?|[-> ?]] [?|[-> ?]]; [left; lia|by left|by left|].
  right. split; [done|]. by eapply IH.
Qed.

Lemma bytes_lt_total a : forall b, bytes_lt a b = false -> bytes_lt b a = false -> a = b.
Proof.
  induction a as [|x a IH]; intros [|y b]; cbn; try done.
  rewrite !orb_false_iff, !andb_false_iff, !Z.ltb_ge, !Z.eqb_neq. intros [? H1] [? H2].
  assert (x = y) as -> by lia. f_equal. apply IH; naive_solver.
Qed.

Lemma ParseCursor_String_ok c : slash ∉ cur_Name c -> uuid_ok (cur_ID c) -> ParseCursor (Cursor_String c) = Ok c.
Proof.
  intros Hn Hid. unfold ParseCursor, Cursor_String. cbn [app]. rewrite cut_app by done. rewrite ParseUUID_String_ok by done.
  by destruct c.
Qed.

Lemma filter_none {A} (P : A -> Prop) {PD : forall x, Decision (P x)} (l : list A) :
  (forall x, x ∈ l -> ~ P x) -> filter P l = [].
Proof.
  induction l as [|x l IH]; intros H; [done|]. rewrite filter_cons, decide_False by (apply H; by left).
  apply IH. intros y Hy. apply H. by right.
Qed.

Lemma filter_all {A} (P : A -> Prop) {PD : forall x, Decision (P x)} (l : list A) :
  (forall x, x ∈ l -> P x) -> filter P l = l.
Proof.
  induction l as [|x l IH]; intros H; [done|]. rewrite filter_cons, decide_True by (apply H; by left).
  f_equal. apply IH. intros y Hy. apply H. by right.
Qed.

Section Pages.
Context (name_lt : bytes -> bytes -> bool).
Hypothesis name_irrefl : forall a, name_lt a a = false.
Hypothesis name_trans : forall a b c, name_lt a b = true -> name_lt b c = true -> name_lt a c = true.
Hypothesis name_total : forall a b, name_lt a b = false -> name_lt b a = false -> a = b.
Hypothesis name_empty : forall a, a <> [] -> name_lt [] a = true.
#[local] Notation row_lt := (row_lt name_lt).
#[local] Notation listed_before := (listed_before name_lt).

Lemma row_lt_irrefl a : row_lt a a = false.
Proof. unfold Listing.row_lt. rewrite name_irrefl, bytes_lt_irrefl, andb_false_r. done. Qed.

Lemma row_lt_trans a b c : row_lt a b = true -> row_lt b c = true -> row_lt a c = true.
Proof.
  unfold Listing.row_lt. rewrite !orb_true_iff, !andb_true_iff, !bool_decide_eq_true.
  intros [H|[E H]] [K|[E' K]]; [left; by eapply name_trans|left; congruence|left; congruence|].
  right. split; [congruence|]. by eapply bytes_lt_trans.
Qed.

Lemma row_lt_total a b : row_lt a b = false -> row_lt b a = false -> a = b.
Proof.
  unfold Listing.row_lt. rewrite !orb_false_iff, !andb_false_iff, !bool_decide_eq_false.
  intros [H1 H2] [K1 K2]. pose proof (name_total _ _ H1 K1) as E.
  assert (cur_ID a = cur_ID b); [|destruct a, b; cbn in *; congruence].
  apply bytes_lt_total; naive_solver congruence.
Qed.

Lemma row_lt_asym a b : row_lt a b = true -> row_lt b a = false.
Proof.
  intros H. destruct (row_lt b a) eqn:E; [|done]. pose proof (row_lt_trans _ _ _ H E) as K. by rewrite row_lt_irrefl in K.
Qed.

#[local] Instance listed_before_total : Total listed_before.
Proof.
  intros a b. unfold Listing.listed_before. destruct (row_lt (place b) (place a)) eqn:E; [right|by left]. by apply row_lt_asym.
Qed.

#[local] Instance listed_before_trans : Transitive listed_before.
Proof.
  intros a b c. unfold Listing.listed_before. intros H1 H2. destruct (row_lt (place c) (place a)) eqn:E; [|done].
  destruct (row_lt (place b) (place c)) eqn:E2.
  - by rewrite (row_lt_trans _ _ _ E2 E) in H1.
  - pose proof (row_lt_total _ _ E2 H2) as Eq. by rewrite Eq, E in H1.
Qed.

Definition strictly (a b : Listing) : Prop := row_lt (place a) (place b) = true.

(** Everything the request may see, from the beginning. *)
Definition owner_rows (req : ListRequest) (db : Database) : list Listing :=
  merge_sort listed_before
    (filter (fun l => lr_AllOwners req || bool_decide (l_Owner l = lr_Owner req) = true)
       (map (listing db) (map_to_list (documents db)))).

Lemma NoDup_place db (P : Listing -> Prop) {PD : forall x, Decision (P x)} :
  NoDup (map l_ID (filter P (map (listing db) (map_to_list (documents db))))).
Proof.
  assert (NoDup (map l_ID (map (listing db) (map_to_list (documents db))))) as H.
  { rewrite map_map. replace (map _ (map_to_list (documents db))) with (map_to_list (documents db)).*1.
    - apply NoDup_fst_map_to_list.
    - apply map_ext. by intros [id r]. }
  induction (map (listing db) (map_to_list (documents db))) as [|x l IH]; [done|]. cbn in H. apply NoDup_cons in H as [Hx Hl].
  rewrite filter_cons. case_decide; [|by apply IH]. cbn. apply NoDup_cons. split; [|by apply IH].
  intros Hin. apply Hx. apply list_elem_of_fmap in Hin as (y & -> & [_ Hy]%list_elem_of_filter).
  apply list_elem_of_fmap. eauto.
Qed.

(** Rows with distinct ids, sorted: strictly sorted. *)
Lemma sorted_strictly l :
  NoDup (map l_ID l) -> StronglySorted strictly (merge_sort listed_before l).
Proof.
  intros Hnd. assert (NoDup (map l_ID (merge_sort listed_before l))) as Hnd'.
  { by rewrite (Permutation_map l_ID (merge_sort_Permutation listed_before l)). }
  pose proof (StronglySorted_merge_sort listed_before l) as Hs.
  induction Hs as [|x m Hs IH Hx]; [constructor|]. cbn in Hnd'. apply NoDup_cons in Hnd' as [Hxi Hnd'].
  constructor; [by apply IH|]. rewrite Forall_forall in Hx |- *. intros y Hy. unfold strictly.
  destruct (row_lt (place x) (place y)) eqn:E; [done|]. exfalso. apply Hxi.
  pose proof (row_lt_total _ _ E (Hx y Hy)) as Eq. apply list_elem_of_fmap. exists y.
  split; [|done]. by injection Eq.
Qed.

(** In a strictly sorted list, what lies after an element is its tail. *)
Lemma after_element l1 x l2 :
  StronglySorted strictly (l1 ++ x :: l2) -> filter (fun l => row_lt (place x) (place l) = true) (l1 ++ x :: l2) = l2.
Proof.
  intros Hs. rewrite filter_app, filter_cons, row_lt_irrefl, decide_False by done.
  assert (filter (fun l => row_lt (place x) (place l) = true) l1 = []) as ->.
  { apply filter_none. intros y Hy H. pose proof (row_lt_asym _ _ H) as K.
    eapply StronglySorted_app_1_elem_of in Hs as Hyx; [|exact Hy|by left]. unfold strictly in Hyx. congruence. }
  apply StronglySorted_app_1_r in Hs. apply StronglySorted_inv in Hs as [_ Hx]. cbn.
  induction Hx as [|y l Hy _ IH]; [done|]. rewrite filter_cons, decide_True by done. by rewrite IH.
Qed.

Lemma strictly_filter (P : Listing -> Prop) {PD : forall x, Decision (P x)} l :
  StronglySorted strictly l -> StronglySorted strictly (filter P l).
Proof.
  induction 1 as [|x l Hs IH Hx]; [constructor|]. rewrite filter_cons. case_decide; [|done]. constructor; [done|].
  rewrite Forall_forall in Hx |- *. intros y [_ Hy]%list_elem_of_filter. auto.
Qed.

(** A page's rows are the owner's rows after the cursor. *)
Lemma list_rows_after req db :
  list_rows name_lt req db = filter (fun l => row_lt (lr_After req) (place l) = true) (owner_rows req db).
Proof.
  apply (StronglySorted_unique_strong strictly).
  - intros x y _ _ H K. unfold strictly in *. by rewrite (row_lt_asym _ _ H) in K.
  - apply sorted_strictly, NoDup_place.
  - apply strictly_filter, sorted_strictly, NoDup_place.
  - unfold list_rows, owner_rows. rewrite !merge_sort_Permutation, list_filter_filter.
    apply reflexive_eq, list_filter_iff. intros l. unfold selected. rewrite andb_true_iff. tauto.
Qed.

Definition page_limit (req : ListRequest) : Z :=
  let limit := if lr_Limit req <=? 0 then DefaultListLimit else lr_Limit req in
  if MaxListLimit <? limit then MaxListLimit else limit.

Lemma page_limit_range req : 1 <= page_limit req <= MaxListLimit.
Proof. unfold page_limit, DefaultListLimit, MaxListLimit. repeat case_if; lia. Qed.

Lemma List_page req db :
  let rest := list_rows name_lt req db in
  if Z.of_nat (length rest) <=? page_limit req
  then List name_lt no_faults req db = Ok (MkListPage rest [])
  else exists l1 last l2, rest = l1 ++ last :: l2 /\ Z.of_nat (length l1) = page_limit req - 1
    /\ List name_lt no_faults req db = Ok (MkListPage (l1 ++ [last]) (Cursor_String (place last))).
Proof.
  intros rest. pose proof (page_limit_range req) as Hr. unfold List. fold (page_limit req). fold rest. cbn [no_faults].
  rewrite length_take. case_if.
  - rewrite (proj2 (Z.ltb_ge _ _)) by lia. by rewrite take_ge by lia.
  - rewrite (proj2 (Z.ltb_lt _ _)) by lia. set (k := Z.to_nat (page_limit req - 1)).
    destruct (lookup_lt_is_Some_2 rest k) as [last Hl]; [lia|].
    exists (take k rest), last, (drop (S k) rest). split_and!.
    + symmetry. by apply take_drop_middle.
    + rewrite length_take. lia.
    + rewrite lookup_take_lt, Hl by lia. rewrite take_take. replace (Nat.min _ _) with (S k) by lia.
      by rewrite (take_S_r _ _ _ Hl).
Qed.

Section Walk.
Context (db : Database).
Hypothesis rows_ok : forall id r, documents db !! id = Some r ->
  uuid_ok id /\ slash ∉ doc_name r /\ (doc_name r <> [] \/ id <> NilUUID).

Lemma owner_rows_elem req l :
  l ∈ owner_rows req db <-> exists id r, documents db !! id = Some r /\ l = listing db (id, r)
    /\ (lr_AllOwners req = true \/ owner_id r = lr_Owner req).
Proof.
  unfold owner_rows. rewrite merge_sort_Permutation, list_elem_of_filter, list_elem_of_fmap, orb_true_iff, bool_decide_eq_true.
  split.
  - intros [Ho ([id r] & -> & H%elem_of_map_to_list)]. eauto.
  - intros (id & r & H & -> & Ho). split; [done|]. exists (id, r). by rewrite elem_of_map_to_list.
Qed.

Lemma walk_ok req0 fuel : forall req pre rest,
  lr_Owner req = lr_Owner req0 -> lr_AllOwners req = lr_AllOwners req0 ->
  owner_rows req0 db = pre ++ rest -> list_rows name_lt req db = rest -> (length rest < fuel)%nat ->
  walk_pages name_lt fuel req db = Ok rest.
Proof.
  induction fuel as [|fuel IH]; intros req pre rest Ho Ha Hpre Hrest Hf; [lia|]. cbn [walk_pages].
  pose proof (List_page req db) as Hp. cbv zeta in Hp. rewrite Hrest in Hp. case_if_in Hp; [by rewrite Hp|].
  destruct Hp as (l1 & last & l2 & -> & Hl & ->). cbn [mbind res_bind lp_Next lp_Documents].
  rewrite decide_False by (unfold Cursor_String; by destruct (cur_Name _)).
  destruct (proj1 (owner_rows_elem req0 last)) as (id & r & Hr & Elast & _).
  { rewrite Hpre. set_solver. }
  destruct (rows_ok _ _ Hr) as (Hid & Hs & _).
  rewrite ParseCursor_String_ok by (by rewrite Elast). cbn [mbind res_bind].
  rewrite (IH _ (pre ++ l1 ++ [last]) l2); [cbn; by rewrite <- app_assoc|done|done|by rewrite Hpre, <- !app_assoc| |].
  - rewrite list_rows_after. cbn [lr_After]. unfold owner_rows. cbn [lr_Owner lr_AllOwners]. rewrite Ho, Ha.
    fold (owner_rows req0 db). rewrite Hpre, app_assoc. apply after_element. rewrite <- app_assoc, <- Hpre.
    apply sorted_strictly, NoDup_place.
  - rewrite length_app in Hf. cbn in Hf. lia.
Qed.

Lemma bytes_lt_zeros a n : Forall (fun b => 0 <= b) a -> length a = n -> bytes_lt a (repeat 0 n) = false.
Proof.
  intros Ha <-. induction Ha as [|x a Hx _ IH]; [done|]. cbn. rewrite IH, andb_false_r, orb_false_r. apply Z.ltb_ge. lia.
Qed.

Lemma start_first id r : documents db !! id = Some r -> row_lt (MkCursor [] NilUUID) (MkCursor (doc_name r) id) = true.
Proof.
  intros Hr. destruct (rows_ok _ _ Hr) as ([Hl Hb] & _ & Hne). unfold Listing.row_lt. cbn [cur_Name cur_ID].
  destruct (decide (doc_name r = [])) as [En|Hn]; [rewrite En|by rewrite name_empty].
  rewrite bool_decide_true by done. rewrite name_irrefl. cbn [orb andb]. destruct Hne as [?|Hne]; [done|].
  destruct (bytes_lt NilUUID id) eqn:E; [done|]. exfalso. apply Hne. apply bytes_lt_total; [|done].
  apply bytes_lt_zeros; [|done]. eapply Forall_impl; [exact Hb|]. cbn. lia.
Qed.

(** C31. Paging through a listing visits every document of the owner exactly once, in order:
    starting from no cursor and following each page's [Next], whatever the page size, in a
    database that does not change meanwhile and in which no name contains a slash (see
    [slash_breaks_cursor]) and no document without a name has the nil id. *)
Theorem pages_list_everything req fuel :
  lr_After req = MkCursor [] NilUUID -> (size (documents db) < fuel)%nat ->
  exists ls, walk_pages name_lt fuel req db = Ok ls /\ StronglySorted strictly ls
    /\ forall l, l ∈ ls <-> exists id r, documents db !! id = Some r /\ l = listing db (id, r)
         /\ (lr_AllOwners req = true \/ owner_id r = lr_Owner req).
Proof.
  intros Hs Hf. exists (owner_rows req db). split_and!; [|apply sorted_strictly, NoDup_place|apply owner_rows_elem].
  apply (walk_ok req fuel req [] (owner_rows req db)); try done.
  - rewrite list_rows_after, Hs. apply filter_all. intros l (id & r & Hr & -> & _)%owner_rows_elem.
    by apply start_first.
  - unfold owner_rows. rewrite merge_sort_Permutation.
    pose proof (length_filter (fun l => lr_AllOwners req || bool_decide (l_Owner l = lr_Owner req) = true)
      (map (listing db) (map_to_list (documents db)))) as H. rewrite length_map, length_map_to_list in H. lia.
Qed.
End Walk.
End Pages.

(** ** Three documents, two to a page *)

Definition demo_ids : list UUID := [documentNamespace; ownerNamespace; repeat 1 16].
Definition demo_listing : Database :=
  foldl (fun db x => match Ensure no_faults 3 x.1 x.2 NilUUID db with Ok (_, db) => db | Err _ => db end)
    (MkDatabase ∅ ∅ ∅ 1 1 ∅ false) (zip demo_ids [str "plan"; str "notes"; []]).
Definition first_page : ListRequest := MkListRequest NilUUID false (MkCursor [] NilUUID) 2.

Lemma pages_list_everything_witness :
  exists ls, walk_pages bytes_lt 4 first_page demo_listing = Ok ls
    /\ map l_Name ls = [[]; str "notes"; str "plan"]
    /\ exists l, l ∈ ls /\ l_ID l = documentNamespace.
Proof.
  destruct (pages_list_everything bytes_lt bytes_lt_irrefl (fun a => bytes_lt_trans a) bytes_lt_total
    ltac:(by intros []) demo_listing) with (req := first_page) (fuel := 4%nat) as (ls & H1 & _ & H2).
  - change (documents demo_listing) with (<[repeat 1 16 := new_row NilUUID [] 3]>
      (<[ownerNamespace := new_row NilUUID (str "notes") 3]> (<[documentNamespace := new_row NilUUID (str "plan") 3]> (∅ : gmap UUID DocRow)))).
    assert (Hok : forall id r, uuid_ok id -> slash ∉ doc_name r -> id <> NilUUID ->
      uuid_ok id /\ slash ∉ doc_name r /\ (doc_name r <> [] \/ id <> NilUUID)) by auto.
    intros id r [[<- <-]|[_ [[<- <-]|[_ [[<- <-]|[_ ?]]%lookup_insert_Some]]%lookup_insert_Some]]%lookup_insert_Some; [..|done];
      (apply Hok; [split; [reflexivity|by repeat constructor]|by apply (bool_decide_unpack _); vm_compute|done]).
  - reflexivity.
  - vm_compute. lia.
  - exists ls. split_and!; [exact H1|vm_compute in H1; by injection H1 as <-|].
    destruct (documents demo_listing !! documentNamespace) as [r|] eqn:E; [|by vm_compute in E].
    exists (listing demo_listing (documentNamespace, r)). split; [|done].
    apply H2. exists documentNamespace, r. split_and!; [done..|]. right. vm_compute in E. by injection E as <-.
Defined.

(** A name with a slash, which the administrative surface accepts as [%2F], breaks the
    cursor that points at it. *)
Example slash_breaks_cursor :
  ParseCursor (Cursor_String (MkCursor (str "a/b") documentNamespace)) = Err ErrBadCursor.
Proof. reflexivity. Qed.
