(* ===== verification/Conn.v ===== *)
(** * Connections

    The room sees a connection through the interface [Conn] of
    [internal/room/conn.go]; [internal/gateway/conn.go] implements it.  [ConnOps] is
    the interface, [ConnLaws] what the room relies on, and [gateway_laws] that the
    gateway's connection keeps it.

    The gateway's [Send] is a [select] whose cases can both be ready once a connection
    is closing; Go may then take either, so the choice is an argument. *)

From stdpp Require Import strings.
From S2P Require Import Prelude.

Definition CloseGoingAway : Z := 1001.
Definition CloseProtocolError : Z := 1002.
Definition CloseInternalError : Z := 1011.
Definition ClosePolicyViolation : Z := 1008.

Class ConnOps (C : Type) := {
  CanWrite : C -> bool;
  Send : bytes -> C -> bool * C;
  Close : Z -> bytes -> C -> C;
}.

(** What an implementation promises: a refused frame leaves no trace, an accepted one
    is queued unless the connection is closing, permission never changes, and the
    first close decides the code. *)
Class ConnLaws (C : Type) `{!ConnOps C} := {
  outbox : C -> list bytes;
  closing : C -> option (Z * bytes);
  Send_write : forall f c, CanWrite (Send f c).2 = CanWrite c;
  Close_write : forall code reason c, CanWrite (Close code reason c) = CanWrite c;
  Send_refused : forall f c, (Send f c).1 = false -> (Send f c).2 = c;
  Send_accepted : forall f c, (Send f c).1 = true ->
    outbox (Send f c).2 = outbox c ++ [f] \/ is_Some (closing c) /\ outbox (Send f c).2 = outbox c;
  Send_closing : forall f c, closing (Send f c).2 = closing c;
  Close_outbox : forall code reason c, outbox (Close code reason c) = outbox c;
  Close_closing : forall code reason c,
    closing (Close code reason c) = match closing c with Some x => Some x | None => Some (code, reason) end;
}.

(** ** The gateway's connection *)

Definition DefaultOutBuffer : Z := 256.

Record conn := MkConn {
  c_id : Z;
  c_out : list bytes;
  c_buffer : Z;
  c_write : bool;
  c_done : bool;
  c_code : Z;
  c_reason : bytes;
}.

Definition StatusNormalClosure : Z := 1000.

Definition newConn (id buffer : Z) (write : bool) : conn :=
  MkConn id [] (if buffer <=? 0 then DefaultOutBuffer else buffer) write false StatusNormalClosure [].

(** [pick] is what the [select] takes when the connection is closing and its buffer
    has room. *)
Definition conn_Send (pick : bool) (frame : bytes) (c : conn) : bool * conn :=
  let room := Z.of_nat (length (c_out c)) <? c_buffer c in
  let queued := MkConn (c_id c) (c_out c ++ [frame]) (c_buffer c) (c_write c) (c_done c) (c_code c) (c_reason c) in
  if c_done c then (true, if pick && room then queued else c)
  else if room then (true, queued) else (false, c).

Definition conn_Close (code : Z) (reason : bytes) (c : conn) : conn :=
  if c_done c then c
  else MkConn (c_id c) (c_out c) (c_buffer c) (c_write c) true code reason.

Definition closeStatus (c : conn) : Z * bytes := (c_code c, c_reason c).

Definition gateway_ops (pick : bool) : ConnOps conn :=
  {| CanWrite := c_write; Send := conn_Send pick; Close := conn_Close |}.

Definition conn_closing (c : conn) : option (Z * bytes) := if c_done c then Some (closeStatus c) else None.

(** The gateway keeps the room's contract, whichever case its [select] takes. *)
Definition gateway_laws (pick : bool) : @ConnLaws conn (gateway_ops pick).
Proof.
  refine (@Build_ConnLaws conn (gateway_ops pick) c_out conn_closing _ _ _ _ _ _ _);
    cbn; unfold conn_Send, conn_Close, conn_closing, closeStatus;
    intros; destruct c as [i o b w [] cd rs]; cbn in *; repeat case_if; cbn in *; eauto; done.
Defined.

(** The outbound queue of a connection never grows past its buffer. *)
Theorem conn_bounded pick frame c :
  Z.of_nat (length (c_out c)) <= c_buffer c ->
  Z.of_nat (length (c_out (conn_Send pick frame c).2)) <= c_buffer (conn_Send pick frame c).2
  /\ ((conn_Send pick frame c).1 = false <-> c_done c = false /\ Z.of_nat (length (c_out c)) = c_buffer c).
Proof.
  intros Hb. unfold conn_Send. repeat case_if; cbn; rewrite ?length_app; cbn; split; try lia; try done;
    split; intros; destruct_and?; try done; lia.
Qed.

Lemma conn_bounded_witness :
  Z.of_nat (length (c_out (conn_Send false [1] (newConn 1 1 true)).2)) <= 1.
Proof. apply (conn_bounded false [1] (newConn 1 1 true)). done. Defined.
