(* ===== verification/Gateway.v ===== *)
(** * The WebSocket handler

    [internal/gateway/handler.go]: the admission of connections (the two caps, the
    authorisation, the join), what a refused client is told, and the accounting under
    every interleaving of connections.  The socket library's upgrade, the authorisation
    and the registry's join enter as the results they gave. *)

From stdpp Require Import strings.
From S2P Require Import Prelude Text Messages Conn Signature Auth Callback.

Definition maxCloseReason : nat := 123.
Definition StatusTryAgainLater : Z := 1013.
Definition StatusGoingAway : Z := 1001.

(** ** Close reasons *)

(** The loop of [truncateReason], dropping the last byte until what is left is valid. *)
Fixpoint chop (fuel : nat) (cut : bytes) : bytes :=
  match fuel with
  | O => cut
  | S fuel =>
      if (0 <? length cut)%nat && negb (ValidString cut) then chop fuel (take (length cut - 1) cut) else cut
  end.

Definition truncateReason (reason : bytes) : bytes :=
  if (length reason <=? maxCloseReason)%nat then reason
  else chop maxCloseReason (take maxCloseReason reason).

Lemma chop_spec fuel : forall cut, (length cut <= fuel)%nat ->
  exists k, chop fuel cut = take k cut /\ ValidString (chop fuel cut) = true
  /\ forall j, (k < j <= length cut)%nat -> ValidString (take j cut) = false.
Proof.
  induction fuel as [|fuel IH]; intros cut Hl; cbn [chop].
  { assert (cut = []) as -> by (destruct cut; [done|cbn in Hl; lia]). exists 0%nat. split_and!; [done..|]. cbn. lia. }
  destruct ((0 <? length cut)%nat && negb (ValidString cut)) eqn:E.
  - apply andb_true_iff in E as [E1 E2]. apply Nat.ltb_lt in E1. apply negb_true_iff in E2.
    destruct (IH (take (length cut - 1) cut)) as (k & H1 & H2 & H3); [rewrite length_take; lia|].
    exists (k `min` (length cut - 1))%nat. rewrite H1, take_take in *. split_and!; [done..|].
    intros j Hj. destruct (decide (j = length cut)) as [->|Hn]; [by rewrite firstn_all|].
    destruct (decide (k < j)%nat) as [Hk|Hk]; [|lia].
    specialize (H3 j). rewrite take_take, length_take, (Nat.min_l j) in H3 by lia. apply H3. lia.
  - exists (length cut). rewrite firstn_all. split_and!; [done| |lia].
    apply andb_false_iff in E as [E|E]; [|by apply negb_false_iff].
    apply Nat.ltb_ge in E. assert (cut = []) as -> by (destruct cut; [done|cbn in E; lia]). done.
Qed.

(** A prefix of a valid string is valid up to at most three bytes before its end. *)
Lemma valid_prefix rs n : Forall scalar rs -> (n <= length (encode_runes rs))%nat ->
  exists k, (k <= n <= k + 3)%nat /\ ValidString (take k (encode_runes rs)) = true.
Proof.
  intros Hrs. revert n. induction Hrs as [|r rs Hr Hrs IH]; intros n Hn; [by exists 0%nat; cbn in *; split; [lia|]|].
  rewrite encode_runes_cons in *. rewrite length_app in Hn.
  destruct (EncodeRune_shape r Hr) as (b & t & E & _ & _ & Ht).
  destruct (decide (n < length (EncodeRune r))%nat) as [Hlt|Hge].
  { exists 0%nat. rewrite E in Hlt. cbn in *. split; [lia|done]. }
  destruct (IH (n - length (EncodeRune r))%nat) as (k & Hk & Hv); [lia|].
  exists (length (EncodeRune r) + k)%nat. split; [lia|].
  rewrite take_app_add. apply ValidString_iff in Hv as (rs' & Hs' & ->).
  rewrite <- encode_runes_cons. apply ValidString_runes. by constructor.
Qed.

(** A close reason fits the control frame and is a prefix of what was to be said; when
    that was valid UTF-8 so is the reason, and at most three bytes more than necessary
    are lost. *)
Lemma truncateReason_spec reason :
  (length (truncateReason reason) <= maxCloseReason)%nat
  /\ truncateReason reason `prefix_of` reason
  /\ (ValidString reason = true -> ValidString (truncateReason reason) = true
      /\ (Nat.min (length reason) maxCloseReason <= length (truncateReason reason) + 3)%nat).
Proof.
  unfold truncateReason. destruct (length reason <=? maxCloseReason)%nat eqn:E.
  { apply Nat.leb_le in E. split_and!; [done..|]. intros H. split; [done|]. lia. }
  apply Nat.leb_gt in E. destruct (chop_spec maxCloseReason (take maxCloseReason reason)) as (k & H1 & H2 & H3).
  { rewrite length_take. lia. }
  rewrite H1, take_take in *. split_and!.
  - rewrite length_take. lia.
  - apply prefix_take.
  - intros Hv. split; [done|]. apply ValidString_iff in Hv as (rs & Hrs & ->).
    destruct (valid_prefix rs maxCloseReason Hrs) as (j & Hj & Hjv); [lia|].
    rewrite length_take. destruct (decide (k < j)%nat) as [Hk|Hk]; [|unfold maxCloseReason in *; lia].
    exfalso. specialize (H3 j). rewrite take_take, length_take, (Nat.min_l j) in H3 by lia.
    rewrite H3 in Hjv; [done|]. unfold maxCloseReason in *. lia.
Qed.

(** ** What becomes of a request *)

Record gateway_Grant := MkGatewayGrant { gg_Subject : bytes; gg_Write : bool; gg_Owner : bytes }.

(** Everything a client can be answered with.  The rejection is a permission-denied frame
    and then a close frame. *)
Inductive verdict :=
  | NotFound
  | TooManyConnections
  | TooManyFromAddress
  | UpgradeFailed
  | Rejected (frame : bytes) (code : Z) (reason : bytes)
  | TryAgain (code : Z) (reason : bytes)
  | Joined (g : gateway_Grant).

(** [strings.Trim(path, "/")] and the check of [ServeHTTP]. *)
Definition document_name (path : bytes) : option bytes :=
  let name := Trim (str "/") path in
  if decide (name = []) then None else if in_set name 47 then None else Some name.

Definition errNotYours : bytes := str "not authorized for this document".

Definition reject (cause : bytes) : verdict :=
  Rejected (WritePermissionDenied cause) ClosePolicyViolation (truncateReason cause).

(** The part of [ServeHTTP] after both caps: [auth] is what [Authorize] gave (an error's
    text or a grant), [upgraded] whether the upgrade succeeded, and [join] the registry's
    answer for the owner of a grant (an error and its text, or none). *)
Definition decide_connection (auth : bytes + gateway_Grant) (upgraded : bool)
  (join : gateway_Grant -> option (GoError * bytes)) : verdict :=
  if negb upgraded then UpgradeFailed
  else match auth with
  | inl cause => reject cause
  | inr grant =>
      match join grant with
      | None => Joined grant
      | Some (e, text) =>
          if decide (e = ErrWrongOwner) then reject errNotYours
          else if decide (e = ErrManagerClosed) then TryAgain StatusTryAgainLater (str "server shutting down")
          else TryAgain StatusTryAgainLater (truncateReason text)
      end
  end.

(** [authorizer] of [cmd/server/main.go]: open when nothing is configured, else the
    verifier's or the callback's answer. *)
Definition open_grant : gateway_Grant := MkGatewayGrant [] true [].

Definition auth_text (e : GoError) : bytes :=
  match e with
  | ErrMissingToken => str "no token"
  | ErrInvalidToken => str "invalid token"
  | ErrExpired => str "token expired"
  | ErrWrongDoc => str "token is not valid for this document"
  | _ => []
  end.

Definition gateway_grant (g : Grant) : gateway_Grant := MkGatewayGrant (g_Subject g) (g_Write g) (g_Owner g).

Definition by_token (r : res Grant) : bytes + gateway_Grant :=
  match r with Err e => inl (auth_text e) | Ok g => inr (gateway_grant g) end.

Definition by_callback (r : Grant * option CallbackError) : bytes + gateway_Grant :=
  match r with (_, Some e) => inl (error_text e) | (g, None) => inr (gateway_grant g) end.

(** ** The caps *)

Record handler_cfg := MkHandlerCfg { hc_MaxConns : Z; hc_MaxConnsPerIP : Z }.

Record Handler := MkHandler { h_open : Z; h_perIP : gmap bytes Z }.

Definition per (m : gmap bytes Z) (ip : bytes) : Z := default 0 (m !! ip).

Definition claimIP (cfg : handler_cfg) (ip : bytes) (h : Handler) : bool * Handler :=
  if hc_MaxConnsPerIP cfg <=? 0 then (true, h)
  else if hc_MaxConnsPerIP cfg <=? per (h_perIP h) ip then (false, h)
  else (true, MkHandler (h_open h) (<[ip := per (h_perIP h) ip + 1]> (h_perIP h))).

Definition releaseIP (cfg : handler_cfg) (ip : bytes) (h : Handler) : Handler :=
  if hc_MaxConnsPerIP cfg <=? 0 then h
  else let n := per (h_perIP h) ip - 1 in
       if 0 <? n then MkHandler (h_open h) (<[ip := n]> (h_perIP h))
       else MkHandler (h_open h) (delete ip (h_perIP h)).

(** [h.open.Add(d)]. *)
Definition open_Add (d : Z) (h : Handler) : Handler := MkHandler (h_open h + d) (h_perIP h).

(** ** Connections side by side

    Each request runs [ServeHTTP] in its own goroutine; the steps below are the accesses
    to the shared counters, in the order one goroutine makes them.  The deferred calls
    run in reverse: the address is released before the node's count. *)

Inductive stage :=
  | Over
  | Counted
  | Claimed
  | Serving (g : gateway_Grant)
  | Releasing (v : verdict)
  | Uncounting (v : verdict)
  | Done (v : verdict).

Record request := MkReq { k_ip : bytes; k_stage : stage }.

Record gsys := MkGsys { gs_h : Handler; gs_reqs : gmap nat request }.

Section Admission.
Context (cfg : handler_cfg).

Definition set_stage (t : nat) (ip : bytes) (st : stage) (h : Handler) (s : gsys) : gsys :=
  MkGsys h (<[t := MkReq ip st]> (gs_reqs s)).

(** The first cap: add, look, and take back if that was one too many. *)
Definition count_in (h : Handler) : stage * Handler :=
  if 0 <? hc_MaxConns cfg then
    let h := open_Add 1 h in
    (if hc_MaxConns cfg <? h_open h then Over else Counted, h)
  else (Counted, h).

Definition count_out (h : Handler) : Handler := if 0 <? hc_MaxConns cfg then open_Add (-1) h else h.

Inductive gstep : gsys -> gsys -> Prop :=
  | gstep_bad_name s t ip path : gs_reqs s !! t = None -> document_name path = None ->
      gstep s (set_stage t ip (Done NotFound) (gs_h s) s)
  | gstep_count s t ip path name : gs_reqs s !! t = None -> document_name path = Some name ->
      gstep s (set_stage t ip (count_in (gs_h s)).1 (count_in (gs_h s)).2 s)
  | gstep_over s t ip : gs_reqs s !! t = Some (MkReq ip Over) ->
      gstep s (set_stage t ip (Done TooManyConnections) (open_Add (-1) (gs_h s)) s)
  | gstep_claim s t ip : gs_reqs s !! t = Some (MkReq ip Counted) ->
      gstep s (let '(ok, h) := claimIP cfg ip (gs_h s) in
               set_stage t ip (if ok : bool then Claimed else Uncounting TooManyFromAddress) h s)
  | gstep_decide s t ip auth upgraded join : gs_reqs s !! t = Some (MkReq ip Claimed) ->
      gstep s (let v := decide_connection auth upgraded join in
               set_stage t ip (match v with Joined g => Serving g | _ => Releasing v end) (gs_h s) s)
  | gstep_leave s t ip g : gs_reqs s !! t = Some (MkReq ip (Serving g)) ->
      gstep s (set_stage t ip (Releasing (Joined g)) (gs_h s) s)
  | gstep_release s t ip v : gs_reqs s !! t = Some (MkReq ip (Releasing v)) ->
      gstep s (set_stage t ip (Uncounting v) (releaseIP cfg ip (gs_h s)) s)
  | gstep_uncount s t ip v : gs_reqs s !! t = Some (MkReq ip (Uncounting v)) ->
      gstep s (set_stage t ip (Done v) (count_out (gs_h s)) s).

Inductive gsteps : gsys -> Prop :=
  | gsteps_init : gsteps (MkGsys (MkHandler 0 ∅) ∅)
  | gsteps_step s s' : gsteps s -> gstep s s' -> gsteps s'.

(** Which requests the two counters count. *)
Definition counted (r : request) : bool := match k_stage r with Done _ => false | _ => true end.
Definition admitted (r : request) : bool := match k_stage r with Done _ | Over => false | _ => true end.
Definition holds (ip : bytes) (r : request) : bool :=
  bool_decide (k_ip r = ip) && match k_stage r with Claimed | Serving _ | Releasing _ => true | _ => false end.

Definition how_many (P : request -> bool) (m : gmap nat request) : Z :=
  Z.of_nat (size (filter (fun kv => P kv.2 = true) m)).

Lemma how_many_pos P m : 0 <= how_many P m.
Proof. unfold how_many. lia. Qed.

Lemma how_many_insert P m t r : m !! t = None -> how_many P (<[t := r]> m) = how_many P m + Z.b2z (P r).
Proof.
  intros H. unfold how_many. destruct (P r) eqn:E; cbn.
  - rewrite map_filter_insert_True by done. rewrite map_size_insert_None; [lia|].
    apply map_lookup_filter_None. by left.
  - rewrite map_filter_insert_not' by (cbn; congruence). lia.
Qed.

Lemma how_many_update P m t r r' : m !! t = Some r ->
  how_many P (<[t := r']> m) = how_many P m - Z.b2z (P r) + Z.b2z (P r').
Proof.
  intros H. rewrite <- (insert_delete_id m t r H) at 1 2. rewrite insert_insert_eq.
  rewrite !how_many_insert by apply lookup_delete_eq. lia.
Qed.

Record ginv (s : gsys) : Prop := {
  gi_open : 0 < hc_MaxConns cfg -> h_open (gs_h s) = how_many counted (gs_reqs s);
  gi_cap : 0 < hc_MaxConns cfg -> how_many admitted (gs_reqs s) <= hc_MaxConns cfg;
  gi_ip : 0 < hc_MaxConnsPerIP cfg -> forall ip,
    per (h_perIP (gs_h s)) ip = how_many (holds ip) (gs_reqs s)
    /\ how_many (holds ip) (gs_reqs s) <= hc_MaxConnsPerIP cfg;
  gi_pruned : forall ip n, h_perIP (gs_h s) !! ip = Some n -> 0 < n;
}.

Lemma how_many_le (P Q : request -> bool) m : (forall r, P r = true -> Q r = true) -> how_many P m <= how_many Q m.
Proof.
  intros H. unfold how_many. apply inj_le, map_subseteq_size.
  apply map_subseteq_spec. intros t r Hr. apply map_lookup_filter_Some in Hr as [H1 H2].
  apply map_lookup_filter_Some. auto.
Qed.

Lemma per_insert m ip n ip' : per (<[ip := n]> m) ip' = if decide (ip = ip') then n else per m ip'.
Proof. unfold per. case_decide; [subst; by rewrite lookup_insert_eq|by rewrite lookup_insert_ne]. Qed.

Lemma per_delete m ip ip' : per (delete ip m) ip' = if decide (ip = ip') then 0 else per m ip'.
Proof. unfold per. case_decide; [subst; by rewrite lookup_delete_eq|by rewrite lookup_delete_ne]. Qed.

Lemma holds_b2z ip' ip st : Z.b2z (holds ip' (MkReq ip st))
  = if decide (ip = ip') then Z.b2z (match st with Claimed | Serving _ | Releasing _ => true | _ => false end) else 0.
Proof. unfold holds. cbn. case_decide; [by rewrite bool_decide_true|by rewrite bool_decide_false]. Qed.

(** A request moves between stages that count alike, and the handler is left alone. *)
Lemma ginv_same s t ip st st' :
  ginv s -> gs_reqs s !! t = Some (MkReq ip st) ->
  counted (MkReq ip st') = counted (MkReq ip st) -> admitted (MkReq ip st') = admitted (MkReq ip st) ->
  (forall ip', holds ip' (MkReq ip st') = holds ip' (MkReq ip st)) ->
  ginv (set_stage t ip st' (gs_h s) s).
Proof.
  intros H Ht Hc Ha Hh. destruct H. constructor; cbn; intros.
  - rewrite (how_many_update _ _ _ _ _ Ht), Hc, gi_open0 by done. lia.
  - rewrite (how_many_update _ _ _ _ _ Ht), Ha. specialize (gi_cap0 ltac:(done)). lia.
  - rewrite (how_many_update _ _ _ _ _ Ht), Hh. destruct (gi_ip0 ltac:(done) ip0). lia.
  - eauto.
Qed.

Lemma gstep_inv s s' : ginv s -> gstep s s' -> ginv s'.
Proof.
  intros H Hs. destruct Hs as [s t ip path Ht _|s t ip path name Ht _|s t ip Ht|s t ip Ht|s t ip auth up join Ht
    |s t ip g Ht|s t ip v Ht|s t ip v Ht].
  - destruct H. constructor; cbn; intros; rewrite ?(how_many_insert _ _ _ _ Ht), ?holds_b2z; cbn.
    + rewrite gi_open0 by done. lia.
    + specialize (gi_cap0 ltac:(done)). lia.
    + destruct (gi_ip0 ltac:(done) ip0). case_decide; cbn; lia.
    + eauto.
  - unfold count_in. destruct (0 <? hc_MaxConns cfg) eqn:E; bool_arith.
    + pose proof (how_many_le admitted counted (gs_reqs s)) as Hle.
      assert (how_many admitted (gs_reqs s) <= how_many counted (gs_reqs s)) as Hle'.
      { apply Hle. intros [i st]. unfold admitted, counted. by destruct st. }
      pose proof (gi_cap s H E) as H1. pose proof (gi_open s H E) as H2.
      destruct H. constructor; cbn; intros.
      * rewrite (how_many_insert _ _ _ _ Ht). case_if; cbn; lia.
      * rewrite (how_many_insert _ _ _ _ Ht). case_if; cbn; lia.
      * rewrite (how_many_insert _ _ _ _ Ht), holds_b2z. destruct (gi_ip0 ltac:(done) ip0).
        repeat case_match; simplify_eq; cbn; lia.
      * eauto.
    + destruct H. constructor; cbn; intros; [lia|lia| |eauto].
      rewrite (how_many_insert _ _ _ _ Ht), holds_b2z. destruct (gi_ip0 ltac:(done) ip0). case_decide; cbn; lia.
  - destruct H. constructor; cbn; intros; rewrite ?(how_many_update _ _ _ _ _ Ht), ?holds_b2z; cbn.
    + rewrite gi_open0 by done. lia.
    + specialize (gi_cap0 ltac:(done)). lia.
    + destruct (gi_ip0 ltac:(done) ip0). case_decide; cbn; lia.
    + eauto.
  - unfold claimIP. destruct (hc_MaxConnsPerIP cfg <=? 0) eqn:E1; [|destruct (hc_MaxConnsPerIP cfg <=? per _ ip) eqn:E2];
      bool_arith; destruct H; constructor; cbn; intros; rewrite ?(how_many_update _ _ _ _ _ Ht), ?holds_b2z; cbn;
      try (rewrite gi_open0 by done; lia); try (specialize (gi_cap0 ltac:(done)); lia); eauto; try lia.
    + destruct (gi_ip0 ltac:(done) ip0). case_decide; cbn; lia.
    + rewrite per_insert. destruct (gi_ip0 ltac:(done) ip0). destruct (gi_ip0 ltac:(done) ip).
      case_decide; subst; cbn; lia.
    + apply lookup_insert_Some in H as [[<- <-]|[_ H]]; [|eauto].
      destruct (gi_ip0 ltac:(lia) ip) as [-> _]. pose proof (how_many_pos (holds ip) (gs_reqs s)). lia.
  - cbn zeta. eapply ginv_same; [done|exact Ht|by destruct (decide_connection _ _ _)..|].
    intros ip'. unfold holds. cbn. by destruct (decide_connection _ _ _).
  - by eapply ginv_same.
  - assert (0 < hc_MaxConnsPerIP cfg -> forall ip', ip <> ip' ->
      how_many (holds ip') (<[t := MkReq ip (Uncounting v)]> (gs_reqs s)) = how_many (holds ip') (gs_reqs s)) as Hother.
    { intros _ ip' Hn. rewrite (how_many_update _ _ _ _ _ Ht), !holds_b2z. rewrite !decide_False by done. lia. }
    assert (how_many (holds ip) (<[t := MkReq ip (Uncounting v)]> (gs_reqs s)) = how_many (holds ip) (gs_reqs s) - 1) as Hown.
    { rewrite (how_many_update _ _ _ _ _ Ht), !holds_b2z. rewrite !decide_True by done. cbn. lia. }
    destruct H. constructor; cbn.
    + intros Hc. rewrite (how_many_update _ _ _ _ _ Ht). cbn. unfold releaseIP. repeat case_if; cbn; rewrite gi_open0; lia.
    + intros Hc. rewrite (how_many_update _ _ _ _ _ Ht). cbn. specialize (gi_cap0 Hc). lia.
    + intros Hc ip'. destruct (gi_ip0 Hc ip') as [I1 I2]. unfold releaseIP.
      replace (hc_MaxConnsPerIP cfg <=? 0) with false by (symmetry; apply Z.leb_gt; lia).
      destruct (decide (ip = ip')) as [<-|Hn].
      * rewrite Hown. case_if; cbn; rewrite ?per_insert, ?per_delete, decide_True by done.
        -- lia.
        -- pose proof (how_many_pos (holds ip) (<[t := MkReq ip (Uncounting v)]> (gs_reqs s))). lia.
      * rewrite (Hother Hc ip' Hn). case_if; cbn; rewrite ?per_insert, ?per_delete, decide_False by done; lia.
    + intros ip' n Hn. unfold releaseIP in Hn. repeat case_if; cbn in Hn; [eauto| |].
      * apply lookup_insert_Some in Hn as [[_ <-]|[_ Hn]]; [lia|eauto].
      * apply lookup_delete_Some in Hn as [_ Hn]. eauto.
  - destruct H. constructor; cbn; intros; rewrite ?(how_many_update _ _ _ _ _ Ht), ?holds_b2z; cbn.
    + unfold count_out. case_if; [|lia]. cbn. rewrite gi_open0 by done. lia.
    + specialize (gi_cap0 ltac:(done)). lia.
    + replace (h_perIP (count_out (gs_h s))) with (h_perIP (gs_h s)) by (unfold count_out; by case_if).
      destruct (gi_ip0 ltac:(done) ip0). case_decide; cbn; lia.
    + eapply gi_pruned0. unfold count_out in H. by case_if.
Qed.

Lemma gsteps_inv s : gsteps s -> ginv s.
Proof.
  induction 1 as [|s s' _ IH Hs]; [|by eapply gstep_inv].
  constructor; cbn; intros; unfold how_many; rewrite ?map_filter_empty, ?map_size_empty; try lia.
  - unfold per. rewrite lookup_empty. cbn. lia.
  - by rewrite lookup_empty in H.
Qed.
End Admission.

Definition serving (r : request) : bool := match k_stage r with Serving _ => true | _ => false end.

(** C36. However connections arrive, are refused, served and leave at the same time: never
    more than [MaxConns] are served, never more than [MaxConnsPerIP] from one address, and
    once every request has been answered both counters are back to nothing. *)
Theorem gateway_caps cfg s :
  gsteps cfg s ->
  (0 < hc_MaxConns cfg -> how_many serving (gs_reqs s) <= hc_MaxConns cfg)
  /\ (0 < hc_MaxConnsPerIP cfg -> forall ip,
      how_many (fun r => bool_decide (k_ip r = ip) && serving r) (gs_reqs s) <= hc_MaxConnsPerIP cfg)
  /\ ((forall t r, gs_reqs s !! t = Some r -> exists v, k_stage r = Done v) ->
      (0 < hc_MaxConns cfg -> h_open (gs_h s) = 0) /\ (0 < hc_MaxConnsPerIP cfg -> h_perIP (gs_h s) = ∅)).
Proof.
  intros Hs. pose proof (gsteps_inv _ _ Hs) as H. split_and!.
  - intros Hc. etrans; [|by apply (gi_cap _ _ H)]. apply how_many_le. intros [ip st]. unfold serving, admitted. by destruct st.
  - intros Hc ip. etrans; [|by apply (gi_ip _ _ H)]. apply how_many_le. intros [ip' st]. unfold serving, holds. cbn.
    rewrite !andb_true_iff. intros [? ?]. by destruct st.
  - intros Hd. assert (forall P, (forall r v, k_stage r = Done v -> P r = false) -> how_many P (gs_reqs s) = 0) as Hz.
    { intros P HP. unfold how_many. rewrite (proj2 (map_empty_filter _ _)), map_size_empty; [done|].
      intros t r Hr Hp. cbn in Hp. destruct (Hd t r Hr) as [v Hv]. by rewrite (HP r v Hv) in Hp. }
    split.
    + intros Hc. rewrite (gi_open _ _ H Hc). apply Hz. intros r v Hv. unfold counted. by rewrite Hv.
    + intros Hc. apply map_empty. intros ip. destruct (_ !! ip) as [n|] eqn:E; [|done].
      pose proof (gi_pruned _ _ H ip n E). destruct (gi_ip _ _ H Hc ip) as [Hp _].
      unfold per in Hp. rewrite E in Hp. cbn in Hp. rewrite Hz in Hp; [lia|].
      intros r v Hv. unfold holds. by rewrite Hv, andb_false_r.
Qed.

Definition two_each : handler_cfg := MkHandlerCfg 2 1.

Lemma gateway_caps_witness :
  exists s, gs_reqs s !! 0%nat = Some (MkReq [1] (Serving open_grant)) /\ how_many serving (gs_reqs s) <= 2.
Proof.
  pose proof (gsteps_init two_each) as H0.
  unshelve epose proof (gsteps_step _ _ _ H0 (gstep_count two_each _ 0 [1] (str "/notes") (str "notes") _ _)) as H1; [done..|].
  unshelve epose proof (gsteps_step _ _ _ H1 (gstep_claim two_each _ 0 [1] _)) as H2; [done|].
  unshelve epose proof (gsteps_step _ _ _ H2 (gstep_decide two_each _ 0 [1] (inr open_grant) true (fun _ => None) _)) as H3; [done|].
  eexists. split; [|by apply (gateway_caps two_each _ H3)]. done.
Defined.

(** ** What a refused client is told *)

(** A close frame that is too long or not UTF-8 would be a protocol error.  Whatever the
    endpoint of the callback answers and whatever error a join ends with, the reason fits
    and is valid. *)
Theorem close_reason_legal U V cfg req o upgraded join v :
  (forall g e text, join g = Some (e, text) -> ValidString text = true) ->
  v = decide_connection (by_callback (a_grant (ask U V cfg req o), a_err (ask U V cfg req o))) upgraded join ->
  match v with
  | Rejected _ code reason | TryAgain code reason =>
      (length reason <= maxCloseReason)%nat /\ ValidString reason = true /\ (code = 1008 \/ code = 1013)
  | _ => True
  end.
Proof.
  intros Hj ->. assert (forall e, a_err (ask U V cfg req o) = Some e -> ValidString (error_text e) = true) as He.
  { intros e E. destruct e as [|reason|]; [done| |done].
    assert (exists x, reason = sanitize x) as [x ->].
    { revert E. unfold ask, unavailable, refusal, denied. repeat case_match; cbn; intros; simplify_eq; eauto; by exists []. }
    destruct (sanitize_ok x) as (rs & Er & Hrs & _ & _). cbn [error_text]. rewrite Er. case_decide; [done|].
    assert (str "denied: " = encode_runes (str "denied: ")) as -> by (by vm_compute).
    rewrite <- encode_runes_app. apply ValidString_runes, Forall_app. split; [|done].
    change (str "denied: ") with [100; 101; 110; 105; 101; 100; 58; 32].
    repeat (apply Forall_cons; split; [unfold scalar; lia|]). constructor. }
  assert (forall t, ValidString t = true -> (length (truncateReason t) <= maxCloseReason)%nat /\ ValidString (truncateReason t) = true) as Ht.
  { intros t H. destruct (truncateReason_spec t) as (H1 & _ & H2). split; [done|]. by apply H2. }
  unfold decide_connection. destruct upgraded; [|done]. cbn [negb]. unfold by_callback.
  destruct (a_err (ask U V cfg req o)) as [e|] eqn:E.
  - unfold reject. destruct (Ht (error_text e) (He e eq_refl)) as [H1 H2]. split_and!; [exact H1|exact H2|by left].
  - destruct (join _) as [[e text]|] eqn:Ej; [|done]. repeat case_decide; unfold reject.
    + destruct (Ht errNotYours) as [H1 H2]; [by vm_compute|]. split_and!; [exact H1|exact H2|by left].
    + split_and!; [by apply Nat.leb_le|by vm_compute|by right].
    + destruct (Ht text) as [H1 H2]; [by eapply Hj|]. split_and!; [exact H1|exact H2|by right].
Qed.

Lemma close_reason_legal_witness :
  (length (truncateReason (error_text (denied (repeat (200%Z) 300%nat)))) <= maxCloseReason)%nat.
Proof.
  apply (close_reason_legal (fun _ => None) (fun _ => false) (MkCallbackConfig 1 0 1 false) (MkRequest [] [] [] [])
    (Replied 403 (repeat (200%Z) 300%nat) false) true (fun _ => None)
    (Rejected (WritePermissionDenied (error_text (denied (repeat (200%Z) 300%nat)))) 1008
       (truncateReason (error_text (denied (repeat (200%Z) 300%nat)))))); done.
Defined.

(** A client whose token is refused and a client of another tenant are not told the same:
    no error of the token check reads like [errNotYours]. *)
Lemma Verify_errors P v now now' token doc e : Verifier_Verify P v now now' token doc = Err e ->
  e ∈ [ErrMissingToken; ErrInvalidToken; ErrExpired; ErrWrongDoc].
Proof.
  unfold Verifier_Verify, check_claims. intros H.
  repeat (case_match; simplify_eq); set_solver.
Qed.

Theorem wrong_owner_is_told_apart P v now now' token doc e g text j :
  Verifier_Verify P v now now' token doc = Err e ->
  decide_connection (by_token (Err e)) true j
  <> decide_connection (inr g) true (fun _ => Some (ErrWrongOwner, text)).
Proof.
  intros H. apply Verify_errors in H. cbn.
  repeat (apply elem_of_cons in H as [->|H]; [by vm_compute|]). by apply elem_of_nil in H.
Qed.

Lemma wrong_owner_is_told_apart_witness :
  decide_connection (by_token (Err ErrMissingToken)) true (fun _ => None)
  <> decide_connection (inr open_grant) true (fun _ => Some (ErrWrongOwner, [])).
Proof. by apply (wrong_owner_is_told_apart toy_parse (toy_verifier []) noon noon [] []). Defined.
