(* ===== verification/Pump.v ===== *)
(** * The two pumps of a connection

    [readPump], [writePump], [drain] and the end of [ServeHTTP] in
    [internal/gateway/handler.go], around the connection of [Conn.v].  The room's calls
    ([Send], [Close]) may fall between any two steps of the pumps; [wire] is what the
    socket was given, in order.  A write that fails gives nothing to the wire. *)

From stdpp Require Import strings.
From S2P Require Import Prelude Text Conn Gateway.

Inductive wire_event := WFrame (f : bytes) | WPing | WClose (code : Z) (reason : bytes).

(** [Draining]: the deferred function runs; [Flushed]: it is about to write the close
    frame; [Finished]: [c.finished] is closed and the read context cancelled. *)
Inductive wpc := Running | Draining | Flushed | Finished.

(** [Reading]: in [readPump]; [Leaving]: it returned, [Leave] and [Close] have been
    called and the handler waits for [c.finished]; [Returned]: the handler is done. *)
Inductive rpc := Reading | Leaving | Returned.

#[export] Instance wpc_eq_dec : EqDecision wpc.
Proof. solve_decision. Defined.
#[export] Instance rpc_eq_dec : EqDecision rpc.
Proof. solve_decision. Defined.

(** [p_accepted] are the frames [Send] put in the queue, [p_at_close] those it had put
    there when the connection started closing, [p_broken] that a write failed. *)
Record pumps := MkPumps {
  p_conn : conn;
  p_writer : wpc;
  p_reader : rpc;
  p_wire : list wire_event;
  p_delivered : list bytes;
  p_left : nat;
  p_accepted : list bytes;
  p_at_close : option (list bytes);
  p_broken : bool;
}.

Definition pop (rest : list bytes) (c : conn) : conn :=
  MkConn (c_id c) rest (c_buffer c) (c_write c) (c_done c) (c_code c) (c_reason c).

(** [c.Close], with what was queued at that moment. *)
Definition close_conn (code : Z) (reason : bytes) (p : pumps) : pumps :=
  MkPumps (conn_Close code reason (p_conn p)) (p_writer p) (p_reader p) (p_wire p) (p_delivered p) (p_left p)
    (p_accepted p) (match p_at_close p with Some q => Some q | None => Some (p_accepted p) end) (p_broken p).

(** [c.Send], called by the room. *)
Definition send_conn (pick : bool) (f : bytes) (p : pumps) : pumps :=
  let c := (conn_Send pick f (p_conn p)).2 in
  MkPumps c (p_writer p) (p_reader p) (p_wire p) (p_delivered p) (p_left p)
    (if bool_decide (c_out c = c_out (p_conn p)) then p_accepted p else p_accepted p ++ [f])
    (p_at_close p) (p_broken p).

Definition set_writer (w : wpc) (p : pumps) : pumps :=
  MkPumps (p_conn p) w (p_reader p) (p_wire p) (p_delivered p) (p_left p) (p_accepted p) (p_at_close p) (p_broken p).

(** [write] of a frame taken from the queue. *)
Definition write_frame (ok : bool) (f : bytes) (rest : list bytes) (p : pumps) : pumps :=
  MkPumps (pop rest (p_conn p)) (p_writer p) (p_reader p)
    (if ok then p_wire p ++ [WFrame f] else p_wire p) (p_delivered p) (p_left p)
    (p_accepted p) (p_at_close p) (if ok then p_broken p else true).

Definition on_wire (e : wire_event) (p : pumps) : pumps :=
  MkPumps (p_conn p) (p_writer p) (p_reader p) (p_wire p ++ [e]) (p_delivered p) (p_left p)
    (p_accepted p) (p_at_close p) (p_broken p).

Definition deliver_frame (data : bytes) (p : pumps) : pumps :=
  MkPumps (p_conn p) (p_writer p) (p_reader p) (p_wire p) (p_delivered p ++ [data]) (p_left p)
    (p_accepted p) (p_at_close p) (p_broken p).

(** What [readPump] may meet: the read, the throttle or the room ends it; a text frame
    closes the connection first. *)
Inductive read_result := ReadEnded | ReadText | ReadBinary (data : bytes).

(** The end of [ServeHTTP]: [rm.Leave(c)] and [c.Close(1000, "")]. *)
Definition leave_conn (p : pumps) : pumps :=
  let p := close_conn StatusNormalClosure [] p in
  MkPumps (p_conn p) (p_writer p) Leaving (p_wire p) (p_delivered p) (S (p_left p))
    (p_accepted p) (p_at_close p) (p_broken p).

Definition readPump (r : read_result) (p : pumps) : pumps :=
  match r with
  | ReadEnded => leave_conn p
  | ReadText => leave_conn (close_conn CloseProtocolError (str "binary frames only") p)
  | ReadBinary data => deliver_frame data p
  end.

Inductive pstep : pumps -> pumps -> Prop :=
  | pstep_send p pick f : pstep p (send_conn pick f p)
  | pstep_close p code reason : pstep p (close_conn code reason p)
  (* the select of [writePump] *)
  | pstep_done p : p_writer p = Running -> c_done (p_conn p) = true -> pstep p (set_writer Draining p)
  | pstep_frame p f rest : p_writer p = Running -> c_out (p_conn p) = f :: rest ->
      pstep p (write_frame true f rest p)
  | pstep_frame_fails p f rest : p_writer p = Running -> c_out (p_conn p) = f :: rest ->
      pstep p (set_writer Draining (close_conn StatusGoingAway (str "write failed") (write_frame false f rest p)))
  | pstep_ping p : p_writer p = Running -> pstep p (on_wire WPing p)
  | pstep_ping_fails p : p_writer p = Running ->
      pstep p (set_writer Draining (close_conn StatusGoingAway (str "ping timeout") p))
  (* the deferred [drain], close frame and cancel *)
  | pstep_drain p f rest : p_writer p = Draining -> c_out (p_conn p) = f :: rest ->
      pstep p (write_frame true f rest p)
  | pstep_drain_fails p f rest : p_writer p = Draining -> c_out (p_conn p) = f :: rest ->
      pstep p (set_writer Flushed (write_frame false f rest p))
  | pstep_drained p : p_writer p = Draining -> c_out (p_conn p) = [] -> pstep p (set_writer Flushed p)
  | pstep_goodbye p : p_writer p = Flushed ->
      pstep p (set_writer Finished
                 (on_wire (WClose (closeStatus (p_conn p)).1 (truncateReason (closeStatus (p_conn p)).2)) p))
  (* the read pump and the end of the handler *)
  | pstep_read p r : p_reader p = Reading -> pstep p (readPump r p)
  | pstep_return p : p_reader p = Leaving -> p_writer p = Finished ->
      pstep p (MkPumps (p_conn p) (p_writer p) Returned (p_wire p) (p_delivered p) (p_left p)
                 (p_accepted p) (p_at_close p) (p_broken p)).

Definition pumps_init (id buffer : Z) (write : bool) : pumps :=
  MkPumps (newConn id buffer write) Running Reading [] [] 0 [] None false.

Inductive psteps (id buffer : Z) (write : bool) : pumps -> Prop :=
  | psteps_init : psteps id buffer write (pumps_init id buffer write)
  | psteps_step p p' : psteps id buffer write p -> pstep p p' -> psteps id buffer write p'.

(** ** Invariant *)

Definition frames (wire : list wire_event) : list bytes := wire ≫= fun e => match e with WFrame f => [f] | _ => [] end.
Definition closes (wire : list wire_event) : list (Z * bytes) :=
  wire ≫= fun e => match e with WClose c r => [(c, r)] | _ => [] end.

Lemma frames_app w w' : frames (w ++ w') = frames w ++ frames w'.
Proof. apply bind_app. Qed.
Lemma closes_app w w' : closes (w ++ w') = closes w ++ closes w'.
Proof. apply bind_app. Qed.

Lemma frames_frame w f : frames (w ++ [WFrame f]) = frames w ++ [f].
Proof. apply frames_app. Qed.
Lemma frames_ping w : frames (w ++ [WPing]) = frames w.
Proof. rewrite frames_app. apply app_nil_r. Qed.
Lemma frames_close w c r : frames (w ++ [WClose c r]) = frames w.
Proof. rewrite frames_app. apply app_nil_r. Qed.
#[local] Arguments frames : simpl never.
#[local] Arguments closes : simpl never.

Record pinv (p : pumps) : Prop := {
  pi_order : p_broken p = false -> frames (p_wire p) ++ c_out (p_conn p) = p_accepted p;
  pi_sublist : frames (p_wire p) ++ c_out (p_conn p) `sublist_of` p_accepted p;
  pi_closing : c_done (p_conn p) = bool_decide (is_Some (p_at_close p));
  pi_at_close : forall q, p_at_close p = Some q -> q `prefix_of` p_accepted p;
  pi_writer : p_writer p <> Running -> is_Some (p_at_close p);
  pi_flushed : forall q, p_at_close p = Some q -> p_writer p = Flushed \/ p_writer p = Finished ->
    p_broken p = false -> q `prefix_of` frames (p_wire p);
  pi_goodbye : if decide (p_writer p = Finished)
               then exists w, p_wire p = w ++ [WClose (c_code (p_conn p)) (truncateReason (c_reason (p_conn p)))] /\ closes w = []
               else closes (p_wire p) = [];
  pi_left : p_left p = (if decide (p_reader p = Reading) then 0 else 1)%nat;
  pi_reader : p_reader p <> Reading -> is_Some (p_at_close p);
  pi_returned : p_reader p = Returned -> p_writer p = Finished;
}.

Lemma pinv_init id buffer write : pinv (pumps_init id buffer write).
Proof. constructor; cbn; try done; by intros _ [?|?]. Qed.

Lemma conn_Send_effect pick f c :
  let c' := (conn_Send pick f c).2 in
  (c_out c' = c_out c \/ c_out c' = c_out c ++ [f])
  /\ c_done c' = c_done c /\ c_code c' = c_code c /\ c_reason c' = c_reason c.
Proof. unfold conn_Send. repeat case_if; cbn; auto. Qed.

Lemma app_self {A} (l : list A) x : l ++ [x] <> l.
Proof. intros E. apply (f_equal length) in E. rewrite length_app in E. cbn in E. lia. Qed.

Lemma pinv_send pick f p : pinv p -> pinv (send_conn pick f p).
Proof.
  intros H. destruct (conn_Send_effect pick f (p_conn p)) as (Ho & Hd & Hc & Hr). cbn zeta in *.
  assert (exists fs, p_accepted (send_conn pick f p) = p_accepted p ++ fs
    /\ c_out (conn_Send pick f (p_conn p)).2 = c_out (p_conn p) ++ fs) as (fs & Ea & Eo).
  { cbn. destruct Ho as [E|E].
    - exists []. rewrite E, bool_decide_true by done. by rewrite !app_nil_r.
    - exists [f]. rewrite E, bool_decide_false by apply app_self. done. }
  destruct H. constructor; rewrite ?Ea; cbn; rewrite ?Eo, ?Hd, ?Hc, ?Hr; try done.
  - intros Hb. rewrite app_assoc, pi_order0 by done. done.
  - rewrite app_assoc. by apply sublist_app.
  - intros q Hq. by apply prefix_app_r, pi_at_close0.
Qed.

Lemma close_done code reason c :
  c_done (conn_Close code reason c) = true /\ c_out (conn_Close code reason c) = c_out c
  /\ (c_done c = true -> conn_Close code reason c = c).
Proof. unfold conn_Close. by destruct (c_done c) eqn:E. Qed.

Lemma pinv_close code reason p : pinv p -> pinv (close_conn code reason p) /\ is_Some (p_at_close (close_conn code reason p)).
Proof.
  intros H. destruct (close_done code reason (p_conn p)) as (Hd & Ho & Hs).
  split; [|cbn; by destruct (p_at_close p)]. destruct H. constructor; cbn; rewrite ?Ho, ?Hd; try done.
  - by destruct (p_at_close p).
  - intros q Hq. destruct (p_at_close p); simplify_eq; auto.
  - intros Hw. by destruct (p_at_close p).
  - intros q Hq Hw Hb. destruct (p_at_close p) as [q'|] eqn:E; simplify_eq; [auto|].
    destruct pi_writer0 as [? ?]; [destruct Hw; congruence|congruence].
  - destruct (decide (p_writer p = Finished)) as [Hw|Hw]; [|done]. rewrite Hs; [done|]. rewrite pi_closing0. apply bool_decide_true, pi_writer0. by rewrite Hw.
  - intros _. destruct (p_at_close p); eauto.
Qed.

(** The writer takes the first frame off the queue, and writes it unless the write fails. *)
Lemma pinv_write ok f rest p : pinv p -> c_out (p_conn p) = f :: rest ->
  p_writer p = Running \/ p_writer p = Draining -> pinv (write_frame ok f rest p).
Proof.
  intros H Ho Hw. assert (p_writer p <> Finished /\ p_writer p <> Flushed) as [Hf Hl] by (destruct Hw; split; congruence).
  destruct H. rewrite Ho in *. constructor; cbn; try done.
  - destruct ok; [|done]. intros Hb. rewrite frames_frame, <- app_assoc. auto.
  - destruct ok; [rewrite frames_frame, <- app_assoc; done|].
    etrans; [|done]. apply sublist_app; [done|]. by apply sublist_cons.
  - intros q _ [?|?]; done.
  - rewrite decide_False in pi_goodbye0 |- * by done. destruct ok; [|done]. by rewrite closes_app, pi_goodbye0.
Qed.

Lemma pinv_draining p : pinv p -> is_Some (p_at_close p) -> p_writer p = Running -> pinv (set_writer Draining p).
Proof.
  intros H Hc Hw. destruct H. constructor; cbn; try done.
  - by intros q _ [?|?].
  - by rewrite decide_False in pi_goodbye0 by congruence.
  - intros Hr. apply pi_returned0 in Hr. congruence.
Qed.

Lemma pinv_flushed p : pinv p -> p_writer p = Draining -> c_out (p_conn p) = [] \/ p_broken p = true ->
  pinv (set_writer Flushed p).
Proof.
  intros H Hw Ho. destruct H. constructor; cbn; try done.
  - intros _. apply pi_writer0. congruence.
  - intros q Hq _ Hb. destruct Ho as [Ho|Ho]; [|congruence].
    rewrite Ho, app_nil_r in pi_order0. rewrite pi_order0 by done. auto.
  - by rewrite decide_False in pi_goodbye0 by congruence.
  - intros Hr. apply pi_returned0 in Hr. congruence.
Qed.

Lemma pinv_leave p : pinv p -> p_reader p = Reading -> pinv (leave_conn p).
Proof.
  intros H Hr. destruct (pinv_close StatusNormalClosure [] p H) as [[] Hc]. constructor; cbn in *; try done.
  by rewrite Hr in pi_left0; rewrite pi_left0.
Qed.

Lemma pstep_inv p p' : pinv p -> pstep p p' -> pinv p'.
Proof.
  intros H Hs. destruct Hs as [p pick f|p code reason|p Hw Hd|p f rest Hw Ho|p f rest Hw Ho|p Hw|p Hw
    |p f rest Hw Ho|p f rest Hw Ho|p Hw Ho|p Hw|p r Hr|p Hr Hw].
  - by apply pinv_send.
  - by apply pinv_close.
  - apply pinv_draining; [done| |done]. rewrite (pi_closing p H) in Hd. by apply bool_decide_eq_true in Hd.
  - apply pinv_write; auto.
  - destruct (pinv_close StatusGoingAway (str "write failed") (write_frame false f rest p)) as [H1 H2].
    { apply pinv_write; auto. }
    by apply pinv_draining.
  - destruct H. constructor; cbn; rewrite ?frames_ping, ?frames_close; try done.
    rewrite decide_False in pi_goodbye0 |- * by congruence. by rewrite closes_app, pi_goodbye0.
  - destruct (pinv_close StatusGoingAway (str "ping timeout") p H) as [H1 H2]. by apply pinv_draining.
  - apply pinv_write; auto.
  - apply pinv_flushed; [apply pinv_write; auto|done|by right].
  - apply pinv_flushed; auto.
  - destruct H. constructor; cbn; rewrite ?frames_ping, ?frames_close; try done.
    + intros _. apply pi_writer0. congruence.
    + intros q Hq _ Hb. apply pi_flushed0; auto.
    + rewrite decide_False in pi_goodbye0 by congruence. rewrite decide_True by done. eauto.
  - destruct r; cbn.
    + by apply pinv_leave.
    + apply pinv_leave; [|done]. by apply pinv_close.
    + destruct H. by constructor.
  - destruct H. constructor; cbn; try done.
    + rewrite Hr in pi_left0. done.
    + intros _. apply pi_reader0. congruence.
Qed.

(** C37. A client learns why it was disconnected: whatever the room queues, the network breaks
    and the pumps interleave, frames go out in the order they were accepted, and the
    close frame last, once, with the code of the first close; unless a write fails,
    everything queued when the connection was closed precedes it.  The handler returns
    only after the close frame was written, and has told the room exactly once. *)
Theorem goodbye_is_last id buffer write p :
  psteps id buffer write p ->
  frames (p_wire p) `sublist_of` p_accepted p
  /\ (p_broken p = false -> frames (p_wire p) `prefix_of` p_accepted p)
  /\ (length (closes (p_wire p)) <= 1)%nat
  /\ (p_writer p = Finished -> exists w queued,
       p_wire p = w ++ [WClose (c_code (p_conn p)) (truncateReason (c_reason (p_conn p)))] /\ closes w = []
       /\ p_at_close p = Some queued /\ (p_broken p = false -> queued `prefix_of` frames w))
  /\ (p_reader p = Returned -> p_writer p = Finished /\ p_left p = 1%nat).
Proof.
  intros Hs. assert (pinv p) as H.
  { induction Hs as [|p p' _ IH Hs]; [apply pinv_init|by eapply pstep_inv]. }
  destruct H. split_and!.
  - etrans; [|exact pi_sublist0]. by apply sublist_inserts_r.
  - intros Hb. rewrite <- pi_order0 by done. by apply prefix_app_r.
  - destruct (decide (p_writer p = Finished)) as [Hw|Hw]; [destruct pi_goodbye0 as (w & -> & Hc); rewrite closes_app, Hc; apply le_n|].
    rewrite pi_goodbye0. cbn. lia.
  - intros Hw. rewrite decide_True in pi_goodbye0 by done. destruct pi_goodbye0 as (w & Ew & Hc).
    destruct pi_writer0 as [q Hq]; [congruence|]. exists w, q. split_and!; [done..|].
    intros Hb. pose proof (pi_flushed0 q Hq (or_intror Hw) Hb) as Hp. by rewrite Ew, frames_close in Hp.
  - intros Hr. split; [auto|]. rewrite pi_left0. by rewrite decide_False by congruence.
Qed.

(** The room sends an explanation and closes; the pump writes both, in that order. *)
Lemma goodbye_is_last_witness :
  exists p, p_wire p = [WFrame [7]; WClose 1008 (str "read-only")]
  /\ (p_reader p = Returned -> p_writer p = Finished /\ p_left p = 1%nat).
Proof.
  pose proof (psteps_init 1 4 true) as H0.
  pose proof (psteps_step _ _ _ _ _ H0 (pstep_send _ false [7])) as H1.
  pose proof (psteps_step _ _ _ _ _ H1 (pstep_close _ 1008 (str "read-only"))) as H2.
  unshelve epose proof (psteps_step _ _ _ _ _ H2 (pstep_done _ _ _)) as H3; [done..|].
  unshelve epose proof (psteps_step _ _ _ _ _ H3 (pstep_drain _ [7] [] _ _)) as H4; [done..|].
  unshelve epose proof (psteps_step _ _ _ _ _ H4 (pstep_drained _ _ _)) as H5; [done..|].
  unshelve epose proof (psteps_step _ _ _ _ _ H5 (pstep_goodbye _ _)) as H6; [done..|].
  eexists. split; [|apply (goodbye_is_last _ _ _ _ H6)]. done.
Defined.
