(* ===== verification/Awareness.v ===== *)
(** * Awareness

    [internal/protocol/awareness.go]: the last state every client published,
    with the clock that orders its announcements, and the limits that keep a room's
    awareness bounded.

    [time.Time] is a number of nanoseconds; [Time_Sub] saturates the way Go's does.
    [ApplyUpdate] mutates as it reads, so it returns the tracker next to the error:
    what was applied before a malformed entry stays applied. *)

From S2P Require Import Prelude Lib0.

Definition NullState : bytes := [110; 117; 108; 108].
Definition Second : Z := 1000000000.
Definition DefaultTimeout : Z := 30 * Second.
Definition forgetAfter : Z := 10 * 60 * Second.

Record Limits := MkLimits { MaxState : Z; MaxClients : Z }.
Definition DefaultMaxState : Z := 4096.
Definition DefaultMaxClients : Z := 1024.

Definition maxState (l : Limits) : Z := if MaxState l =? 0 then DefaultMaxState else MaxState l.
Definition maxClients (l : Limits) : Z :=
  if MaxClients l =? 0 then DefaultMaxClients else MaxClients l.

Record entry := MkEntry {
  clock : Z;
  state : bytes;
  e_present : bool;
  lastUpdated : Z;
}.

Record Awareness := MkAwareness {
  entries : gmap Z entry;
  limits : Limits;
  present : Z;
}.

Definition set_entries (m : gmap Z entry) (a : Awareness) : Awareness :=
  MkAwareness m (limits a) (present a).

(** The zero [entry] and the zero [time.Time] (January 1, year 1). *)
Definition zeroTime : Z := -62135596800 * Second.
Definition zero_entry : entry := MkEntry 0 [] false zeroTime.

Definition NewAwarenessWithLimits (l : Limits) : Awareness := MkAwareness ∅ l 0.
Definition NewAwareness : Awareness := NewAwarenessWithLimits (MkLimits 0 0).

Definition Entries (a : Awareness) : Z := Z.of_nat (size (entries a)).

(** [now.Sub(t)], which saturates at the range of a [Duration]. *)
Definition Time_Sub (now t : Z) : Z := Z.max (- two63) (Z.min (two63 - 1) (now - t)).

Definition is_present (x : Z * entry) : bool := e_present x.2.

Section Order.
Context `{!MapOrder}.

Definition Len (a : Awareness) : Z :=
  foldl (fun n x => if is_present x then n + 1 else n) 0 (iter (entries a)).

Definition sort_asc (l : list Z) : list Z := sort_by Z.ltb l.

Definition Clients (a : Awareness) : list Z :=
  sort_asc (map fst (filter (fun x => is_present x = true) (iter (entries a)))).

(** ** Forgetting *)

(** The inner loop of [forgetOldest]: the removed entry updated longest ago, the
    first met among equals. *)
Definition oldest_removed (l : list (Z * entry)) : option (Z * Z) :=
  foldl (fun acc x =>
      if is_present x then acc
      else match acc with
           | None => Some (x.1, lastUpdated x.2)
           | Some (_, at_) => if lastUpdated x.2 <? at_ then Some (x.1, lastUpdated x.2) else acc
           end) None l.

Fixpoint forget_loop (fuel : nat) (limit : Z) (m : gmap Z entry) : gmap Z entry :=
  match fuel with
  | O => m
  | S fuel =>
      if limit <=? Z.of_nat (size m) then
        match oldest_removed (iter m) with
        | None => m
        | Some (id, _) => forget_loop fuel limit (delete id m)
        end
      else m
  end.

Definition forgetOldest (limit : Z) (a : Awareness) : Awareness :=
  set_entries (forget_loop (S (size (entries a))) limit (entries a)) a.

(** ** Applying *)

(** The body of the loop of [ApplyUpdate] once an entry is decoded; the boolean
    says whether the client changed. *)
Definition apply_entry (client clk : Z) (st : bytes) (now : Z) (a : Awareness)
    : res (bool * Awareness) :=
  if (MaxSafeInteger <? client) || (MaxSafeInteger <? clk) then Err ErrAwarenessClockOutOfRange
  else
    let known := match entries a !! client with Some _ => true | None => false end in
    let e := default zero_entry (entries a !! client) in
    let isNull := bool_decide (st = NullState) in
    let max_s := maxState (limits a) in
    let max_c := maxClients (limits a) in
    if negb isNull && (0 <? max_s) && (max_s <? Z.of_nat (length st)) then Err ErrStateTooLarge
    else if negb isNull && (0 <? max_c) && (negb known || negb (e_present e))
            && (max_c <=? present a)
    then Err ErrTooManyClients
    else if negb ((clock e <? clk) || ((clock e =? clk) && isNull && e_present e))
    then Ok (false, a)
    else
      let a := if negb known && (0 <? max_c) then forgetOldest (s64 (2 * max_c)) a else a in
      let p :=
        if Bool.eqb (e_present e) (negb isNull) then present a
        else if isNull then present a - 1 else present a + 1 in
      let e := MkEntry clk (if isNull then [] else st) (negb isNull) now in
      Ok (true, MkAwareness (<[client := e]> (entries a)) (limits a) p).

Definition read_entry (d : Decoder) : res (Z * Z * bytes * Decoder) :=
  '(client, d) ← ReadVarUint d;
  '(clk, d) ← ReadVarUint d;
  '(st, d) ← ReadVarString d;
  Ok (client, clk, st, d).

(** The loop of [ApplyUpdate]: [n] entries left to read. *)
Fixpoint apply_loop (n : nat) (now : Z) (d : Decoder) (changed : list Z) (a : Awareness)
    : list Z * option GoError * Awareness :=
  match n with
  | O => (changed, if Done d then None else Some ErrTrailingBytes, a)
  | S n =>
      match read_entry d with
      | Err e => (changed, Some e, a)
      | Ok (client, clk, st, d) =>
          match apply_entry client clk st now a with
          | Err e => (changed, Some e, a)
          | Ok (b, a) => apply_loop n now d (if b then changed ++ [client] else changed) a
          end
      end
  end.

Definition ApplyUpdate (payload : bytes) (now : Z) (a : Awareness)
    : list Z * option GoError * Awareness :=
  match ReadVarUint (NewDecoder payload) with
  | Err e => ([], Some e, a)
  | Ok (n, d) =>
      if Z.of_nat (Remaining d) <? n then ([], Some ErrUnexpectedEOF, a)
      else apply_loop (Z.to_nat n) now d [] a
  end.

(** ** Encoding *)

Definition State (a : Awareness) (client : Z) : option bytes :=
  match entries a !! client with
  | Some e => if e_present e then Some (state e) else None
  | None => None
  end.

Definition writeEntry (a : Awareness) (id : Z) (e : Encoder) : Encoder :=
  let ent := default zero_entry (entries a !! id) in
  let e := WriteVarUint id e in
  let e := WriteVarUint (clock ent) e in
  if e_present ent then WriteVarString (state ent) e else WriteVarString NullState e.

Definition Encode (a : Awareness) (clients : list Z) : res bytes :=
  finish (write_list (writeEntry a) clients
            (WriteVarUint (Z.of_nat (length clients)) (NewEncoderSize 0))).

Definition EncodeAll (a : Awareness) : res bytes := Encode a (Clients a).

(** ** Removing *)

Definition remove_one (now : Z) (a : Awareness) (id : Z) : Awareness :=
  let e := default zero_entry (entries a !! id) in
  MkAwareness (<[id := MkEntry (clock e) [] false now]> (entries a)) (limits a)
    (if e_present e then present a - 1 else present a).

(** [remove] mutates before it encodes; an encoding error is returned with the
    clients already removed. *)
Definition remove (clients : list Z) (now : Z) (a : Awareness)
    : res (list Z * bytes) * Awareness :=
  let a := foldl (remove_one now) a clients in
  (payload ← Encode a clients; Ok (clients, payload), a).

Definition has_state (a : Awareness) (id : Z) : bool :=
  match entries a !! id with Some e => e_present e | None => false end.

(** No clients to remove is the triple of nils. *)
Definition RemoveClients (clients : list Z) (now : Z) (a : Awareness)
    : res (list Z * bytes) * Awareness :=
  let gone := filter (fun id => has_state a id = true) clients in
  match gone with
  | [] => (Ok ([], []), a)
  | _ => remove gone now a
  end.

Definition stale (now ttl : Z) (x : Z * entry) : bool :=
  e_present x.2 && (ttl <=? Time_Sub now (lastUpdated x.2)).
Definition forgotten (now : Z) (x : Z * entry) : bool :=
  negb (e_present x.2) && (forgetAfter <=? Time_Sub now (lastUpdated x.2)).

Definition Sweep (now ttl : Z) (a : Awareness) : res (list Z * bytes) * Awareness :=
  let l := iter (entries a) in
  let ids := map fst (filter (fun x => stale now ttl x = true) l) in
  let a := set_entries (foldl (fun m x => if forgotten now x then delete x.1 m else m)
                          (entries a) l) a in
  match ids with
  | [] => (Ok ([], []), a)
  | _ => remove (sort_asc ids) now a
  end.
End Order.

(** ** The invariant *)

(** How many entries hold a state. *)
Definition pres (e : entry) : Z := if e_present e then 1 else 0.
Definition count (m : gmap Z entry) : Z :=
  Z.of_nat (length (filter (fun x => is_present x = true) (map_to_list m))).
Definition pres_at (m : gmap Z entry) (id : Z) : Z :=
  match m !! id with Some e => pres e | None => 0 end.

Lemma count_insert_fresh m id e : m !! id = None -> count (<[id := e]> m) = count m + pres e.
Proof.
  intros H. unfold count, pres. rewrite map_to_list_insert by done.
  rewrite filter_cons. change (is_present (id, e)) with (e_present e). destruct (e_present e).
  - rewrite decide_True by done. cbn [length]. lia.
  - rewrite decide_False by done. lia.
Qed.

Lemma count_delete m id : count (delete id m) = count m - pres_at m id.
Proof.
  unfold pres_at. destruct (m !! id) as [e|] eqn:E.
  - rewrite <- (insert_delete_id m id e E) at 2. rewrite count_insert_fresh by apply lookup_delete_eq. lia.
  - rewrite delete_id by done. lia.
Qed.

Lemma count_insert m id e : count (<[id := e]> m) = count m - pres_at m id + pres e.
Proof.
  rewrite <- insert_delete_eq, count_insert_fresh by apply lookup_delete_eq.
  by rewrite count_delete.
Qed.

Lemma count_nonneg m : 0 <= count m.
Proof. unfold count. lia. Qed.

Lemma count_le_size m : count m <= Z.of_nat (size m).
Proof.
  unfold count. rewrite <- length_map_to_list. apply inj_le, length_filter.
Qed.

Record entry_ok (l : Limits) (id : Z) (e : entry) : Prop := {
  eo_id : safe id;
  eo_clock : 0 < clock e <= MaxSafeInteger;
  eo_size : 0 < maxState l -> Z.of_nat (length (state e)) <= maxState l;
  eo_state : if e_present e then state e <> NullState else state e = [];
}.

(** The configured client limit does not overflow when doubled. *)
Definition limits_ok (l : Limits) : Prop := 2 * maxClients l < two63.

(** The counter is right and every dimension of the limits holds. *)
Record aw_ok (a : Awareness) : Prop := {
  ao_limits : limits_ok (limits a);
  ao_count : present a = count (entries a);
  ao_present : 0 < maxClients (limits a) -> present a <= maxClients (limits a);
  ao_entries : 0 < maxClients (limits a) -> Entries a <= 2 * maxClients (limits a);
  ao_entry : map_Forall (entry_ok (limits a)) (entries a);
}.

Lemma NewAwareness_ok l : limits_ok l -> aw_ok (NewAwarenessWithLimits l).
Proof.
  intros Hl. split; [done|done|cbn; lia| |apply map_Forall_empty].
  unfold Entries. cbn [entries limits NewAwarenessWithLimits]. rewrite map_size_empty. lia.
Qed.

Section Order.
Context `{Hord : !MapOrder}.

Lemma Len_count a : Len a = count (entries a).
Proof.
  unfold Len, count. rewrite <- (iter_perm (entries a)).
  enough (forall n, foldl (fun n x => if is_present x then n + 1 else n) n (iter (entries a))
    = n + Z.of_nat (length (filter (fun x => is_present x = true) (iter (entries a))))) as -> by lia.
  induction (iter (entries a)) as [|x l IH]; intros n; cbn [foldl]; [cbn; lia|].
  rewrite filter_cons, IH. destruct (is_present x) eqn:E.
  - rewrite decide_True by done. cbn [length]. lia.
  - by rewrite decide_False.
Qed.

(** ** Forgetting *)

Lemma oldest_removed_spec l :
  match oldest_removed l with
  | None => Forall (fun x => is_present x = true) l
  | Some (id, _) => exists e, (id, e) ∈ l /\ e_present e = false
  end.
Proof.
  unfold oldest_removed. induction l as [|x l IH] using rev_ind; [constructor|].
  rewrite foldl_snoc. set (acc := foldl _ None l) in *.
  destruct (is_present x) eqn:Ex.
  - destruct acc as [[id at_]|].
    + destruct IH as (e & He & Hp). exists e. split; [set_solver|done].
    + apply Forall_app. split; [done|]. by constructor.
  - assert (Hx : exists e, (x.1, e) ∈ l ++ [x] /\ e_present e = false).
    { exists x.2. rewrite <- surjective_pairing. split; [set_solver|done]. }
    destruct acc as [[id at_]|]; [|done]. case_if; [done|].
    destruct IH as (e & He & Hp). exists e. split; [set_solver|done].
Qed.

Lemma all_present_count m :
  Forall (fun x => is_present x = true) (iter m) -> count m = Z.of_nat (size m).
Proof.
  intros H. rewrite iter_perm in H. unfold count. rewrite <- length_map_to_list.
  f_equal. f_equal. induction H as [|x l Hx H IH]; [done|].
  rewrite filter_cons, decide_True by done. by rewrite IH.
Qed.

(** [forgetOldest] drops removed entries only, and ends below the limit. *)
Lemma forget_loop_spec fuel limit : forall m,
  count m < limit -> (size m < fuel)%nat ->
  let m' := forget_loop fuel limit m in
  count m' = count m /\ Z.of_nat (size m') < limit
  /\ (forall id e, m' !! id = Some e -> m !! id = Some e)
  /\ (forall id e, m !! id = Some e -> e_present e = true -> m' !! id = Some e).
Proof.
  induction fuel as [|fuel IH]; intros m Hc Hf m'; subst m'; [lia|]. cbn.
  case_if; [|split_and!; done].
  pose proof (oldest_removed_spec (iter m)) as Ho.
  destruct (oldest_removed (iter m)) as [[id at_]|].
  - destruct Ho as (e & He%elem_of_iter & Hp).
    assert (Hcd : count (delete id m) = count m).
    { rewrite count_delete. unfold pres_at, pres. rewrite He, Hp. lia. }
    assert (Hs : (size (delete id m) < size m)%nat).
    { rewrite map_size_delete, He. assert (size m <> 0%nat); [|lia].
      intros H0. apply map_size_empty_inv in H0. by rewrite H0, lookup_empty in He. }
    destruct (IH (delete id m)) as (H1 & H2 & H3 & H4); [lia..|]. split_and!; [lia..| |].
    + intros k x Hk. apply H3 in Hk. by apply lookup_delete_Some in Hk as [_ ?].
    + intros k x Hk Hx. apply H4; [|done]. apply lookup_delete_Some. split; [|done].
      intros ->. congruence.
  - apply all_present_count in Ho. lia.
Qed.

(** ** Applying an entry *)

Lemma forgetOldest_ok a :
  aw_ok a -> 0 < maxClients (limits a) ->
  let a' := forgetOldest (s64 (2 * maxClients (limits a))) a in
  aw_ok a' /\ limits a' = limits a /\ present a' = present a
  /\ Entries a' < 2 * maxClients (limits a)
  /\ (forall id e, entries a' !! id = Some e -> entries a !! id = Some e)
  /\ (forall id e, entries a !! id = Some e -> e_present e = true -> entries a' !! id = Some e).
Proof.
  intros [H0 H1 H2 H3 H4] Hmax a'. subst a'. specialize (H2 Hmax).
  rewrite s64_small by (unfold limits_ok, two63 in *; lia).
  destruct (forget_loop_spec (S (size (entries a))) (2 * maxClients (limits a)) (entries a))
    as (K1 & K2 & K3 & K4); [lia..|].
  split_and!; try done. unfold forgetOldest, set_entries.
  split; cbn [entries limits present]; [done|by rewrite K1|done| |].
  - intros _. unfold Entries. cbn [entries]. lia.
  - intros id e He. apply H4. by apply K3.
Qed.

(** What [ApplyUpdate] does to make room for a client it has not met. *)
Definition make_room (client : Z) (a : Awareness) : Awareness :=
  if negb (match entries a !! client with Some _ => true | None => false end)
     && (0 <? maxClients (limits a))
  then forgetOldest (s64 (2 * maxClients (limits a))) a else a.

Lemma make_room_ok client a :
  aw_ok a ->
  let a' := make_room client a in
  aw_ok a' /\ limits a' = limits a /\ present a' = present a
  /\ entries a' !! client = entries a !! client
  /\ (forall e, 0 < maxClients (limits a) ->
        Z.of_nat (size (<[client := e]> (entries a'))) <= 2 * maxClients (limits a))
  /\ (forall id e, entries a' !! id = Some e -> entries a !! id = Some e)
  /\ (forall id e, entries a !! id = Some e -> e_present e = true -> entries a' !! id = Some e).
Proof.
  intros Hok a'. subst a'. unfold make_room.
  destruct (entries a !! client) as [e0|] eqn:E; cbn [negb andb].
  { split_and!; try done. intros e Hm. rewrite map_size_insert, E. by apply ao_entries. }
  destruct (0 <? maxClients (limits a)) eqn:Em; bool_arith; cbn [andb].
  - destruct (forgetOldest_ok a Hok Em) as (H1 & H2 & H3 & H4 & H5 & H6).
    assert (Hn : entries (forgetOldest (s64 (2 * maxClients (limits a))) a) !! client = None).
    { apply eq_None_not_Some. intros [x Hx]. apply H5 in Hx. congruence. }
    split_and!; try done. intros e _. rewrite map_size_insert, Hn. unfold Entries in H4. lia.
  - split_and!; try done. lia.
Qed.

(** The entry an accepted announcement leaves. *)
Definition announced (clk : Z) (st : bytes) (now : Z) : entry :=
  let isNull := bool_decide (st = NullState) in
  MkEntry clk (if isNull then [] else st) (negb isNull) now.

(** The clock held for a client, zero for a stranger. *)
Definition clock_of (a : Awareness) (client : Z) : Z :=
  clock (default zero_entry (entries a !! client)).

(** The acceptance rule. *)
Definition newer (a : Awareness) (client clk : Z) (st : bytes) : Prop :=
  clock_of a client < clk
  \/ clock_of a client = clk /\ st = NullState /\ has_state a client = true.

Record acceptable (a : Awareness) (client clk : Z) (st : bytes) : Prop := {
  ad_client : client <= MaxSafeInteger;
  ad_clk : clk <= MaxSafeInteger;
  ad_size : st <> NullState -> 0 < maxState (limits a) ->
    Z.of_nat (length st) <= maxState (limits a);
  ad_room : st <> NullState -> 0 < maxClients (limits a) -> has_state a client = false ->
    present a < maxClients (limits a);
}.

(** An announcement that is not refused is applied if and only if it is newer. *)
Lemma apply_entry_inv client clk st now a b a' :
  apply_entry client clk st now a = Ok (b, a') ->
  acceptable a client clk st
  /\ if b then newer a client clk st
        /\ entries a' = <[client := announced clk st now]> (entries (make_room client a))
        /\ limits a' = limits (make_room client a)
        /\ present a' = present (make_room client a) - pres_at (entries a) client
                        + pres (announced clk st now)
     else a' = a /\ ~ newer a client clk st.
Proof.
  unfold apply_entry. fold (make_room client a). unfold newer, clock_of, has_state, announced.
  intros H. case_if_in H; [done|]. case_if_in H; [done|]. case_if_in H; [done|]. split.
  { split; [done..| |]; unfold has_state; intros; revert E E0;
      rewrite bool_decide_false by done; cbn;
      destruct (entries a !! client) as [[? ? [] ?]|]; cbn; intros; try lia; done. }
  unfold pres_at, pres, zero_entry in *.
  case_if_in H; injection H as <- <-;
    destruct (entries a !! client) as [[? ? [] ?]|]; cbn in *; case_bool_decide; cbn in *;
    bool_arith; split_and!; try done; try lia; try naive_solver lia.
  apply orb_true_iff in E1 as [?|?]; bool_arith; [by left|by right].
Qed.

Lemma has_state_pres a id : has_state a id = (0 <? pres_at (entries a) id).
Proof. unfold has_state, pres_at, pres. by destruct (entries a !! id) as [[? ? [] ?]|]. Qed.

Lemma pres_at_count m id : 0 <= pres_at m id <= 1.
Proof. unfold pres_at, pres. destruct (m !! id) as [[? ? [] ?]|]; cbn; lia. Qed.

Lemma announced_ok a client clk st now :
  aw_ok a -> 0 <= client -> 0 <= clk -> acceptable a client clk st -> newer a client clk st ->
  entry_ok (limits a) client (announced clk st now).
Proof.
  intros Hok Hc Hk [A1 A2 A3 _] Hn.
  assert (0 <= clock_of a client /\ (has_state a client = true -> 0 < clock_of a client)) as [Hz Hh].
  { unfold clock_of, has_state. destruct (entries a !! client) as [e|] eqn:E; cbn; [|by split].
    destruct (ao_entry _ Hok _ _ E). lia. }
  unfold announced. split; cbn.
  - unfold safe. lia.
  - destruct Hn as [?|(? & _ & Hp)]; [lia|]. specialize (Hh Hp). lia.
  - case_bool_decide; [cbn; lia|auto].
  - by case_bool_decide.
Qed.

Lemma apply_entry_ok client clk st now a b a' :
  aw_ok a -> 0 <= client -> 0 <= clk -> apply_entry client clk st now a = Ok (b, a') ->
  aw_ok a' /\ limits a' = limits a.
Proof.
  intros Hok Hc Hk H. apply apply_entry_inv in H as [Hacc H].
  destruct b; [|by destruct H as [-> _]]. destruct H as (Hn & He & Hl & Hp).
  destruct (make_room_ok client a Hok) as (R1 & R2 & R3 & R4 & R5 & _).
  rewrite R2 in Hl. split; [|done].
  assert (Hpa : pres_at (entries (make_room client a)) client = pres_at (entries a) client).
  { unfold pres_at. by rewrite R4. }
  split.
  - rewrite Hl. apply Hok.
  - rewrite He, Hp, count_insert, (ao_count _ R1). lia.
  - rewrite Hl. intros Hm. rewrite Hp, R3. pose proof (ao_present _ Hok Hm).
    pose proof (pres_at_count (entries a) client). unfold announced, pres; cbn.
    case_bool_decide; cbn; [lia|]. destruct Hacc as [_ _ _ Hr].
    destruct (has_state a client) eqn:Eh; [|specialize (Hr H1 Hm eq_refl); lia].
    rewrite has_state_pres in Eh. bool_arith. lia.
  - rewrite Hl. intros Hm. unfold Entries. rewrite He. by apply R5.
  - rewrite He, Hl. apply map_Forall_insert_2; [by eapply announced_ok|]. rewrite <- R2. apply R1.
Qed.

Lemma ReadVarUint_range d v d' : ReadVarUint d = Ok (v, d') -> 0 <= v < two64.
Proof. apply varuint_read_range. Qed.

Lemma apply_loop_ok n now : forall d ch a,
  aw_ok a ->
  let a' := (apply_loop n now d ch a).2 in aw_ok a' /\ limits a' = limits a.
Proof.
  induction n as [|n IH]; intros d ch a Hok; cbn; [done|].
  destruct (read_entry d) as [[[[client clk] st] d']|] eqn:Er; [|done].
  unfold read_entry in Er. res_inv. apply ReadVarUint_range in Hm, Hm0.
  destruct (apply_entry client clk st now a) as [[b a1]|] eqn:Ea; [|done].
  apply apply_entry_ok in Ea as [H1 H2]; [|done|lia..]. rewrite <- H2. by apply IH.
Qed.

Lemma tracker_ApplyUpdate_ok payload now a :
  aw_ok a ->
  let a' := (ApplyUpdate payload now a).2 in aw_ok a' /\ limits a' = limits a.
Proof.
  intros Hok. unfold ApplyUpdate. destruct (ReadVarUint _) as [[n d]|]; [|done].
  destruct (_ <? n); [done|]. by apply apply_loop_ok.
Qed.

(** ** Removing *)

Lemma remove_one_ok now a id :
  aw_ok a -> is_Some (entries a !! id) ->
  aw_ok (remove_one now a id) /\ limits (remove_one now a id) = limits a.
Proof.
  intros Hok [e He]. destruct (ao_entry _ Hok _ _ He) as [E1 E2 E3 E4].
  unfold remove_one. rewrite He. cbn [default from_option Datatypes.id]. split; [|done].
  pose proof (ao_count _ Hok) as Hcnt.
  assert (Hpa : pres_at (entries a) id = if e_present e then 1 else 0) by (unfold pres_at; by rewrite He).
  split; cbn [entries limits present].
  - apply Hok.
  - rewrite count_insert, Hpa. unfold pres. cbn [e_present]. destruct (e_present e); lia.
  - intros Hm. pose proof (ao_present _ Hok Hm). destruct (e_present e); lia.
  - intros Hm. unfold Entries. cbn [entries]. rewrite map_size_insert, He. by apply Hok.
  - apply map_Forall_insert_2; [|apply Hok]. split; cbn; [done..|lia|done].
Qed.

Lemma remove_one_lookup now a id k :
  entries (remove_one now a id) !! k
  = if decide (k = id) then Some (MkEntry (clock_of a id) [] false now) else entries a !! k.
Proof. unfold remove_one, clock_of. cbn [entries]. rewrite lookup_insert. by repeat case_decide; subst. Qed.

Lemma remove_all now ids : forall a,
  aw_ok a -> Forall (fun id => is_Some (entries a !! id)) ids ->
  let a' := foldl (remove_one now) a ids in
  aw_ok a' /\ limits a' = limits a
  /\ forall k, entries a' !! k
      = if decide (k ∈ ids) then Some (MkEntry (clock_of a k) [] false now) else entries a !! k.
Proof.
  induction ids as [|id ids IH]; intros a Hok Hin; cbn [foldl].
  { split_and!; try done. }
  apply Forall_cons in Hin as [Hid Hin]. destruct (remove_one_ok now a id Hok Hid) as [H1 H2].
  destruct (IH (remove_one now a id)) as (K1 & K2 & K3); [done| |].
  { eapply Forall_impl; [exact Hin|]. intros k [e He]. rewrite remove_one_lookup.
    case_decide; eauto. }
  split_and!; [done|congruence|]. intros k. rewrite K3, remove_one_lookup.
  unfold clock_of at 1. rewrite remove_one_lookup. repeat case_decide; subst; try set_solver; done.
Qed.

Lemma RemoveClients_ok clients now a :
  aw_ok a ->
  let a' := (RemoveClients clients now a).2 in
  aw_ok a' /\ limits a' = limits a
  /\ forall k, entries a' !! k
      = if decide (k ∈ clients /\ has_state a k = true)
        then Some (MkEntry (clock_of a k) [] false now) else entries a !! k.
Proof.
  intros Hok. unfold RemoveClients. set (gone := filter _ clients).
  assert (Hg : forall k, k ∈ gone <-> k ∈ clients /\ has_state a k = true).
  { intros k. unfold gone. rewrite list_elem_of_filter. naive_solver. }
  assert (Hin : Forall (fun id => is_Some (entries a !! id)) gone).
  { apply Forall_forall. intros k [_ Hk]%Hg. unfold has_state in Hk.
    destruct (entries a !! k); [eauto|done]. }
  destruct (remove_all now gone a Hok Hin) as (H1 & H2 & H3).
  assert (forall k, (if decide (k ∈ gone) then Some (MkEntry (clock_of a k) [] false now) else entries a !! k)
    = (if decide (k ∈ clients /\ has_state a k = true)
       then Some (MkEntry (clock_of a k) [] false now) else entries a !! k)) as Heq.
  { intros k. by rewrite (decide_ext _ _ _ _ (Hg k)). }
  destruct gone as [|g l] eqn:Eg; split_and!; try done; intros k; by rewrite <- Heq.
Qed.

(** *** Sweeping *)

Definition swept (now : Z) (a : Awareness) : Awareness :=
  set_entries (foldl (fun m x => if forgotten now x then delete x.1 m else m)
                 (entries a) (iter (entries a))) a.

Lemma forget_fold now l : forall m : gmap Z entry,
  NoDup l.*1 ->
  forall k, foldl (fun m x => if forgotten now x then delete x.1 m else m) m l !! k
    = if decide (Exists (fun x => x.1 = k /\ forgotten now x = true) l) then None else m !! k.
Proof.
  induction l as [|x l IH]; intros m Hn k; cbn [foldl].
  { rewrite decide_False; [done|]. by intros ?%Exists_nil. }
  cbn in Hn. apply NoDup_cons in Hn as [Hx Hn]. rewrite IH by done.
  destruct (decide (Exists _ l)) as [He|He].
  { rewrite decide_True; [done|]. by constructor 2. }
  destruct (forgotten now x) eqn:Ef.
  - destruct (decide (x.1 = k)) as [Hk|Hne].
    + rewrite decide_True; [subst k; apply lookup_delete_eq|]. by apply Exists_cons_hd.
    + rewrite decide_False; [by apply lookup_delete_ne|]. intros [[? _]|?]%Exists_cons; done.
  - rewrite decide_False; [done|]. intros [[_ ?]|?]%Exists_cons; [congruence|done].
Qed.

Lemma swept_lookup now a k :
  entries (swept now a) !! k
  = match entries a !! k with
    | Some e => if forgotten now (k, e) then None else Some e
    | None => None
    end.
Proof.
  unfold swept, set_entries. cbn [entries]. rewrite forget_fold by apply NoDup_iter_keys.
  destruct (decide (Exists _ _)) as [He|He].
  - apply Exists_exists in He as ([k' e] & He%elem_of_iter & Heq & Hf). cbn in Heq. subst k'.
    by rewrite He, Hf.
  - destruct (entries a !! k) as [e|] eqn:E; [|done]. destruct (forgotten now (k, e)) eqn:Ef; [|done].
    exfalso. apply He, Exists_exists. exists (k, e). by rewrite elem_of_iter.
Qed.

Lemma count_delete_list ks : forall m,
  Forall (fun k => pres_at m k = 0) ks -> count (foldl (fun m k => delete k m) m ks) = count m
  /\ (size (foldl (fun m k => delete k m) m ks) <= size m)%nat.
Proof.
  induction ks as [|k ks IH]; intros m H; cbn [foldl]; [done|].
  apply Forall_cons in H as [H0 H].
  destruct (IH (delete k m)) as [H1 H2].
  - eapply Forall_impl; [exact H|]. intros j. unfold pres_at. rewrite lookup_delete.
    by case_decide.
  - rewrite H1, count_delete, H0. split; [lia|]. rewrite map_size_delete in H2.
    case_match; cbn in H2; lia.
Qed.

Lemma forget_fold_list now l : forall m : gmap Z entry,
  foldl (fun m x => if forgotten now x then delete x.1 m else m) m l
  = foldl (fun m k => delete k m) m (filter (fun x => forgotten now x = true) l).*1.
Proof.
  induction l as [|x l IH]; intros m; cbn [foldl]; [done|]. rewrite filter_cons.
  destruct (forgotten now x) eqn:E; [rewrite decide_True by done|rewrite decide_False by done]; apply IH.
Qed.

Lemma swept_ok now a : aw_ok a -> aw_ok (swept now a) /\ limits (swept now a) = limits a.
Proof.
  intros Hok. split; [|done].
  destruct (count_delete_list (filter (fun x => forgotten now x = true) (iter (entries a))).*1
              (entries a)) as [H1 H2].
  { apply Forall_forall. intros k ([k' e] & -> & [Hf He%elem_of_iter]%list_elem_of_filter)%list_elem_of_fmap.
    cbn. unfold pres_at, pres. rewrite He. unfold forgotten in Hf. bool_arith. cbn in *. by rewrite H. }
  rewrite <- forget_fold_list in H1, H2.
  split; cbn [swept set_entries entries limits present]; [apply Hok| |apply Hok| |].
  - rewrite H1. apply Hok.
  - intros Hm. pose proof (ao_entries _ Hok Hm). unfold Entries, swept, set_entries in *. cbn [entries]. lia.
  - intros k e Hk. change (entries (swept now a) !! k = Some e) in Hk. rewrite swept_lookup in Hk.
    destruct (entries a !! k) as [e'|] eqn:E; [|done]. case_if; [done|]. simplify_eq. by apply Hok.
Qed.

(** What a sweep leaves of each entry. *)
Definition after_sweep (now ttl : Z) (k : Z) (e : entry) : option entry :=
  if stale now ttl (k, e) then Some (MkEntry (clock e) [] false now)
  else if forgotten now (k, e) then None else Some e.

Lemma Sweep_ok now ttl a :
  aw_ok a ->
  let a' := (Sweep now ttl a).2 in
  aw_ok a' /\ limits a' = limits a
  /\ forall k, entries a' !! k = entries a !! k ≫= after_sweep now ttl k.
Proof.
  intros Hok. unfold Sweep. fold (swept now a). set (ids := map fst _).
  assert (Hids : forall k, k ∈ sort_asc ids <-> exists e, entries a !! k = Some e /\ stale now ttl (k, e) = true).
  { intros k. unfold sort_asc. rewrite sort_by_perm. unfold ids. rewrite list_elem_of_fmap. split.
    - intros ([k' e] & -> & [Hf He%elem_of_iter]%list_elem_of_filter). eauto.
    - intros (e & He & Hf). exists (k, e). split; [done|]. by rewrite list_elem_of_filter, elem_of_iter. }
  destruct (swept_ok now a Hok) as [H1 H2].
  assert (Hst : forall k e, stale now ttl (k, e) = true -> forgotten now (k, e) = false).
  { intros k e. unfold stale, forgotten. cbn. by destruct (e_present e). }
  destruct (remove_all now (sort_asc ids) (swept now a)) as (K1 & K2 & K3); [done| |].
  { apply Forall_forall. intros k (e & He & Hs)%Hids. rewrite swept_lookup, He, (Hst _ _ Hs). eauto. }
  assert (Hfin : forall k,
     (if decide (k ∈ sort_asc ids) then Some (MkEntry (clock_of (swept now a) k) [] false now)
      else entries (swept now a) !! k) = entries a !! k ≫= after_sweep now ttl k).
  { intros k. case_decide as Hk.
    - apply Hids in Hk as (e & He & Hs). unfold clock_of. rewrite swept_lookup, He, (Hst _ _ Hs).
      cbn. unfold after_sweep. by rewrite Hs.
    - rewrite swept_lookup. destruct (entries a !! k) as [e|] eqn:E; [|done]. cbn. unfold after_sweep.
      destruct (stale now ttl (k, e)) eqn:Es; [|done]. exfalso. apply Hk, Hids. eauto. }
  destruct ids as [|g l] eqn:Eids.
  - split_and!; [done..|]. intros k. by rewrite <- Hfin.
  - split_and!; [done|exact K2|]. intros k. rewrite <- Hfin. apply K3.
Qed.

(** ** The wire form *)

(** One entry as it travels: client, clock, state. *)
Definition put_entry (x : Z * Z * bytes) (e : Encoder) : Encoder :=
  WriteVarString x.2 (WriteVarUint x.1.2 (WriteVarUint x.1.1 e)).
Definition entry_bytes (x : Z * Z * bytes) : bytes :=
  varuint_bytes x.1.1 ++ varuint_bytes x.1.2 ++ string_bytes x.2.
Definition entry_wire_ok (x : Z * Z * bytes) : Prop := safe x.1.1 /\ safe x.1.2 /\ short x.2.

#[export] Instance entry_wire : Wire put_entry read_entry entry_bytes entry_wire_ok.
Proof.
  split; intros [[c k] st] (Hc & Hk & Hs); cbn in Hc, Hk, Hs; unfold entry_bytes, put_entry; cbn [fst snd].
  - intros buf. rewrite (WriteVarUint_writes c Hc), (WriteVarUint_writes k Hk),
      (WriteVarString_writes st Hs). by rewrite <- !app_assoc.
  - intros d rest Hd. rewrite <- !app_assoc in Hd. unfold read_entry.
    read_step (ReadVarUint_reads c Hc). cbn beta iota. read_step (ReadVarUint_reads k Hk). cbn beta iota.
    read_step (ReadVarString_reads st Hs). cbn beta iota. read_done.
  - rewrite length_app. pose proof (varuint_ne c). lia.
Qed.

(** The announcements of a payload, applied in order until one is refused. *)
Fixpoint apply_entries (l : list (Z * Z * bytes)) (now : Z) (changed : list Z) (a : Awareness)
    : list Z * option GoError * Awareness :=
  match l with
  | [] => (changed, None, a)
  | (client, clk, st) :: l =>
      match apply_entry client clk st now a with
      | Err e => (changed, Some e, a)
      | Ok (b, a) => apply_entries l now (if b then changed ++ [client] else changed) a
      end
  end.

Definition payload_bytes (l : list (Z * Z * bytes)) : bytes :=
  varuint_bytes (Z.of_nat (length l)) ++ list_bytes entry_bytes l.

Lemma apply_loop_entries now l : forall d ch a,
  Forall entry_wire_ok l -> unread d = list_bytes entry_bytes l ->
  apply_loop (length l) now d ch a = apply_entries l now ch a.
Proof.
  induction l as [|[[c k] st] l IH]; intros d ch a Hok Hd; cbn [length apply_loop apply_entries].
  { unfold Done. assert (Hl : length (unread d) = 0%nat) by by rewrite Hd.
    rewrite length_unread in Hl. unfold Remaining in Hl.
    by rewrite (proj2 (Nat.leb_le _ _)) by lia. }
  apply Forall_cons in Hok as [H1 H2]. unfold list_bytes in Hd. cbn [map concat] in Hd.
  rewrite (wire_get _ H1 _ _ Hd). apply unread_advance in Hd.
  destruct (apply_entry c k st now a) as [[b a1]|]; [|done]. by apply IH.
Qed.

Lemma ApplyUpdate_payload l now a :
  Forall entry_wire_ok l -> safe (Z.of_nat (length l)) ->
  ApplyUpdate (payload_bytes l) now a = apply_entries l now [] a.
Proof.
  intros Hok Hn. unfold ApplyUpdate.
  pose proof (unread_new (payload_bytes l)) as Hd. unfold payload_bytes in Hd at 2.
  rewrite (ReadVarUint_reads _ Hn _ _ Hd). apply unread_advance in Hd. cbn beta iota.
  pose proof (list_bytes_ge l Hok) as Hge. rewrite <- Hd, length_unread in Hge.
  destruct (_ <? _) eqn:E; bool_arith; [lia|]. rewrite Nat2Z.id. by apply apply_loop_entries.
Qed.

(** The announcement [Encode] writes for a client. *)
Definition announcement (a : Awareness) (id : Z) : Z * Z * bytes :=
  (id, clock_of a id, default NullState (State a id)).

Lemma Encode_payload a ids :
  Forall entry_wire_ok (map (announcement a) ids) -> safe (Z.of_nat (length ids)) ->
  Encode a ids = Ok (payload_bytes (map (announcement a) ids)).
Proof.
  intros Hok Hn. unfold Encode, payload_bytes. rewrite length_map.
  assert (Hw : forall e, write_list (writeEntry a) ids e = write_list put_entry (map (announcement a) ids) e).
  { intros e. unfold write_list. clear. revert e. induction ids as [|id ids IH]; intros e; [done|].
    cbn [foldl map]. rewrite <- IH. f_equal.
    unfold writeEntry, put_entry, announcement, clock_of, State. cbn [fst snd].
    by destruct (entries a !! id) as [[? ? [] ?]|]. }
  rewrite Hw. unfold NewEncoderSize.
  rewrite (WriteVarUint_writes _ Hn), (write_list_writes _ Hok). done.
Qed.

(** ** One announcement *)

Lemma apply_entry_decides client clk st now a :
  acceptable a client clk st ->
  exists b a', apply_entry client clk st now a = Ok (b, a') /\ (b = true <-> newer a client clk st).
Proof.
  intros Hacc. destruct (apply_entry client clk st now a) as [[b a']|e] eqn:E.
  - exists b, a'. split; [done|]. apply apply_entry_inv in E as [_ E]. destruct b; naive_solver.
  - exfalso. destruct Hacc as [A1 A2 A3 A4]. unfold apply_entry, has_state in *. revert A3 A4 E.
    rewrite (proj2 (Z.ltb_ge _ _) A1), (proj2 (Z.ltb_ge _ _) A2). cbn [orb].
    intros A3 A4. case_bool_decide as Hst; cbn [negb andb]; intros E; [case_if_in E; done|].
    specialize (A3 Hst). specialize (A4 Hst). case_if_in E; [lia|].
    case_if_in E; [|case_if_in E; done].
    destruct (entries a !! client) as [[? ? [] ?]|]; cbn in *; try done; lia.
Qed.

Lemma make_room_State client a k : aw_ok a -> State (make_room client a) k = State a k.
Proof.
  intros Hok. destruct (make_room_ok client a Hok) as (_ & _ & _ & _ & _ & H1 & H2). unfold State.
  destruct (entries a !! k) as [e|] eqn:E.
  - destruct (e_present e) eqn:Ep; [by rewrite (H2 _ _ E Ep), Ep|].
    destruct (entries (make_room client a) !! k) as [e'|] eqn:E'; [|done].
    apply H1 in E'. simplify_eq. by rewrite Ep.
  - destruct (entries (make_room client a) !! k) as [e'|] eqn:E'; [|done]. apply H1 in E'. congruence.
Qed.

(** The state an announcement publishes. *)
Definition published (st : bytes) : option bytes := if bool_decide (st = NullState) then None else Some st.

Lemma apply_entry_newer client clk st now a :
  aw_ok a -> 0 <= client -> 0 <= clk -> acceptable a client clk st -> newer a client clk st ->
  exists a', apply_entry client clk st now a = Ok (true, a') /\ aw_ok a' /\ limits a' = limits a
    /\ (forall k, State a' k = if decide (k = client) then published st else State a k)
    /\ (forall k e, k <> client -> entries a' !! k = Some e -> entries a !! k = Some e)
    /\ (forall k, k <> client -> has_state a k = true -> clock_of a' k = clock_of a k)
    /\ present a' = present a - pres_at (entries a) client + pres (announced clk st now).
Proof.
  intros Hok Hc Hk Hacc Hn. destruct (apply_entry_decides client clk st now a Hacc) as (b & a' & E & Hb).
  apply Hb in Hn as ->. exists a'. split; [done|].
  destruct (apply_entry_ok _ _ _ _ _ _ _ Hok Hc Hk E) as [H1 H2].
  apply apply_entry_inv in E as (_ & _ & He & _ & Hp).
  destruct (make_room_ok client a Hok) as (_ & _ & R3 & _ & _ & R6 & R7). split_and!; try done.
  - intros k. rewrite <- (make_room_State client a k Hok). unfold State. rewrite He, lookup_insert.
    repeat case_decide; subst; try done. cbn. unfold published. by case_bool_decide.
  - intros k e Hne. rewrite He, lookup_insert_ne by done. apply R6.
  - intros k Hne Hh. unfold clock_of, has_state in *. rewrite He, lookup_insert_ne by done.
    destruct (entries a !! k) as [e|] eqn:Ek; [|done]. by rewrite (R7 _ _ Ek Hh).
  - congruence.
Qed.

(** ** A whole payload *)

Definition ids_of (l : list (Z * Z * bytes)) : list Z := map (fun x => x.1.1) l.

Definition publishes (l : list (Z * Z * bytes)) (a a' : Awareness) : Prop :=
  (forall c k st, (c, k, st) ∈ l -> State a' c = published st)
  /\ (forall c, c ∉ ids_of l -> State a' c = State a c).

(** A payload of distinct clients is applied in full when each of its announcements
    stays acceptable and newer whatever was applied before it. *)
Lemma apply_entries_all (P : list (Z * Z * bytes) -> Awareness -> Prop) now :
  (forall c k st l a, P ((c, k, st) :: l) a -> aw_ok a ->
     safe c /\ 0 <= k /\ acceptable a c k st /\ newer a c k st
     /\ forall a', (forall j e, j <> c -> entries a' !! j = Some e -> entries a !! j = Some e) ->
          (forall j, j <> c -> State a' j = State a j) ->
          (forall j, j <> c -> has_state a j = true -> clock_of a' j = clock_of a j) ->
          limits a' = limits a ->
          present a' = present a - pres_at (entries a) c + pres (announced k st now) -> P l a') ->
  forall l a ch, NoDup (ids_of l) -> P l a -> aw_ok a ->
  exists a', apply_entries l now ch a = (ch ++ ids_of l, None, a') /\ aw_ok a' /\ publishes l a a'.
Proof.
  intros HP. induction l as [|[[c k] st] l IH]; intros a ch Hn Hl Hok.
  { exists a. cbn. rewrite app_nil_r. split_and!; try done. split; [by intros ? ? ? ?%elem_of_nil|done]. }
  cbn in Hn. apply NoDup_cons in Hn as [Hc Hn].
  destruct (HP _ _ _ _ _ Hl Hok) as ([H0 _] & H1 & H2 & H3 & H4).
  destruct (apply_entry_newer c k st now a) as (a1 & E & Hok1 & Hlim & HS & He & Hck & Hp); [done..|].
  destruct (IH a1 (ch ++ [c])) as (a' & E' & Hok' & Hs1 & Hs2); [done| |done|].
  { apply H4; try done. intros j Hj. rewrite HS. by rewrite decide_False. }
  exists a'. cbn [apply_entries ids_of map fst]. rewrite E, E', <- app_assoc. split_and!; try done. split.
  - intros c' k' st' [Heq|Hin]%elem_of_cons; [|by eapply Hs1].
    simplify_eq. rewrite Hs2, HS by done. by rewrite decide_True.
  - intros c' Hc'. cbn in Hc'. apply not_elem_of_cons in Hc' as [Hne Hc'].
    rewrite Hs2, HS by done. by rewrite decide_False.
Qed.

(** ** Properties *)

(** Every operation the room runs on its tracker. *)
Inductive tracked (l : Limits) : Awareness -> Prop :=
  | tracked_new : tracked l (NewAwarenessWithLimits l)
  | tracked_apply a payload now : tracked l a -> tracked l (ApplyUpdate payload now a).2
  | tracked_remove a clients now : tracked l a -> tracked l (RemoveClients clients now a).2
  | tracked_sweep a now ttl : tracked l a -> tracked l (Sweep now ttl a).2.

Lemma tracked_ok l a : limits_ok l -> tracked l a -> aw_ok a /\ limits a = l.
Proof.
  intros Hl. induction 1 as [|a p now _ [IH <-]|a cs now _ [IH <-]|a now ttl _ [IH <-]].
  - by split; [apply NewAwareness_ok|].
  - by apply tracker_ApplyUpdate_ok.
  - by destruct (RemoveClients_ok cs now a IH) as (? & ? & _).
  - by destruct (Sweep_ok now ttl a IH) as (? & ? & _).
Qed.

(** C33. Whatever payloads arrive, well formed or not, a tracker never holds more
    than [MaxClients] states, more than twice as many entries, or a state over
    [MaxState] bytes, and its counter is the number of states it holds. *)
Theorem awareness_bounded l a :
  limits_ok l -> tracked l a ->
  present a = Len a
  /\ (0 < maxClients l -> Len a <= maxClients l /\ Entries a <= 2 * maxClients l)
  /\ (forall c st, State a c = Some st -> 0 < maxState l -> Z.of_nat (length st) <= maxState l).
Proof.
  intros Hl Ht. destruct (tracked_ok _ _ Hl Ht) as [[_ H1 H2 H3 H4] <-]. rewrite Len_count. split_and!; [done| |].
  - intros Hm. split; [rewrite <- H1; auto|auto].
  - intros c st Hs Hm. unfold State in Hs. destruct (entries a !! c) as [e|] eqn:E; [|done].
    destruct (e_present e); [|done]. simplify_eq. by apply (eo_size _ _ _ (H4 _ _ E)).
Qed.

(** The states a tracker holds, with their clocks, as announcements. *)
Lemma Clients_spec a c : c ∈ Clients a <-> has_state a c = true.
Proof.
  unfold Clients, sort_asc. rewrite sort_by_perm, list_elem_of_fmap. unfold has_state. split.
  - intros ([c' e] & -> & [Hp He%elem_of_iter]%list_elem_of_filter). cbn. by rewrite He.
  - destruct (entries a !! c) as [e|] eqn:E; [|done]. intros Hp. exists (c, e).
    by rewrite list_elem_of_filter, elem_of_iter.
Qed.

Lemma Clients_NoDup a : NoDup (Clients a).
Proof.
  unfold Clients, sort_asc. rewrite sort_by_perm.
  apply (sublist_NoDup _ (iter (entries a)).*1); [apply NoDup_iter_keys|].
  apply fmap_sublist, sublist_filter.
Qed.

Lemma Clients_length a : Z.of_nat (length (Clients a)) = count (entries a).
Proof.
  unfold Clients, sort_asc, count. rewrite sort_by_length, length_map.
  by rewrite (iter_perm (entries a)).
Qed.

(** Every state fits a length prefix. *)
Definition states_short (a : Awareness) : Prop := forall c st, State a c = Some st -> short st.

Lemma announcement_wire a c :
  aw_ok a -> states_short a -> is_Some (entries a !! c) -> entry_wire_ok (announcement a c).
Proof.
  intros Hok Hs [e He]. destruct (ao_entry _ Hok _ _ He) as [E1 E2 _ _].
  split_and!; cbn; [done|unfold clock_of; rewrite He; cbn; unfold safe; lia|].
  destruct (State a c) as [st|] eqn:E; cbn; [by eapply Hs|].
  unfold short, NullState, MaxSafeInteger. cbn. lia.
Qed.

Lemma has_state_State a c : has_state a c = true <-> is_Some (State a c).
Proof.
  unfold has_state, State. destruct (entries a !! c) as [e|]; [|split; [done|by intros []]].
  destruct (e_present e); split; eauto; [done|by intros []].
Qed.

Lemma ids_of_announcements a l : ids_of (map (announcement a) l) = l.
Proof. unfold ids_of. rewrite map_map. apply map_id. Qed.

(** A payload of strangers that fit under the limits. *)
Definition fits (l : list (Z * Z * bytes)) (b : Awareness) : Prop :=
  NoDup (ids_of l)
  /\ (forall c k st, (c, k, st) ∈ l ->
        safe c /\ 0 < k <= MaxSafeInteger /\ st <> NullState
        /\ (0 < maxState (limits b) -> Z.of_nat (length st) <= maxState (limits b))
        /\ entries b !! c = None)
  /\ (0 < maxClients (limits b) -> present b + Z.of_nat (length l) <= maxClients (limits b)).

(** Announcements of strangers that fit are all applied. *)
Lemma apply_entries_fits now l b ch :
  aw_ok b -> fits l b ->
  exists b', apply_entries l now ch b = (ch ++ ids_of l, None, b') /\ aw_ok b' /\ publishes l b b'.
Proof.
  intros Hok Hf. apply (apply_entries_all fits); [|by destruct Hf|done..]. clear.
  intros c k st l b (Hn & Hl & Hm) Hok. cbn in Hn. apply NoDup_cons in Hn as [Hc Hn].
  destruct (Hl c k st) as (H1 & H2 & H3 & H4 & H5); [by left|].
  cbn [length] in Hm. split_and!; [done|lia| | |].
  - split; [apply H1|lia|done|]. intros _ Hmax _. specialize (Hm Hmax). lia.
  - left. unfold clock_of. rewrite H5. cbn. lia.
  - intros b' He _ _ Hlim Hp. split_and!; [done| |].
    + intros c' k' st' Hin. destruct (Hl c' k' st') as (J1 & J2 & J3 & J4 & J5); [by right|].
      rewrite Hlim. split_and!; try done; try lia. apply eq_None_not_Some. intros [e Hx].
      apply He in Hx; [congruence|]. intros ->. apply Hc, list_elem_of_fmap. by exists (c, k', st').
    + rewrite Hlim. intros Hmax. specialize (Hm Hmax). rewrite Hp. unfold pres_at, pres, announced.
      rewrite H5, bool_decide_false by done. cbn [negb e_present]. lia.
Qed.

(** The greeting a joining connection gets, applied to an empty tracker with the
    same limits, reports every client and leaves every state as it was. *)
Theorem EncodeAll_ApplyUpdate a now :
  aw_ok a -> states_short a -> safe (Entries a) ->
  exists p b, EncodeAll a = Ok p
    /\ ApplyUpdate p now (NewAwarenessWithLimits (limits a)) = (Clients a, None, b)
    /\ forall c, State b c = State a c.
Proof.
  intros Hok Hs He. set (l := map (announcement a) (Clients a)).
  assert (Hsome : forall c, c ∈ Clients a -> is_Some (entries a !! c)).
  { intros c Hc%Clients_spec. unfold has_state in Hc. destruct (entries a !! c); [eauto|done]. }
  assert (Hw : Forall entry_wire_ok l).
  { apply Forall_forall. intros x (c & -> & Hc)%list_elem_of_fmap. apply announcement_wire; auto. }
  assert (Hlen : safe (Z.of_nat (length (Clients a)))).
  { rewrite Clients_length. pose proof (count_le_size (entries a)). pose proof (count_nonneg (entries a)).
    unfold Entries, safe in *. lia. }
  destruct (apply_entries_fits now l (NewAwarenessWithLimits (limits a)) []) as (b & Eb & _ & Hb1 & Hb2).
  { apply NewAwareness_ok, Hok. }
  { split_and!.
    - unfold l. rewrite ids_of_announcements. apply Clients_NoDup.
    - intros c k st (c' & Heq & Hc)%list_elem_of_fmap. unfold announcement in Heq. simplify_eq.
      destruct (Hsome _ Hc) as [e Hce]. destruct (ao_entry _ Hok _ _ Hce) as [E1 E2 E3 E4].
      apply Clients_spec in Hc. unfold has_state in Hc. rewrite Hce in Hc. rewrite Hc in E4.
      unfold clock_of, State. rewrite Hce, Hc. cbn. done.
    - unfold l. rewrite length_map, Clients_length. cbn. rewrite <- (ao_count _ Hok). apply Hok. }
  exists (payload_bytes l), b. split_and!.
  - by apply Encode_payload.
  - rewrite ApplyUpdate_payload by (unfold l; rewrite ?length_map; done). rewrite Eb.
    cbn. unfold l. by rewrite ids_of_announcements.
  - intros c. destruct (State a c) as [st|] eqn:E.
    + rewrite (Hb1 c (clock_of a c) st).
      * unfold published. rewrite bool_decide_false; [done|]. intros ->. unfold State in E.
        destruct (entries a !! c) as [e|] eqn:Ec; [|done]. destruct (ao_entry _ Hok _ _ Ec) as [_ _ _ E4].
        destruct (e_present e); [congruence|done].
      * apply list_elem_of_fmap. exists c. unfold announcement. rewrite E. split; [done|].
        apply Clients_spec, has_state_State. by rewrite E.
    + rewrite Hb2; [done|]. unfold l. rewrite ids_of_announcements, Clients_spec, has_state_State, E. by intros [].
Qed.

(** Removals of clients held at the announced clock. *)
Definition retracts (l : list (Z * Z * bytes)) (b : Awareness) : Prop :=
  NoDup (ids_of l) /\ forall c k st, (c, k, st) ∈ l ->
    st = NullState /\ k = clock_of b c /\ has_state b c = true.

Lemma apply_entries_retracts now l b ch :
  aw_ok b -> retracts l b ->
  exists b', apply_entries l now ch b = (ch ++ ids_of l, None, b') /\ aw_ok b' /\ publishes l b b'.
Proof.
  intros Hok Hf. apply (apply_entries_all retracts); [|by destruct Hf|done..]. clear.
  intros c k st l b (Hn & Hl) Hok. cbn in Hn. apply NoDup_cons in Hn as [Hc Hn].
  destruct (Hl c k st) as (-> & -> & H3); [by left|].
  assert (Hent : safe c /\ 0 < clock_of b c <= MaxSafeInteger).
  { unfold has_state, clock_of in *. destruct (entries b !! c) as [e|] eqn:E; [|done].
    by destruct (ao_entry _ Hok _ _ E). }
  destruct Hent as [H4 H5]. split_and!; [done|lia| | |].
  - split; [apply H4|lia|done|done].
  - by right.
  - intros b' _ HS Hk _ _. split; [done|]. intros c' k' st' Hin.
    destruct (Hl c' k' st') as (-> & -> & J3); [by right|].
    assert (c' <> c). { intros ->. apply Hc, list_elem_of_fmap. by eexists (_, _, _). }
    split_and!; [done|by rewrite Hk|]. apply has_state_State. rewrite HS by done. by apply has_state_State.
Qed.

(** The payload announcing a removal is accepted in full by every replica that
    holds those clients at the same clocks, and removes exactly them. *)
Theorem RemoveClients_propagates a b clients now now' gone p a' :
  aw_ok a -> aw_ok b -> NoDup clients -> safe (Z.of_nat (length clients)) ->
  (forall c, c ∈ clients -> has_state a c = true -> has_state b c = true /\ clock_of b c = clock_of a c) ->
  RemoveClients clients now a = (Ok (gone, p), a') -> gone <> [] ->
  exists b', ApplyUpdate p now' b = (gone, None, b')
    /\ forall c, State b' c = if decide (c ∈ gone) then None else State b c.
Proof.
  intros Ha Hb Hn Hlen Hsync HR Hg. unfold RemoveClients in HR.
  destruct (filter (fun id => has_state a id = true) clients) as [|g l] eqn:Ef; [congruence|].
  rewrite <- Ef in HR. set (ids := filter _ clients) in *. clear Ef g l. unfold remove in HR.
  assert (Hids : Forall (fun id => is_Some (entries a !! id)) ids).
  { apply Forall_forall. intros c [Hc _]%list_elem_of_filter. unfold has_state in Hc.
    destruct (entries a !! c); [eauto|done]. }
  destruct (remove_all now ids a Ha Hids) as (K1 & _ & K3). set (a1 := foldl _ a ids) in *.
  assert (Hann : forall c, c ∈ ids -> announcement a1 c = (c, clock_of a c, NullState)).
  { intros c Hc. unfold announcement, clock_of at 1, State. by rewrite K3, decide_True. }
  assert (HnS : NoDup ids) by by apply NoDup_filter.
  assert (Hrl : (length ids <= length clients)%nat) by apply length_filter.
  set (l := map (announcement a1) ids).
  assert (Hw : Forall entry_wire_ok l).
  { apply Forall_forall. intros x (c & -> & Hc)%list_elem_of_fmap. rewrite Hann by done.
    rewrite Forall_forall in Hids. destruct (Hids c Hc) as [e He]. destruct (ao_entry _ Ha _ _ He) as [E1 E2 _ _].
    unfold clock_of. rewrite He. split_and!; cbn; [done|unfold safe; lia|].
    unfold short, MaxSafeInteger, NullState. cbn. lia. }
  rewrite Encode_payload in HR by (done || unfold safe in *; lia). cbn in HR. injection HR as <- <- <-.
  destruct (apply_entries_retracts now' l b []) as (b' & Eb & _ & Hb1 & Hb2); [done| |].
  { split; [unfold l; by rewrite ids_of_announcements|].
    intros c k st (c' & Heq & Hc)%list_elem_of_fmap. rewrite Hann in Heq by done. simplify_eq.
    apply list_elem_of_filter in Hc as [Hc1 Hc2]. destruct (Hsync _ Hc2 Hc1) as [? ?]. done. }
  exists b'. fold l. rewrite ApplyUpdate_payload by (unfold l, safe in *; rewrite ?length_map; done || lia).
  rewrite Eb. unfold l at 1. rewrite ids_of_announcements. split; [done|]. intros c. case_decide as Hc.
  - apply (Hb1 c (clock_of a c) NullState). apply list_elem_of_fmap. exists c. by rewrite Hann.
  - apply Hb2. unfold l. by rewrite ids_of_announcements.
Qed.

Lemma stale_ignored a c clk st now :
  ~ newer a c clk st -> (apply_entries [(c, clk, st)] now [] a).2 = a /\ (apply_entries [(c, clk, st)] now [] a).1.1 = [].
Proof.
  intros Hn. cbn. destruct (apply_entry c clk st now a) as [[b a']|] eqn:E; [|done].
  apply apply_entry_inv in E as [_ E]. destruct b; [by destruct E|]. by destruct E as [-> _].
Qed.

(** A removed client is not resurrected by a replay: an announcement at a clock
    no newer than the one removed changes nothing, and the client's own next
    announcement is accepted, even where the limit on clients was reached. *)
Theorem removal_remembers a c now now' clk st :
  aw_ok a -> has_state a c = true -> safe clk -> short st ->
  st <> NullState -> (0 < maxState (limits a) -> Z.of_nat (length st) <= maxState (limits a)) ->
  let a1 := (RemoveClients [c] now a).2 in
  let '(changed, err, a2) := ApplyUpdate (payload_bytes [(c, clk, st)]) now' a1 in
  State a1 c = None
  /\ if decide (clk <= clock_of a c) then changed = [] /\ a2 = a1
     else changed = [c] /\ err = None /\ State a2 c = Some st.
Proof.
  intros Hok Hh Hclk Hst Hnn Hsize a1.
  destruct (RemoveClients_ok [c] now a Hok) as (K1 & K2 & K3). fold a1 in K1, K2, K3.
  assert (Hc : entries a1 !! c = Some (MkEntry (clock_of a c) [] false now)).
  { rewrite K3, decide_True; [done|]. split; [by left|done]. }
  assert (HS : State a1 c = None) by (unfold State; by rewrite Hc).
  assert (Hck : clock_of a1 c = clock_of a c) by (unfold clock_of at 1; by rewrite Hc).
  assert (Hsafe : safe c). { apply (eo_id _ _ _ (ao_entry _ K1 _ _ Hc)). }
  rewrite ApplyUpdate_payload; [|by apply Forall_singleton|cbn; unfold safe, MaxSafeInteger; lia].
  case_decide as Hle.
  - destruct (stale_ignored a1 c clk st now') as [E1 E2].
    { unfold newer. rewrite Hck. intros [?|(_ & ? & _)]; [lia|done]. }
    destruct (apply_entries _ _ _ _) as [[ch err] a2]. cbn in E1, E2. by subst.
  - destruct (apply_entry_newer c clk st now' a1) as (a2 & E & _ & _ & HS2 & _);
      [done|apply Hsafe|apply Hclk| | |].
    + split; [apply Hsafe|apply Hclk|by rewrite K2|]. rewrite K2. intros _ Hm _.
      (* the removal freed the slot *)
      pose proof (ao_present _ Hok Hm) as Hp. rewrite (ao_count _ K1). rewrite (ao_count _ Hok) in Hp.
      assert (entries a1 = <[c := MkEntry (clock_of a c) [] false now]> (entries a)) as ->.
      { apply map_eq. intros k. rewrite K3, lookup_insert. repeat case_decide; subst; try done; set_solver. }
      rewrite count_insert. rewrite has_state_pres in Hh. bool_arith. unfold pres. cbn [e_present]. lia.
    + left. by rewrite Hck; lia.
    + cbn. rewrite E. split; [done|]. split_and!; [done..|]. rewrite HS2, decide_True by done.
      unfold published. by rewrite bool_decide_false.
Qed.

(** A sweep removes exactly the states not renewed within [ttl]; every other state
    and every clock younger than [forgetAfter] stays. *)
Theorem Sweep_exact now ttl a :
  aw_ok a ->
  let a' := (Sweep now ttl a).2 in
  (forall c, State a' c = match entries a !! c with
                          | Some e => if stale now ttl (c, e) then None else State a c
                          | None => None
                          end)
  /\ (forall c e, entries a !! c = Some e -> Time_Sub now (lastUpdated e) < forgetAfter ->
        clock_of a' c = clock e).
Proof.
  intros Hok a'. destruct (Sweep_ok now ttl a Hok) as (_ & _ & H). fold a' in H. split.
  - intros c. unfold State. rewrite H. destruct (entries a !! c) as [e|]; [|done]. cbn.
    unfold after_sweep. destruct (stale now ttl (c, e)); [done|].
    destruct (forgotten now (c, e)) eqn:Ef; [|done]. unfold forgotten in Ef. bool_arith. cbn in *. by rewrite H0.
  - intros c e He Hy. unfold clock_of. rewrite H, He. cbn. unfold after_sweep.
    destruct (stale now ttl (c, e)); [done|]. unfold forgotten. cbn.
    rewrite (proj2 (Z.leb_gt _ _) Hy), andb_false_r. done.
Qed.
End Order.

(** ** A tracker with one client *)

#[local] Existing Instance any_order.

Definition no_limits_set : Limits := MkLimits 0 0.
Definition greeted : bytes := payload_bytes [(5, 1, [123; 125])].
Definition one_cursor : Awareness := (ApplyUpdate greeted 0 (NewAwarenessWithLimits no_limits_set)).2.

Lemma default_limits_ok : limits_ok no_limits_set.
Proof. reflexivity. Qed.

Lemma one_cursor_tracked : tracked no_limits_set one_cursor.
Proof. apply tracked_apply, tracked_new. Qed.

Lemma one_cursor_ok : aw_ok one_cursor.
Proof. apply (tracked_ok _ _ default_limits_ok one_cursor_tracked). Qed.

Lemma one_cursor_state c : State one_cursor c = if decide (c = 5) then Some [123; 125] else None.
Proof.
  unfold State. change (entries one_cursor) with ({[5 := MkEntry 1 [123; 125] true 0]} : gmap Z entry).
  case_decide; subst; [by rewrite lookup_singleton_eq|by rewrite lookup_singleton_ne].
Qed.

Lemma awareness_bounded_witness : present one_cursor = Len one_cursor /\ Entries one_cursor <= 2048.
Proof.
  destruct (awareness_bounded no_limits_set one_cursor) as (H1 & H2 & _);
    [apply default_limits_ok|apply one_cursor_tracked|].
  split; [exact H1|]. apply H2. done.
Defined.

Lemma EncodeAll_ApplyUpdate_witness :
  exists p b, EncodeAll one_cursor = Ok p
    /\ ApplyUpdate p 7 (NewAwarenessWithLimits no_limits_set) = (Clients one_cursor, None, b)
    /\ State b 5 = Some [123; 125].
Proof.
  destruct (EncodeAll_ApplyUpdate one_cursor 7) as (p & b & H1 & H2 & H3).
  - apply one_cursor_ok.
  - intros c st. rewrite one_cursor_state. case_decide; [|done]. intros [= <-]. done.
  - vm_compute. split; discriminate.
  - exists p, b. split_and!; [exact H1|exact H2|]. rewrite H3. reflexivity.
Defined.

Lemma RemoveClients_propagates_witness :
  exists p b', ApplyUpdate p 9 one_cursor = ([5], None, b') /\ State b' 5 = None.
Proof.
  destruct (RemoveClients [5] 8 one_cursor) as [[[gone p]|] a'] eqn:E; [|by vm_compute in E].
  assert (gone = [5]) as -> by (vm_compute in E; congruence).
  destruct (RemoveClients_propagates one_cursor one_cursor [5] 8 9 [5] p a') as (b' & H1 & H2).
  - apply one_cursor_ok.
  - apply one_cursor_ok.
  - apply NoDup_singleton.
  - split; done.
  - intros c _ Hc. done.
  - exact E.
  - discriminate.
  - exists p, b'. split; [exact H1|]. rewrite H2. by rewrite decide_True by (left; done).
Defined.

Lemma removal_remembers_witness :
  let a1 := (RemoveClients [5] 8 one_cursor).2 in
  let '(changed, err, a2) := ApplyUpdate (payload_bytes [(5, 1, [123; 125])]) 9 a1 in
  State a1 5 = None /\ changed = [] /\ a2 = a1.
Proof.
  pose proof (removal_remembers one_cursor 5 8 9 1 [123; 125] one_cursor_ok) as H. cbv zeta in H |- *.
  destruct (ApplyUpdate _ _ _) as [[changed err] a2].
  destruct H as [H1 H2]; [done|split; done|done|done|done|]. by rewrite decide_True in H2 by done.
Defined.

Lemma Sweep_exact_witness : State (Sweep 60000000000 30000000000 one_cursor).2 5 = None.
Proof.
  destruct (Sweep_exact 60000000000 30000000000 one_cursor one_cursor_ok) as [H _].
  rewrite H. vm_compute. reflexivity.
Defined.
