(* ===== verification/Limit.v ===== *)
(** * Throttling a connection

    [internal/gateway/limit.go]: the two token buckets that every frame of a connection
    passes.  Numbers of type [float64] are IEEE binary64 as the Standard Library
    specifies it ([SpecFloat], 53 bits, exponents to 1024), so the arithmetic is the
    code's, rounding included, where no multiplication is fused with an addition (Go does not
    on amd64).  What a conversion to an integer gives for a number out of
    range is left to the implementation by Go and is a parameter. *)

From Stdlib Require Import SpecFloat.
From S2P Require Import Prelude Lib0 Awareness.

(** ** float64 *)

Abbreviation float64 := spec_float (only parsing).
Definition fl_add : float64 -> float64 -> float64 := SFadd 53 1024.
Definition fl_sub : float64 -> float64 -> float64 := SFsub 53 1024.
Definition fl_mul : float64 -> float64 -> float64 := SFmul 53 1024.
Definition fl_div : float64 -> float64 -> float64 := SFdiv 53 1024.
Definition fl_lt : float64 -> float64 -> bool := SFltb.
Definition fl_le : float64 -> float64 -> bool := SFleb.
Definition fl_zero : float64 := S754_zero false.

(** [float64(n)]. *)
Definition fl_of (n : Z) : float64 := binary_normalize 53 1024 n 0 false.

(** [Duration.Seconds]. *)
Definition Seconds (d : Z) : float64 := fl_add (fl_of (Z.quot d Second)) (fl_div (fl_of (Z.rem d Second)) (fl_of 1000000000)).

Section Limit.
Context (out_of_range : float64 -> Z).

(** [time.Duration(f)]. *)
Definition to_int64 (f : float64) : Z :=
  match f with
  | S754_zero _ => 0
  | S754_finite s m e =>
      let z := if 0 <=? e then Zpos m * 2 ^ e else Zpos m / 2 ^ (- e) in
      let z := if s then - z else z in
      if (- two63 <=? z) && (z <? two63) then z else out_of_range f
  | _ => out_of_range f
  end.

(** ** The buckets *)

Record Rate := MkRate { Messages : float64; MessageBurst : Z; Bytes_ : float64; ByteBurst : Z }.

Definition DefaultRateMessages : Z := 200.
Definition DefaultRateMessageBurst : Z := 400.
Definition DefaultRateBytes : Z := Z.shiftl 8 20.
Definition DefaultRateByteBurst : Z := Z.shiftl 16 20.

Definition withDefaults (r : Rate) : Rate :=
  MkRate (if SFeqb (Messages r) fl_zero then fl_of DefaultRateMessages else Messages r)
    (if MessageBurst r <=? 0 then DefaultRateMessageBurst else MessageBurst r)
    (if SFeqb (Bytes_ r) fl_zero then fl_of DefaultRateBytes else Bytes_ r)
    (if ByteBurst r <=? 0 then DefaultRateByteBurst else ByteBurst r).

Definition disabled (rate : float64) : bool := fl_lt rate fl_zero.

Record bucket := MkBucket { b_rate : float64; b_capacity : float64; b_tokens : float64; b_last : Z }.

Definition newBucket (rate : float64) (burst now : Z) : bucket := MkBucket rate (fl_of burst) (fl_of burst) now.

Definition with_tokens (t : float64) (b : bucket) : bucket := MkBucket (b_rate b) (b_capacity b) t (b_last b).

(** The tokens that came in since the last frame. *)
Definition refilled (now : Z) (b : bucket) : bucket :=
  let elapsed := Time_Sub now (b_last b) in
  if 0 <? elapsed then
    let tokens := fl_add (b_tokens b) (fl_mul (Seconds elapsed) (b_rate b)) in
    let tokens := if fl_lt (b_capacity b) tokens then b_capacity b else tokens in
    MkBucket (b_rate b) (b_capacity b) tokens now
  else b.

(** How long the bucket takes to pay for [t] tokens. *)
Definition pays (b : bucket) (t : float64) : Z := to_int64 (fl_mul (fl_div t (b_rate b)) (fl_of Second)).

Definition take (n : float64) (now : Z) (b : bucket) : Z * bucket :=
  let b := refilled now b in
  let b := with_tokens (fl_sub (b_tokens b) n) b in
  if fl_le fl_zero (b_tokens b) then (0, b)
  else
    let wait := pays b (SFopp (b_tokens b)) in
    let maxWait := pays b (b_capacity b) in
    if maxWait <? wait then (maxWait, with_tokens (SFopp (b_capacity b)) b) else (wait, b).

(** ** The limiter *)

Record limiter := MkLimiter { l_messages : option bucket; l_bytes : option bucket }.

Definition newLimiter (rate : Rate) (now : Z) : limiter :=
  let rate := withDefaults rate in
  MkLimiter (if disabled (Messages rate) then None else Some (newBucket (Messages rate) (MessageBurst rate) now))
    (if disabled (Bytes_ rate) then None else Some (newBucket (Bytes_ rate) (ByteBurst rate) now)).

Definition enabled (l : limiter) : bool :=
  match l_messages l, l_bytes l with None, None => false | _, _ => true end.

(** [sleep d] is the error of sleeping for [d], when the connection goes away. *)
Definition wait (sleep : Z -> option GoError) (size now : Z) (l : limiter) : Z * option GoError * limiter :=
  if negb (enabled l) then (0, None, l)
  else
    let '(longest, ms) := match l_messages l with
                          | Some b => let '(d, b) := take (fl_of 1) now b in (d, Some b)
                          | None => (0, None)
                          end in
    let '(longest, bs) := match l_bytes l with
                          | Some b => let '(d, b) := take (fl_of size) now b in ((if longest <? d then d else longest), Some b)
                          | None => (longest, None)
                          end in
    let l := MkLimiter ms bs in
    if longest <=? 0 then (0, None, l) else (longest, sleep longest, l).

(** ** The sign of a difference is exact *)

Definition mantissa_ok (r : shr_record) : Prop := 0 <= shr_m r.

Lemma shr_1_ok r : mantissa_ok r -> mantissa_ok (shr_1 r).
Proof. destruct r as [[|[p|p|]|p] ? ?]; unfold mantissa_ok; cbn; lia. Qed.

Lemma iter_shr_ok p : forall r, mantissa_ok r -> mantissa_ok (SpecFloat.iter_pos shr_1 p r).
Proof. induction p; intros r H; cbn; auto using shr_1_ok. Qed.

Lemma shr_fexp_ok m e l : 0 <= m -> mantissa_ok (shr_fexp 53 1024 m e l).1.
Proof.
  intros Hm. unfold shr_fexp, shr. assert (mantissa_ok (shr_record_of_loc m l)) by (by destruct l as [|[]]).
  destruct (_ - _); [done|by apply iter_shr_ok|done].
Qed.

(** Rounding a positive number never makes it negative. *)
Lemma binary_round_sign m e : fl_le fl_zero (binary_round 53 1024 false m e) = true.
Proof.
  unfold binary_round. destruct (shl_align _ _ _) as [mz ez]. unfold binary_round_aux.
  pose proof (shr_fexp_ok (Zpos mz) ez loc_Exact ltac:(done)) as H1. destruct (shr_fexp 53 1024 (Zpos mz) ez loc_Exact) as [r1 e1].
  cbn [fst] in H1. assert (0 <= round_nearest_even (shr_m r1) (loc_of_shr_record r1)) as H2.
  { unfold mantissa_ok in H1. unfold round_nearest_even. destruct (loc_of_shr_record r1) as [|[]]; repeat case_match; lia. }
  pose proof (shr_fexp_ok _ e1 loc_Exact H2) as H3. destruct (shr_fexp 53 1024 _ e1 loc_Exact) as [r2 e2]. cbn [fst] in H3.
  unfold mantissa_ok in H3. destruct (shr_m r2) as [|p|p]; [done| |lia]. by destruct (e2 <=? _).
Qed.

Lemma binary_normalize_sign m e : 0 <= m -> fl_le fl_zero (binary_normalize 53 1024 m e false) = true.
Proof. destruct m as [|p|p]; [done| |lia]. intros _. apply binary_round_sign. Qed.

(** The value of a finite number in units of [2 ^ ez]. *)
Definition units (ez : Z) (f : float64) : Z :=
  match f with S754_finite s m e => cond_Zopp s (Zpos m * 2 ^ (e - ez)) | _ => 0 end.

Definition exponent (f : float64) : Z := match f with S754_finite _ _ e => e | _ => 1024 end.

Definition finite (f : float64) : bool := match f with S754_zero _ | S754_finite _ _ _ => true | _ => false end.

(** The exact order of finite numbers. *)
Definition exact_le (x y : float64) : bool :=
  finite x && finite y && (let ez := Z.min (exponent x) (exponent y) in units ez x <=? units ez y).

Lemma iter_xO p d : Zpos (Pos.iter xO p d) = Zpos p * 2 ^ Zpos d.
Proof.
  induction d as [|d IH] using Pos.peano_ind; [cbn; lia|]. rewrite Pos.iter_succ, Pos2Z.inj_succ, Z.pow_succ_r by lia. lia.
Qed.

Lemma shl_align_units m e ez : ez <= e -> Zpos (shl_align m e ez).1 = Zpos m * 2 ^ (e - ez).
Proof.
  intros H. unfold shl_align. destruct (ez - e) as [|p|p] eqn:E; [|lia|].
  - replace (e - ez) with 0 by lia. cbn. lia.
  - cbn [fst]. rewrite iter_xO. by replace (e - ez) with (Zpos p) by lia.
Qed.

Lemma sub_covers t n : exact_le n t = true -> fl_le fl_zero (fl_sub t n) = true.
Proof.
  unfold exact_le. intros [[Hn Ht]%andb_true_iff H%Z.leb_le]%andb_true_iff.
  destruct t as [st| | |st mt et], n as [sn| | |sn mn en]; try done; cbn [exponent units fl_sub SFsub] in *.
  - by destruct st, sn.
  - assert (0 < 2 ^ (en - Z.min en 1024)) by (apply Z.pow_pos_nonneg; lia). destruct sn; [done|]. cbn in H. lia.
  - assert (0 < 2 ^ (et - Z.min 1024 et)) by (apply Z.pow_pos_nonneg; lia). destruct st; [|done]. cbn in H. lia.
  - apply binary_normalize_sign. rewrite !shl_align_units by lia. rewrite (Z.min_comm et en). lia.
Qed.

(** ** What a frame waits for *)

(** The time a bucket takes to fill up. *)
Definition refill (b : bucket) : Z := pays b (b_capacity b).

Lemma refilled_last now b : b_last (refilled now b) = Z.max now (b_last b).
Proof. unfold refilled, Time_Sub, two63. destruct (0 <? _) eqn:E; cbn; [apply Z.ltb_lt in E|apply Z.ltb_ge in E]; lia. Qed.

Lemma fl_lt_irrefl x : fl_lt x x = false.
Proof.
  unfold fl_lt, SFltb, SFcompare. destruct x as [|[]| |[] m e]; try done; rewrite Z.compare_refl;
    change (Pos.compare_cont Eq m m) with (Pos.compare m m); by rewrite Pos.compare_refl.
Qed.

Lemma refilled_cap now b : b_last b < now -> fl_lt (b_capacity (refilled now b)) (b_tokens (refilled now b)) = false.
Proof.
  intros H. unfold refilled. rewrite (proj2 (Z.ltb_lt _ _)) by (unfold Time_Sub, two63; lia). cbn.
  destruct (fl_lt (b_capacity b) (fl_add _ _)) eqn:E; [apply fl_lt_irrefl|done].
Qed.

Lemma take_spec n now b d b' :
  take n now b = (d, b') ->
  d <= Z.max 0 (refill b) /\ b_rate b' = b_rate b /\ b_capacity b' = b_capacity b /\ b_last b' = Z.max now (b_last b)
  /\ (exact_le n (b_tokens (refilled now b)) = true -> d = 0).
Proof.
  unfold take. pose proof (refilled_last now b) as Hl.
  assert (b_rate (refilled now b) = b_rate b /\ b_capacity (refilled now b) = b_capacity b) as [Hr Hc].
  { unfold refilled. by destruct (0 <? _). }
  set (r := refilled now b) in *. cbn [b_tokens with_tokens b_capacity b_rate].
  assert (forall t, pays (with_tokens t r) (b_capacity r) = refill b) as Hp.
  { intros t. unfold refill, pays. cbn. by rewrite Hr, Hc. }
  destruct (fl_le fl_zero _) eqn:E; [intros [= <- <-]; cbn; by split_and!; try lia|].
  assert (exact_le n (b_tokens r) = true -> False) as Hn by (intros H%sub_covers; congruence).
  rewrite Hp. destruct (refill b <? _) eqn:E2; intros [= <- <-]; cbn; split_and!; (lia || done || by intros ?%Hn).
Qed.

Definition bucket_refill (o : option bucket) : Z := match o with Some b => refill b | None => 0 end.

(** The longest a limiter makes a frame wait. *)
Definition longest_wait (l : limiter) : Z := Z.max 0 (Z.max (bucket_refill (l_messages l)) (bucket_refill (l_bytes l))).

(** The tokens of a bucket cover [n], exactly. *)
Definition covered (n : float64) (now : Z) (o : option bucket) : bool :=
  match o with Some b => exact_le n (b_tokens (refilled now b)) | None => true end.

Definition same_limit (a b : option bucket) : Prop :=
  (fun x => (b_rate x, b_capacity x)) <$> a = (fun x => (b_rate x, b_capacity x)) <$> b.

Lemma same_limit_refill a b : same_limit a b -> bucket_refill a = bucket_refill b.
Proof. unfold same_limit. destruct a, b; cbn; try done. intros [= H1 H2]. unfold refill, pays. by rewrite H1, H2. Qed.

Lemma wait_spec sleep size now l d e l' :
  wait sleep size now l = (d, e, l') ->
  0 <= d <= longest_wait l
  /\ e = (if d =? 0 then None else sleep d)
  /\ (covered (fl_of 1) now (l_messages l) = true -> covered (fl_of size) now (l_bytes l) = true -> d = 0)
  /\ same_limit (l_messages l') (l_messages l) /\ same_limit (l_bytes l') (l_bytes l).
Proof.
  unfold wait, longest_wait, covered, same_limit. destruct (enabled l); cbn [negb]; [|intros [= <- <- <-]; by split_and!; try lia].
  assert (exists dm ms, match l_messages l with Some b => let '(d, b) := take (fl_of 1) now b in (d, Some b) | None => (0, None) end = (dm, ms)
    /\ dm <= Z.max 0 (bucket_refill (l_messages l)) /\ same_limit ms (l_messages l)
    /\ (covered (fl_of 1) now (l_messages l) = true -> dm = 0)) as (dm & ms & -> & Hm1 & Hm2 & Hm3).
  { destruct (l_messages l) as [b|]; [|by exists 0, None].
    destruct (take (fl_of 1) now b) as [dm b'] eqn:E. apply take_spec in E as (H1 & H2 & H3 & _ & H4).
    exists dm, (Some b'). split_and!; try done. unfold same_limit. cbn. by rewrite H2, H3. }
  assert (exists db bs, match l_bytes l with Some b => let '(d, b) := take (fl_of size) now b in ((if dm <? d then d else dm), Some b) | None => (dm, None) end
      = (Z.max dm db, bs) /\ db <= Z.max 0 (bucket_refill (l_bytes l)) /\ same_limit bs (l_bytes l)
    /\ (covered (fl_of size) now (l_bytes l) = true -> db <= Z.max 0 dm)) as (db & bs & -> & Hb1 & Hb2 & Hb3).
  { destruct (l_bytes l) as [b|].
    - destruct (take (fl_of size) now b) as [db b'] eqn:E. apply take_spec in E as (H1 & H2 & H3 & _ & H4).
      exists db, (Some b'). split_and!; try done.
      + f_equal. destruct (dm <? db) eqn:E2; [apply Z.ltb_lt in E2|apply Z.ltb_ge in E2]; lia.
      + unfold same_limit. cbn. by rewrite H2, H3.
      + intros ->%H4. lia.
    - exists (Z.min 0 dm), None. split_and!; try done; [|cbn; lia|lia]. f_equal. lia. }
  unfold covered, same_limit in *. destruct (Z.max dm db <=? 0) eqn:E; intros [= <- <- <-]; cbn [l_messages l_bytes].
  - by split_and!; try lia.
  - apply Z.leb_gt in E. rewrite (proj2 (Z.eqb_neq _ _)) by lia. split_and!; try done; try lia. intros ->%Hm3 H%Hb3. lia.
Qed.

(** A connection's frames: the size of each and when it was read. *)
Fixpoint frames (sleep : Z -> option GoError) (fs : list (Z * Z)) (l : limiter) : list Z :=
  match fs with
  | [] => []
  | (size, now) :: fs => let '(d, e, l) := wait sleep size now l in
      match e with Some _ => [d] | None => d :: frames sleep fs l end
  end.

Lemma frames_bounded sleep fs : forall l, Forall (fun d => 0 <= d <= longest_wait l) (frames sleep fs l).
Proof.
  induction fs as [|[size now] fs IH]; intros l; [constructor|]. cbn [frames].
  destruct (wait sleep size now l) as [[d e] l'] eqn:E. apply wait_spec in E as (H1 & _ & _ & H2 & H3).
  destruct e; [by constructor|]. constructor; [done|]. specialize (IH l'). unfold longest_wait in *.
  by rewrite (same_limit_refill _ _ H2), (same_limit_refill _ _ H3) in IH.
Qed.

(** C39. Throttling is bounded and never touches a client within its limits.  Whatever
    frames a connection sends and whenever, none waits longer than its buckets take to
    fill up once; a frame waits only by sleeping for the time returned; and a frame that
    both buckets' tokens cover, compared exactly and not up to rounding, does not wait. *)
Theorem throttling_bounded sleep fs size now l :
  Forall (fun d => 0 <= d <= longest_wait l) (frames sleep fs l)
  /\ let '(d, e, l') := wait sleep size now l in
     e = (if d =? 0 then None else sleep d)
     /\ (covered (fl_of 1) now (l_messages l) = true -> covered (fl_of size) now (l_bytes l) = true -> d = 0)
     /\ longest_wait l' = longest_wait l.
Proof.
  split; [apply frames_bounded|]. destruct (wait sleep size now l) as [[d e] l'] eqn:E. apply wait_spec in E as (_ & H1 & H2 & H3 & H4).
  split_and!; [done..|]. unfold longest_wait. by rewrite (same_limit_refill _ _ H3), (same_limit_refill _ _ H4).
Qed.
End Limit.

(** ** The defaults *)

Definition default_limiter (now : Z) : limiter := newLimiter (MkRate fl_zero 0 fl_zero 0) now.

(** Four hundred messages at once pass; the next waits for one message's worth, five
    milliseconds. *)
Example burst_passes :
  frames (fun _ => 0) (fun _ => None) (replicate 401 (10, 0)) (default_limiter 0) = replicate 400 0 ++ [5000000].
Proof. vm_compute. reflexivity. Qed.

(** The longest a default connection waits: two seconds. *)
Example default_longest_wait : longest_wait (fun _ => 0) (default_limiter 0) = 2 * Second.
Proof. vm_compute. reflexivity. Qed.
