(* ===== verification/AuditTrail.v ===== *)
(** * The audit trail and the administrative credential

    [internal/audit/audit.go], [cmd/server/adminaudit.go] and [cmd/server/adminauth.go]:
    the record a request leaves, the wrapper that watches a response go by, and the token
    check in front of everything.

    A served request gives its response and the records it wrote; the trail is their
    concatenation, one line each, in the order the recorder's lock was taken.  A
    destination that cannot be written to is not noticed by the code and is left out.
    SHA-256 and [net.SplitHostPort] are parameters. *)

From stdpp Require Import strings.
From S2P Require Import Prelude Uuid Text Awareness Signature Webhook Http.

(** ** Records *)

Record audit_Event := MkAuditEvent {
  ev_At : Z;
  ev_Action : bytes;
  ev_Result : bytes;
  ev_Status : Z;
  ev_Document : bytes;
  ev_Credential : bytes;
  ev_IP : bytes;
  ev_Method : bytes;
  ev_Path : bytes;
  ev_Bytes : Z;
  ev_DurationMS : Z;
  ev_Err : bytes;
}.

Definition CredentialNone : bytes := str "none".
Definition CredentialBad : bytes := str "invalid".

Definition resultOf (status : Z) : bytes :=
  if 500 <=? status then str "failed"
  else if (status =? 401) || (status =? 403) then str "denied"
  else if 400 <=? status then str "refused"
  else str "ok".

(** [Record]: the event as it is written. *)
Definition Record_ (now : Z) (e : audit_Event) : audit_Event :=
  MkAuditEvent (if ev_At e =? zeroTime then now else ev_At e) (ev_Action e)
    (if decide (ev_Result e = []) then resultOf (ev_Status e) else ev_Result e) (ev_Status e) (ev_Document e)
    (if decide (ev_Credential e = []) then CredentialNone else ev_Credential e) (ev_IP e) (ev_Method e) (ev_Path e)
    (ev_Bytes e) (ev_DurationMS e) (ev_Err e).

(** The response of a request and what it left in the trail. *)
Record served := MkServed { sv_response : response; sv_trail : list audit_Event }.

(** ** Watching a response *)

Definition max_line : nat := 200.

(** [strings.IndexAny(s, "\r\n")], and what precedes it. *)
Fixpoint first_line (s : bytes) : bytes :=
  match s with
  | [] => []
  | c :: t => if (c =? 10) || (c =? 13) then [] else c :: first_line t
  end.

Definition firstLineOf (b : bytes) : bytes :=
  let b := if (max_line <? length b)%nat then take max_line b else b in
  first_line (TrimSpace b).

Record auditedWriter := MkAuditedWriter {
  aw_rw : response;
  aw_status : Z;
  aw_written : Z;
  aw_wroteHeader : bool;
  aw_firstLine : bytes;
}.

Definition new_auditedWriter : auditedWriter := MkAuditedWriter no_response 200 0 false [].

Definition aw_WriteHeader (status : Z) (w : auditedWriter) : auditedWriter :=
  if aw_wroteHeader w then w
  else MkAuditedWriter (respond (aw_rw w) (WriteHeader status)) status (aw_written w) true (aw_firstLine w).

Definition aw_Write (b : bytes) (w : auditedWriter) : auditedWriter :=
  let w := if aw_wroteHeader w then w else aw_WriteHeader 200 w in
  let line := if (400 <=? aw_status w) && bool_decide (aw_firstLine w = []) then firstLineOf b else aw_firstLine w in
  MkAuditedWriter (respond (aw_rw w) (Write b)) (aw_status w) (aw_written w + Z.of_nat (length b)) (aw_wroteHeader w) line.

(** A handler's call on the wrapped writer: the headers are the embedded writer's. *)
Definition aw_call (w : auditedWriter) (c : wcall) : auditedWriter :=
  match c with
  | WriteHeader status => aw_WriteHeader status w
  | Write b => aw_Write b w
  | SetHeader _ _ | DelHeader _ =>
      MkAuditedWriter (respond (aw_rw w) c) (aw_status w) (aw_written w) (aw_wroteHeader w) (aw_firstLine w)
  end.

Definition problem (w : auditedWriter) : bytes :=
  if aw_status w <? 400 then []
  else if decide (aw_firstLine w = []) then FormatInt (aw_status w) else aw_firstLine w.

(** ** The vocabulary *)

Definition actionDocumentRead : bytes := str "document.read".
Definition actionDocumentWrite : bytes := str "document.write".
Definition actionDocumentDelete : bytes := str "document.delete".
Definition actionDocumentList : bytes := str "document.list".
Definition actionOwnerSet : bytes := str "owner.set".
Definition actionVersionList : bytes := str "version.list".
Definition actionVersionRead : bytes := str "version.read".
Definition actionVersionTake : bytes := str "version.take".
Definition actionProfile : bytes := str "profile.read".
Definition actionStats : bytes := str "stats.read".
Definition actionMetrics : bytes := str "metrics.read".

Definition HasPrefix (s p : bytes) : bool := bool_decide (is_Some (cut_prefix p s)).
Definition HasSuffix (s p : bytes) : bool := HasPrefix (rev s) (rev p).
Fixpoint Contains_ (s p : bytes) : bool :=
  HasPrefix s p || match s with [] => false | _ :: t => Contains_ t p end.

Definition actionOf (path : bytes) : bytes :=
  if decide (path = str "/documents") then actionDocumentList
  else if HasPrefix path (str "/documents/") then
    if Contains_ path (str "/versions") then str "version.access"
    else if HasSuffix path (str "/owner") then actionOwnerSet
    else str "document.access"
  else if HasPrefix path (str "/debug/pprof") then actionProfile
  else if decide (path = str "/metrics") then actionMetrics
  else if decide (path = str "/statsz") then actionStats
  else str "unknown".

(** ** Credentials *)

Definition MinAdminTokenLength : Z := 16.
Definition adminRealm : bytes := str "Bearer realm=" ++ [34] ++ str "ycollab" ++ [34].

Record adminTokens := MkAdminTokens { digests : list bytes; prints : list bytes }.

Definition enabled (t : adminTokens) : bool := negb (bool_decide (digests t = [])).

(** [strings.EqualFold(s, "bearer")]: no rune outside ASCII folds to a letter of the
    word. *)
Definition lower_ascii (c : Z) : Z := if within 65 90 c then c + 32 else c.
Definition is_bearer (scheme : bytes) : bool := bool_decide (map lower_ascii scheme = str "bearer").

Section Admin.
Context (sha256 : bytes -> bytes) (SplitHostPort : bytes -> option bytes).
(** What a step reads besides the state, of which the clock in nanoseconds. *)
Context {I S : Type} (clock : I -> Z).
#[local] Notation handler := (http_request -> prog I S (list wcall)).

Definition Fingerprint (token : bytes) : bytes := hex_encode (take 4 (sha256 token)).

Definition redactToken (s : bytes) : bytes :=
  if decide (s = []) then str "(empty)" else [0xE2; 0x80; 0xA6] ++ Fingerprint s.

(** The error names the entry and its length. *)
Fixpoint collect_tokens (l : list bytes) (t : adminTokens) : bytes * Z + adminTokens :=
  match l with
  | [] => inr t
  | s :: l =>
      if Z.of_nat (length s) <? MinAdminTokenLength then inl (redactToken s, Z.of_nat (length s))
      else collect_tokens l (MkAdminTokens (digests t ++ [sha256 s]) (prints t ++ [Fingerprint s]))
  end.

Definition parseAdminTokens (spec : bytes) : bytes * Z + adminTokens :=
  collect_tokens (splitList spec) (MkAdminTokens [] []).

(** The last entry that matches. *)
Fixpoint found_at (got : bytes) (i : nat) (l : list bytes) (found : option nat) : option nat :=
  match l with
  | [] => found
  | want :: l => found_at got (Datatypes.S i) l (if decide (got = want) then Some i else found)
  end.

Definition match_ (t : adminTokens) (r : http_request) : bytes * bool :=
  match cut 32 (header_get (str "Authorization") r) with
  | Some (scheme, value) =>
      if is_bearer scheme then
        match found_at (sha256 (TrimSpace value)) 0 (digests t) None with
        | Some i => (nth i (prints t) [], true)
        | None => (CredentialBad, false)
        end
      else (CredentialBad, false)
  | None => (CredentialBad, false)
  end.

Definition credentialOf (r : http_request) : bytes := default CredentialNone (rq_credential r).

Definition withCredential (r : http_request) (print : bytes) : http_request :=
  MkRequest (rq_Method r) (rq_Path r) (rq_segments r) (rq_Query r) (rq_Header r) (rq_Body r) (rq_cut r)
    (rq_ContentLength r) (rq_RemoteAddr r) (rq_name r) (rq_id r) (Some print).

Definition requestIP (r : http_request) : bytes := default (rq_RemoteAddr r) (SplitHostPort (rq_RemoteAddr r)).

(** ** Wrappers *)

Definition time_now : prog I S Z := atomically (fun i s => (clock i, s)).

Definition audited (action : bytes) (next : handler) (r : http_request) : prog I S served :=
  start ← time_now;
  calls ← next r;
  let rw := foldl aw_call new_auditedWriter calls in
  let size := if decide (rq_Method r = str "POST" \/ rq_Method r = str "PUT")
              then if rq_ContentLength r <? 0 then 0 else rq_ContentLength r
              else aw_written rw in
  stop ← time_now;
  mret (MkServed (aw_rw rw)
    [Record_ stop (MkAuditEvent zeroTime action [] (aw_status rw) (rq_name r) (credentialOf r) (requestIP r)
       (rq_Method r) (rq_Path r) size (Z.quot (stop - start) 1000000) (problem rw))]).

(** A route that is not audited. *)
Definition unaudited (next : handler) (r : http_request) : prog I S served :=
  calls ← next r; mret (MkServed (foldl respond no_response calls) []).

(** The refusal, which is recorded here because no route sees the request. *)
Definition refuse (r : http_request) : prog I S served :=
  now ← time_now;
  mret (MkServed (foldl respond no_response
           (SetHeader (str "WWW-Authenticate") adminRealm :: http_Error (str "unauthorized") 401))
         [Record_ now (MkAuditEvent zeroTime (actionOf (rq_Path r)) [] 401 [] CredentialBad (requestIP r)
            (rq_Method r) (rq_Path r) 0 0 (str "unauthorized"))]).

Definition requireToken (t : adminTokens) (next : http_request -> prog I S served) (r : http_request) : prog I S served :=
  if negb (enabled t) then next r
  else match match_ t r with
       | (print, true) => next (withCredential r print)
       | (_, false) => refuse r
       end.
End Admin.

(** ** What the wrapper sees *)

Lemma first_line_spec s : 10 ∉ first_line s /\ 13 ∉ first_line s /\ (length (first_line s) <= length s)%nat.
Proof.
  induction s as [|c s (IH1 & IH2 & IH3)]; cbn [first_line]; [by repeat split; [set_solver..|cbn]|].
  destruct ((c =? 10) || (c =? 13)) eqn:E; [repeat split; [set_solver..|cbn; lia]|]. bool_arith.
  repeat split; [rewrite elem_of_cons; naive_solver..|cbn; lia].
Qed.

(** An excerpt that fits the trail: one line of at most 200 bytes. *)
Definition one_line (s : bytes) : Prop := 10 ∉ s /\ 13 ∉ s /\ (length s <= max_line)%nat.

Lemma firstLineOf_one_line b : one_line (firstLineOf b).
Proof.
  unfold firstLineOf. set (x := if (max_line <? length b)%nat then take max_line b else b).
  assert (length x <= max_line)%nat as Hx.
  { subst x. destruct (max_line <? length b)%nat eqn:E; [rewrite length_take; lia|]. apply Nat.ltb_ge in E. lia. }
  destruct (first_line_spec (TrimSpace x)) as (H1 & H2 & H3). repeat split; [done..|].
  pose proof (TrimSpace_length x). lia.
Qed.

Record aw_inv (w : auditedWriter) : Prop := {
  awi_sent : aw_wroteHeader w = bool_decide (is_Some (rs_sent (aw_rw w)));
  awi_status : aw_status w = rs_status (aw_rw w);
  awi_written : aw_written w = Z.of_nat (length (rs_body (aw_rw w)));
  awi_line : one_line (aw_firstLine w);
  awi_ok : aw_status w < 400 -> aw_firstLine w = [];
}.

Lemma new_aw_inv : aw_inv new_auditedWriter.
Proof. split; try done. repeat split; [set_solver..|cbn; unfold max_line; lia]. Qed.

Lemma aw_WriteHeader_inv st w : aw_inv w -> aw_inv (aw_WriteHeader st w).
Proof.
  intros [H1 H2 H3 H4 H5]. unfold aw_WriteHeader. destruct (aw_wroteHeader w) eqn:E; [by split; try congruence|].
  symmetry in H1. apply bool_decide_eq_false in H1. rewrite <- eq_None_not_Some in H1.
  split; cbn; unfold write_status; rewrite ?H1; cbn; try done.
  intros _. apply H5. rewrite H2. unfold rs_status. by rewrite H1.
Qed.

Lemma aw_WriteHeader_wrote st w : aw_wroteHeader (aw_WriteHeader st w) = true.
Proof. unfold aw_WriteHeader. by destruct (aw_wroteHeader w) eqn:E. Qed.

Lemma aw_call_inv w c : aw_inv w -> aw_inv (aw_call w c).
Proof.
  intros Hw. destruct c as [k v|k|st|b]; cbn [aw_call]; [..|by apply aw_WriteHeader_inv|].
  1,2: by destruct Hw; split.
  unfold aw_Write. set (u := if aw_wroteHeader w then w else aw_WriteHeader 200 w).
  assert (aw_inv u /\ aw_wroteHeader u = true) as [[H1 H2 H3 H4 H5] Hu].
  { subst u. destruct (aw_wroteHeader w) eqn:E; [done|]. split; [by apply aw_WriteHeader_inv|apply aw_WriteHeader_wrote]. }
  rewrite Hu in H1. symmetry in H1. apply bool_decide_eq_true in H1 as [[st hs] H1].
  split; cbn; unfold write_status; rewrite ?H1; cbn; rewrite ?Hu; try done.
  - rewrite H2. unfold rs_status. by rewrite H1.
  - rewrite length_app. lia.
  - destruct (_ && _); [apply firstLineOf_one_line|done].
  - intros Hs. rewrite H5 by done. by rewrite (proj2 (Z.leb_gt _ _) Hs).
Qed.

(** The client gets what it would get without the wrapper. *)
Lemma aw_rw_call w c : aw_inv w -> aw_rw (aw_call w c) = respond (aw_rw w) c.
Proof.
  intros [H1 _ _ _ _]. destruct c as [k v|k|st|b]; cbn [aw_call]; [done..| |].
  - unfold aw_WriteHeader. rewrite H1. cbn. unfold write_status.
    destruct (rs_sent (aw_rw w)) eqn:E; [by rewrite bool_decide_true by eauto|]. by rewrite bool_decide_false by (by intros []).
  - unfold aw_Write, aw_WriteHeader. rewrite H1. cbn.
    destruct (bool_decide (is_Some (rs_sent (aw_rw w)))) eqn:E; cbn; [done|]. unfold write_status.
    apply bool_decide_eq_false in E. rewrite <- eq_None_not_Some in E. by rewrite E.
Qed.

Lemma aw_calls_spec calls : forall w, aw_inv w ->
  aw_inv (foldl aw_call w calls) /\ aw_rw (foldl aw_call w calls) = foldl respond (aw_rw w) calls.
Proof.
  induction calls as [|c calls IH]; intros w Hw; [done|]. cbn [foldl]. rewrite <- aw_rw_call by done.
  by apply IH, aw_call_inv.
Qed.

(** ** What a credential is *)

Section Tokens.
Context (sha256 : bytes -> bytes).

Lemma collect_tokens_spec l : forall t t', collect_tokens sha256 l t = inr t' ->
  Forall (fun s => MinAdminTokenLength <= Z.of_nat (length s)) l
  /\ digests t' = digests t ++ map sha256 l /\ prints t' = prints t ++ map (Fingerprint sha256) l.
Proof.
  induction l as [|s l IH]; intros t t' H; cbn [collect_tokens] in H.
  { injection H as <-. by rewrite !app_nil_r. }
  case_if; [done|]. apply IH in H as (H1 & H2 & H3). rewrite H2, H3. cbn. rewrite <- !app_assoc. by repeat split; [constructor|..].
Qed.

Lemma found_at_spec got l : forall i found,
  (forall j, found_at got i l found = Some j -> found = Some j \/ exists k, j = (i + k)%nat /\ l !! k = Some got)
  /\ (got ∈ l -> is_Some (found_at got i l found)) /\ (is_Some found -> is_Some (found_at got i l found)).
Proof.
  induction l as [|want l IH]; intros i found; cbn [found_at].
  { repeat split; [by left|by intros ?%elem_of_nil|done]. }
  destruct (IH (S i) (if decide (got = want) then Some i else found)) as (H1 & H2 & H3). repeat split.
  - intros j Hj. apply H1 in Hj as [Hj|(k & -> & Hk)].
    + case_decide as Ed; [|by left]. injection Hj as <-. right. exists 0%nat. rewrite Ed. split; [lia|done].
    + right. exists (S k). split; [lia|done].
  - intros [->|Hin]%elem_of_cons; [|by apply H2]. apply H3. rewrite decide_True by done. by eexists.
  - intros Hs. apply H3. case_decide; [by eexists|done].
Qed.

(** The token a request presents. *)
Definition presented (r : http_request) : option bytes :=
  match cut 32 (header_get (str "Authorization") r) with
  | Some (scheme, value) => if is_bearer scheme then Some (TrimSpace value) else None
  | None => None
  end.

(** A request is let in exactly when its token has the digest of a configured one; the
    credential on record is then the fingerprint of what it presented. *)
Lemma match_spec spec t r : parseAdminTokens sha256 spec = inr t ->
  match_ sha256 t r =
    match presented r with
    | Some token =>
        if bool_decide (sha256 token ∈ map sha256 (splitList spec)) then (Fingerprint sha256 token, true) else (CredentialBad, false)
    | None => (CredentialBad, false)
    end.
Proof.
  intros (Hlen & Hd & Hp)%collect_tokens_spec. cbn [digests prints app] in Hd, Hp. unfold match_, presented.
  destruct (cut 32 _) as [[scheme value]|]; [|done]. destruct (is_bearer scheme); [|done].
  rewrite Hd, Hp. set (got := sha256 (TrimSpace value)).
  destruct (found_at_spec got (map sha256 (splitList spec)) 0 None) as (H1 & H2 & _).
  destruct (found_at got 0 (map sha256 (splitList spec)) None) as [j|] eqn:E.
  - destruct (H1 j eq_refl) as [|(k & -> & Hk)]; [done|]. rewrite bool_decide_true by (by eapply list_elem_of_lookup_2).
    apply list_lookup_fmap_Some in Hk as (tok & Ht & Hk). f_equal.
    rewrite (nth_lookup_Some _ _ _ (Fingerprint sha256 tok)); [|change (0 + k)%nat with k; by rewrite list_lookup_fmap, Hk].
    unfold Fingerprint. fold got. by rewrite Ht.
  - rewrite bool_decide_false; [done|]. by intros []%H2.
Qed.
End Tokens.
