(* ===== verification/ByteSize.v ===== *)
(** * Sizes on the command line

    [cmd/server/bytesize.go]: a size as an operator writes it.  [strings.ToUpper] and
    [strconv.ParseFloat] are parameters, floating-point numbers are those of [Limit]. *)

From stdpp Require Import strings.
From Stdlib Require Import SpecFloat.
From S2P Require Import Prelude Lib0 Text AuditTrail Limit.

Section ByteSize.
Context (ToUpper : bytes -> bytes) (ParseFloat : bytes -> option spec_float) (out_of_range : spec_float -> Z).

Definition suffixes : list (bytes * Z) :=
  [(str "KIB", Z.shiftl 1 10); (str "MIB", Z.shiftl 1 20); (str "GIB", Z.shiftl 1 30); (str "TIB", Z.shiftl 1 40);
   (str "KB", Z.shiftl 1 10); (str "MB", Z.shiftl 1 20); (str "GB", Z.shiftl 1 30); (str "TB", Z.shiftl 1 40);
   (str "K", Z.shiftl 1 10); (str "M", Z.shiftl 1 20); (str "G", Z.shiftl 1 30); (str "T", Z.shiftl 1 40);
   (str "B", 1)].

(** The first suffix that fits, cut off. *)
Fixpoint cut_unit (l : list (bytes * Z)) (upper : bytes) : bytes * Z :=
  match l with
  | [] => (upper, 1)
  | (text, mult) :: l =>
      if HasSuffix upper text then (TrimSpace (firstn (length upper - length text) upper), mult) else cut_unit l upper
  end.

Inductive size_error := NotASize | Negative.

Definition parseBytes (s : bytes) : size_error + Z :=
  let s := TrimSpace s in
  if decide (s = []) then inr 0
  else
    let '(upper, multiplier) := cut_unit suffixes (ToUpper s) in
    match ParseFloat upper with
    | None => inl NotASize
    | Some n =>
        if fl_lt n fl_zero then inl Negative
        else inr (to_int64 out_of_range (fl_mul n (fl_of multiplier)))
    end.
End ByteSize.

(** ** Reading sizes *)

(** Decimal integers and what [ParseFloat] documents for infinities. *)
Fixpoint decimal (acc : Z) (s : bytes) : option Z :=
  match s with [] => Some acc | c :: s => if within 48 57 c then decimal (10 * acc + (c - 48)) s else None end.
Definition toy_ParseFloat (s : bytes) : option spec_float :=
  if decide (s = str "INF") then Some (S754_infinity false)
  else match s with [] => None | _ => fl_of <$> decimal 0 s end.
Definition upper_ascii (c : Z) : Z := if within 97 122 c then c - 32 else c.
Definition amd64 (f : spec_float) : Z := - two63.
#[local] Notation read := (parseBytes (map upper_ascii) toy_ParseFloat amd64).

Example sizes : read (str " 4 GiB ") = inr (4 * 2 ^ 30) /\ read (str "512mb") = inr (512 * 2 ^ 20)
  /\ read (str "100") = inr 100 /\ read (str "") = inr 0 /\ read (str "GB") = inl NotASize /\ read (str "1 000") = inl NotASize.
Proof. by vm_compute. Qed.

(** A size that does not fit an [int64] is accepted and, on amd64, negative: as a memory
    budget it is no budget at all. *)
Example huge_size_is_no_limit : read (str "8388608TB") = inr (- two63) /\ read (str "inf") = inr (- two63).
Proof. by vm_compute. Qed.
