(* ===== verification/Blob.v ===== *)
(** * Object storage

    [internal/blob/sigv4.go] (the signature of a request) and [internal/blob/s3.go] (the
    four operations on objects and how they read a server's answers).

    HMAC, SHA-256, the formatting of times and [url.Parse] are parameters; [EscapedPath]
    is the escaping of [net/url] for a path that was set decoded.  The server is a class:
    what its answers say of the bucket, as the S3 API documents them. *)

From stdpp Require Import strings.
From S2P Require Import Prelude Lib0 Views Uuid Text AuditTrail.

(** ** Escaping *)

Definition unreserved (c : Z) : bool :=
  within 65 90 c || within 97 122 c || within 48 57 c || in_set (str "-_.~") c.

Definition upper_hex_digit (n : Z) : Z := if n <? 10 then 48 + n else 55 + n.
Definition percent (c : Z) : bytes := [37; upper_hex_digit (Z.shiftr c 4); upper_hex_digit (Z.land c 15)].

Definition uriEncode (s : bytes) : bytes := s ≫= fun c => if unreserved c then [c] else percent c.

Definition fromHex (c : Z) : option Z :=
  if within 48 57 c then Some (c - 48)
  else if within 97 102 c then Some (c - 97 + 10)
  else if within 65 70 c then Some (c - 65 + 10)
  else None.

Fixpoint unescape (s : bytes) : bytes :=
  match s with
  | [] => []
  | c :: t =>
      match t with
      | h :: l :: rest =>
          match (if c =? 37 then fromHex h else None), fromHex l with
          | Some hi, Some lo => Z.lor (Z.shiftl hi 4) lo :: unescape rest
          | _, _ => c :: unescape t
          end
      | _ => c :: unescape t
      end
  end.

(** [url.URL.EscapedPath] of a URL whose [Path] was set and [RawPath] was not. *)
Definition path_escape (s : bytes) : bytes :=
  s ≫= fun c => if unreserved c || in_set (str "$&+,/:;=@") c then [c] else percent c.

Fixpoint Join (sep : bytes) (l : list bytes) : bytes :=
  match l with [] => [] | [s] => s | s :: l => s ++ sep ++ Join sep l end.

Definition canonicalURI (escapedPath : bytes) : bytes :=
  if decide (escapedPath = []) then [47] else Join [47] (map (fun seg => uriEncode (unescape seg)) (split_on 47 escapedPath)).

(** ** Requests *)

Record Credentials := MkCredentials { AccessKeyID : bytes; SecretAccessKey : bytes; SessionToken : bytes }.

(** [u_Path] is decoded, as [objectURL] sets it. *)
Record s3_url := MkURL { u_Scheme : bytes; u_Host : bytes; u_Path : bytes; u_Query : gmap bytes (list bytes) }.

Record s3_request := MkS3Request {
  q_Method : bytes; q_URL : s3_url; q_Host : bytes; q_Header : gmap bytes (list bytes); q_Body : option bytes }.

Definition header_set (k v : bytes) (q : s3_request) : s3_request :=
  MkS3Request (q_Method q) (q_URL q) (q_Host q) (<[k := [v]]> (q_Header q)) (q_Body q).

(** [strings.Fields]. *)
Definition at_space (s : bytes) : bool := bool_decide (is_Some (first_some (fun p => cut_prefix p s) spaces)).

Fixpoint word (s : bytes) : bytes * bytes :=
  match s with
  | [] => ([], [])
  | c :: t => if at_space s then ([], s) else let '(w, rest) := word t in (c :: w, rest)
  end.

Fixpoint Fields (fuel : nat) (s : bytes) : list bytes :=
  match fuel with
  | O => []
  | S fuel =>
      match strip spaces (length s) s with
      | [] => []
      | s' => let '(w, rest) := word s' in w :: Fields fuel rest
      end
  end.

Definition squeeze (vs : list bytes) : bytes := let s := Join [44] vs in Join [32] (Fields (length s) s).

(** The headers that are signed. *)
Definition signable (lower : bytes) : bool :=
  bool_decide (lower = str "content-type") || HasPrefix lower (str "x-amz-").

Definition canonicalizeHeaders (q : s3_request) : bytes * bytes :=
  let host := if decide (q_Host q = []) then u_Host (q_URL q) else q_Host q in
  let named := (str "host", host) ::
    omap (fun x => let lower := map lower_ascii x.1 in if signable lower then Some (lower, squeeze x.2) else None)
      (map_to_list (q_Header q)) in
  let values : gmap bytes bytes := foldl (fun m x => <[x.1 := x.2]> m) ∅ named in
  let names := sort_by str_lt (map fst named) in
  (names ≫= fun n => n ++ [58] ++ default [] (values !! n) ++ [10], Join [59] names).

Definition canonicalQuery (q : s3_request) : bytes :=
  Join [38] (sort_by str_lt (map_to_list (u_Query (q_URL q)) ≫= fun x => map (fun v => uriEncode x.1 ++ [61] ++ uriEncode v) x.2)).

Definition algorithm : bytes := str "AWS4-HMAC-SHA256".
Definition serviceName : bytes := str "s3".

Definition canonical_request (q : s3_request) (payloadHash : bytes) : bytes :=
  let '(canonicalHeaders, signedHeaders) := canonicalizeHeaders q in
  Join [10] [q_Method q; canonicalURI (path_escape (u_Path (q_URL q))); canonicalQuery q; canonicalHeaders; signedHeaders; payloadHash].

Section Sign.
Context (hmac : bytes -> bytes -> bytes) (sha256 : bytes -> bytes).
(** [now.UTC().Format] with the two layouts. *)
Context (isoFormat dateFormat : Z -> bytes).

Definition hexSHA256 (b : bytes) : bytes := hex_encode (sha256 b).

Definition signingKey (secret date region : bytes) : bytes :=
  let k := hmac (str "AWS4" ++ secret) date in
  let k := hmac k region in
  let k := hmac k serviceName in
  hmac k (str "aws4_request").

Definition dated (creds : Credentials) (now : Z) (payloadHash : bytes) (q : s3_request) : s3_request :=
  let q := header_set (str "X-Amz-Date") (isoFormat now) q in
  let q := header_set (str "X-Amz-Content-Sha256") payloadHash q in
  if decide (SessionToken creds = []) then q else header_set (str "X-Amz-Security-Token") (SessionToken creds) q.

Definition scope_of (region : bytes) (now : Z) : bytes :=
  dateFormat now ++ [47] ++ region ++ [47] ++ serviceName ++ str "/aws4_request".

Definition sign (creds : Credentials) (region : bytes) (now : Z) (payloadHash : bytes) (q : s3_request) : s3_request :=
  let q := dated creds now payloadHash q in
  let scope := scope_of region now in
  let stringToSign := Join [10] [algorithm; isoFormat now; scope; hexSHA256 (canonical_request q payloadHash)] in
  let signature := hex_encode (hmac (signingKey (SecretAccessKey creds) (dateFormat now) region) stringToSign) in
  header_set (str "Authorization")
    (algorithm ++ str " Credential=" ++ AccessKeyID creds ++ [47] ++ scope ++ str ", SignedHeaders="
     ++ (canonicalizeHeaders q).2 ++ str ", Signature=" ++ signature) q.

(** ** The client *)

Record blob_Config := MkBlobConfig {
  b_Bucket : bytes; b_Region : bytes; b_Endpoint : bytes; b_Prefix : bytes; b_PathStyle : bool; b_Credentials : Credentials }.

(** [url.Parse] of an endpoint: its scheme, host and path. *)
Context (url_Parse : bytes -> option s3_url).

Definition endpointURL (cfg : blob_Config) : option s3_url :=
  if decide (b_Endpoint cfg = []) then
    let host := if b_PathStyle cfg then str "s3." ++ b_Region cfg ++ str ".amazonaws.com"
                else b_Bucket cfg ++ str ".s3." ++ b_Region cfg ++ str ".amazonaws.com" in
    Some (MkURL (str "https") host [] ∅)
  else
    let raw := if Contains_ (b_Endpoint cfg) (str "://") then b_Endpoint cfg else str "https://" ++ b_Endpoint cfg in
    u ← url_Parse raw;
    if decide (u_Host u = []) then None else Some u.

(** [os.Getenv]. *)
Context (Getenv : bytes -> bytes).

Definition credentialsFromEnvironment : Credentials :=
  MkCredentials (Getenv (str "AWS_ACCESS_KEY_ID")) (Getenv (str "AWS_SECRET_ACCESS_KEY")) (Getenv (str "AWS_SESSION_TOKEN")).

Definition with_credentials (creds : Credentials) (cfg : blob_Config) : blob_Config :=
  MkBlobConfig (b_Bucket cfg) (b_Region cfg) (b_Endpoint cfg) (b_Prefix cfg) (b_PathStyle cfg) creds.

(** [New]: the configuration and the base address of a client; [None] is the error. *)
Definition NewClient (cfg : blob_Config) : option (blob_Config * s3_url) :=
  if decide (b_Bucket cfg = []) then None
  else if decide (b_Region cfg = []) then None
  else
    let cfg := if decide (AccessKeyID (b_Credentials cfg) = []) then with_credentials credentialsFromEnvironment cfg else cfg in
    if decide (AccessKeyID (b_Credentials cfg) = [] \/ SecretAccessKey (b_Credentials cfg) = []) then None
    else base ← endpointURL cfg; Some (cfg, base).

Context (cfg : blob_Config) (base : s3_url).

Definition objectURL (key : bytes) : s3_url :=
  let path := b_Prefix cfg ++ key in
  let path := if bool_decide (b_Endpoint cfg <> []) || b_PathStyle cfg
              then [47] ++ b_Bucket cfg ++ [47] ++ path else [47] ++ path in
  MkURL (u_Scheme base) (u_Host base) path (u_Query base).

Definition request (method key : bytes) (body : option bytes) (now : Z) : option s3_request :=
  if decide (key = []) then None
  else
    let u := objectURL key in
    Some (sign (b_Credentials cfg) (b_Region cfg) now (hexSHA256 (default [] body)) (MkS3Request method u (u_Host u) ∅ body)).

(** ** Answers *)

Record s3_response := MkS3Response { p_Status : Z; p_Body : bytes; p_cut : bool }.

Inductive blob_error := EmptyKey | Transport | ErrNotFound | ErrNoBucket_ | StatusError (op : bytes) (status : Z) (detail : bytes)
  | BodyError | TooLarge.

#[global] Instance blob_error_eq_dec : EqDecision blob_error.
Proof. solve_decision. Defined.

Definition maxObject : Z := Z.shiftl 256 20.

Definition statusError (op : bytes) (p : s3_response) : blob_error :=
  let detail := TrimSpace (take 512 (p_Body p)) in
  if p_Status p =? 404 then
    if Contains_ detail (str "<Code>NoSuchBucket</Code>") then ErrNoBucket_ else ErrNotFound
  else StatusError op (p_Status p) (take 200 detail).

(** [None] when the transport failed. *)
Definition read_put (p : option s3_response) : option blob_error :=
  match p with
  | None => Some Transport
  | Some p => if p_Status p =? 200 then None else Some (statusError (str "put") p)
  end.

Definition read_get (p : option s3_response) : blob_error + bytes :=
  match p with
  | None => inl Transport
  | Some p =>
      if p_Status p =? 200 then
        let body := take (Z.to_nat (maxObject + 1)) (p_Body p) in
        if maxObject <? Z.of_nat (length body) then inl TooLarge
        else if p_cut p then inl BodyError
        else inr body
      else inl (statusError (str "get") p)
  end.

Definition read_delete (p : option s3_response) : option blob_error :=
  match p with
  | None => Some Transport
  | Some p =>
      if (p_Status p =? 204) || (p_Status p =? 200) then None
      else let e := statusError (str "delete") p in if decide (e = ErrNotFound) then None else Some e
  end.

Definition read_exists (p : option s3_response) : blob_error + bool :=
  match p with
  | None => inl Transport
  | Some p =>
      if p_Status p =? 200 then inr true
      else if p_Status p =? 404 then inr false
      else inl (statusError (str "head") p)
  end.

(** ** The operations, over a server *)

Definition path_of (key : bytes) : bytes := u_Path (objectURL key).

Section Operations.
Context {Srv : Type} (exchange : Srv -> s3_request -> option s3_response * Srv).

Definition do_ {A} (method key : bytes) (body : option bytes) (dress : s3_request -> s3_request) (empty : A)
    (read : option s3_response -> A) (now : Z) (s : Srv) : A * Srv :=
  match request method key body now with
  | None => (empty, s)
  | Some q => let '(p, s) := exchange s (dress q) in (read p, s)
  end.

Definition Put (key body : bytes) : Z -> Srv -> option blob_error * Srv :=
  do_ (str "PUT") key (Some body) (header_set (str "Content-Type") (str "application/octet-stream")) (Some EmptyKey) read_put.
Definition Get (key : bytes) : Z -> Srv -> (blob_error + bytes) * Srv :=
  do_ (str "GET") key None id (inl EmptyKey) read_get.
Definition Delete (key : bytes) : Z -> Srv -> option blob_error * Srv :=
  do_ (str "DELETE") key None id (Some EmptyKey) read_delete.
Definition Exists (key : bytes) : Z -> Srv -> (blob_error + bool) * Srv :=
  do_ (str "HEAD") key None id (inl EmptyKey) read_exists.
End Operations.
End Sign.

(** ** Escaping is exact *)

Definition octets (s : bytes) : Prop := Forall (fun c => 0 <= c < 256) s.

(** A byte, escaped, reads back. *)
Definition percent_reads (c : Z) : bool :=
  match percent c with
  | [p; h; l] =>
      (p =? 37) && match fromHex h, fromHex l with Some hi, Some lo => Z.lor (Z.shiftl hi 4) lo =? c | _, _ => false end
  | _ => false
  end.

Lemma percent_unescape c t : 0 <= c < 256 -> unescape (percent c ++ t) = c :: unescape t.
Proof.
  intros Hc. assert (percent_reads c = true) as H.
  { apply (all_bytes percent_reads); [by vm_compute|done]. }
  unfold percent_reads, percent in *. cbn [app]. cbn [unescape].
  change (37 =? 37) with true in *. cbn [andb] in H.
  destruct (fromHex _), (fromHex _); try done. apply Z.eqb_eq in H. by rewrite H.
Qed.

Lemma plain_unescape c t : c <> 37 -> unescape (c :: t) = c :: unescape t.
Proof.
  intros Hc. cbn [unescape]. rewrite (proj2 (Z.eqb_neq c 37)) by done. by destruct t as [|? [|? ?]].
Qed.

(** An encoder that escapes the percent sign is undone by [unescape]. *)
Lemma encoder_unescape (keep : Z -> bool) s :
  keep 37 = false -> octets s -> unescape (s ≫= fun c => if keep c then [c] else percent c) = s.
Proof.
  intros Hk. induction 1 as [|c s Hc Hs IH]; [done|]. cbn [mbind list_bind]. destruct (keep c) eqn:Ec.
  - cbn [app]. rewrite plain_unescape by congruence. by f_equal.
  - rewrite percent_unescape by done. by f_equal.
Qed.

Lemma uriEncode_unescape s : octets s -> unescape (uriEncode s) = s.
Proof. by apply encoder_unescape. Qed.

Lemma path_escape_unescape s : octets s -> unescape (path_escape s) = s.
Proof. by apply (encoder_unescape (fun c => unreserved c || in_set (str "$&+,/:;=@") c)). Qed.

(** Characters of escaped text. *)
Definition clean (c : Z) : bool := unreserved c || (c =? 37).

Lemma percent_clean c : 0 <= c < 256 -> forallb clean (percent c) = true.
Proof. intros Hc. apply (all_bytes (fun c => forallb clean (percent c))); [by vm_compute|done]. Qed.

Lemma uriEncode_clean s : octets s -> forallb clean (uriEncode s) = true.
Proof.
  induction 1 as [|c s Hc Hs IH]; [done|]. cbn [uriEncode mbind list_bind]. rewrite forallb_app. apply andb_true_iff. split; [|exact IH].
  destruct (unreserved c) eqn:E; [|by apply percent_clean]. cbn. unfold clean. by rewrite E.
Qed.

Lemma clean_not c s : clean c = false -> forallb clean s = true -> c ∉ s.
Proof. intros Hc Hs Hin. rewrite forallb_forall in Hs. apply list_elem_of_In, Hs in Hin. congruence. Qed.

(** ** Segments *)

Lemma split_on_nonempty sep s : split_on sep s <> [].
Proof. destruct s as [|c s]; cbn; [done|]. case_if; [done|]. by destruct (split_on sep s). Qed.

(** Escaping keeps the slashes where they are. *)
Lemma split_path_escape s : octets s -> split_on 47 (path_escape s) = map path_escape (split_on 47 s).
Proof.
  induction 1 as [|c s Hc Hs IH]; [done|].
  change (path_escape (c :: s)) with ((if unreserved c || in_set (str "$&+,/:;=@") c then [c] else percent c) ++ path_escape s).
  cbn [split_on]. destruct (c =? 47) eqn:E.
  - apply Z.eqb_eq in E. subst c. change (_ ++ path_escape s) with (47 :: path_escape s). cbn [split_on].
    change (47 =? 47) with true. cbn iota. by rewrite IH.
  - assert (forall p, 47 ∉ p -> split_on 47 (p ++ path_escape s)
      = match map path_escape (split_on 47 s) with q :: qs => (p ++ q) :: qs | [] => [p] end) as Hp.
    { induction p as [|x p IHp]; intros Hn; cbn [app].
      - rewrite IH. destruct (split_on 47 s) eqn:Es; [by apply split_on_nonempty in Es|done].
      - apply not_elem_of_cons in Hn as [Hx Hn]. cbn [split_on]. rewrite (proj2 (Z.eqb_neq x 47)) by congruence.
        rewrite IHp by done. by destruct (map path_escape (split_on 47 s)). }
    rewrite Hp.
    + destruct (split_on 47 s) eqn:Es; [by apply split_on_nonempty in Es|]. done.
    + destruct (_ || _) eqn:Ek; [by intros <-%list_elem_of_singleton|].
      apply clean_not; [done|by apply percent_clean].
Qed.

Lemma split_octets s : octets s -> Forall octets (split_on 47 s).
Proof.
  induction 1 as [|c s Hc Hs IH]; cbn; [by repeat constructor|]. case_if; [by constructor; [constructor|]|].
  destruct (split_on 47 s) as [|p ps]; [constructor; [by constructor|done]|]. apply Forall_cons in IH as [Hp Hps]. constructor; [by constructor|done].
Qed.

(** The canonical URI is the key's own, every segment encoded once. *)
Lemma canonicalURI_path s : octets s -> s <> [] ->
  canonicalURI (path_escape s) = Join [47] (map uriEncode (split_on 47 s)).
Proof.
  intros Hs Hne. unfold canonicalURI. rewrite decide_False.
  - rewrite split_path_escape by done. rewrite map_map. f_equal. apply map_ext_in. intros seg Hin.
    apply list_elem_of_In in Hin. rewrite path_escape_unescape; [done|].
    by eapply Forall_forall in Hin; [|apply split_octets].
  - destruct s as [|c s]; [done|]. cbn. by destruct (_ || _).
Qed.

(** ** What the signature covers *)

(** Joining lines without line breaks loses nothing. *)
Lemma app_sep_inj (sep : Z) a b s t : sep ∉ a -> sep ∉ b -> a ++ sep :: s = b ++ sep :: t -> a = b /\ s = t.
Proof.
  revert b. induction a as [|x a IH]; intros [|y b] Ha Hb H; cbn in H; injection H.
  - by intros ->.
  - intros _ ->. by apply not_elem_of_cons in Hb as [? _].
  - intros _ <-. by apply not_elem_of_cons in Ha as [? _].
  - intros H' <-. apply not_elem_of_cons in Ha as [_ Ha]. apply not_elem_of_cons in Hb as [_ Hb].
    by destruct (IH b Ha Hb H') as [-> ->].
Qed.

Lemma Join_cons sep s t l : Join sep (s :: t :: l) = s ++ sep ++ Join sep (t :: l).
Proof. done. Qed.

Lemma Join_not c sep l : c ∉ sep -> Forall (fun s => c ∉ s) l -> c ∉ Join sep l.
Proof.
  intros Hc. induction 1 as [|s l Hs Hl IH]; [apply not_elem_of_nil|]. destruct l as [|t l]; [done|].
  rewrite Join_cons, !not_elem_of_app. done.
Qed.

Lemma Join_inj sep l : forall m, Forall (fun s => sep ∉ s) l -> Forall (fun s => sep ∉ s) m ->
  l <> [] -> m <> [] -> Join [sep] l = Join [sep] m -> l = m.
Proof.
  induction l as [|a l IH]; intros [|b m] Hl Hm Hn1 Hn2 H; try done.
  apply Forall_cons in Hl as [Ha Hl]. apply Forall_cons in Hm as [Hb Hm].
  destruct l as [|a2 l], m as [|b2 m].
  - by cbn in H; subst.
  - rewrite Join_cons in H. cbn [Join app] in H. subst a. exfalso. apply Ha. apply elem_of_app. right. by left.
  - rewrite Join_cons in H. cbn [Join app] in H. subst b. exfalso. apply Hb. apply elem_of_app. right. by left.
  - rewrite !Join_cons in H. cbn [app] in H. apply app_sep_inj in H as [-> H]; [|done..].
    f_equal. by apply IH.
Qed.

Lemma split_on_Join sep s : Join [sep] (split_on sep s) = s.
Proof.
  induction s as [|c s IH]; [done|]. cbn [split_on]. pose proof (split_on_nonempty sep s) as Hn. case_if.
  - subst c. destruct (split_on sep s) as [|p ps] eqn:Es; [done|]. rewrite Join_cons, IH. done.
  - destruct (split_on sep s) as [|p [|q ps]]; [done|by rewrite <- IH|]. rewrite Join_cons in *. rewrite <- IH. done.
Qed.

Lemma uriEncode_inj a b : octets a -> octets b -> uriEncode a = uriEncode b -> a = b.
Proof. intros Ha Hb E. rewrite <- (uriEncode_unescape a), <- (uriEncode_unescape b) by done. by rewrite E. Qed.

Lemma canonicalURI_inj a b : octets a -> octets b -> a <> [] -> b <> [] ->
  canonicalURI (path_escape a) = canonicalURI (path_escape b) -> a = b.
Proof.
  intros Ha Hb Hna Hnb. rewrite !canonicalURI_path by done. intros E.
  assert (forall s, octets s -> Forall (fun seg => 47 ∉ seg) (map uriEncode (split_on 47 s))) as Hno.
  { intros s Hs. apply Forall_map. eapply Forall_impl; [by apply split_octets|]. intros seg Hseg.
    apply clean_not; [done|by apply uriEncode_clean]. }
  apply Join_inj in E; [|by apply Hno|by apply Hno|intros H%map_eq_nil; by apply split_on_nonempty in H..].
  assert (split_on 47 a = split_on 47 b) as Es.
  { pose proof (split_octets a Ha) as Fa. pose proof (split_octets b Hb) as Fb. revert Fa Fb E.
    generalize (split_on 47 a) (split_on 47 b). induction l as [|x l IH]; intros [|y m] Fa Fb E; try done.
    cbn in E. injection E as E1 E2. apply Forall_cons in Fa as [? ?]. apply Forall_cons in Fb as [? ?].
    f_equal; [by apply uriEncode_inj|by apply IH]. }
  rewrite <- (split_on_Join 47 a), <- (split_on_Join 47 b). by rewrite Es.
Qed.

(** A path and a query never contain a line break once encoded. *)
Lemma canonicalURI_no_break s : octets s -> s <> [] -> 10 ∉ canonicalURI (path_escape s).
Proof.
  intros Hs Hn. rewrite canonicalURI_path by done. apply Join_not; [by rewrite list_elem_of_singleton|].
  apply Forall_map. eapply Forall_impl; [by apply split_octets|]. intros seg Hseg. apply clean_not; [done|by apply uriEncode_clean].
Qed.

(** The last line. *)
Lemma last_line_inj (sep : Z) a b s t : sep ∉ a -> sep ∉ b -> s ++ sep :: a = t ++ sep :: b -> s = t /\ a = b.
Proof.
  intros Ha Hb H. apply (f_equal (@rev Z)) in H. rewrite !rev_app_distr in H. cbn in H. rewrite <- !app_assoc in H.
  apply app_sep_inj in H as [H1 H2]; [|by rewrite list_elem_of_In, <- in_rev, <- list_elem_of_In..].
  split; [by rewrite <- (rev_involutive s), H2, rev_involutive|by rewrite <- (rev_involutive a), H1, rev_involutive].
Qed.

Lemma str_no_break c : forallb (fun x => negb (x =? 10)) c = true -> 10 ∉ c.
Proof.
  intros H Hin. rewrite forallb_forall in H. apply list_elem_of_In, H in Hin. by apply negb_true_iff, Z.eqb_neq in Hin.
Qed.

Lemma hex_no_break b : Forall (fun x => 0 <= x < 256) b -> 10 ∉ hex_encode b.
Proof. intros Hb Hin. apply (Signature.hex_encode_chars (fun _ b => b) b 10 Hb) in Hin. lia. Qed.

Section Covers.
Context (hmac : bytes -> bytes -> bytes) (sha256 : bytes -> bytes) (isoFormat dateFormat : Z -> bytes).
Hypothesis sha256_bytes : forall b, Forall (fun x => 0 <= x < 256) (sha256 b).
Context (cfg : blob_Config) (base : s3_url).

Lemma objectURL_inj a b : path_of cfg base a = path_of cfg base b -> a = b.
Proof.
  unfold path_of, objectURL. cbn [u_Path]. destruct (_ || _); intros H.
  - do 2 (apply app_inv_head in H). by do 2 (apply app_inv_head in H).
  - by do 2 (apply app_inv_head in H).
Qed.

Lemma path_of_nonempty a : path_of cfg base a <> [].
Proof. unfold path_of, objectURL. cbn [u_Path]. by destruct (_ || _). Qed.

(** The lines of the canonical request that matter here. *)
Lemma canonical_form method key body now q :
  request hmac sha256 isoFormat dateFormat cfg base method key body now = Some q ->
  exists mid, canonical_request q (hexSHA256 sha256 (default [] body))
    = method ++ 10 :: canonicalURI (path_escape (path_of cfg base key)) ++ 10 :: mid ++ 10 :: hexSHA256 sha256 (default [] body).
Proof.
  unfold request. case_decide; [done|]. intros Hq.
  assert (q_Method q = method /\ u_Path (q_URL q) = path_of cfg base key) as [E1 E2].
  { injection Hq as <-. unfold sign, dated. by case_decide. }
  unfold canonical_request. rewrite E1, E2. destruct (canonicalizeHeaders q) as [ch sh].
  exists (canonicalQuery q ++ 10 :: ch ++ 10 :: sh). cbn [Join app]. by rewrite <- !app_assoc, <- !app_comm_cons, <- !app_assoc.
Qed.

(** C30. A signature covers what it is for.  If the requests the client makes for two
    operations have the same canonical form, the text whose digest is signed, then they
    have the same method, the same key and bodies with the same SHA-256: a signature
    taken from one object's request authorizes nothing for another. *)
Theorem signature_covers method1 method2 key1 key2 body1 body2 now1 now2 q1 q2 :
  10 ∉ method1 -> 10 ∉ method2 -> octets (path_of cfg base key1) -> octets (path_of cfg base key2) ->
  request hmac sha256 isoFormat dateFormat cfg base method1 key1 body1 now1 = Some q1 ->
  request hmac sha256 isoFormat dateFormat cfg base method2 key2 body2 now2 = Some q2 ->
  canonical_request q1 (hexSHA256 sha256 (default [] body1)) = canonical_request q2 (hexSHA256 sha256 (default [] body2)) ->
  method1 = method2 /\ key1 = key2 /\ hexSHA256 sha256 (default [] body1) = hexSHA256 sha256 (default [] body2).
Proof.
  intros Hm1 Hm2 Ho1 Ho2 (mid1 & ->)%canonical_form (mid2 & ->)%canonical_form E.
  apply app_sep_inj in E as [-> E]; [|done..].
  apply app_sep_inj in E as [E1 E2]; [|by apply canonicalURI_no_break; [|apply path_of_nonempty]..].
  apply canonicalURI_inj in E1; [|done|done|apply path_of_nonempty..]. apply objectURL_inj in E1 as ->.
  apply last_line_inj in E2 as [_ E2]; [done|by apply hex_no_break..].
Qed.
End Covers.

(** ** The client and the bucket *)

(** What an S3 server's answers say of the objects it keeps, by decoded path.  A request
    that fails may have been carried out or not. *)
Class S3Server (Srv : Type) := {
  exchange : Srv -> s3_request -> option s3_response * Srv;
  kept : Srv -> gmap bytes bytes;
  s3_put s q b p s' : q_Method q = str "PUT" -> q_Body q = Some b -> exchange s q = (p, s') ->
    kept s' = <[u_Path (q_URL q) := b]> (kept s)
    \/ kept s' = kept s /\ (forall r, p = Some r -> p_Status r <> 200);
  s3_get s q p s' : q_Method q = str "GET" -> exchange s q = (p, s') ->
    kept s' = kept s
    /\ forall r, p = Some r ->
         (p_Status r = 200 -> p_cut r = false -> kept s !! u_Path (q_URL q) = Some (p_Body r))
         /\ (p_Status r = 404 -> kept s !! u_Path (q_URL q) = None);
  s3_delete s q p s' : q_Method q = str "DELETE" -> exchange s q = (p, s') ->
    kept s' = delete (u_Path (q_URL q)) (kept s)
    \/ kept s' = kept s /\ (forall r, p = Some r -> p_Status r <> 200 /\ p_Status r <> 204 /\ p_Status r <> 404);
  s3_head s q p s' : q_Method q = str "HEAD" -> exchange s q = (p, s') ->
    kept s' = kept s
    /\ forall r, p = Some r ->
         (p_Status r = 200 -> is_Some (kept s !! u_Path (q_URL q))) /\ (p_Status r = 404 -> kept s !! u_Path (q_URL q) = None);
}.

Section Bucket.
Context {Srv : Type} `{!S3Server Srv}.
Context (hmac : bytes -> bytes -> bytes) (sha256 : bytes -> bytes) (isoFormat dateFormat : Z -> bytes).
Context (cfg : blob_Config) (base : s3_url).

(** The bucket as the store sees it, by key. *)
Definition object_at (s : Srv) (key : bytes) : option bytes := kept s !! path_of cfg base key.

#[local] Notation op f := (f hmac sha256 isoFormat dateFormat cfg base Srv exchange).

Lemma object_at_insert s s' key b : kept s' = <[path_of cfg base key := b]> (kept s) ->
  object_at s' key = Some b /\ forall k, k <> key -> object_at s' k = object_at s k.
Proof.
  unfold object_at. intros ->. split; [by rewrite lookup_insert_eq|]. intros k Hk. apply lookup_insert_ne.
  by intros ?%objectURL_inj.
Qed.

Lemma object_at_delete s s' key : kept s' = delete (path_of cfg base key) (kept s) ->
  object_at s' key = None /\ forall k, k <> key -> object_at s' k = object_at s k.
Proof.
  unfold object_at. intros ->. split; [by rewrite lookup_delete_eq|]. intros k Hk. apply lookup_delete_ne.
  by intros ?%objectURL_inj.
Qed.

(** A request names its method, its object and its body. *)
Lemma request_fields method key body now q :
  request hmac sha256 isoFormat dateFormat cfg base method key body now = Some q ->
  key <> [] /\ q_Method q = method /\ u_Path (q_URL q) = path_of cfg base key /\ q_Body q = body.
Proof. unfold request. case_decide; [done|]. intros [= <-]. unfold sign, dated. by case_decide. Qed.

Lemma statusError_not_found op_ r : statusError op_ r = ErrNotFound -> p_Status r = 404.
Proof. unfold statusError. case_if; [done|]. done. Qed.

Lemma request_some method key body now : key <> [] ->
  exists q, request hmac sha256 isoFormat dateFormat cfg base method key body now = Some q
    /\ q_Method q = method /\ u_Path (q_URL q) = path_of cfg base key /\ q_Body q = body.
Proof.
  intros Hk. destruct (request hmac sha256 isoFormat dateFormat cfg base method key body now) as [q|] eqn:E.
  - exists q. split; [done|]. by apply request_fields in E as (_ & ?).
  - unfold request in E. by rewrite decide_False in E.
Qed.

Lemma Put_spec key b now s : key <> [] ->
  let '(e, s') := op (@Put) key b now s in
  (object_at s' key = Some b \/ e <> None /\ object_at s' key = object_at s key)
  /\ forall k, k <> key -> object_at s' k = object_at s k.
Proof.
  intros Hk. destruct (request_some (str "PUT") key (Some b) now Hk) as (q & Eq & Em & Eu & Eb).
  unfold Put, do_. rewrite Eq. destruct (exchange s _) as [p s'] eqn:Ex.
  destruct (s3_put s (header_set (str "Content-Type") (str "application/octet-stream") q) b p s' Em Eb Ex) as [H|[H Hp]].
  - cbn [q_URL header_set] in H. rewrite Eu in H. destruct (object_at_insert _ _ _ _ H). auto.
  - split; [|intros k _; unfold object_at; by rewrite H]. right. split; [|unfold object_at; by rewrite H].
    destruct p as [r|]; cbn; [|done]. by rewrite (proj2 (Z.eqb_neq _ _) (Hp r eq_refl)).
Qed.

Lemma take_all (l : bytes) n : 0 <= n -> Z.of_nat (length (take (Z.to_nat (n + 1)) l)) <= n -> take (Z.to_nat (n + 1)) l = l.
Proof. intros Hn H. rewrite length_take in H. apply take_ge. lia. Qed.

Lemma maxObject_pos : 0 <= maxObject.
Proof. done. Qed.

Lemma Get_spec key now s : key <> [] ->
  let '(out, s') := op (@Get) key now s in
  (forall k, object_at s' k = object_at s k)
  /\ (forall x, out = inr x -> object_at s key = Some x /\ Z.of_nat (length x) <= maxObject)
  /\ (out = inl ErrNotFound -> object_at s key = None).
Proof.
  intros Hk. destruct (request_some (str "GET") key None now Hk) as (q & Eq & Em & Eu & _).
  unfold Get, do_. rewrite Eq. destruct (exchange s _) as [p s'] eqn:Ex.
  destruct (s3_get s q p s' Em Ex) as [H Hp]. unfold id in *. rewrite Eu in Hp.
  split; [intros k; unfold object_at; by rewrite H|]. destruct p as [r|]; [|done]. destruct (Hp r eq_refl) as [P1 P2]. unfold read_get.
  destruct (p_Status r =? 200) eqn:Es.
  - apply Z.eqb_eq in Es. destruct (maxObject <? _) eqn:El; [done|]. apply Z.ltb_ge in El.
    rewrite take_all in El |- * by (done || apply maxObject_pos). destruct (p_cut r); [done|]. split; [|done]. intros x [= <-]. split; [by apply P1|done].
  - split; [done|]. intros [= E%statusError_not_found]. by apply P2.
Qed.

Lemma Delete_spec key now s : key <> [] ->
  let '(e, s') := op (@Delete) key now s in
  (object_at s' key = None \/ e <> None /\ object_at s' key = object_at s key)
  /\ forall k, k <> key -> object_at s' k = object_at s k.
Proof.
  intros Hk. destruct (request_some (str "DELETE") key None now Hk) as (q & Eq & Em & Eu & _).
  unfold Delete, do_. rewrite Eq. destruct (exchange s _) as [p s'] eqn:Ex.
  destruct (s3_delete s q p s' Em Ex) as [H|[H Hp]].
  - unfold id in H. rewrite Eu in H. destruct (object_at_delete _ _ _ H). auto.
  - split; [|intros k _; unfold object_at; by rewrite H]. right. split; [|unfold object_at; by rewrite H].
    destruct p as [r|]; cbn [read_delete]; [|done]. destruct (Hp r eq_refl) as (P1 & P2 & P3).
    rewrite (proj2 (Z.eqb_neq _ _) P1), (proj2 (Z.eqb_neq _ _) P2). cbn [orb].
    case_decide as E; [by apply statusError_not_found in E|done].
Qed.

Lemma Exists_spec key now s : key <> [] ->
  let '(out, s') := op (@Exists) key now s in
  (forall k, object_at s' k = object_at s k)
  /\ forall x, out = inr x -> x = bool_decide (is_Some (object_at s key)).
Proof.
  intros Hk. destruct (request_some (str "HEAD") key None now Hk) as (q & Eq & Em & Eu & _).
  unfold Exists, do_. rewrite Eq. destruct (exchange s _) as [p s'] eqn:Ex.
  destruct (s3_head s q p s' Em Ex) as [H Hp]. unfold id in *. rewrite Eu in Hp.
  split; [intros k; unfold object_at; by rewrite H|]. destruct p as [r|]; [|done]. destruct (Hp r eq_refl) as [P1 P2].
  unfold read_exists. destruct (p_Status r =? 200) eqn:Es; [|destruct (p_Status r =? 404) eqn:E4]; intros x [= <-]; symmetry.
  - apply bool_decide_eq_true. by apply P1, Z.eqb_eq.
  - apply bool_decide_eq_false. apply Z.eqb_eq, P2 in E4. unfold object_at. rewrite E4. by intros [].
Qed.

(** C28. The client implements a map from keys to bytes, the bucket the store is written
    against, over any server that keeps to the S3 API.  A put that reports success has
    stored its bytes, one that fails has stored them or changed nothing; a get that
    succeeds returns the stored bytes whole, no more than 256 MiB of them, and one that
    reports a missing object is right; a delete that reports success has removed the
    object; no operation touches another key. *)
Theorem client_is_a_map key b now s :
  key <> [] ->
  (let '(e, s') := op (@Put) key b now s in
     (object_at s' key = Some b \/ e <> None /\ object_at s' key = object_at s key)
     /\ forall k, k <> key -> object_at s' k = object_at s k)
  /\ (let '(out, s') := op (@Get) key now s in
     (forall k, object_at s' k = object_at s k)
     /\ (forall x, out = inr x -> object_at s key = Some x /\ Z.of_nat (length x) <= maxObject)
     /\ (out = inl ErrNotFound -> object_at s key = None))
  /\ (let '(e, s') := op (@Delete) key now s in
     (object_at s' key = None \/ e <> None /\ object_at s' key = object_at s key)
     /\ forall k, k <> key -> object_at s' k = object_at s k)
  /\ (let '(out, s') := op (@Exists) key now s in
     (forall k, object_at s' k = object_at s k)
     /\ forall x, out = inr x -> x = bool_decide (is_Some (object_at s key))).
Proof. intros Hk. split_and!; [by apply Put_spec|by apply Get_spec|by apply Delete_spec|by apply Exists_spec]. Qed.
End Bucket.

(** ** A bucket *)

(** A server that keeps a finite map and never fails. *)
Definition map_exchange (m : gmap bytes bytes) (q : s3_request) : option s3_response * gmap bytes bytes :=
  let path := u_Path (q_URL q) in
  if decide (q_Method q = str "PUT") then (Some (MkS3Response 200 [] false), <[path := default [] (q_Body q)]> m)
  else if decide (q_Method q = str "DELETE") then (Some (MkS3Response 204 [] false), delete path m)
  else match m !! path with
       | Some b => (Some (MkS3Response 200 b false), m)
       | None => (Some (MkS3Response 404 [] false), m)
       end.

#[export] Instance map_server : S3Server (gmap bytes bytes).
Proof.
  refine {| exchange := map_exchange; kept := id |}; intros s q; unfold map_exchange, id.
  - intros b p s' -> ->. rewrite decide_True by done. intros [= <- <-]. by left.
  - intros p s' ->. rewrite !decide_False by done. destruct (s !! _) eqn:E; intros [= <- <-]; (split; [done|]); by intros r [= <-].
  - intros p s' ->. rewrite decide_False, decide_True by done. intros [= <- <-]. by left.
  - intros p s' ->. rewrite !decide_False by done. destruct (s !! _) eqn:E; intros [= <- <-]; (split; [done|]); by intros r [= <-].
Defined.

Definition toy_blob : blob_Config :=
  MkBlobConfig (str "bucket") (str "eu-1") [] (str "p/") false (MkCredentials (str "id") (str "secret") []).
Definition toy_base : s3_url := MkURL (str "https") (str "bucket.s3.eu-1.amazonaws.com") [] ∅.
Definition blob_hmac (k m : bytes) : bytes := take 32 (k ++ m).
Definition blob_sha (b : bytes) : bytes := map (fun c => c mod 256) (take 32 b).
Definition blob_time (now : Z) : bytes := str "20260101".

Lemma client_is_a_map_witness :
  object_at toy_blob toy_base
    (Put blob_hmac blob_sha blob_time blob_time toy_blob toy_base exchange (str "doc/1") [1; 2] 0 ∅).2 (str "doc/1") = Some [1; 2].
Proof.
  destruct (client_is_a_map blob_hmac blob_sha blob_time blob_time toy_blob toy_base (str "doc/1") [1; 2] 0 (∅ : gmap bytes bytes))
    as (H & _); [done|].
  destruct (Put _ _ _ _ _ _ _ _ _ _ _) as [e s'] eqn:E. destruct H as [[H|[He _]] _]; [exact H|].
  exfalso. apply He. vm_compute in E. by injection E as <- _.
Defined.

Lemma blob_sha_bytes b : Forall (fun x => 0 <= x < 256) (blob_sha b).
Proof. apply Forall_map, Forall_true. intros x. by apply Z.mod_pos_bound. Qed.

Lemma signature_covers_witness :
  exists q, request blob_hmac blob_sha blob_time blob_time toy_blob toy_base (str "GET") (str "a b") None 0 = Some q
    /\ (str "GET" = str "GET" /\ str "a b" = str "a b" /\ hexSHA256 blob_sha [] = hexSHA256 blob_sha []).
Proof.
  destruct (request blob_hmac blob_sha blob_time blob_time toy_blob toy_base (str "GET") (str "a b") None 0) as [q|] eqn:E; [|done].
  exists q. split; [reflexivity|].
  apply (signature_covers blob_hmac blob_sha blob_time blob_time blob_sha_bytes toy_blob toy_base (str "GET") (str "GET")
    (str "a b") (str "a b") None None 0 0 q q); try exact E; try reflexivity.
  1,2: apply str_no_break; reflexivity.
  all: repeat constructor; done.
Defined.
