(* ===== verification/Room.v ===== *)
(** * Rooms

    [internal/room]: one document, the connections editing it, and the goroutine that
    owns both.  Every handler is a function from room to room: [room.go] (join, leave,
    frame, syncStep1, update, awareness, tick, broadcast, drop, evict, stop),
    [fanout.go] (publish, remote envelopes, anti-entropy), [write.go] (merge),
    [read.go], [versions.go], [hooks.go], [memory.go] and the queueing half of
    [persist.go].

    The goroutine is sequential, so a run of the room is a sequence of commands and
    envelopes.  Channels the room only feeds are the list of what was handed over:
    [r_jobs] to the writer, [r_pub] to the publisher (bounded: publishing never
    blocks), [r_events] to the hook sink.  The clock is an argument.  Logging and
    metrics are not modelled.  What [crdt.Usage] weighs depends on Go's heap layout and
    is a parameter, as is the text of an error. *)

From stdpp Require Import strings.
From S2P Require Import Prelude Lib0 StateVector Doc Messages Cluster Conn Awareness.

(** ** State *)

(** A connection is known by its address. *)
Abbreviation connID := Z (only parsing).

Record Config := MkConfig {
  NodeID : Z;
  HasBus : bool;
  HasStore : bool;
  HasHooks : bool;
  HookState : bool;
  HasVersions : bool;
  VersionInterval : Z;
  IdleTimeout : Z;
  AwarenessTTL : Z;
  CompactAfter : Z;
  AntiEntropy : Z;
  UsageInterval : Z;
  AwarenessLimits : Limits;
  ServerClientID : Z;
}.

(** [type persistJob struct]: an update to append, a snapshot to compact with, or a
    version to record. *)
Inductive persistJob :=
  | JobUpdate (payload : bytes)
  | JobSnapshot (snapshot : bytes)
  | JobVersion (payload stateVector label : bytes) (minAge : Z).

Inductive HookKind := KindChange | KindStore.

Record HookEvent := MkEvent {
  ev_Kind : HookKind;
  ev_At : Z;
  ev_Clients : Z;
  ev_Updates : Z;
  ev_StateVector : option bytes;
  ev_State : option bytes;
}.

Record usage := MkUsage { u_bytes : Z; u_structs : Z; u_dirty : bool; u_measured : Z }.

Section Room.
Context {C : Type} `{!ConnOps C} `{!MapOrder}.
(** [Doc.Usage]: bytes and structs. *)
Context (Usage : Doc -> Z * Z).
(** [err.Error()]. *)
Context (errText : GoError -> bytes).

Record Room := MkRoom {
  r_cfg : Config;
  r_doc : Doc;
  r_aw : Awareness;
  (** [conns]: who is in the room, and the awareness ids each has published under. *)
  r_conns : gmap connID (gset Z);
  (** The connection objects themselves, which outlive their membership. *)
  r_objs : gmap connID C;
  r_usage : usage;
  (** [jobs != nil], and everything handed to the writer so far. *)
  r_jobsOpen : bool;
  r_jobs : list persistJob;
  r_sinceSnapshot : Z;
  r_changes : Z;
  r_storedRows : Z;
  r_events : list HookEvent;
  r_versionDirty : bool;
  r_lastVersion : Z;
  (** [pub != nil], and the envelopes waiting to go out. *)
  r_pubOpen : bool;
  r_pub : list Envelope;
  r_lastAnnounce : Z;
  r_lastEmpty : Z;
  r_stopped : bool;
}.

Definition with_doc (d : Doc) (r : Room) : Room :=
  MkRoom (r_cfg r) d (r_aw r) (r_conns r) (r_objs r) (r_usage r) (r_jobsOpen r) (r_jobs r)
    (r_sinceSnapshot r) (r_changes r) (r_storedRows r) (r_events r) (r_versionDirty r) (r_lastVersion r)
    (r_pubOpen r) (r_pub r) (r_lastAnnounce r) (r_lastEmpty r) (r_stopped r).
Definition with_aw (a : Awareness) (r : Room) : Room :=
  MkRoom (r_cfg r) (r_doc r) a (r_conns r) (r_objs r) (r_usage r) (r_jobsOpen r) (r_jobs r)
    (r_sinceSnapshot r) (r_changes r) (r_storedRows r) (r_events r) (r_versionDirty r) (r_lastVersion r)
    (r_pubOpen r) (r_pub r) (r_lastAnnounce r) (r_lastEmpty r) (r_stopped r).
Definition with_conns (m : gmap connID (gset Z)) (r : Room) : Room :=
  MkRoom (r_cfg r) (r_doc r) (r_aw r) m (r_objs r) (r_usage r) (r_jobsOpen r) (r_jobs r)
    (r_sinceSnapshot r) (r_changes r) (r_storedRows r) (r_events r) (r_versionDirty r) (r_lastVersion r)
    (r_pubOpen r) (r_pub r) (r_lastAnnounce r) (r_lastEmpty r) (r_stopped r).
Definition with_objs (m : gmap connID C) (r : Room) : Room :=
  MkRoom (r_cfg r) (r_doc r) (r_aw r) (r_conns r) m (r_usage r) (r_jobsOpen r) (r_jobs r)
    (r_sinceSnapshot r) (r_changes r) (r_storedRows r) (r_events r) (r_versionDirty r) (r_lastVersion r)
    (r_pubOpen r) (r_pub r) (r_lastAnnounce r) (r_lastEmpty r) (r_stopped r).
Definition with_usage (u : usage) (r : Room) : Room :=
  MkRoom (r_cfg r) (r_doc r) (r_aw r) (r_conns r) (r_objs r) u (r_jobsOpen r) (r_jobs r)
    (r_sinceSnapshot r) (r_changes r) (r_storedRows r) (r_events r) (r_versionDirty r) (r_lastVersion r)
    (r_pubOpen r) (r_pub r) (r_lastAnnounce r) (r_lastEmpty r) (r_stopped r).
Definition with_jobs (open : bool) (js : list persistJob) (since : Z) (r : Room) : Room :=
  MkRoom (r_cfg r) (r_doc r) (r_aw r) (r_conns r) (r_objs r) (r_usage r) open js
    since (r_changes r) (r_storedRows r) (r_events r) (r_versionDirty r) (r_lastVersion r)
    (r_pubOpen r) (r_pub r) (r_lastAnnounce r) (r_lastEmpty r) (r_stopped r).
Definition with_hooks (changes rows : Z) (evs : list HookEvent) (r : Room) : Room :=
  MkRoom (r_cfg r) (r_doc r) (r_aw r) (r_conns r) (r_objs r) (r_usage r) (r_jobsOpen r) (r_jobs r)
    (r_sinceSnapshot r) changes rows evs (r_versionDirty r) (r_lastVersion r)
    (r_pubOpen r) (r_pub r) (r_lastAnnounce r) (r_lastEmpty r) (r_stopped r).
Definition with_version (dirty : bool) (last : Z) (r : Room) : Room :=
  MkRoom (r_cfg r) (r_doc r) (r_aw r) (r_conns r) (r_objs r) (r_usage r) (r_jobsOpen r) (r_jobs r)
    (r_sinceSnapshot r) (r_changes r) (r_storedRows r) (r_events r) dirty last
    (r_pubOpen r) (r_pub r) (r_lastAnnounce r) (r_lastEmpty r) (r_stopped r).
Definition with_pub (open : bool) (p : list Envelope) (r : Room) : Room :=
  MkRoom (r_cfg r) (r_doc r) (r_aw r) (r_conns r) (r_objs r) (r_usage r) (r_jobsOpen r) (r_jobs r)
    (r_sinceSnapshot r) (r_changes r) (r_storedRows r) (r_events r) (r_versionDirty r) (r_lastVersion r)
    open p (r_lastAnnounce r) (r_lastEmpty r) (r_stopped r).
Definition with_times (announce empty : Z) (r : Room) : Room :=
  MkRoom (r_cfg r) (r_doc r) (r_aw r) (r_conns r) (r_objs r) (r_usage r) (r_jobsOpen r) (r_jobs r)
    (r_sinceSnapshot r) (r_changes r) (r_storedRows r) (r_events r) (r_versionDirty r) (r_lastVersion r)
    (r_pubOpen r) (r_pub r) announce empty (r_stopped r).
Definition with_stopped (b : bool) (r : Room) : Room :=
  MkRoom (r_cfg r) (r_doc r) (r_aw r) (r_conns r) (r_objs r) (r_usage r) (r_jobsOpen r) (r_jobs r)
    (r_sinceSnapshot r) (r_changes r) (r_storedRows r) (r_events r) (r_versionDirty r) (r_lastVersion r)
    (r_pubOpen r) (r_pub r) (r_lastAnnounce r) (r_lastEmpty r) b.

(** [New], on a configuration whose defaults are set. *)
Definition NewRoom (cfg : Config) (objs : gmap connID C) (now : Z) : Room :=
  MkRoom cfg (NewDoc (ServerClientID cfg)) (NewAwarenessWithLimits (AwarenessLimits cfg)) ∅ objs
    (MkUsage 0 0 false zeroTime) (HasStore cfg) [] 0 0 0 [] false zeroTime
    (HasBus cfg) [] zeroTime now false.

(** [r.versions != nil]: history is written through the persist goroutine. *)
Definition versions (r : Room) : bool := HasVersions (r_cfg r) && HasStore (r_cfg r).

(** ** Persisting, publishing, hooks *)

Definition requestCompaction (r : Room) : Room :=
  if negb (r_jobsOpen r) then r
  else match EncodeStateAsUpdate ∅ (r_doc r) with
       | Err _ => r
       | Ok snapshot => with_jobs true (r_jobs r ++ [JobSnapshot snapshot]) 0 r
       end.

Definition record (update : bytes) (r : Room) : Room :=
  if negb (r_jobsOpen r) then r
  else
    let r := with_jobs true (r_jobs r ++ [JobUpdate update]) (r_sinceSnapshot r + 1) r in
    if CompactAfter (r_cfg r) <=? r_sinceSnapshot r then requestCompaction r else r.

Definition publishQueue : Z := 1024.

Definition publish (kind : Kind) (payload : bytes) (r : Room) : Room :=
  if negb (r_pubOpen r) then r
  else if Z.of_nat (length (r_pub r)) <? publishQueue
       then with_pub true (r_pub r ++ [MkEnvelope (NodeID (r_cfg r)) kind payload]) r
       else r.

Definition changed (r : Room) : Room :=
  if HasHooks (r_cfg r) then with_hooks (u64 (r_changes r + 1)) (r_storedRows r) (r_events r) r else r.

Definition ok_or_nil {A} (x : res A) : option A := match x with Ok a => Some a | Err _ => None end.

Definition event (kind : HookKind) (now updates : Z) (r : Room) : HookEvent :=
  MkEvent kind now (Z.of_nat (size (r_conns r))) updates
    (ok_or_nil (Doc_EncodeStateVector (r_doc r)))
    (if HookState (r_cfg r) then ok_or_nil (EncodeStateAsUpdate ∅ (r_doc r)) else None).

Definition emitHooks (now : Z) (r : Room) : Room :=
  if negb (HasHooks (r_cfg r)) then r
  else
    let r := if 0 <? r_changes r
             then with_hooks 0 (r_storedRows r) (r_events r ++ [event KindChange now (r_changes r) r]) r
             else r in
    if 0 <? r_storedRows r
    then with_hooks (r_changes r) 0 (r_events r ++ [event KindStore now (r_storedRows r) r]) r
    else r.

Definition touchDocument (r : Room) : Room :=
  let u := r_usage r in with_usage (MkUsage (u_bytes u) (u_structs u) true (u_measured u)) r.

Definition DefaultUsageInterval : Z := 15 * Second.
Definition usageInterval (r : Room) : Z :=
  if 0 <? UsageInterval (r_cfg r) then UsageInterval (r_cfg r) else DefaultUsageInterval.

Definition IsZero (t : Z) : bool := t =? zeroTime.

Definition measure (now : Z) (r : Room) : Room :=
  let u := r_usage r in
  if negb (u_dirty u) && negb (IsZero (u_measured u)) then r
  else if (0 <? u_bytes u) && (Time_Sub now (u_measured u) <? usageInterval r) then r
  else let '(b, s) := Usage (r_doc r) in with_usage (MkUsage b s false now) r.

Definition queueVersion (label : bytes) (minAge : Z) (r : Room) : Room :=
  match EncodeStateAsUpdate ∅ (r_doc r) with
  | Err _ => r
  | Ok payload =>
      match Doc_EncodeStateVector (r_doc r) with
      | Err _ => r
      | Ok sv =>
          if negb (r_jobsOpen r) then r
          else with_jobs true (r_jobs r ++ [JobVersion payload sv label minAge]) (r_sinceSnapshot r) r
      end
  end.

Definition versionTick (now : Z) (r : Room) : Room :=
  if negb (versions r) || (VersionInterval (r_cfg r) <=? 0) then r
  else if negb (r_versionDirty r) then r
  else if negb (IsZero (r_lastVersion r)) && (Time_Sub now (r_lastVersion r) <? VersionInterval (r_cfg r)) then r
  else queueVersion [] (VersionInterval (r_cfg r)) (with_version false now r).

(** ** Sending *)

(** [conn.Send] on the object at [c]. *)
Definition send_to (frame : bytes) (c : connID) (r : Room) : bool * Room :=
  match r_objs r !! c with
  | Some o => let '(b, o) := Send frame o in (b, with_objs (<[c := o]> (r_objs r)) r)
  | None => (true, r)
  end.

Definition close_conn (code : Z) (reason : bytes) (c : connID) (r : Room) : Room :=
  with_objs (alter (Close code reason) c (r_objs r)) r.

(** One iteration of the sending loop of [broadcast]: [slow] are the connections that
    could not take the frame. *)
Definition send_step (frame : bytes) (except : option connID) (x : list connID * Room) (c : connID)
    : list connID * Room :=
  let '(slow, r) := x in
  if decide (except = Some c) then (slow, r)
  else let '(b, r) := send_to frame c r in (if b then slow else slow ++ [c], r).

Definition send_round (frame : bytes) (except : option connID) (ids : list connID) (r : Room)
    : list connID * Room :=
  foldl (send_step frame except) ([], r) ids.

(** [dropSlow], given what [leave] does. *)
Definition drop_slow (leave : connID -> Room -> Room) (r : Room) (c : connID) : Room :=
  close_conn ClosePolicyViolation (str "outbound buffer full") c (leave c r).

(** [broadcast], given what [leave] does. *)
Definition broadcast_by (leave : connID -> Room -> Room) (frame : bytes) (except : option connID) (r : Room)
    : Room :=
  let '(slow, r) := send_round frame except (iter (r_conns r)).*1 r in
  foldl (drop_slow leave) r slow.

(** [leave] broadcasts a retraction, and dropping a connection that cannot take it is
    a [leave] again: the recursion ends because each one removes a connection, so the
    number of connections is enough fuel ([leave_fuel]). *)
Fixpoint leave_loop (fuel : nat) (now : Z) (c : connID) (r : Room) : Room :=
  match fuel with
  | O => r
  | S fuel =>
      match r_conns r !! c with
      | None => r
      | Some ids =>
          let r := with_conns (delete c (r_conns r)) r in
          let r := if decide (r_conns r = ∅) then with_times (r_lastAnnounce r) now r else r in
          if decide (ids = ∅) then r
          else
            let '(out, a) := RemoveClients (iter (gset_to_gmap () ids)).*1 now (r_aw r) in
            let r := with_aw a r in
            match out with
            | Err _ => r
            | Ok (_, []) => r
            | Ok (_, payload) =>
                let r := broadcast_by (leave_loop fuel now) (WriteAwareness payload) None r in
                publish KindAwareness payload r
            end
      end
  end.

Definition leave (now : Z) (c : connID) (r : Room) : Room :=
  leave_loop (S (size (r_conns r))) now c r.

Definition drop (now : Z) (code : Z) (reason : bytes) (c : connID) (r : Room) : Room :=
  close_conn code reason c (leave now c r).

Definition dropSlow (now : Z) (c : connID) (r : Room) : Room :=
  drop now ClosePolicyViolation (str "outbound buffer full") c r.

Definition broadcast (now : Z) (frame : bytes) (except : option connID) (r : Room) : Room :=
  broadcast_by (leave now) frame except r.

Definition deliver (now : Z) (frame : bytes) (c : connID) (r : Room) : bool * Room :=
  let '(b, r) := send_to frame c r in
  if b then (true, r) else (false, dropSlow now c r).

(** ** Handlers *)

Definition join (c : connID) (r : Room) : Room :=
  match r_conns r !! c with
  | Some _ => r
  | None => with_times (r_lastAnnounce r) zeroTime (with_conns (<[c := ∅]> (r_conns r)) r)
  end.

Definition sendAll (now : Z) (c : connID) (r : Room) : Room :=
  match EncodeAll (r_aw r) with
  | Err _ => r
  | Ok payload => (deliver now (WriteAwareness payload) c r).2
  end.

Definition syncStep1 (now : Z) (c : connID) (sv : bytes) (r : Room) : Room :=
  match EncodeDiff sv (r_doc r) with
  | Err _ => drop now CloseProtocolError (str "bad state vector") c r
  | Ok diff =>
      let '(b, r) := deliver now (WriteSyncStep2 diff) c r in
      if negb b then r
      else match Doc_EncodeStateVector (r_doc r) with
           | Err _ => r
           | Ok ours =>
               let '(b, r) := deliver now (WriteSyncStep1 ours) c r in
               if negb b then r
               else if 0 <? Awareness.Len (r_aw r) then sendAll now c r else r
           end
  end.

Definition emptyUpdate : bytes := [0; 0].
Definition isEmptyUpdate (u : bytes) : bool :=
  (Z.of_nat (length u) =? 0) || bool_decide (u = emptyUpdate).

Definition can_write (c : connID) (r : Room) : bool :=
  match r_objs r !! c with Some o => CanWrite o | None => false end.

Definition update (now : Z) (c : connID) (u : bytes) (r : Room) : Room :=
  if negb (can_write c r) then
    if isEmptyUpdate u then r
    else
      let '(_, r) := send_to
        (WritePermissionDenied (str "read-only: this token does not grant write access")) c r in
      drop now ClosePolicyViolation (str "read-only") c r
  else
    let r := touchDocument r in
    match Doc.ApplyUpdate u (r_doc r) with
    | Err _ => drop now CloseProtocolError (str "bad update") c r
    | Ok d =>
        let r := with_doc d r in
        let r := record u r in
        let r := with_version true (r_lastVersion r) r in
        let r := changed r in
        let r := broadcast now (WriteUpdate u) (Some c) r in
        publish KindUpdate u r
    end.

Definition awareness (now : Z) (c : connID) (payload : bytes) (r : Room) : Room :=
  let '(ids, err, a) := Awareness.ApplyUpdate payload now (r_aw r) in
  let r := with_aw a r in
  match err with
  | Some e =>
      if bool_decide (e = ErrStateTooLarge) || bool_decide (e = ErrTooManyClients) then
        let '(_, r) := send_to (WritePermissionDenied (errText e)) c r in
        drop now ClosePolicyViolation (str "awareness limit") c r
      else drop now CloseProtocolError (str "bad awareness update") c r
  | None =>
      match ids with
      | [] => r
      | _ =>
          let r := with_conns (alter (fun s => list_to_set ids ∪ s) c (r_conns r)) r in
          match Awareness.Encode (r_aw r) ids with
          | Err _ => r
          | Ok out =>
              let r := broadcast now (WriteAwareness out) (Some c) r in
              publish KindAwareness out r
          end
      end
  end.

Definition frame (now : Z) (c : connID) (f : bytes) (r : Room) : Room :=
  match r_conns r !! c with
  | None => r
  | Some _ =>
      match Decode f with
      | Err _ => drop now CloseProtocolError (str "undecodable message") c r
      | Ok (SyncStep1Message sv) => syncStep1 now c sv r
      | Ok (SyncStep2Message u) => update now c u r
      | Ok (UpdateMessage u) => update now c u r
      | Ok (AwarenessMessage p) => awareness now c p r
      | Ok QueryAwarenessMessage => sendAll now c r
      | Ok (PermissionDeniedMessage _) => r
      end
  end.

(** ** Remote envelopes *)

Definition remoteUpdate (now : Z) (u : bytes) (r : Room) : Room :=
  let r := touchDocument r in
  match Doc.ApplyUpdate u (r_doc r) with
  | Err _ => r
  | Ok d =>
      let r := with_version true (r_lastVersion r) (with_doc d r) in
      broadcast now (WriteUpdate u) None r
  end.

Definition remoteAwareness (now : Z) (payload : bytes) (r : Room) : Room :=
  let '(ids, err, a) := Awareness.ApplyUpdate payload now (r_aw r) in
  let r := with_aw a r in
  match err, ids with
  | Some _, _ => r
  | None, [] => r
  | None, _ =>
      match Awareness.Encode (r_aw r) ids with
      | Err _ => r
      | Ok out => broadcast now (WriteAwareness out) None r
      end
  end.

Definition answerStateVector (sv : bytes) (r : Room) : Room :=
  match EncodeDiff sv (r_doc r) with
  | Err _ => r
  | Ok diff => if isEmptyUpdate diff then r else publish KindUpdate diff r
  end.

Definition remoteEnvelope (now : Z) (env : Envelope) (r : Room) : Room :=
  match env_Kind env with
  | KindUpdate => remoteUpdate now (env_Payload env) r
  | KindAwareness => remoteAwareness now (env_Payload env) r
  | KindStateVector => answerStateVector (env_Payload env) r
  end.

(** The bus callback of [joinBus]: a node's own envelopes are dropped at the door. *)
Definition accepts (env : Envelope) (r : Room) : bool := negb (env_Origin env =? NodeID (r_cfg r)).

Definition announce (now : Z) (r : Room) : Room :=
  if negb (r_pubOpen r) || bool_decide (r_conns r = ∅) then r
  else if Time_Sub now (r_lastAnnounce r) <? AntiEntropy (r_cfg r) then r
  else match Doc_EncodeStateVector (r_doc r) with
       | Err _ => r
       | Ok sv => publish KindStateVector sv (with_times now (r_lastEmpty r) r)
       end.

(** ** Shutting down *)

Definition stopFanout (r : Room) : Room := with_pub false (r_pub r) r.

Definition finishPersisting (r : Room) : Room :=
  if negb (r_jobsOpen r) then r
  else let r := requestCompaction r in with_jobs false (r_jobs r) (r_sinceSnapshot r) r.

(** [stop]; [queued] is the mailbox, whose joiners are told the same thing. *)
Definition stop (now code : Z) (reason : bytes) (queued : list connID) (r : Room) : Room :=
  let r := emitHooks now r in
  let r := foldl (fun r c => close_conn code reason c r) r (iter (r_conns r)).*1 in
  let r := with_conns ∅ r in
  let r := stopFanout r in
  let r := finishPersisting r in
  let r := emitHooks now r in
  let r := with_stopped true r in
  foldl (fun r c => close_conn code reason c r) r queued.

Definition evict (now : Z) (queued : list connID) (r : Room) : Room :=
  stop now CloseGoingAway (str "room evicted") queued r.

Definition tick (now : Z) (queued : list connID) (r : Room) : bool * Room :=
  let r := measure now r in
  let '(out, a) := Sweep now (AwarenessTTL (r_cfg r)) (r_aw r) in
  let r := with_aw a r in
  let r := match out with
           | Err _ => r
           | Ok (_, []) => r
           | Ok (_, payload) => broadcast now (WriteAwareness payload) None r
           end in
  let r := announce now r in
  let r := emitHooks now r in
  let r := versionTick now r in
  if negb (bool_decide (r_conns r = ∅)) || IsZero (r_lastEmpty r) then (false, r)
  else if Time_Sub now (r_lastEmpty r) <? IdleTimeout (r_cfg r) then (false, r)
  else (true, evict now queued r).

(** ** Commands *)

Record Snapshot := MkSnapshot {
  s_Update : bytes; s_StateVector : bytes; s_Clients : Z; s_Resident : bool; s_Skipped : Z }.

Definition encodeSnapshot (d : Doc) (sv : bytes) : res Snapshot :=
  update ← match sv with [] => EncodeStateAsUpdate ∅ d | _ => EncodeDiff sv d end;
  ours ← Doc_EncodeStateVector d;
  Ok (MkSnapshot update ours (-1) false 0).

Definition read (sv : bytes) (r : Room) : res Snapshot :=
  s ← encodeSnapshot (r_doc r) sv;
  Ok (MkSnapshot (s_Update s) (s_StateVector s) (Z.of_nat (size (r_conns r))) true (s_Skipped s)).

Definition merge (now : Z) (u : bytes) (r : Room) : option GoError * Room :=
  let r := touchDocument r in
  match Doc.ApplyUpdate u (r_doc r) with
  | Err e => (Some e, r)
  | Ok d =>
      let r := with_doc d r in
      let r := record u r in
      let r := changed r in
      let r := with_version true (r_lastVersion r) r in
      let r := broadcast now (WriteUpdate u) None r in
      (None, publish KindUpdate u r)
  end.

Definition takeVersion (now : Z) (label : bytes) (r : Room) : bool * Room :=
  if negb (versions r) then (false, r)
  else (true, queueVersion label 0 (with_version false now r)).

Inductive command :=
  | joinCmd (c : connID)
  | leaveCmd (c : connID)
  | frameCmd (c : connID) (f : bytes)
  | tickCmd
  | readCmd (sv : bytes)
  | mergeCmd (u : bytes)
  | versionCmd (label : bytes)
  | evictCmd.

Inductive reply :=
  | NoReply
  | ReadReply (s : res Snapshot)
  | MergeReply (err : option GoError)
  | VersionReply (queued : bool)
  | EvictReply (evicted : bool).

(** [handle]: whether the room evicted itself, and what the caller is told. *)
Definition handle (now : Z) (queued : list connID) (cmd : command) (r : Room) : bool * reply * Room :=
  match cmd with
  | joinCmd c => (false, NoReply, join c r)
  | leaveCmd c => (false, NoReply, leave now c r)
  | frameCmd c f => (false, NoReply, frame now c f r)
  | tickCmd => let '(b, r) := tick now queued r in (b, NoReply, r)
  | readCmd sv => (false, ReadReply (read sv r), r)
  | mergeCmd u => let '(e, r) := merge now u r in (false, MergeReply e, r)
  | versionCmd l => let '(b, r) := takeVersion now l r in (false, VersionReply b, r)
  | evictCmd =>
      if decide (r_conns r = ∅) then (true, EvictReply true, evict now queued r)
      else (false, EvictReply false, r)
  end.
End Room.
