(* ===== verification/RoomInv.v ===== *)
(** * What dropping connections can do to a room

    Sending, dropping and retracting run inside every handler of the room.  [quiet] is
    all they may do: the document, its log and its history are untouched, connections
    only go, awareness states only go, and what they publish or send is awareness. *)

From S2P Require Import Prelude Lib0 StateVector Doc Messages Cluster Conn Awareness Room.

Section Room.
Context {C : Type} {OP : ConnOps C} {HL : ConnLaws C} {MO : MapOrder}.
Abbreviation Room := (Room.Room (C := C)).

(** ** The relation *)

Definition is_awareness (f : bytes) : Prop := exists p, f = WriteAwareness p.
Definition from_awareness (e : Envelope) : Prop := env_Kind e = KindAwareness.

(** A connection got awareness frames, and may have been closed. *)
Record gains (o o' : C) : Prop := {
  ga_write : CanWrite o' = CanWrite o;
  ga_out : exists fs, outbox o' = outbox o ++ fs /\ Forall is_awareness fs;
  ga_closing : forall x, closing o = Some x -> closing o' = Some x;
}.

#[export] Instance gains_preorder : PreOrder gains.
Proof.
  split.
  - intros o. split; [done| |done]. exists []. by rewrite app_nil_r.
  - intros a b c [H1 (f1 & H2 & H3) H4] [K1 (f2 & K2 & K3) K4]. split; [congruence| |auto].
    exists (f1 ++ f2). rewrite K2, H2, app_assoc. split; [done|]. by apply Forall_app.
Qed.

Definition obj_gains : option C -> option C -> Prop := option_relation gains (fun _ => False) (fun _ => False).

Lemma obj_gains_refl o : obj_gains o o.
Proof. by destruct o; cbn. Qed.

Lemma none_left (m : gmap Z (gset Z)) (a b : Z) : (if decide (m = ∅ /\ m <> ∅) then a else b) = b.
Proof. rewrite decide_False; [done|]. by intros [? ?]. Qed.

Lemma empty_below (m m' : gmap Z (gset Z)) : m ⊆ m' -> m' = ∅ -> m = ∅.
Proof.
  intros Hs ->. apply map_eq. intros k. rewrite lookup_empty. apply eq_None_not_Some. intros [x Hx].
  by apply (lookup_weaken _ _ _ _ Hx) in Hs.
Qed.

Record quiet (now : Z) (r r' : Room) : Prop := {
  q_cfg : r_cfg r' = r_cfg r;
  q_doc : r_doc r' = r_doc r;
  q_usage : r_usage r' = r_usage r;
  q_jobs : r_jobsOpen r' = r_jobsOpen r /\ r_jobs r' = r_jobs r /\ r_sinceSnapshot r' = r_sinceSnapshot r;
  q_hooks : r_changes r' = r_changes r /\ r_storedRows r' = r_storedRows r /\ r_events r' = r_events r;
  q_version : r_versionDirty r' = r_versionDirty r /\ r_lastVersion r' = r_lastVersion r;
  q_times : r_lastAnnounce r' = r_lastAnnounce r /\ r_stopped r' = r_stopped r;
  q_pub : r_pubOpen r' = r_pubOpen r /\ exists es, r_pub r' = r_pub r ++ es /\ Forall from_awareness es;
  q_conns : r_conns r' ⊆ r_conns r;
  q_objs : forall c, obj_gains (r_objs r !! c) (r_objs r' !! c);
  q_aw : aw_ok (r_aw r) -> aw_ok (r_aw r') /\ limits (r_aw r') = limits (r_aw r)
    /\ forall id st, Awareness.State (r_aw r') id = Some st -> Awareness.State (r_aw r) id = Some st;
  (** the last connection to go leaves the time *)
  q_empty : r_lastEmpty r' = if decide (r_conns r' = ∅ /\ r_conns r <> ∅) then now else r_lastEmpty r;
}.

#[export] Instance quiet_preorder now : PreOrder (quiet now).
Proof.
  split.
  - intros r. split; try done; [|intros c; apply obj_gains_refl|by rewrite none_left].
    split; [done|]. exists []. by rewrite app_nil_r.
  - intros a b c H K. destruct H as [H1 H2 H3 (H4 & H4' & H4'') (H5 & H5' & H5'') [H6 H6'] [H7 H7'] (H8 & e1 & H8' & H8'') H9 H10 H11 H12].
    destruct K as [K1 K2 K3 (K4 & K4' & K4'') (K5 & K5' & K5'') [K6 K6'] [K7 K7'] (K8 & e2 & K8' & K8'') K9 K10 K11 K12].
    split; try (split_and?; congruence).
    + split; [congruence|]. exists (e1 ++ e2). rewrite K8', H8', app_assoc. split; [done|]. by apply Forall_app.
    + by etrans.
    + intros x. specialize (H10 x). specialize (K10 x).
      destruct (r_objs a !! x), (r_objs b !! x), (r_objs c !! x); cbn in *; try done. by etrans.
    + intros Hok. destruct (H11 Hok) as (L1 & L2 & L3). destruct (K11 L1) as (M1 & M2 & M3).
      split_and!; [done|congruence|auto].
    + rewrite K12, H12. clear -H9 K9.
      assert (Hb : r_conns a = ∅ -> r_conns b = ∅) by (intros Ea; by eapply empty_below).
      assert (Hc : r_conns b = ∅ -> r_conns c = ∅) by (intros Eb; by eapply empty_below).
      destruct (decide (r_conns b = ∅)); repeat case_decide; naive_solver.
Qed.

(** A step that changes nothing but what is listed. *)
Ltac quiet_split :=
  split; try done;
  try (split; [done|]; exists []; by rewrite app_nil_r);
  try (intros ?c; apply obj_gains_refl);
  try (symmetry; apply none_left).

(** ** The steps *)

Lemma send_to_quiet now f c r : is_awareness f -> quiet now r (send_to f c r).2.
Proof.
  intros Hf. unfold send_to. destruct (r_objs r !! c) as [o|] eqn:E; [|done].
  pose proof (Send_write f o) as H1. pose proof (Send_refused f o) as H2.
  pose proof (Send_accepted f o) as H3. pose proof (Send_closing f o) as H4.
  destruct (Send f o) as [b o']. cbn in *. quiet_split. intros c'. cbn [with_objs r_objs].
  destruct (decide (c' = c)) as [->|Hne]; [rewrite lookup_insert_eq, E|rewrite lookup_insert_ne by done; apply obj_gains_refl].
  cbn. split; [done| |intros x; by rewrite H4].
  destruct b; [|rewrite H2 by done; exists []; by rewrite app_nil_r].
  destruct (H3 eq_refl) as [->|[_ ->]]; [exists [f]; split; [done|by apply Forall_singleton]|].
  exists []. by rewrite app_nil_r.
Qed.

Lemma close_conn_quiet now code reason c r : quiet now r (close_conn code reason c r).
Proof.
  unfold close_conn. quiet_split. intros c'. cbn [with_objs r_objs].
  destruct (decide (c = c')) as [->|Hne]; [rewrite lookup_alter_eq|rewrite lookup_alter_ne by done; apply obj_gains_refl].
  destruct (r_objs r !! c') as [o|]; [|done]. cbn. split.
  - apply Close_write.
  - exists []. by rewrite Close_outbox, app_nil_r.
  - intros x Hx. by rewrite Close_closing, Hx.
Qed.

Lemma publish_awareness_quiet now p r : quiet now r (publish KindAwareness p r).
Proof.
  unfold publish. destruct (r_pubOpen r) eqn:Eo; cbn [negb]; [|done]. case_if; [|done].
  quiet_split. cbn. split; [done|]. eexists. split; [done|]. by apply Forall_singleton.
Qed.

Lemma publish_frame k p (r : Room) :
  r_conns (publish k p r) = r_conns r /\ r_objs (publish k p r) = r_objs r /\ r_aw (publish k p r) = r_aw r
  /\ r_doc (publish k p r) = r_doc r /\ r_lastEmpty (publish k p r) = r_lastEmpty r
  /\ r_jobs (publish k p r) = r_jobs r.
Proof. unfold publish. destruct (r_pubOpen r); cbn [negb]; [|done]. case_if; done. Qed.

(** The first half of [leave]: out of the map, and the time noted if it was the last. *)
Definition forget_conn (now : Z) (c : Z) (r : Room) : Room :=
  let r := with_conns (delete c (r_conns r)) r in
  if decide (r_conns r = ∅) then with_times (r_lastAnnounce r) now r else r.

Lemma forget_conn_quiet now c r : is_Some (r_conns r !! c) -> quiet now r (forget_conn now c r).
Proof.
  intros [s Hc]. unfold forget_conn. cbn [with_conns r_conns].
  assert (r_conns r <> ∅) by (intros He; by rewrite He, lookup_empty in Hc).
  destruct (decide (delete c (r_conns r) = ∅)) as [He|He]; quiet_split; cbn; try apply delete_subseteq.
  - by rewrite decide_True.
  - rewrite decide_False; [done|]. by intros [? _].
Qed.

Lemma with_removed_quiet ids now r : quiet now r (with_aw (RemoveClients ids now (r_aw r)).2 r).
Proof.
  quiet_split. intros Hok. cbn. destruct (RemoveClients_ok ids now (r_aw r) Hok) as (H1 & H2 & H3).
  split_and!; try done. intros id st. unfold Awareness.State. rewrite H3. by case_decide.
Qed.

(** ** One round of sending *)

Definition only_objs (r r' : Room) : Prop := exists m, r' = with_objs m r.

Lemma only_objs_refl r : only_objs r r.
Proof. exists (r_objs r). by destruct r. Qed.

Lemma only_objs_trans a b c : only_objs a b -> only_objs b c -> only_objs a c.
Proof. intros [m ->] [m' ->]. by exists m'. Qed.

Lemma send_to_only f c r : only_objs r (send_to f c r).2.
Proof.
  unfold send_to. destruct (r_objs r !! c) as [o|]; [|apply only_objs_refl].
  destruct (Send f o) as [b o']. by eexists.
Qed.

(** What a round does to the connections in [ids], and who could not take the frame. *)
Lemma send_round_spec f ex ids : forall r slow0,
  NoDup ids -> (forall c, c ∈ ids -> is_Some (r_objs r !! c)) ->
  let '(slow, r') := foldl (send_step f ex) (slow0, r) ids in
  only_objs r r'
  /\ (forall c, c ∉ ids \/ ex = Some c -> r_objs r' !! c = r_objs r !! c)
  /\ (forall c o, c ∈ ids -> ex <> Some c -> r_objs r !! c = Some o -> r_objs r' !! c = Some (Send f o).2)
  /\ (forall c, c ∈ slow <-> c ∈ slow0 \/ c ∈ ids /\ ex <> Some c
        /\ exists o, r_objs r !! c = Some o /\ (Send f o).1 = false).
Proof.
  induction ids as [|x ids IH]; intros r slow0 Hn Ho; cbn [foldl].
  { split_and!; [apply only_objs_refl|done|by intros ? ? ?%elem_of_nil|]. intros c. split; [by left|]. intros [?|[?%elem_of_nil _]]; done. }
  apply NoDup_cons in Hn as [Hx Hn]. destruct (Ho x) as [o Hxo]; [by left|].
  unfold send_step at 2. case_decide as Hex.
  - specialize (IH r slow0 Hn). destruct (foldl _ _ ids) as [slow r'].
    destruct IH as (H1 & H2 & H3 & H4); [intros; apply Ho; by right|]. split_and!; [done| | |].
    + intros c Hc. apply H2. set_solver.
    + intros c o' [->|Hc]%elem_of_cons; [done|]. by apply H3.
    + intros c. rewrite H4. set_solver.
  - unfold send_to. rewrite Hxo. destruct (Send f o) as [b o'] eqn:Es.
    set (r1 := with_objs (<[x := o']> (r_objs r)) r).
    specialize (IH r1 (if b then slow0 else slow0 ++ [x]) Hn). destruct (foldl _ _ ids) as [slow r'].
    assert (Hr1 : forall c, c <> x -> r_objs r1 !! c = r_objs r !! c) by (intros; by apply lookup_insert_ne).
    destruct IH as (H1 & H2 & H3 & H4).
    { intros c Hc. destruct (decide (c = x)) as [->|]; [done|]. rewrite Hr1 by done. apply Ho. by right. }
    split_and!.
    + eapply only_objs_trans; [|done]. by eexists.
    + intros c Hc. assert (c <> x) by (destruct Hc; [set_solver|congruence]).
      rewrite H2, Hr1; [done|done|set_solver].
    + intros c oc [->|Hc]%elem_of_cons Hne Hoc.
      * rewrite H2 by (by left). simplify_eq. rewrite Es. cbn. apply lookup_insert_eq.
      * assert (c <> x) by (intros ->; done). apply H3; [done..|]. by rewrite Hr1.
    + intros c. rewrite H4. clear -Hxo Es Hr1 Hx Hex. split.
      * intros [Hc|(Hc & Hne & oc & Hoc & Hs)].
        -- destruct b; [by left|]. apply elem_of_app in Hc as [Hc|Hc]; [by left|]. apply list_elem_of_singleton in Hc as ->.
           right. split_and!; [by left|done|]. exists o. by rewrite Es.
        -- right. assert (c <> x) by (intros ->; done). split_and!; [by right|done|]. exists oc. by rewrite <- Hr1.
      * intros [Hc|(Hc & Hne & oc & Hoc & Hs)]; [left; destruct b; set_solver|].
        apply elem_of_cons in Hc as [->|Hc].
        -- simplify_eq. rewrite Es in Hs. cbn in Hs. subst b. left. set_solver.
        -- right. assert (c <> x) by (intros ->; done). split_and!; [done..|]. exists oc. by rewrite Hr1.
Qed.

Lemma send_round_quiet now f ex ids r : is_awareness f -> quiet now r (send_round f ex ids r).2.
Proof.
  intros Hf. unfold send_round.
  assert (forall sl r0, quiet now r0 (foldl (send_step f ex) (sl, r0) ids).2) as H; [|apply H].
  induction ids as [|x ids IH]; intros sl r0; [done|]. cbn [foldl]. unfold send_step at 2. case_decide; [apply IH|].
  pose proof (send_to_quiet now f x r0 Hf) as Hq. destruct (send_to f x r0) as [b r1]. cbn in Hq. etrans; [exact Hq|apply IH].
Qed.

(** ** Dropping the slow *)

Lemma drop_slow_quiet now lv slow : (forall c r, quiet now r (lv c r)) -> forall r, quiet now r (foldl (drop_slow lv) r slow).
Proof.
  intros Hlv. induction slow as [|c slow IH]; intros r; [done|]. cbn [foldl].
  etrans; [|apply IH]. unfold drop_slow. etrans; [apply Hlv|apply close_conn_quiet].
Qed.

Lemma broadcast_by_quiet now lv f ex r :
  (forall c r, quiet now r (lv c r)) -> is_awareness f -> quiet now r (broadcast_by lv f ex r).
Proof.
  intros Hlv Hf. unfold broadcast_by. pose proof (send_round_quiet now f ex (iter (r_conns r)).*1 r Hf) as Hq.
  destruct (send_round _ _ _ _) as [slow r1]. cbn in Hq. etrans; [exact Hq|]. by apply drop_slow_quiet.
Qed.

Lemma leave_loop_quiet fuel now : forall c r, quiet now r (leave_loop fuel now c r).
Proof.
  induction fuel as [|fuel IH]; intros c r; [done|]. cbn [leave_loop].
  destruct (r_conns r !! c) as [ids|] eqn:Ec; [|done].
  change (if decide (r_conns (with_conns (delete c (r_conns r)) r) = ∅) then _ else _) with (forget_conn now c r).
  assert (H1 : quiet now r (forget_conn now c r)) by (apply forget_conn_quiet; eauto).
  case_decide; [done|].
  pose proof (with_removed_quiet (iter (gset_to_gmap () ids)).*1 now (forget_conn now c r)) as H2.
  destruct (RemoveClients _ _ _) as [out a]. cbn [snd] in H2.
  destruct out as [[gone p]|]; [|by etrans]. destruct p as [|b p]; [by etrans|].
  etrans; [exact H1|]. etrans; [exact H2|]. etrans; [|apply publish_awareness_quiet].
  apply broadcast_by_quiet; [done|]. by eexists.
Qed.

Lemma leave_quiet now c r : quiet now r (leave now c r).
Proof. apply leave_loop_quiet. Qed.

Lemma drop_quiet now code reason c r : quiet now r (drop now code reason c r).
Proof. unfold drop. etrans; [apply leave_quiet|apply close_conn_quiet]. Qed.

Lemma broadcast_quiet now f ex r : is_awareness f -> quiet now r (broadcast now f ex r).
Proof. apply broadcast_by_quiet. intros. apply leave_quiet. Qed.

Lemma deliver_quiet now f c r : is_awareness f -> quiet now r (deliver now f c r).2.
Proof.
  intros Hf. unfold deliver. pose proof (send_to_quiet now f c r Hf) as Hq.
  destruct (send_to f c r) as [b r1]. cbn in Hq. destruct b; [done|]. etrans; [exact Hq|apply drop_quiet].
Qed.
End Room.
