(* ===== verification/RoomProps.v ===== *)
(** * What a room promises

    The properties of [internal/room]'s handlers: who can change the document, who is
    told about a change, what crosses to the other replicas, what a departing
    connection leaves behind, and when a room may go away. *)

From stdpp Require Import strings.
From S2P Require Import Prelude Lib0 StateVector Update Doc Invariant Deletion Apply Sync Messages Cluster Conn Awareness Room RoomInv.

Section Room.
Context {C : Type} {OP : ConnOps C} {HL : ConnLaws C} {MO : MapOrder}.
Abbreviation Room := (Room.Room (C := C)).

(** ** Leaving *)

Lemma quiet_gone now (r r' : Room) c : quiet now r r' -> r_conns r !! c = None -> r_conns r' !! c = None.
Proof. intros Hq Hn. by eapply lookup_weaken_None, q_conns. Qed.

Lemma quiet_obj now (r r' : Room) c o :
  quiet now r r' -> r_objs r !! c = Some o -> exists o', r_objs r' !! c = Some o' /\ gains o o'.
Proof.
  intros Hq Ho. pose proof (q_objs _ _ _ Hq c) as H. rewrite Ho in H.
  destruct (r_objs r' !! c) as [o'|]; [eauto|done].
Qed.

Lemma forget_conn_None now c (r : Room) : r_conns (forget_conn now c r) !! c = None.
Proof. unfold forget_conn. case_decide; apply lookup_delete_eq. Qed.

Lemma forget_conn_aw now c (r : Room) : r_aw (forget_conn now c r) = r_aw r.
Proof. unfold forget_conn. by case_decide. Qed.

(** The steps of [leave] for a connection that is there. *)
Lemma leave_steps now c (r : Room) ids :
  r_conns r !! c = Some ids ->
  exists r1, r_aw r1 = (if decide (ids = ∅) then r_aw r
                        else (RemoveClients (iter (gset_to_gmap () ids)).*1 now (r_aw r)).2)
    /\ r_conns r1 !! c = None /\ quiet now r1 (leave now c r).
Proof.
  intros Hc. unfold leave. cbn [leave_loop]. rewrite Hc.
  change (if decide (r_conns (with_conns (delete c (r_conns r)) r) = ∅) then _ else _) with (forget_conn now c r).
  case_decide.
  { exists (forget_conn now c r). by rewrite forget_conn_aw, forget_conn_None. }
  pose proof (forget_conn_aw now c r) as Ha. pose proof (forget_conn_None now c r) as Hn.
  rewrite Ha. destruct (RemoveClients _ _ _) as [out a]. cbn [snd].
  exists (with_aw a (forget_conn now c r)). split; [done|]. split; [done|].
  destruct out as [[gone p]|]; [|done]. destruct p as [|b p]; [done|].
  etrans; [|apply publish_awareness_quiet]. apply broadcast_by_quiet; [|by eexists].
  intros. apply leave_loop_quiet.
Qed.

Lemma leave_gone now c (r : Room) : r_conns (leave now c r) !! c = None.
Proof.
  destruct (r_conns r !! c) as [ids|] eqn:E.
  - destruct (leave_steps now c r ids E) as (r1 & _ & H1 & H2). by eapply quiet_gone.
  - eapply quiet_gone; [apply leave_quiet|done].
Qed.

(** A departing connection takes with it every awareness state it announced, and
    nothing else: no other state appears, the document is untouched. *)
Theorem leave_retracts now c (r : Room) ids :
  aw_ok (r_aw r) -> r_conns r !! c = Some ids ->
  let r' := leave now c r in
  r_conns r' !! c = None /\ r_doc r' = r_doc r
  /\ (forall id, id ∈ ids -> Awareness.State (r_aw r') id = None)
  /\ (forall id st, Awareness.State (r_aw r') id = Some st -> Awareness.State (r_aw r) id = Some st).
Proof.
  intros Hok Hc r'. split; [apply leave_gone|]. pose proof (leave_quiet now c r) as Hq.
  split; [apply Hq|]. split; [|by apply (q_aw _ _ _ Hq)].
  intros id Hid. destruct (leave_steps now c r ids Hc) as (r1 & Ha & _ & Hq1).
  rewrite decide_False in Ha by set_solver.
  destruct (RemoveClients_ok (iter (gset_to_gmap () ids)).*1 now (r_aw r) Hok) as (K1 & _ & K3).
  rewrite <- Ha in K1, K3. apply eq_None_not_Some. intros [st Hst].
  apply (q_aw _ _ _ Hq1) in Hst; [|done]. unfold Awareness.State in Hst. rewrite K3 in Hst.
  case_decide as Hd; [done|]. apply Hd. split.
  - apply list_elem_of_fmap. exists (id, ()). split; [done|]. rewrite elem_of_iter.
    by apply lookup_gset_to_gmap_Some.
  - unfold has_state. destruct (entries (r_aw r) !! id) as [e|]; [|done]. by destruct (e_present e).
Qed.

(** ** Broadcasting *)

Lemma drop_slow_gone now slow : forall (r : Room) c,
  c ∈ slow -> let r' := foldl (drop_slow (leave now)) r slow in
  r_conns r' !! c = None /\ forall o, r_objs r' !! c = Some o -> is_Some (closing o).
Proof.
  induction slow as [|x slow IH]; intros r c Hc; [by apply elem_of_nil in Hc|]. cbn [foldl].
  apply elem_of_cons in Hc as [->|Hc]; [|by apply IH].
  pose proof (drop_slow_quiet now (leave now) slow (leave_quiet now) (drop_slow (leave now) r x)) as Hq. split.
  - eapply quiet_gone; [exact Hq|]. unfold drop_slow, close_conn. apply leave_gone.
  - intros o Ho. pose proof (q_objs _ _ _ Hq x) as Hx. rewrite Ho in Hx.
    destruct (r_objs (drop_slow (leave now) r x) !! x) as [o0|] eqn:E0; [|done].
    unfold drop_slow, close_conn in E0. cbn [with_objs r_objs] in E0. rewrite lookup_alter_eq in E0.
    destruct (r_objs (leave now x r) !! x) as [o1|]; [|done]. cbn in E0. simplify_eq.
    match type of Hx with obj_gains (Some (Close ?k ?t _)) _ => pose proof (Close_closing k t o1) as Hc end.
    destruct (closing o1) as [y|]; eexists; by apply (ga_closing _ _ Hx).
Qed.

(** Every connection has its object. *)
Definition objs_ok (r : Room) : Prop := forall c, is_Some (r_conns r !! c) -> is_Some (r_objs r !! c).

Lemma iter_keys {A} (m : gmap Z A) c : c ∈ (iter m).*1 <-> is_Some (m !! c).
Proof.
  rewrite list_elem_of_fmap. split.
  - intros ([k a] & -> & H%elem_of_iter). eauto.
  - intros [a Ha]. exists (c, a). by rewrite elem_of_iter.
Qed.

(** What a connection in the room sees of a broadcast: the frame, then awareness; or,
    if its buffer was full, the door. *)
Definition served (f : bytes) (r' : Room) (c : Z) (o : C) : Prop :=
  exists o', r_objs r' !! c = Some o' /\
    if (Send f o).1 then gains (Send f o).2 o'
    else gains o o' /\ r_conns r' !! c = None /\ is_Some (closing o').

Lemma broadcast_spec now f ex (r : Room) :
  objs_ok r ->
  exists r1, only_objs r r1 /\ quiet now r1 (broadcast now f ex r)
  /\ (forall c o, is_Some (r_conns r !! c) -> ex <> Some c -> r_objs r !! c = Some o ->
        served f (broadcast now f ex r) c o)
  /\ (forall c o, r_conns r !! c = None \/ ex = Some c -> r_objs r !! c = Some o ->
        exists o', r_objs (broadcast now f ex r) !! c = Some o' /\ gains o o').
Proof.
  intros Hobj. unfold broadcast, broadcast_by, send_round.
  pose proof (send_round_spec f ex (iter (r_conns r)).*1 r [] (NoDup_iter_keys _)) as Hs.
  destruct (foldl _ _ _) as [slow r1]. destruct Hs as (H1 & H2 & H3 & H4).
  { intros c Hc. apply Hobj. by apply iter_keys. }
  pose proof (drop_slow_quiet now (leave now) slow (leave_quiet now) r1) as Hq.
  exists r1. split_and!; [done|done| |].
  - intros c o Hc Hex Ho. assert (Hin : c ∈ (iter (r_conns r)).*1) by by apply iter_keys.
    pose proof (H3 c o Hin Hex Ho) as Ho1. destruct (quiet_obj _ _ _ _ _ Hq Ho1) as (o' & Ho' & Hg).
    exists o'. split; [done|]. destruct (Send f o).1 eqn:Es; [done|].
    rewrite (Send_refused f o Es) in Hg. split; [done|].
    assert (c ∈ slow) as Hsl by (apply H4; right; eauto).
    destruct (drop_slow_gone now slow r1 c Hsl) as [? Hcl]. auto.
  - intros c o Hc Ho. eapply quiet_obj; [exact Hq|]. rewrite H2; [done|].
    destruct Hc as [Hc|Hc]; [left|by right]. rewrite iter_keys, Hc. by intros [].
Qed.

(** ** Steps that edit nothing *)

(** The document, what is written of it and what is told about it stay; what goes out
    to the other replicas is awareness. *)
Record no_edit (r r' : Room) : Prop := {
  ne_doc : r_doc r' = r_doc r;
  ne_jobs : r_jobs r' = r_jobs r;
  ne_dirty : r_versionDirty r' = r_versionDirty r /\ r_usage r' = r_usage r;
  ne_changes : r_changes r' = r_changes r;
  ne_pub : exists es, r_pub r' = r_pub r ++ es /\ Forall from_awareness es;
}.

#[export] Instance no_edit_preorder : PreOrder no_edit.
Proof.
  split.
  - intros r. split; try done. exists []. by rewrite app_nil_r.
  - intros a b c [H1 H2 [H3 H3'] H4 (e1 & H5 & H5')] [K1 K2 [K3 K3'] K4 (e2 & K5 & K5')].
    split; [congruence|congruence|split; congruence|congruence|].
    exists (e1 ++ e2). rewrite K5, H5, app_assoc. split; [done|]. by apply Forall_app.
Qed.

Lemma quiet_no_edit now (r r' : Room) : quiet now r r' -> no_edit r r'.
Proof.
  intros [_ H2 H3 (_ & H4 & _) (H5 & _) (H6 & _) _ (_ & H8) _ _ _ _]. by split.
Qed.

Lemma only_objs_no_edit (r r' : Room) : only_objs r r' -> no_edit r r'.
Proof. intros [m ->]. split; try done. exists []. by rewrite app_nil_r. Qed.

Lemma send_to_no_edit f c (r : Room) : no_edit r (send_to f c r).2.
Proof. apply only_objs_no_edit, send_to_only. Qed.

Lemma send_round_only f ex ids (r : Room) : only_objs r (send_round f ex ids r).2.
Proof.
  unfold send_round. assert (forall sl r0, only_objs r0 (foldl (send_step f ex) (sl, r0) ids).2) as H; [|apply H].
  induction ids as [|x ids IH]; intros sl r0; cbn [foldl]; [apply only_objs_refl|].
  unfold send_step at 2. case_decide; [apply IH|].
  pose proof (send_to_only f x r0) as Ho. destruct (send_to f x r0) as [b r1]. eapply only_objs_trans; [exact Ho|apply IH].
Qed.

Lemma broadcast_no_edit now f ex (r : Room) : no_edit r (broadcast now f ex r).
Proof.
  unfold broadcast, broadcast_by. pose proof (send_round_only f ex (iter (r_conns r)).*1 r) as Ho.
  destruct (send_round _ _ _ _) as [slow r1]. etrans; [apply only_objs_no_edit, Ho|].
  eapply quiet_no_edit, drop_slow_quiet, leave_quiet.
Qed.

Lemma drop_no_edit now code reason c (r : Room) : no_edit r (drop now code reason c r).
Proof. eapply quiet_no_edit, drop_quiet. Qed.

Lemma deliver_no_edit now f c (r : Room) : no_edit r (deliver now f c r).2.
Proof.
  unfold deliver. pose proof (send_to_no_edit f c r) as H. destruct (send_to f c r) as [[] r1]; [done|].
  etrans; [exact H|apply drop_no_edit].
Qed.

Lemma sendAll_no_edit now c (r : Room) : no_edit r (sendAll now c r).
Proof. unfold sendAll. destruct (EncodeAll _); [apply deliver_no_edit|done]. Qed.

Lemma syncStep1_no_edit now c sv (r : Room) : no_edit r (syncStep1 now c sv r).
Proof.
  unfold syncStep1. destruct (EncodeDiff sv (r_doc r)) as [diff|]; [|apply drop_no_edit].
  pose proof (deliver_no_edit now (WriteSyncStep2 diff) c r) as H1.
  destruct (deliver now _ c r) as [[] r1]; cbn [negb]; [|done].
  destruct (Doc_EncodeStateVector _) as [ours|]; [|done].
  pose proof (deliver_no_edit now (WriteSyncStep1 ours) c r1) as H2.
  destruct (deliver now _ c r1) as [[] r2]; cbn [negb] in *; (etrans; [exact H1|]); [|done].
  case_if; [|done]. etrans; [exact H2|apply sendAll_no_edit].
Qed.

Lemma publish_no_edit p (r : Room) : no_edit r (publish KindAwareness p r).
Proof. eapply quiet_no_edit, (publish_awareness_quiet 0). Qed.

Lemma with_aw_no_edit a (r : Room) : no_edit r (with_aw a r).
Proof. split; try done. exists []. by rewrite app_nil_r. Qed.

Lemma with_conns_no_edit m (r : Room) : no_edit r (with_conns m r).
Proof. split; try done. exists []. by rewrite app_nil_r. Qed.

Lemma remoteAwareness_no_edit now p (r : Room) : no_edit r (remoteAwareness now p r).
Proof.
  unfold remoteAwareness. destruct (Awareness.ApplyUpdate _ _ _) as [[ids err] a].
  etrans; [apply (with_aw_no_edit a)|]. destruct err; [done|]. destruct ids; [done|].
  destruct (Awareness.Encode _ _); [apply broadcast_no_edit|done].
Qed.


(** ** An accepted update *)

Lemma requestCompaction_jobs (r : Room) : exists since js, requestCompaction r = with_jobs (r_jobsOpen r) (r_jobs r ++ js) since r
  /\ js = (if r_jobsOpen r then match EncodeStateAsUpdate ∅ (r_doc r) with Ok b => [JobSnapshot b] | Err _ => [] end else []).
Proof.
  unfold requestCompaction. destruct (r_jobsOpen r) eqn:E; cbn [negb];
    [destruct (EncodeStateAsUpdate _ _) as [b|]; [by eexists _, _|]|];
    exists (r_sinceSnapshot r), []; rewrite app_nil_r, <- E; by destruct r.
Qed.

Lemma record_jobs u (r : Room) : exists since js,
  record u r = with_jobs (r_jobsOpen r) (r_jobs r ++ js) since r
  /\ if r_jobsOpen r then exists js', js = JobUpdate u :: js' else js = [].
Proof.
  unfold record. destruct (r_jobsOpen r) eqn:E; cbn [negb].
  - case_if.
    + match goal with |- context [requestCompaction ?x] => destruct (requestCompaction_jobs x) as (n & js & -> & _) end.
      cbn. eexists _, _. rewrite <- app_assoc. split; [done|]. by eexists.
    + eexists _, _. split; [done|]. by eexists.
  - exists (r_sinceSnapshot r), []. rewrite app_nil_r, <- E. split; [by destruct r|done].
Qed.

(** The room once an update is applied and recorded, before anybody is told. *)
Definition staged (u : bytes) (d : Doc) (r : Room) : Room :=
  let r := record u (with_doc d (touchDocument r)) in
  changed (with_version true (r_lastVersion r) r).

Lemma staged_frame u d (r : Room) :
  let r' := staged u d r in
  r_conns r' = r_conns r /\ r_objs r' = r_objs r /\ r_pub r' = r_pub r /\ r_pubOpen r' = r_pubOpen r
  /\ r_cfg r' = r_cfg r /\ r_doc r' = d /\ r_aw r' = r_aw r /\ r_lastEmpty r' = r_lastEmpty r
  /\ r_versionDirty r' = true
  /\ exists js, r_jobs r' = r_jobs r ++ js /\ if r_jobsOpen r then exists js', js = JobUpdate u :: js' else js = [].
Proof.
  unfold staged. destruct (record_jobs u (with_doc d (touchDocument r))) as (n & js & -> & Hj).
  unfold changed. destruct (HasHooks _); cbn; split_and!; try done; by eexists.
Qed.

Lemma publish_pub k p (r : Room) :
  r_pub (publish k p r) = if r_pubOpen r && (Z.of_nat (length (r_pub r)) <? publishQueue)
                          then r_pub r ++ [MkEnvelope (NodeID (r_cfg r)) k p] else r_pub r.
Proof. unfold publish. destruct (r_pubOpen r); cbn [negb andb]; [|done]. by case_if. Qed.

(** C18. An update a writer sends is applied, logged before anybody is told, sent to
    every other connection in the bytes the author produced, never echoed to the
    author, and published once; a connection that cannot take it is closed. *)
Theorem update_relayed now c u d (r : Room) :
  objs_ok r -> can_write c r = true -> Doc.ApplyUpdate u (r_doc r) = Ok d ->
  let r' := update now c u r in
  r_doc r' = d
  /\ (forall c' o, is_Some (r_conns r !! c') -> c' <> c -> r_objs r !! c' = Some o ->
        served (WriteUpdate u) r' c' o)
  /\ (forall o, r_objs r !! c = Some o -> exists o', r_objs r' !! c = Some o' /\ gains o o')
  /\ (r_jobsOpen r = true -> exists js, r_jobs r' = r_jobs r ++ JobUpdate u :: js)
  /\ exists es, Forall from_awareness es
       /\ r_pub r' = r_pub r ++ es ++
            (if r_pubOpen r && (Z.of_nat (length (r_pub r ++ es)) <? publishQueue)
             then [MkEnvelope (NodeID (r_cfg r)) KindUpdate u] else []).
Proof.
  intros Hobj Hw Hd r'. unfold r', update. rewrite Hw. cbn [negb]. change (r_doc (touchDocument r)) with (r_doc r).
  rewrite Hd. fold (staged u d r).
  destruct (staged_frame u d r) as (S1 & S2 & S3 & S4 & S5 & S6 & S7 & _ & _ & js & S8 & S9).
  destruct (broadcast_spec now (WriteUpdate u) (Some c) (staged u d r)) as (r1 & [m B1] & B2 & B3 & B4).
  { intros x. rewrite S1, S2. apply Hobj. }
  pose proof (broadcast_no_edit now (WriteUpdate u) (Some c) (staged u d r)) as [N1 N2 _ _ (es & N3 & N4)].
  set (rb := broadcast now (WriteUpdate u) (Some c) (staged u d r)) in *.
  destruct (publish_frame KindUpdate u rb) as (P1 & P2 & _ & P4 & _ & P6).
  split_and!.
  - by rewrite P4, N1.
  - intros c' o Hc Hne Ho. unfold served. rewrite P1, P2. apply B3; [by rewrite S1|congruence|by rewrite S2].
  - intros o Ho. rewrite P2. apply B4; [by right|by rewrite S2].
  - intros Hopen. rewrite P6, N2, S8. rewrite Hopen in S9. destruct S9 as [js' ->]. eauto.
  - exists es. split; [done|]. rewrite publish_pub, N3, S3.
    assert (r_pubOpen rb = r_pubOpen r /\ r_cfg rb = r_cfg r) as [-> ->].
    { subst r1. destruct (q_pub _ _ _ B2) as [-> _]. rewrite (q_cfg _ _ _ B2). cbn. by rewrite S4, S5. }
    case_if; [by rewrite <- app_assoc|]. by rewrite app_nil_r.
Qed.


(** ** The recursion of [leave] *)

Lemma drop_slow_ext now lv lv' n slow : forall (r : Room),
  (forall c r, quiet now r (lv c r)) ->
  (forall c r, (size (r_conns r) < n)%nat -> lv c r = lv' c r) -> (size (r_conns r) < n)%nat ->
  foldl (drop_slow lv) r slow = foldl (drop_slow lv') r slow.
Proof.
  induction slow as [|c slow IH]; intros r Hq Heq Hr; [done|]. cbn [foldl].
  assert (drop_slow lv r c = drop_slow lv' r c) as <- by (unfold drop_slow; by rewrite Heq).
  apply IH; [done..|]. cbn. pose proof (map_subseteq_size _ _ (q_conns _ _ _ (Hq c r))). lia.
Qed.

Lemma leave_loop_fuel now f : forall f' c (r : Room),
  (size (r_conns r) < f)%nat -> (size (r_conns r) < f')%nat -> leave_loop f now c r = leave_loop f' now c r.
Proof.
  induction f as [|f IH]; intros f' c r Hf Hf'; [lia|]. destruct f' as [|f']; [lia|]. cbn [leave_loop].
  destruct (r_conns r !! c) as [ids|] eqn:Ec; [|done].
  change (if decide (r_conns (with_conns (delete c (r_conns r)) r) = ∅) then _ else _) with (forget_conn now c r).
  assert (Hs : (size (r_conns (forget_conn now c r)) < size (r_conns r))%nat).
  { assert (r_conns (forget_conn now c r) = delete c (r_conns r)) as -> by (unfold forget_conn; by case_decide).
    rewrite map_size_delete, Ec. assert (size (r_conns r) <> 0%nat); [|lia].
    intros H0%map_size_empty_inv. by rewrite H0, lookup_empty in Ec. }
  case_decide; [done|]. destruct (RemoveClients _ _ _) as [out a]. destruct out as [[gone [|b p]]|]; [done| |done].
  f_equal. unfold broadcast_by.
  match goal with |- context [send_round ?x ?y ?z ?w] =>
    pose proof (send_round_only x y z w) as Ho; destruct (send_round x y z w) as [slow r1] end.
  destruct Ho as [m Hm]. cbn [snd] in Hm. subst r1.
  apply (drop_slow_ext now _ _ (size (r_conns r))); cbn [r_conns with_objs with_aw]; [intros; apply leave_loop_quiet| |done].
  intros c' r' Hr'. apply IH; lia.
Qed.

(** Dropping a connection terminates whoever else it takes along: the recursion of
    [leave] through [broadcast] is never cut short by its fuel. *)
Theorem leave_terminates now c (r : Room) fuel :
  (size (r_conns r) < fuel)%nat -> leave_loop fuel now c r = leave now c r.
Proof. intros Hf. apply leave_loop_fuel; [done|lia]. Qed.

(** ** The handshake *)

Lemma send_to_ok f c (r : Room) o :
  r_objs r !! c = Some o -> send_to f c r = ((Send f o).1, with_objs (<[c := (Send f o).2]> (r_objs r)) r).
Proof. intros Ho. unfold send_to. rewrite Ho. by destruct (Send f o). Qed.

Lemma deliver_ok now f c (r : Room) o :
  r_objs r !! c = Some o -> (Send f o).1 = true ->
  deliver now f c r = (true, with_objs (<[c := (Send f o).2]> (r_objs r)) r).
Proof. intros Ho Hs. unfold deliver. by rewrite (send_to_ok _ _ _ _ Ho), Hs. Qed.

(** The frames of the reply to a SyncStep1, in order. *)
Definition replies (sv : bytes) (r : Room) : res (list bytes) :=
  diff ← EncodeDiff sv (r_doc r);
  ours ← Doc_EncodeStateVector (r_doc r);
  if 0 <? Awareness.Len (r_aw r)
  then all ← EncodeAll (r_aw r); Ok [WriteSyncStep2 diff; WriteSyncStep1 ours; WriteAwareness all]
  else Ok [WriteSyncStep2 diff; WriteSyncStep1 ours].

(** A connection that takes the frames of [fs] one after the other. *)
Fixpoint takes (fs : list bytes) (o : C) : Prop :=
  match fs with [] => True | f :: fs => (Send f o).1 = true /\ takes fs (Send f o).2 end.

Definition send_list (fs : list bytes) (o : C) : C := foldl (fun o f => (Send f o).2) o fs.

Lemma send_list_outbox fs : forall o, takes fs o -> closing o = None -> outbox (send_list fs o) = outbox o ++ fs.
Proof.
  induction fs as [|f fs IH]; intros o Ht Hc; cbn; [by rewrite app_nil_r|]. destruct Ht as [H1 H2].
  unfold send_list in IH. rewrite IH; [|done|by rewrite Send_closing].
  destruct (Send_accepted f o H1) as [->|[[x Hx] _]]; [by rewrite <- app_assoc|congruence].
Qed.

(** A SyncStep1 is answered to its sender alone, and in the protocol's order: the
    difference from the client's state vector, then the server's own state vector, then
    the cursors already in the room. *)
Theorem handshake now c sv (r : Room) o fs :
  r_objs r !! c = Some o -> closing o = None -> replies sv r = Ok fs -> takes fs o ->
  exists o', syncStep1 now c sv r = with_objs (<[c := o']> (r_objs r)) r /\ outbox o' = outbox o ++ fs.
Proof.
  intros Ho Hcl Hr Ht. unfold replies in Hr. destruct (EncodeDiff sv (r_doc r)) as [diff|] eqn:Ed; [|done].
  destruct (Doc_EncodeStateVector (r_doc r)) as [ours|] eqn:Eo; [|done]. cbn [mbind res_bind] in Hr.
  exists (send_list fs o). split; [|by apply send_list_outbox]. unfold syncStep1. rewrite Ed.
  assert (exists tl, fs = WriteSyncStep2 diff :: WriteSyncStep1 ours :: tl) as [tl ->].
  { case_if_in Hr; [|res_inv; eauto]. destruct (EncodeAll (r_aw r)); [|done]. res_inv. eauto. }
  destruct Ht as (T1 & T2 & T3). rewrite (deliver_ok now _ c r o) by done. cbn [negb r_doc with_objs]. rewrite Eo.
  rewrite (deliver_ok now _ c _ (Send (WriteSyncStep2 diff) o).2) by (done || apply lookup_insert_eq).
  cbn [negb r_aw with_objs r_objs]. rewrite insert_insert_eq. case_if; [|by simplify_eq].
  unfold sendAll. cbn [r_aw with_objs]. destruct (EncodeAll (r_aw r)) as [all|]; [|done]. cbn in Hr. injection Hr as <-. cbn [takes] in T3. destruct T3 as [T3 _].
  rewrite (deliver_ok now _ c _ (Send (WriteSyncStep1 ours) (Send (WriteSyncStep2 diff) o).2).2)
    by (done || apply lookup_insert_eq).
  cbn [snd r_objs with_objs]. by rewrite insert_insert_eq.
Qed.


Lemma alter_empty_inv (f : gset Z -> gset Z) c (m : gmap Z (gset Z)) : alter f c m = ∅ -> m = ∅.
Proof.
  intros He. apply map_eq. intros k. rewrite lookup_empty. apply eq_None_not_Some. intros Hk.
  rewrite <- (lookup_alter_is_Some f m c k), He, lookup_empty in Hk. by destruct Hk.
Qed.

(** ** The invariant of a room *)

Record room_ok (r : Room) : Prop := {
  ro_doc : reachable (r_doc r);
  ro_aw : aw_ok (r_aw r);
  ro_objs : objs_ok r;
  (** [lastEmpty] is the zero time exactly while somebody is connected. *)
  ro_empty : r_conns r = ∅ <-> IsZero (r_lastEmpty r) = false;
}.

(** What keeps the invariant: nothing it speaks about changed. *)
Lemma room_ok_frame (r r' : Room) :
  r_doc r' = r_doc r -> r_aw r' = r_aw r -> r_conns r' = r_conns r -> r_lastEmpty r' = r_lastEmpty r ->
  (forall c, is_Some (r_objs r !! c) -> is_Some (r_objs r' !! c)) -> room_ok r -> room_ok r'.
Proof.
  intros H1 H2 H3 H4 H5 [K1 K2 K3 K4]. split; [by rewrite H1|by rewrite H2| |by rewrite H3, H4].
  intros c. rewrite H3. auto.
Qed.

Lemma quiet_ok now (r r' : Room) : now <> zeroTime -> quiet now r r' -> room_ok r -> room_ok r'.
Proof.
  intros Hnow Hq [K1 K2 K3 K4]. split.
  - by rewrite (q_doc _ _ _ Hq).
  - by apply (q_aw _ _ _ Hq).
  - intros c [s Hs]. pose proof (lookup_weaken _ _ _ _ Hs (q_conns _ _ _ Hq)).
    destruct (K3 c) as [o Ho]; [eauto|]. destruct (quiet_obj _ _ _ _ _ Hq Ho) as (o' & Ho' & _). eauto.
  - rewrite (q_empty _ _ _ Hq). pose proof (q_conns _ _ _ Hq) as Hc. case_decide as Hd.
    + split; [|tauto]. intros _. unfold IsZero. by apply Z.eqb_neq.
    + rewrite <- K4. split; [|by apply empty_below]. intros He.
      destruct (decide (r_conns r = ∅)); [done|]. exfalso. by apply Hd.
Qed.

Lemma send_to_dom f c (r : Room) x : is_Some (r_objs r !! x) -> is_Some (r_objs (send_to f c r).2 !! x).
Proof.
  intros Hx. unfold send_to. destruct (r_objs r !! c) as [o|] eqn:E; [|done]. destruct (Send f o) as [b o'].
  cbn. rewrite lookup_insert_is_Some. destruct (decide (c = x)); auto.
Qed.

Lemma send_to_ok_room f c (r : Room) : room_ok r -> room_ok (send_to f c r).2.
Proof. destruct (send_to_only f c r) as [m Hm]. apply room_ok_frame; try (by rewrite Hm). apply send_to_dom. Qed.

Lemma broadcast_ok now f ex (r : Room) : now <> zeroTime -> room_ok r -> room_ok (broadcast now f ex r).
Proof.
  intros Hn Hr. destruct (broadcast_spec now f ex r (ro_objs _ Hr)) as (r1 & Ho & Hq & B3 & B4).
  unfold broadcast, broadcast_by in *.
  assert (room_ok (send_round f ex (iter (r_conns r)).*1 r).2) as Hr1.
  { unfold send_round. assert (forall l sl r0, room_ok r0 -> room_ok (foldl (send_step f ex) (sl, r0) l).2) as H; [|by apply H].
    induction l as [|x l IH]; intros sl r0 H0; [done|]. cbn [foldl]. unfold send_step at 2. case_decide; [by apply IH|].
    pose proof (send_to_ok_room f x r0 H0). destruct (send_to f x r0) as [b r2]. by apply IH. }
  destruct (send_round _ _ _ _) as [slow r2]. eapply quiet_ok; [done|apply drop_slow_quiet, leave_quiet|done].
Qed.

Lemma drop_ok now code reason c (r : Room) : now <> zeroTime -> room_ok r -> room_ok (drop now code reason c r).
Proof. intros Hn. eapply quiet_ok; [done|apply drop_quiet]. Qed.

Lemma deliver_ok_room now f c (r : Room) : now <> zeroTime -> room_ok r -> room_ok (deliver now f c r).2.
Proof.
  intros Hn Hr. unfold deliver. pose proof (send_to_ok_room f c r Hr) as H. destruct (send_to f c r) as [[] r1]; [done|].
  by apply drop_ok.
Qed.

Lemma publish_ok k p (r : Room) : room_ok r -> room_ok (publish k p r).
Proof. destruct (publish_frame k p r) as (P1 & P2 & P3 & P4 & P5 & _). apply room_ok_frame; try done. by rewrite P2. Qed.

Lemma sendAll_ok now c (r : Room) : now <> zeroTime -> room_ok r -> room_ok (sendAll now c r).
Proof. intros Hn Hr. unfold sendAll. destruct (EncodeAll _); [by apply deliver_ok_room|done]. Qed.

Lemma syncStep1_ok now c sv (r : Room) : now <> zeroTime -> room_ok r -> room_ok (syncStep1 now c sv r).
Proof.
  intros Hn Hr. unfold syncStep1. destruct (EncodeDiff sv (r_doc r)) as [diff|]; [|by apply drop_ok].
  pose proof (deliver_ok_room now (WriteSyncStep2 diff) c r Hn Hr) as H1.
  destruct (deliver now _ c r) as [[] r1]; cbn [negb snd] in *; [|done].
  destruct (Doc_EncodeStateVector _) as [ours|]; [|done].
  pose proof (deliver_ok_room now (WriteSyncStep1 ours) c r1 Hn H1) as H2.
  destruct (deliver now _ c r1) as [[] r2]; cbn [negb snd] in *; [|done]. case_if; [by apply sendAll_ok|done].
Qed.

Lemma with_aw_ok a (r : Room) : aw_ok a -> room_ok r -> room_ok (with_aw a r).
Proof. intros Ha [K1 K2 K3 K4]. by split. Qed.

Lemma with_doc_ok d (r : Room) : reachable d -> room_ok r -> room_ok (with_doc d r).
Proof. intros Hd [K1 K2 K3 K4]. by split. Qed.

Lemma staged_ok u d (r : Room) : reachable d -> room_ok r -> room_ok (staged u d r).
Proof.
  intros Hd Hr. destruct (staged_frame u d r) as (S1 & S2 & _ & _ & _ & S6 & S7 & S8 & _).
  apply (room_ok_frame (with_doc d r)); [done..| |by apply with_doc_ok]. by rewrite S2.
Qed.

Lemma update_ok now c u (r : Room) :
  now <> zeroTime -> Z.of_nat (length u) < Content.maxLen -> room_ok r -> room_ok (update now c u r).
Proof.
  intros Hn Hu Hr. unfold update. destruct (can_write c r); cbn [negb].
  - change (r_doc (touchDocument r)) with (r_doc r). destruct (Doc.ApplyUpdate u (r_doc r)) as [d|] eqn:E.
    + fold (staged u d r). apply publish_ok, broadcast_ok, staged_ok; [done| |done]. by eapply reach_apply, E; [apply Hr|].
    + by apply drop_ok, room_ok_frame with r.
  - case_if; [done|]. match goal with |- context [send_to ?m c r] =>
      pose proof (send_to_ok_room m c r Hr) as H; destruct (send_to m c r) as [b r1] end. by apply drop_ok.
Qed.

Lemma remoteUpdate_ok now u (r : Room) :
  now <> zeroTime -> Z.of_nat (length u) < Content.maxLen -> room_ok r -> room_ok (remoteUpdate now u r).
Proof.
  intros Hn Hu Hr. unfold remoteUpdate. change (r_doc (touchDocument r)) with (r_doc r).
  destruct (Doc.ApplyUpdate u (r_doc r)) as [d|] eqn:E; [|by apply room_ok_frame with r].
  apply broadcast_ok; [done|]. apply room_ok_frame with (with_doc d r); try done.
  apply with_doc_ok; [|done]. by eapply reach_apply, E; [apply Hr|].
Qed.

Lemma remoteAwareness_ok now p (r : Room) : now <> zeroTime -> room_ok r -> room_ok (remoteAwareness now p r).
Proof.
  intros Hn Hr. unfold remoteAwareness. pose proof (tracker_ApplyUpdate_ok p now (r_aw r) (ro_aw _ Hr)) as [Ha _].
  destruct (Awareness.ApplyUpdate _ _ _) as [[ids err] a]. cbn [snd] in Ha. pose proof (with_aw_ok a r Ha Hr) as H.
  destruct err; [done|]. destruct ids; [done|]. destruct (Awareness.Encode _ _); [by apply broadcast_ok|done].
Qed.

Lemma answerStateVector_ok sv (r : Room) : room_ok r -> room_ok (answerStateVector sv r).
Proof.
  intros Hr. unfold answerStateVector. destruct (EncodeDiff _ _); [|done]. case_if; [done|by apply publish_ok].
Qed.

Lemma join_ok c (r : Room) : is_Some (r_objs r !! c) -> room_ok r -> room_ok (join c r).
Proof.
  intros Hc [K1 K2 K3 K4]. unfold join. destruct (r_conns r !! c) as [ids|] eqn:E; [by split|].
  split; cbn; [done..| |].
  - intros x. cbn. rewrite lookup_insert_is_Some. intros [<-|[_ Hx]]; [done|by apply K3].
  - split; [|done]. intros He. exfalso. by apply (insert_non_empty (r_conns r) c ∅).
Qed.

Context (errText : GoError -> bytes).

Lemma awareness_no_edit now c p (r : Room) : no_edit r (awareness errText now c p r).
Proof.
  unfold awareness. destruct (Awareness.ApplyUpdate _ _ _) as [[ids err] a].
  etrans; [apply (with_aw_no_edit a)|]. destruct err as [e|].
  - case_if; [|apply drop_no_edit]. pose proof (send_to_no_edit (WritePermissionDenied (errText e)) c (with_aw a r)) as H.
    destruct (send_to _ c _) as [b r1]. etrans; [exact H|apply drop_no_edit].
  - destruct ids as [|id ids]; [done|]. etrans; [apply with_conns_no_edit|].
    destruct (Awareness.Encode _ _) as [out|]; [|done]. etrans; [apply broadcast_no_edit|apply publish_no_edit].
Qed.

Lemma readonly_update now c u (r : Room) : can_write c r = false -> no_edit r (update now c u r).
Proof.
  intros Hw. unfold update. rewrite Hw. cbn [negb]. case_if; [done|].
  match goal with |- context [send_to ?m c r] =>
    pose proof (send_to_no_edit m c r) as H; destruct (send_to m c r) as [b r1] end.
  etrans; [exact H|apply drop_no_edit].
Qed.

(** C19. A connection without write permission cannot change the document: whatever
    bytes it sends, the document, the log, the version and change flags stay as they
    are and no update is published. *)
Theorem readonly_never_edits now c f (r : Room) :
  can_write c r = false ->
  let r' := frame errText now c f r in
  r_doc r' = r_doc r /\ r_jobs r' = r_jobs r /\ r_versionDirty r' = r_versionDirty r
  /\ r_changes r' = r_changes r
  /\ exists es, r_pub r' = r_pub r ++ es /\ Forall (fun e => env_Kind e = KindAwareness) es.
Proof.
  intros Hw r'. assert (no_edit r r') as [H1 H2 [H3 _] H4 H5]; [|done]. unfold r', frame.
  destruct (r_conns r !! c); [|done]. destruct (Decode f) as [[sv|u|u|p| |t]|];
    auto using syncStep1_no_edit, awareness_no_edit, sendAll_no_edit, drop_no_edit; try done.
  all: by apply readonly_update.
Qed.

(** C20. What arrives from another replica is never written to the log, never raises a
    change event and is never published again as an update. *)
Theorem remote_never_republished now env (r : Room) :
  env_Kind env <> KindStateVector ->
  let r' := remoteEnvelope now env r in
  r_jobs r' = r_jobs r /\ r_changes r' = r_changes r
  /\ exists es, r_pub r' = r_pub r ++ es /\ Forall (fun e => env_Kind e = KindAwareness) es.
Proof.
  intros Hk r'. unfold r', remoteEnvelope. destruct (env_Kind env); [| |done].
  - unfold remoteUpdate. destruct (Doc.ApplyUpdate _ _) as [d|].
    + match goal with |- context [broadcast now ?f None ?r0] =>
        destruct (broadcast_no_edit now f None r0) as [_ H2 _ H4 H5] end. done.
    + split_and!; [done..|]. exists []. by rewrite app_nil_r.
  - destruct (remoteAwareness_no_edit now (env_Payload env) r) as [_ H2 _ H4 H5]. done.
Qed.

(** ** Runs of a room *)

Lemma awareness_ok now c p (r : Room) : now <> zeroTime -> room_ok r -> room_ok (awareness errText now c p r).
Proof.
  intros Hn Hr. unfold awareness. pose proof (tracker_ApplyUpdate_ok p now (r_aw r) (ro_aw _ Hr)) as [Ha _].
  destruct (Awareness.ApplyUpdate _ _ _) as [[ids err] a]. cbn [snd] in Ha. pose proof (with_aw_ok a r Ha Hr) as H.
  destruct err as [e|].
  - case_if; [|by apply drop_ok]. match goal with |- context [send_to ?m c ?x] =>
      pose proof (send_to_ok_room m c x H) as H'; destruct (send_to m c x) as [b r1] end. by apply drop_ok.
  - destruct ids as [|id ids]; [done|].
    match goal with |- context [with_conns ?m ?x] => assert (room_ok (with_conns m x)) as H' end.
    { destruct H as [K1 K2 K3 K4]. change (r_conns (with_aw a r)) with (r_conns r) in *.
      split; [done|done| |].
      - intros x. cbn. rewrite lookup_alter_is_Some. apply K3.
      - cbn. rewrite <- K4. split; intros He; [|by rewrite He, alter_empty].
by eapply alter_empty_inv. }
    destruct (Awareness.Encode _ _) as [out|]; [|done]. by apply publish_ok, broadcast_ok.
Qed.


Lemma frame_ok now c f (r : Room) :
  now <> zeroTime -> Z.of_nat (length f) < Content.maxLen -> room_ok r -> room_ok (frame errText now c f r).
Proof.
  intros Hn Hf Hr. unfold frame. destruct (r_conns r !! c); [|done].
  destruct (Decode f) as [msg|] eqn:E; [|by apply drop_ok]. apply Decode_fits in E.
  destruct msg; cbn [payload] in E; auto using syncStep1_ok, awareness_ok, sendAll_ok;
    apply update_ok; done || lia.
Qed.

Context (Usage : Doc -> Z * Z).

(** The room's bookkeeping apart from its document, its connections and its cursors. *)
Definition bookkeeping (r r' : Room) : Prop :=
  r_doc r' = r_doc r /\ r_aw r' = r_aw r /\ r_conns r' = r_conns r /\ r_lastEmpty r' = r_lastEmpty r
  /\ r_objs r' = r_objs r /\ r_cfg r' = r_cfg r.

Lemma bookkeeping_ok (r r' : Room) : bookkeeping r r' -> room_ok r -> room_ok r'.
Proof. intros (H1 & H2 & H3 & H4 & H5 & _). apply room_ok_frame; try done. by rewrite H5. Qed.

Lemma bookkeeping_trans (a b c : Room) : bookkeeping a b -> bookkeeping b c -> bookkeeping a c.
Proof. unfold bookkeeping. intuition congruence. Qed.

Lemma measure_bk now (r : Room) : bookkeeping r (measure Usage now r).
Proof. unfold measure. case_if; [done|]. case_if; [done|]. by destruct (Usage _). Qed.

Lemma publish_bk k p (r : Room) : bookkeeping r (publish k p r).
Proof. unfold publish. destruct (r_pubOpen r); cbn [negb]; [|done]. by case_if. Qed.

Lemma announce_bk now (r : Room) : bookkeeping r (announce now r).
Proof.
  unfold announce. case_if; [done|]. case_if; [done|]. destruct (Doc_EncodeStateVector _); [|done].
  eapply bookkeeping_trans; [|apply publish_bk]. done.
Qed.

Lemma emitHooks_bk now (r : Room) : bookkeeping r (emitHooks now r).
Proof. unfold emitHooks. repeat case_if; done. Qed.

Lemma queueVersion_bk l m (r : Room) : bookkeeping r (queueVersion l m r).
Proof.
  unfold queueVersion. destruct (EncodeStateAsUpdate _ _); [|done]. destruct (Doc_EncodeStateVector _); [|done].
  by case_if.
Qed.

Lemma versionTick_bk now (r : Room) : bookkeeping r (versionTick now r).
Proof.
  unfold versionTick. repeat (case_if; [done|]). eapply bookkeeping_trans; [|apply queueVersion_bk]. done.
Qed.

(** The part of [tick] before the idle check. *)
Definition swept_room (now : Z) (r : Room) : Room :=
  let '(out, a) := Sweep now (AwarenessTTL (r_cfg r)) (r_aw r) in
  let r := with_aw a r in
  match out with
  | Ok (_, (_ :: _) as payload) => broadcast now (WriteAwareness payload) None r
  | _ => r
  end.

Lemma swept_room_quiet now (r : Room) : quiet now r (swept_room now r).
Proof.
  unfold swept_room.
  assert (Hq : quiet now r (with_aw (Sweep now (AwarenessTTL (r_cfg r)) (r_aw r)).2 r)).
  { split; try done; [split; [done|]; exists []; by rewrite app_nil_r|intros; apply obj_gains_refl| |by rewrite none_left].
    intros Hok. cbn. destruct (Sweep_ok now (AwarenessTTL (r_cfg r)) (r_aw r) Hok) as (H1 & H2 & H3).
    split_and!; [done..|]. intros id st. unfold Awareness.State. rewrite H3.
    destruct (entries (r_aw r) !! id) as [e|]; [|done]. cbn. unfold after_sweep. case_if; [done|]. by case_if. }
  destruct (Sweep _ _ _) as [out a]. cbn [snd] in Hq. destruct out as [[gone [|b p]]|]; [done| |done].
  etrans; [exact Hq|]. apply broadcast_quiet. by eexists.
Qed.

Definition before_idle (now : Z) (r : Room) : Room :=
  versionTick now (emitHooks now (announce now (swept_room now (measure Usage now r)))).

Lemma tick_eq now queued (r : Room) :
  tick Usage now queued r =
  let r := before_idle now r in
  if negb (bool_decide (r_conns r = ∅)) || IsZero (r_lastEmpty r) then (false, r)
  else if Time_Sub now (r_lastEmpty r) <? IdleTimeout (r_cfg r) then (false, r)
  else (true, evict now queued r).
Proof.
  unfold tick, before_idle, swept_room. destruct (Sweep _ _ _) as [out a].
  by destruct out as [[gone [|b p]]|].
Qed.

Lemma before_idle_spec now (r : Room) :
  exists r1 r2, bookkeeping r r1 /\ quiet now r1 r2 /\ bookkeeping r2 (before_idle now r).
Proof.
  exists (measure Usage now r), (swept_room now (measure Usage now r)).
  split_and!; [apply measure_bk|apply swept_room_quiet|].
  eapply bookkeeping_trans; [apply announce_bk|]. eapply bookkeeping_trans; [apply emitHooks_bk|apply versionTick_bk].
Qed.

Lemma close_all_only code reason ids : forall (r : Room),
  let r' := foldl (fun r c => close_conn code reason c r) r ids in
  only_objs r r' /\ forall c, is_Some (r_objs r !! c) -> is_Some (r_objs r' !! c).
Proof.
  induction ids as [|x ids IH]; intros r; [split; [apply only_objs_refl|done]|]. cbn [foldl].
  destruct (IH (close_conn code reason x r)) as [H1 H2]. split.
  - eapply only_objs_trans; [|exact H1]. by eexists.
  - intros c Hc. apply H2. cbn. by rewrite lookup_alter_is_Some.
Qed.

Lemma emitHooks_jobs now (r : Room) :
  let r' := emitHooks now r in
  r_jobs r' = r_jobs r /\ r_jobsOpen r' = r_jobsOpen r /\ r_pubOpen r' = r_pubOpen r /\ r_pub r' = r_pub r.
Proof. cbn zeta. unfold emitHooks. repeat case_if; done. Qed.

(** What is left of a room that stopped. *)
Lemma stop_spec now code reason queued (r : Room) :
  let r' := stop now code reason queued r in
  r_doc r' = r_doc r /\ r_aw r' = r_aw r /\ r_conns r' = ∅ /\ r_lastEmpty r' = r_lastEmpty r
  /\ r_stopped r' = true /\ r_pubOpen r' = false /\ r_jobsOpen r' = false
  /\ r_jobs r' = r_jobs r ++ (if r_jobsOpen r then
        match EncodeStateAsUpdate ∅ (r_doc r) with Ok b => [JobSnapshot b] | Err _ => [] end else [])
  /\ forall c, is_Some (r_objs r !! c) -> is_Some (r_objs r' !! c).
Proof.
  cbn zeta. unfold stop.
  destruct (emitHooks_bk now r) as (E1 & E2 & E3 & E4 & E5 & _). destruct (emitHooks_jobs now r) as (E6 & E7 & _).
  set (r1 := emitHooks now r) in *.
  destruct (close_all_only code reason (iter (r_conns r1)).*1 r1) as [[m1 C1] C2]. rewrite C1 in *.
  set (r2 := stopFanout (with_conns ∅ (with_objs m1 r1))) in *.
  assert (F : exists since js, finishPersisting r2 = with_jobs false (r_jobs r1 ++ js) since r2
    /\ js = (if r_jobsOpen r then match EncodeStateAsUpdate ∅ (r_doc r) with Ok b => [JobSnapshot b] | Err _ => [] end else [])).
  { unfold finishPersisting. change (r_jobsOpen r2) with (r_jobsOpen r1). rewrite E7.
    destruct (r_jobsOpen r) eqn:Ej; cbn [negb].
    - destruct (requestCompaction_jobs r2) as (n & js & -> & ->). eexists _, _. split; [done|].
      change (r_jobsOpen r2) with (r_jobsOpen r1). change (r_doc r2) with (r_doc r1). by rewrite E7, E1.
    - exists (r_sinceSnapshot r2), []. rewrite app_nil_r. split; [|done].
      unfold with_jobs, r2, stopFanout, with_pub, with_conns, with_objs. cbn. by rewrite E7. }
  destruct F as (n & js & -> & Hjs). set (r3 := with_jobs false _ n r2).
  destruct (emitHooks_bk now r3) as (G1 & G2 & G3 & G4 & G5 & _). destruct (emitHooks_jobs now r3) as (G6 & G7 & G8 & _).
  destruct (close_all_only code reason queued (with_stopped true (emitHooks now r3))) as [[m2 D1] D2].
  set (rf := foldl _ _ queued) in *.
  assert (Hobj : forall c, is_Some (r_objs r !! c) -> is_Some (r_objs rf !! c)).
  { intros c Hc. apply D2. cbn. rewrite G5. cbn. apply C2. by rewrite E5. }
  rewrite D1 in *. cbn [with_objs with_stopped r_doc r_aw r_conns r_lastEmpty r_stopped r_pubOpen r_jobsOpen r_jobs].
  rewrite G1, G2, G3, G4, G6, G7, G8. cbn. rewrite Hjs. split_and!; try done. by rewrite E6.
Qed.

(** Eviction saves the document: the last thing handed to the writer is a snapshot
    of the whole document, nothing is accepted afterwards and the room holds nobody. *)
Theorem evict_saves now queued (r : Room) b :
  r_jobsOpen r = true -> EncodeStateAsUpdate ∅ (r_doc r) = Ok b ->
  let r' := evict now queued r in
  r_jobs r' = r_jobs r ++ [JobSnapshot b] /\ r_jobsOpen r' = false /\ r_pubOpen r' = false
  /\ r_conns r' = ∅ /\ r_stopped r' = true /\ r_doc r' = r_doc r.
Proof.
  intros Ho Hb r'. destruct (stop_spec now CloseGoingAway (str "room evicted") queued r)
    as (H1 & _ & H3 & _ & H5 & H6 & H7 & H8 & _). rewrite Ho, Hb in H8. done.
Qed.

(** A room never evicts itself while somebody is connected, whether on its tick or
    when asked, not even when the tick itself drops the last connection. *)
Theorem eviction_never_disconnects now queued cmd (r : Room) out r' :
  0 < IdleTimeout (r_cfg r) -> handle Usage errText now queued cmd r = (true, out, r') -> r_conns r = ∅.
Proof.
  intros Hidle H. destruct cmd; cbn [handle] in H; try done.
  - rewrite tick_eq in H. cbn zeta in H.
    destruct (before_idle_spec now r) as (r1 & r2 & B1 & Q & B2).
    destruct B1 as (_ & _ & B1 & _ & _ & B1'). destruct B2 as (_ & _ & B2 & B3 & _ & B4).
    assert (Hcfg : IdleTimeout (r_cfg (before_idle now r)) = IdleTimeout (r_cfg r)).
    { by rewrite B4, (q_cfg _ _ _ Q), B1'. }
    case_if_in H; [done|]. case_if_in H; [done|]. rewrite Hcfg, B3, (q_empty _ _ _ Q) in E.
    apply bool_decide_eq_true in H0. rewrite B2 in H0.
    rewrite <- B1. destruct (decide (r_conns r1 = ∅)) as [?|Hne]; [done|].
    rewrite decide_True in E by done. unfold Time_Sub in E. rewrite Z.sub_diag in E.
    unfold two63 in E. lia.
  - by destruct (merge now u r).
  - by destruct (takeVersion now label r).
  - by case_decide.
Qed.

(** ** Every run *)

Lemma evict_ok now queued (r : Room) : r_conns r = ∅ -> room_ok r -> room_ok (evict now queued r).
Proof.
  intros He Hr. destruct (stop_spec now CloseGoingAway (str "room evicted") queued r)
    as (H1 & H2 & H3 & H4 & _ & _ & _ & _ & H9). apply (room_ok_frame r); try done. by rewrite He.
Qed.

Lemma tick_ok now queued (r : Room) : now <> zeroTime -> room_ok r -> room_ok (tick Usage now queued r).2.
Proof.
  intros Hn Hr. rewrite tick_eq. cbn zeta.
  assert (room_ok (before_idle now r)) as H.
  { destruct (before_idle_spec now r) as (r1 & r2 & B1 & Q & B2).
    eapply bookkeeping_ok, quiet_ok, bookkeeping_ok; eauto. }
  case_if; [done|]. bool_arith. case_if; [done|]. cbn [snd]. apply evict_ok; [|done].
  by apply bool_decide_eq_true in H0.
Qed.

Lemma merge_ok now u (r : Room) :
  now <> zeroTime -> Z.of_nat (length u) < Content.maxLen -> room_ok r -> room_ok (merge now u r).2.
Proof.
  intros Hn Hu Hr. unfold merge. change (r_doc (touchDocument r)) with (r_doc r).
  destruct (Doc.ApplyUpdate u (r_doc r)) as [d|] eqn:E; [|by apply room_ok_frame with r].
  cbn [snd]. apply publish_ok, broadcast_ok; [done|].
  assert (reachable d) as Hd by (by eapply reach_apply, E; [apply Hr|]).
  destruct (record_jobs u (with_doc d (touchDocument r))) as (n & js & -> & _).
  apply (room_ok_frame (with_doc d r)); unfold changed; try (by destruct (HasHooks _)).
  by apply with_doc_ok.
Qed.

(** What reaches a room: commands, and envelopes from other replicas.  Frames, merges
    and envelopes are below 2 GiB, a joining connection exists, and the clock is not
    the zero time. *)
Definition admissible (now : Z) (cmd : command) (r : Room) : Prop :=
  now <> zeroTime /\
  match cmd with
  | joinCmd c => is_Some (r_objs r !! c)
  | frameCmd _ f => Z.of_nat (length f) < Content.maxLen
  | mergeCmd u => Z.of_nat (length u) < Content.maxLen
  | _ => True
  end.

Inductive room_run (cfg : Config) (objs : gmap Z C) : Room -> Prop :=
  | run_new now : now <> zeroTime -> room_run cfg objs (NewRoom cfg objs now)
  | run_handle now queued cmd r :
      room_run cfg objs r -> admissible now cmd r ->
      room_run cfg objs (handle Usage errText now queued cmd r).2
  | run_remote now env r :
      room_run cfg objs r -> now <> zeroTime -> Z.of_nat (length (env_Payload env)) < Content.maxLen ->
      room_run cfg objs (remoteEnvelope now env r).

Lemma handle_ok now queued cmd (r : Room) :
  admissible now cmd r -> room_ok r -> room_ok (handle Usage errText now queued cmd r).2.
Proof.
  intros [Hn Ha] Hr. destruct cmd; cbn [handle snd].
  - by apply join_ok.
  - eapply quiet_ok; [done|apply leave_quiet|done].
  - by apply frame_ok.
  - pose proof (tick_ok now queued r Hn Hr) as H. by destruct (tick _ _ _ _).
  - done.
  - pose proof (merge_ok now u r Hn Ha Hr) as H. by destruct (merge _ _ _).
  - unfold takeVersion. case_if; [done|]. cbn [snd]. eapply bookkeeping_ok; [apply queueVersion_bk|].
    by apply room_ok_frame with r.
  - case_decide; [by apply evict_ok|done].
Qed.

Lemma NewRoom_ok cfg objs now : limits_ok (AwarenessLimits cfg) -> now <> zeroTime -> room_ok (NewRoom cfg objs now).
Proof.
  intros Hl Hn. split; cbn.
  - constructor.
  - by apply NewAwareness_ok.
  - intros c. cbn. rewrite lookup_empty. by intros [].
  - split; [|done]. intros _. unfold IsZero. by apply Z.eqb_neq.
Qed.

Lemma remoteEnvelope_ok now env (r : Room) :
  now <> zeroTime -> Z.of_nat (length (env_Payload env)) < Content.maxLen -> room_ok r -> room_ok (remoteEnvelope now env r).
Proof.
  intros Hn Hp Hr. unfold remoteEnvelope.
  destruct (env_Kind env); auto using remoteUpdate_ok, remoteAwareness_ok, answerStateVector_ok.
Qed.

(** C15. Whatever commands, frames and envelopes a room receives, its document is a
    reachable one (so every property of documents holds of it), its tracker is within
    its limits, every connection in it has its object, and it knows since when it has
    been empty exactly when it is. *)
Theorem room_invariant cfg objs (r : Room) :
  limits_ok (AwarenessLimits cfg) -> room_run cfg objs r -> room_ok r.
Proof.
  intros Hl. induction 1 as [now Hn|now queued cmd r _ IH Ha|now env r _ IH Hn Hp].
  - by apply NewRoom_ok.
  - by apply handle_ok.
  - by apply remoteEnvelope_ok.
Qed.
End Room.
