(* ===== verification/RoomScenario.v ===== *)
(** A concrete room on which the theorems about rooms are instantiated: a writer
    (connection 1) and a reader (connection 2) of the gateway, a store and a bus. *)
From S2P Require Import Prelude Lib0 Content Struct Doc Sync Messages Cluster Conn Awareness Room RoomInv RoomProps.

#[local] Existing Instance any_order.
#[local] Instance demo_ops : ConnOps conn := gateway_ops false.
#[local] Instance demo_laws : ConnLaws conn := gateway_laws false.

Definition demo_usage (d : Doc) : Z * Z := (0, 0).
Definition demo_text (e : GoError) : bytes := [].
Definition second : Z := 1000000000.
Definition demo_cfg : Config :=
  MkConfig 7 true true true true false 0 (30 * second) (30 * second) 500 (10 * second) 0 (MkLimits 0 0) 9.
Definition demo_objs : gmap Z conn := {[1 := newConn 1 4 true; 2 := newConn 2 4 false]}.
Definition empty_room : @Room.Room conn := NewRoom demo_cfg demo_objs 1.
Definition demo_room : @Room.Room conn := join 2 (join 1 empty_room).
(** Client 1 types "hi"; client 5 announces a cursor. *)
Definition demo_edit : bytes := [1; 1; 1; 0; 4; 1; 1; 116; 2; 104; 105; 0].
Definition demo_cursor : bytes := payload_bytes [(5, 1, [123; 125])].
Definition cursor_room : @Room.Room conn := Room.awareness demo_text 2 1 demo_cursor demo_room.

Lemma demo_run : room_run demo_text demo_usage demo_cfg demo_objs demo_room.
Proof.
  apply (run_handle demo_text demo_usage demo_cfg demo_objs 1 [] (joinCmd 2) (join 1 empty_room)).
  - apply (run_handle demo_text demo_usage demo_cfg demo_objs 1 [] (joinCmd 1) empty_room).
    + by apply run_new.
    + split; [done|]. by eexists.
  - split; [done|]. by eexists.
Qed.

Lemma room_invariant_witness : room_ok demo_room.
Proof.
  apply (room_invariant demo_text demo_usage demo_cfg demo_objs demo_room); [reflexivity|apply demo_run].
Defined.

Lemma demo_objs_ok : objs_ok demo_room.
Proof.
  intros c Hc. destruct (decide (c = 1)) as [->|H1]; [by eexists|].
  destruct (decide (c = 2)) as [->|H2]; [by eexists|]. exfalso. revert Hc.
  change (r_conns demo_room) with (<[2 := ∅]> (<[1 := ∅]> (∅ : gmap Z (gset Z)))).
  rewrite !lookup_insert_ne, lookup_empty by done. by intros [].
Qed.

Lemma cursor_aw_ok : aw_ok (r_aw cursor_room).
Proof.
  change (r_aw cursor_room) with (ApplyUpdate demo_cursor 2 (NewAwarenessWithLimits (MkLimits 0 0))).2.
  eapply (tracked_ok (MkLimits 0 0)); [reflexivity|]. apply tracked_apply, tracked_new.
Qed.

Lemma leave_retracts_witness :
  let r' := leave 3 1 cursor_room in
  Awareness.State (r_aw cursor_room) 5 = Some [123; 125]
  /\ Awareness.State (r_aw r') 5 = None /\ r_doc r' = r_doc cursor_room.
Proof.
  destruct (leave_retracts 3 1 cursor_room {[5]}) as (_ & H2 & H3 & _).
  - apply cursor_aw_ok.
  - reflexivity.
  - split_and!; [reflexivity|apply H3; set_solver|exact H2].
Defined.

Lemma readonly_never_edits_witness :
  r_doc (frame demo_text 3 2 (WriteUpdate demo_edit) demo_room) = r_doc demo_room.
Proof. apply (readonly_never_edits demo_text 3 2 (WriteUpdate demo_edit) demo_room). reflexivity. Defined.

Lemma remote_never_republished_witness :
  r_jobs (remoteEnvelope 3 (MkEnvelope 8 KindUpdate demo_edit) demo_room) = r_jobs demo_room.
Proof. apply (remote_never_republished 3 (MkEnvelope 8 KindUpdate demo_edit) demo_room). done. Defined.

Lemma update_relayed_witness :
  exists d, r_doc (update 3 1 demo_edit demo_room) = d
    /\ served (WriteUpdate demo_edit) (update 3 1 demo_edit demo_room) 2 (newConn 2 4 false)
    /\ exists js, r_jobs (update 3 1 demo_edit demo_room) = [] ++ JobUpdate demo_edit :: js.
Proof.
  destruct (Doc.ApplyUpdate demo_edit (r_doc demo_room)) as [d|] eqn:E; [|by vm_compute in E].
  destruct (update_relayed 3 1 demo_edit d demo_room) as (H1 & H2 & _ & H4 & _).
  - apply demo_objs_ok.
  - reflexivity.
  - exact E.
  - exists d. split_and!; [exact H1|apply H2; [by eexists|done|reflexivity]|apply H4; reflexivity].
Defined.

Lemma leave_terminates_witness : leave_loop 3 3 1 cursor_room = leave 3 1 cursor_room.
Proof. apply (leave_terminates 3 1 cursor_room 3). vm_compute. lia. Defined.

Lemma handshake_witness :
  exists o', syncStep1 3 2 [0] cursor_room = with_objs (<[2 := o']> (r_objs cursor_room)) cursor_room
    /\ length (outbox o') = 4%nat.
Proof.
  destruct (replies [0] cursor_room) as [fs|] eqn:E; [|by vm_compute in E].
  destruct (r_objs cursor_room !! 2) as [o|] eqn:Eo; [|by vm_compute in Eo].
  destruct (handshake 3 2 [0] cursor_room o fs) as (o' & H1 & H2).
  - exact Eo.
  - vm_compute in Eo. by simplify_eq.
  - exact E.
  - vm_compute in E, Eo. injection E as <-. injection Eo as <-. done.
  - exists o'. split; [exact H1|]. rewrite H2. clear H1 H2. vm_compute in E, Eo. injection E as <-. injection Eo as <-. reflexivity.
Defined.

Lemma evict_saves_witness :
  exists b, r_jobs (evict 3 [] demo_room) = [] ++ [JobSnapshot b].
Proof.
  destruct (EncodeStateAsUpdate ∅ (r_doc demo_room)) as [b|] eqn:E; [|by vm_compute in E].
  exists b. apply (evict_saves 3 [] demo_room b); [reflexivity|exact E].
Defined.

Lemma eviction_never_disconnects_witness :
  (handle demo_usage demo_text 3 [] evictCmd empty_room).1.1 = true /\ r_conns empty_room = ∅.
Proof.
  split; [reflexivity|].
  eapply (eviction_never_disconnects demo_text demo_usage 3 [] evictCmd empty_room (EvictReply true)
    (evict 3 [] empty_room)); reflexivity.
Defined.
