(* ===== verification/Mailbox.v ===== *)
(** * The room's mailbox

    [send], [Run] and the end of [stop] of [internal/room/room.go], as a transition system:
    any number of callers that send commands, the lock they take, the bounded mailbox,
    and the room's goroutine from its start to the drain that follows its last step.
    The room itself is [Room]; what its handlers do is unchanged, only when they run is
    spelled out. *)

From stdpp Require Import strings.
From S2P Require Import Prelude Lib0 Any Content StateVector DeleteSet Struct Update StructStore Doc Messages Awareness Conn Cluster Store Room RoomInv RoomProps RoomScenario.

Section Mailbox.
Context {C : Type} `{!ConnOps C} `{!MapOrder}.
Context (Usage : Doc -> Z * Z) (errText : GoError -> bytes).
(** [cfg.Mailbox], at least 1. *)
Context (Mailbox : nat).

(** ** The parties *)

(** Where a call of [send] is: before the lock, with it, in the select, back. *)
Inductive sender :=
  | Calling (c : command)
  | Holding (c : command)
  | Selecting (c : command)
  | Returned (err : option GoError).

(** Where the room's goroutine is: joining the bus and loading; its loop; [stop] up to
    closing [done]; waiting for the lock; draining the mailbox; gone. *)
Inductive phase :=
  | Starting
  | Up
  | Ending (code : Z) (reason : bytes)
  | Handover (code : Z) (reason : bytes)
  | Draining (code : Z) (reason : bytes)
  | Gone.

Record box := MkBox {
  mb_room : Room (C := C);
  mb_phase : phase;
  mb_queue : list (nat * command);
  mb_lock : option nat;
  mb_closed : bool;
  mb_done : bool;
  mb_senders : gmap nat sender;
  (** Ghost: what was accepted, handled and drained, in order. *)
  mb_accepted : list (nat * command);
  mb_handled : list (nat * command);
  mb_drained : list (nat * command);
}.

Definition at_sender (t : nat) (s : sender) (lock : option nat) (x : box) : box :=
  MkBox (mb_room x) (mb_phase x) (mb_queue x) lock (mb_closed x) (mb_done x) (<[t := s]> (mb_senders x))
    (mb_accepted x) (mb_handled x) (mb_drained x).
Definition put (t : nat) (c : command) (x : box) : box :=
  MkBox (mb_room x) (mb_phase x) (mb_queue x ++ [(t, c)]) (mb_lock x) (mb_closed x) (mb_done x) (mb_senders x)
    (mb_accepted x ++ [(t, c)]) (mb_handled x) (mb_drained x).
Definition at_room (r : Room (C := C)) (p : phase) (done : bool) (x : box) : box :=
  MkBox r p (mb_queue x) (mb_lock x) (mb_closed x) done (mb_senders x) (mb_accepted x) (mb_handled x) (mb_drained x).

(** What the drain does with a command: a joiner is told why, the rest is dropped. *)
Definition turn_away (code : Z) (reason : bytes) (c : command) (r : Room (C := C)) : Room (C := C) :=
  match c with joinCmd conn => close_conn code reason conn r | _ => r end.

Inductive mstep (x : box) : box -> Prop :=
  (** Callers. *)
  | m_call t c : mb_senders x !! t = None -> mstep x (at_sender t (Calling c) (mb_lock x) x)
  | m_lock t c : mb_senders x !! t = Some (Calling c) -> mb_lock x = None -> mstep x (at_sender t (Holding c) (Some t) x)
  | m_refuse t c :
      mb_senders x !! t = Some (Holding c) -> mb_closed x = true -> mstep x (at_sender t (Returned (Some ErrClosed)) None x)
  | m_select t c :
      mb_senders x !! t = Some (Holding c) -> mb_closed x = false -> mstep x (at_sender t (Selecting c) (mb_lock x) x)
  | m_put t c :
      mb_senders x !! t = Some (Selecting c) -> (length (mb_queue x) < Mailbox)%nat ->
      mstep x (put t c (at_sender t (Returned None) None x))
  | m_done t c :
      mb_senders x !! t = Some (Selecting c) -> mb_done x = true -> mstep x (at_sender t (Returned (Some ErrClosed)) None x)
  (** The room's goroutine. *)
  | m_up r : mb_phase x = Starting -> mstep x (at_room r Up (mb_done x) x)
  | m_no_start now reason :
      mb_phase x = Starting ->
      mstep x (at_room (stop now CloseInternalError reason [] (mb_room x)) (Ending CloseInternalError reason) (mb_done x) x)
  | m_cancel now :
      mb_phase x = Up ->
      mstep x (at_room (stop now CloseGoingAway (str "server shutting down") [] (mb_room x))
                 (Ending CloseGoingAway (str "server shutting down")) (mb_done x) x)
  | m_handle now t c q evicted reply r :
      mb_phase x = Up -> mb_queue x = (t, c) :: q -> handle Usage errText now [] c (mb_room x) = (evicted, reply, r) ->
      mstep x (MkBox r (if evicted : bool then Ending CloseGoingAway (str "room evicted") else Up) q (mb_lock x) (mb_closed x)
                 (mb_done x) (mb_senders x) (mb_accepted x) (mb_handled x ++ [(t, c)]) (mb_drained x))
  | m_tick now evicted reply r :
      mb_phase x = Up -> handle Usage errText now [] tickCmd (mb_room x) = (evicted, reply, r) ->
      mstep x (at_room r (if evicted : bool then Ending CloseGoingAway (str "room evicted") else Up) (mb_done x) x)
  | m_remote now env : mb_phase x = Up -> mstep x (at_room (remoteEnvelope now env (mb_room x)) Up (mb_done x) x)
  | m_close_done code reason :
      mb_phase x = Ending code reason -> mstep x (at_room (mb_room x) (Handover code reason) true x)
  | m_close code reason :
      mb_phase x = Handover code reason -> mb_lock x = None ->
      mstep x (MkBox (mb_room x) (Draining code reason) (mb_queue x) None true (mb_done x) (mb_senders x) (mb_accepted x)
                 (mb_handled x) (mb_drained x))
  | m_drain code reason t c q :
      mb_phase x = Draining code reason -> mb_queue x = (t, c) :: q ->
      mstep x (MkBox (turn_away code reason c (mb_room x)) (Draining code reason) q (mb_lock x) (mb_closed x) (mb_done x)
                 (mb_senders x) (mb_accepted x) (mb_handled x) (mb_drained x ++ [(t, c)]))
  | m_exit code reason :
      mb_phase x = Draining code reason -> mb_queue x = [] -> mstep x (at_room (mb_room x) Gone (mb_done x) x).

Inductive mrun (r0 : Room (C := C)) : box -> Prop :=
  | mr_start : mrun r0 (MkBox r0 Starting [] None false false ∅ [] [] [])
  | mr_step x y : mrun r0 x -> mstep x y -> mrun r0 y.

(** ** The invariant *)

Definition locked (s : sender) : bool := match s with Holding _ | Selecting _ => true | _ => false end.

Record box_inv (x : box) : Prop := {
  bx_order : mb_accepted x = mb_handled x ++ mb_drained x ++ mb_queue x;
  bx_accepted : forall t, t ∈ (mb_accepted x).*1 <-> mb_senders x !! t = Some (Returned None);
  bx_once : NoDup (mb_accepted x).*1;
  bx_lock : forall t s, mb_senders x !! t = Some s -> locked s = true <-> mb_lock x = Some t;
  bx_holder : forall t, mb_lock x = Some t -> is_Some (mb_senders x !! t);
  bx_selecting : forall t c, mb_senders x !! t = Some (Selecting c) -> mb_closed x = false;
  bx_phase : match mb_phase x with
             | Starting | Up | Ending _ _ => mb_closed x = false /\ mb_done x = false /\ mb_drained x = []
             | Handover _ _ => mb_closed x = false /\ mb_done x = true /\ mb_drained x = []
             | Draining _ _ => mb_closed x = true /\ mb_done x = true
             | Gone => mb_closed x = true /\ mb_done x = true /\ mb_queue x = []
             end;
  bx_cap : (length (mb_queue x) <= Mailbox)%nat;
}.

(** A caller moves on, with the lock as it leaves it; nothing is accepted. *)
Lemma at_sender_inv t s lock x :
  box_inv x -> s <> Returned None -> mb_senders x !! t <> Some (Returned None) ->
  (lock = if locked s then Some t else if decide (mb_lock x = Some t) then None else mb_lock x) ->
  (locked s = true -> mb_lock x = Some t \/ mb_lock x = None) ->
  (forall c, s = Selecting c -> mb_closed x = false) ->
  box_inv (at_sender t s lock x).
Proof.
  intros [H1 H2 H3 H4 H5 H6 H7 H8] Hs Ht Hlock Hfree Hsel. split; cbn; try done.
  - intros t'. rewrite H2. destruct (decide (t = t')) as [->|Hne]; [|by rewrite lookup_insert_ne].
    rewrite lookup_insert_eq. split; [done|by intros [= ->]].
  - intros t' s' Hl. destruct (decide (t = t')) as [->|Hne].
    + rewrite lookup_insert_eq in Hl. injection Hl as <-. subst lock. destruct (locked s) eqn:E; [done|].
      split; [done|]. case_decide; [done|]. done.
    + rewrite lookup_insert_ne in Hl by done. rewrite (H4 _ _ Hl). subst lock. destruct (locked s) eqn:E.
      * split; [|congruence]. intros Hm. destruct (Hfree eq_refl); congruence.
      * case_decide; [|done]. split; congruence.
  - intros t' Hl. destruct (decide (t = t')) as [->|Hne]; [by rewrite lookup_insert_eq|]. rewrite lookup_insert_ne by done.
    apply H5. subst lock. destruct (locked s); [congruence|]. by case_decide.
  - intros t' c Hl. destruct (decide (t = t')) as [->|Hne].
    + rewrite lookup_insert_eq in Hl. injection Hl as ->. by eapply Hsel.
    + rewrite lookup_insert_ne in Hl by done. by eapply H6.
Qed.

(** The command goes into the mailbox. *)
Lemma put_inv t c x :
  box_inv x -> mb_senders x !! t = Some (Selecting c) -> (length (mb_queue x) < Mailbox)%nat ->
  box_inv (put t c (at_sender t (Returned None) None x)).
Proof.
  intros [H1 H2 H3 H4 H5 H6 H7 H8] Ht Hcap. pose proof (H6 _ _ Ht) as Hcl.
  assert (mb_lock x = Some t) as Hl by (by apply (H4 _ _ Ht)).
  assert (t ∉ (mb_accepted x).*1) as Hfresh by (rewrite H2; congruence).
  split; cbn.
  - by rewrite H1, <- !app_assoc.
  - intros t'. rewrite fmap_app, elem_of_app, H2. cbn. destruct (decide (t = t')) as [->|Hne].
    + rewrite lookup_insert_eq. split; [done|]. intros _. right. by left.
    + rewrite lookup_insert_ne by done. split; [intros [?|?]; [done|set_solver]|by left].
  - rewrite fmap_app. apply NoDup_app. split_and!; [done| |apply NoDup_singleton]. cbn. set_solver.
  - intros t' s' Hs. destruct (decide (t = t')) as [->|Hne].
    + rewrite lookup_insert_eq in Hs. by injection Hs as <-.
    + rewrite lookup_insert_ne in Hs by done. rewrite (H4 _ _ Hs). split; congruence.
  - done.
  - intros t' c' Hs. destruct (decide (t = t')) as [->|Hne]; [by rewrite lookup_insert_eq in Hs|].
    rewrite lookup_insert_ne in Hs by done. by eapply H6.
  - destruct (mb_phase x); try done; destruct H7 as [? ?]; congruence.
  - rewrite length_app. cbn. lia.
Qed.

Lemma mstep_inv x y : mstep x y -> box_inv x -> box_inv y.
Proof.
  intros Hst Hx. pose proof Hx as [H1 H2 H3 H4 H5 H6 H7 H8].
  destruct Hst as [t c Ht|t c Ht Hl|t c Ht Hc|t c Ht Hc|t c Ht Hc|t c Ht Hd|r Hp|now reason Hp|now Hp|now t c q ev rep r Hp Hq Hh
    |now ev rep r Hp Hh|now env Hp|code reason Hp|code reason Hp Hl|code reason t c q Hp Hq|code reason Hp Hq].
  - apply at_sender_inv; try done; [congruence|]. cbn. case_decide as E; [|done]. apply H5 in E as []. congruence.
  - apply at_sender_inv; try done; [congruence|by right].
  - apply at_sender_inv; try done; [congruence|]. cbn. rewrite decide_True; [done|]. by apply (H4 _ _ Ht).
  - assert (mb_lock x = Some t) as Hl by (by apply (H4 _ _ Ht)). apply at_sender_inv; try done; [congruence|by left].
  - by apply put_inv.
  - apply at_sender_inv; try done; [congruence|]. cbn. rewrite decide_True; [done|]. by apply (H4 _ _ Ht).
  - rewrite Hp in H7. by split.
  - rewrite Hp in H7. by split.
  - rewrite Hp in H7. by split.
  - rewrite Hp in H7. destruct H7 as (E1 & E2 & E3). rewrite Hq, E3 in *. split; cbn; try done.
    + by rewrite H1, <- ?app_assoc.
    + by destruct ev.
    + cbn in H8. lia.
  - rewrite Hp in H7. split; try done. cbn. by destruct ev.
  - rewrite Hp in H7. split; try done.
  - rewrite Hp in H7. destruct H7 as (E1 & E2 & E3). by split.
  - rewrite Hp in H7. destruct H7 as (E1 & E2 & E3). split; cbn; try done.
    + intros t s Hs. by rewrite (H4 _ _ Hs), Hl.
    + intros t c Hs. specialize (H4 _ _ Hs) as [H4 _]. rewrite Hl in H4. by specialize (H4 eq_refl).
  - rewrite Hp, Hq in *. destruct H7 as (E1 & E2). split; cbn; try done; [by rewrite H1, <- !app_assoc|cbn in H8; lia].
  - rewrite Hp in H7. destruct H7 as (E1 & E2). by split.
Qed.

Lemma mrun_inv r0 x : mrun r0 x -> box_inv x.
Proof.
  induction 1 as [|x y _ IH Hst]; [|by eapply mstep_inv].
  split; cbn; try done; try (intros; set_solver); [constructor|lia].
Qed.

(** ** The shutdown is [stop] *)

Definition joiners (l : list (nat * command)) : list connID :=
  omap (fun x => match x.2 with joinCmd conn => Some conn | _ => None end) l.

(** The room is what [stop] makes of some room, with the joiners drained so far. *)
Definition stopped_as (code : Z) (reason : bytes) (l : list (nat * command)) (r : Room (C := C)) : Prop :=
  exists now r1, r = stop now code reason (joiners l) r1.

Lemma stop_queued now code reason q r :
  stop now code reason q r = foldl (fun r c => close_conn code reason c r) (stop now code reason [] r) q.
Proof. done. Qed.

Lemma turn_away_stop code reason l t c r :
  stopped_as code reason l r -> stopped_as code reason (l ++ [(t, c)]) (turn_away code reason c r).
Proof.
  intros (now & r1 & ->). exists now, r1. unfold joiners. rewrite omap_app, stop_queued, (stop_queued _ _ _ (omap _ l ++ _)), foldl_app.
  by destruct c.
Qed.

Lemma handle_evicts now c r rep r' :
  handle Usage errText now [] c r = (true, rep, r') -> stopped_as CloseGoingAway (str "room evicted") [] r'.
Proof.
  destruct c; cbn; try (by intros [= <- <- <-]).
  - unfold tick. destruct (Sweep _ _ _) as [out a]. case_if; [done|]. case_if; [done|]. intros [= <- <-]. by eexists _, _.
  - by destruct (merge _ _ _) as [? ?].
  - by destruct (takeVersion _ _ _) as [? ?].
  - case_decide; [|done]. intros [= <- <-]. by exists now, r.
Qed.

Definition shutdown_ok (x : box) : Prop :=
  match mb_phase x with
  | Starting | Up => True
  | Ending code reason | Handover code reason => stopped_as code reason [] (mb_room x)
  | Draining code reason => stopped_as code reason (mb_drained x) (mb_room x)
  | Gone => exists code reason, stopped_as code reason (mb_drained x) (mb_room x)
  end.

Lemma mrun_shutdown r0 x : mrun r0 x -> shutdown_ok x.
Proof.
  induction 1 as [|x y Hx IH Hst]; [done|]. apply mrun_inv in Hx as Hinv. pose proof (bx_phase _ Hinv) as Hph.
  unfold shutdown_ok in *.
  destruct Hst as [t c Ht|t c Ht Hl|t c Ht Hc|t c Ht Hc|t c Ht Hc|t c Ht Hd|r Hp|now reason Hp|now Hp|now t c q ev rep r Hp Hq Hh
    |now ev rep r Hp Hh|now env Hp|code reason Hp|code reason Hp Hl|code reason t c q Hp Hq|code reason Hp Hq]; cbn; try done.
  - by exists now, (mb_room x).
  - by exists now, (mb_room x).
  - destruct ev; [|done]. by eapply handle_evicts.
  - destruct ev; [|done]. by eapply handle_evicts.
  - by rewrite Hp in IH.
  - rewrite Hp in IH, Hph. by destruct Hph as (_ & _ & ->).
  - rewrite Hp in IH. by apply turn_away_stop.
  - rewrite Hp in IH. by exists code, reason.
Qed.

(** C16. The handover at shutdown is total.  However callers and the room interleave, the
    commands [send] accepted are, in that order and each once, those the room handled,
    those its shutdown drained and those still in the mailbox, which keeps its bound; a
    call returns without an error exactly when its command was accepted; nothing is
    drained while the room runs, and nothing is left behind when it is gone.  The room
    that is left is the one [stop] makes, with the joiners that were drained told why. *)
Theorem handover_total r0 x :
  mrun r0 x ->
  mb_accepted x = mb_handled x ++ mb_drained x ++ mb_queue x
  /\ NoDup (mb_accepted x).*1 /\ (length (mb_queue x) <= Mailbox)%nat
  /\ (forall t, mb_senders x !! t = Some (Returned None) <-> t ∈ (mb_accepted x).*1)
  /\ (mb_done x = false -> mb_drained x = [])
  /\ (mb_phase x = Gone -> mb_queue x = [] /\ exists now code reason r, mb_room x = stop now code reason (joiners (mb_drained x)) r).
Proof.
  intros Hr. pose proof (mrun_inv _ _ Hr) as [H1 H2 H3 _ _ _ H7 H8]. pose proof (mrun_shutdown _ _ Hr) as Hs.
  split_and!; try done.
  - intros Hd. destruct (mb_phase x); try (by apply H7); destruct H7 as (_ & H7 & ?) || destruct H7 as [_ H7]; congruence.
  - intros Hp. rewrite Hp in H7. split; [by apply H7|]. unfold shutdown_ok in Hs. rewrite Hp in Hs.
    destruct Hs as (code & reason & now & r & ->). by exists now, code, reason, r.
Qed.

(** ** The shutdown ends *)

Definition steps_left (s : sender) : nat :=
  match s with Calling _ => 4 | Holding _ => 3 | Selecting _ => 2 | Returned _ => 0 end.

Definition callers_left (m : gmap nat sender) : nat := sum_list_with (fun x => steps_left x.2) (map_to_list m).

Definition phase_left (p : phase) : nat := match p with Gone => 0 | Draining _ _ => 1 | _ => 2 end.

Definition left_to_do (x : box) : nat := callers_left (mb_senders x) + length (mb_queue x) + phase_left (mb_phase x).

Lemma callers_left_move m t a b :
  m !! t = Some a -> (callers_left (<[t := b]> m) + steps_left a = callers_left m + steps_left b)%nat.
Proof.
  intros Ht. rewrite <- (insert_delete_id m t a Ht) at 2. unfold callers_left.
  rewrite <- (insert_delete_eq m t b). rewrite !map_to_list_insert by apply lookup_delete_eq. cbn. lia.
Qed.

(** Every step of a party already there. *)
Definition is_call (x y : box) : Prop := exists t c, mb_senders x !! t = None /\ y = at_sender t (Calling c) (mb_lock x) x.

Lemma mstep_decreases x y : box_inv x -> mb_done x = true -> mstep x y -> is_call x y \/ (left_to_do y < left_to_do x)%nat.
Proof.
  intros Hinv Hd Hst. pose proof (bx_phase _ Hinv) as Hph. unfold left_to_do.
  destruct Hst as [t c Ht|t c Ht Hl|t c Ht Hc|t c Ht Hc|t c Ht Hc|t c Ht Hd'|r Hp|now reason Hp|now Hp|now t c q ev rep r Hp Hq Hh
    |now ev rep r Hp Hh|now env Hp|code reason Hp|code reason Hp Hl|code reason t c q Hp Hq|code reason Hp Hq];
    try (rewrite Hp in Hph; destruct Hph as (? & ? & ?); congruence); [left; by exists t, c|right; cbn..].
  all: try match goal with |- context [callers_left (<[?t := ?b]> ?m)] =>
      pose proof (callers_left_move m t _ b Ht) as M; cbn in M end.
  all: rewrite ?length_app, ?Hp, ?Hq; cbn; lia.
Qed.

Definition back (s : sender) : bool := match s with Returned _ => true | _ => false end.

Lemma holder_moves x t : box_inv x -> mb_done x = true -> mb_lock x = Some t -> exists y, mstep x y /\ ~ is_call x y.
Proof.
  intros Hinv Hd Hl. destruct (bx_holder _ Hinv t Hl) as [s Hs]. pose proof (proj2 (bx_lock _ Hinv t s Hs) Hl) as Hk.
  assert (forall s' lock, ~ is_call x (at_sender t s' lock x)) as Hnc.
  { intros s' lock (t' & c' & Hn & E). apply (f_equal mb_senders) in E. cbn in E. apply (f_equal (lookup t')) in E.
    rewrite lookup_insert_eq in E. destruct (decide (t = t')) as [->|Hne]; [congruence|].
    rewrite lookup_insert_ne in E by done. congruence. }
  destruct s as [c|c|c|e]; try done.
  - destruct (mb_closed x) eqn:Ec; [eexists; split; [by eapply m_refuse|apply Hnc]|eexists; split; [by eapply m_select|apply Hnc]].
  - eexists. split; [by eapply m_done|apply Hnc].
Qed.

(** Whoever is not back can still move, or somebody else can. *)
Lemma mstep_progress x : box_inv x -> mb_done x = true ->
  (exists y, mstep x y /\ ~ is_call x y)
  \/ mb_phase x = Gone /\ forall t s, mb_senders x !! t = Some s -> exists e, s = Returned e.
Proof.
  intros Hinv Hd. destruct (mb_lock x) as [t|] eqn:Hl; [left; by eapply holder_moves|].
  pose proof (bx_phase _ Hinv) as Hph.
  assert (forall y, mb_senders y = mb_senders x -> ~ is_call x y) as Hnc.
  { intros y E (t' & c' & Hn & ->). cbn in E. apply (f_equal (lookup t')) in E. rewrite lookup_insert_eq in E. congruence. }
  destruct (mb_phase x) eqn:Hp; try (destruct Hph as (? & ? & ?); congruence).
  - left. eexists. split; [by eapply m_close|by apply Hnc].
  - left. destruct (mb_queue x) as [|[t c] q] eqn:Hq; [eexists; split; [by eapply m_exit|by apply Hnc]|eexists; split; [by eapply m_drain|by apply Hnc]].
  - destruct (decide (map_Forall (fun _ s => back s = true) (mb_senders x))) as [Hall|Hn].
    + right. split; [done|]. intros t s Hs. specialize (Hall t s Hs). destruct s; try done. eauto.
    + left. apply map_not_Forall in Hn as (t & s & Hs & Hn); [|apply _].
      pose proof (bx_lock _ Hinv t s Hs) as Hk. rewrite Hl in Hk. destruct s as [c|c|c|e]; try done; try (by destruct Hk as [Hk _]; specialize (Hk eq_refl)).
      eexists. split; [by eapply m_lock|]. intros (t' & c' & Hn' & E). apply (f_equal mb_lock) in E. cbn in E. congruence.
Qed.

(** C17. A shutdown ends, for everybody.  Once a room has closed [done], every step of the
    callers already there and of the room brings the end closer, whatever else is called
    meanwhile, and until the room is gone and every call has returned one of them can
    move: no caller is left blocked on the mailbox or on the lock. *)
Theorem shutdown_ends r0 x :
  mrun r0 x -> mb_done x = true ->
  (forall y, mstep x y -> is_call x y \/ (left_to_do y < left_to_do x)%nat)
  /\ ((exists y, mstep x y /\ ~ is_call x y)
      \/ mb_phase x = Gone /\ forall t s, mb_senders x !! t = Some s -> exists e, s = Returned e).
Proof.
  intros Hr Hd. apply mrun_inv in Hr. split; [intros y; by apply mstep_decreases|by apply mstep_progress].
Qed.
End Mailbox.

(** ** A joiner that comes too late *)

#[local] Existing Instance any_order.
#[local] Instance mail_ops : ConnOps conn := gateway_ops false.

#[local] Notation mail_run := (mrun demo_usage demo_text 2 empty_room).

Tactic Notation "mail" uconstr(c) :=
  lazymatch goal with R : mrun _ _ _ _ ?x |- _ =>
    let R' := fresh in
    eassert (mail_run _) as R' by (eapply (mr_step _ _ _ _ x _ R); eapply c; first [reflexivity | by vm_compute; lia]);
    clear R; rename R' into R;
    lazymatch type of R with mrun _ _ _ _ ?y => let y' := eval vm_compute in y in change (mail_run y') in R end end.

(** The room is asked to go and does; a client joins before [done] is closed, its command
    is accepted, and the drain closes its connection. *)
Lemma late_join_run : exists x, mail_run x /\ mb_done x = true /\ mb_phase x = Gone
  /\ mb_accepted x = [(0%nat, evictCmd); (1%nat, joinCmd 1)] /\ mb_drained x = [(1%nat, joinCmd 1)]
  /\ mb_senders x !! 1%nat = Some (Returned None).
Proof.
  pose proof (mr_start demo_usage demo_text 2 empty_room) as R.
  mail (m_up demo_usage demo_text 2 _ empty_room).
  mail (m_call demo_usage demo_text 2 _ 0%nat evictCmd).
  mail (m_lock demo_usage demo_text 2 _ 0%nat evictCmd).
  mail (m_select demo_usage demo_text 2 _ 0%nat evictCmd).
  mail (m_put demo_usage demo_text 2 _ 0%nat evictCmd).
  mail (m_handle demo_usage demo_text 2 _ 5).
  mail (m_call demo_usage demo_text 2 _ 1%nat (joinCmd 1)).
  mail (m_lock demo_usage demo_text 2 _ 1%nat (joinCmd 1)).
  mail (m_select demo_usage demo_text 2 _ 1%nat (joinCmd 1)).
  mail (m_close_done demo_usage demo_text 2).
  mail (m_put demo_usage demo_text 2 _ 1%nat (joinCmd 1)).
  mail (m_close demo_usage demo_text 2).
  mail (m_drain demo_usage demo_text 2).
  mail (m_exit demo_usage demo_text 2).
  eexists. split; [exact R|]. by vm_compute.
Qed.

Lemma handover_total_witness :
  exists x : box (C := conn), mb_phase x = Gone /\ mb_queue x = [] /\ mb_accepted x = mb_handled x ++ [(1%nat, joinCmd 1)] ++ [].
Proof.
  destruct late_join_run as (x & R & _ & Hp & _ & Hd & _). exists x.
  destruct (handover_total demo_usage demo_text 2 empty_room x R) as (H1 & _ & _ & _ & _ & H6).
  destruct (H6 Hp) as [Hq _]. split; [exact Hp|]. split; [exact Hq|]. rewrite <- Hd, <- Hq. exact H1.
Defined.

Lemma shutdown_ends_witness :
  exists x : box (C := conn), mb_done x = true /\ ((exists y, mstep demo_usage demo_text 2 x y /\ ~ is_call x y) \/ mb_phase x = Gone).
Proof.
  destruct late_join_run as (x & R & Hd & Hp & _). exists x. split; [exact Hd|].
  destruct (shutdown_ends demo_usage demo_text 2 empty_room x R Hd) as [_ [H|[H _]]]; [left; exact H|right; exact H].
Defined.
