(* ===== verification/Persist.v ===== *)
(** * Persistence

    [internal/room/persist.go], [internal/room/versions.go] (the writer's half),
    [internal/room/write.go] (Import) and [internal/room/read.go] (Fetch): the
    goroutine that writes a room's jobs to the store, how a document is loaded back, and
    the two operations on documents no room holds.

    The writer is a fold over what it receives: jobs in the order the room queued them,
    and ticks of its timer.  Each reception carries the faults of its database calls,
    the database's clock and the bytes of its random source.  Durable mode
    ([FlushInterval < 0]), in which the room waits for every update, is [durable]. *)

From S2P Require Import Prelude Lib0 Content StateVector DeleteSet Struct Update StructStore Doc Sync.
From S2P Require Import Uuid Pack Store Cluster Conn Awareness Room.

Definition maxBatch : Z := 256.

(** ** The writer *)

Record Writer := MkWriter {
  w_batch : list bytes;
  (** [r.folded]: the log rows the next snapshot will cover. *)
  w_folded : list Z;
  w_db : Database;
  (** [r.storedRows], for the next store event. *)
  w_stored : Z;
}.

(** What the writer receives. *)
Inductive reception :=
  | GotJob (j : persistJob)
  | GotTick.

Record at_time := MkAt { at_faults : faults; at_now : Z; at_random : bytes }.

Section Writer.
Context (deflate inflate : bytes -> option bytes).
(** [r.docID], [FlushInterval < 0], [cfg.VersionKeep]. *)
Context (docID : UUID) (durable : bool) (VersionKeep : Z).

Definition flush (t : at_time) (w : Writer) : Writer :=
  match w_batch w with
  | [] => w
  | batch =>
      let '(out, db) := Append (at_faults t) (at_now t) docID batch (w_db w) in
      match out with
      | Err _ => MkWriter [] (w_folded w) db (w_stored w)
      | Ok seqs => MkWriter [] (w_folded w ++ seqs) db (w_stored w + Z.of_nat (length batch))
      end
  end.

Definition compact (t : at_time) (snapshot : bytes) (w : Writer) : Writer :=
  if decide (w_folded w = []) then w
  else
    let '(err, db) := Compact deflate (at_faults t) (at_now t) docID snapshot (w_folded w) (w_db w) in
    let folded := match err with
                  | None | Some ErrStaleSnapshot => []
                  | Some _ => w_folded w
                  end in
    MkWriter (w_batch w) folded db (w_stored w).

Definition saveVersion (t : at_time) (payload stateVector label : bytes) (minAge : Z) (w : Writer) : Writer :=
  let '(out, db) := SaveVersion deflate (at_faults t) (at_now t) (at_random t) docID
    stateVector payload label minAge (w_db w) in
  let w := MkWriter (w_batch w) (w_folded w) db (w_stored w) in
  match out with
  | Ok true =>
      if VersionKeep <=? 0 then w
      else MkWriter (w_batch w) (w_folded w) (PruneVersions (at_faults t) docID VersionKeep (w_db w)).2 (w_stored w)
  | _ => w
  end.

(** One turn of [persist]'s loop. *)
Definition persist_step (w : Writer) (x : reception * at_time) : Writer :=
  let '(ev, t) := x in
  match ev with
  | GotJob (JobVersion payload sv label minAge) => saveVersion t payload sv label minAge w
  | GotJob (JobSnapshot snapshot) => compact t snapshot (flush t w)
  | GotJob (JobUpdate payload) =>
      let w := MkWriter (w_batch w ++ [payload]) (w_folded w) (w_db w) (w_stored w) in
      if (maxBatch <=? Z.of_nat (length (w_batch w))) || durable then flush t w else w
  | GotTick => flush t w
  end.

(** [persist], until its channel is closed: the last flush is [final]. *)
Definition persist (events : list (reception * at_time)) (final : at_time) (w : Writer) : Writer :=
  flush final (foldl persist_step w events).
End Writer.

(** ** Loading *)

Section Load.
Context (inflate : bytes -> option bytes) (sha1 : bytes -> bytes) {MO : MapOrder}.

(** The rows of the log; one that does not apply is skipped. *)
Definition replay (us : list bytes) (d : Doc) : Doc * Z :=
  foldl (fun (acc : Doc * Z) u => let '(d, skipped) := acc in match Doc.ApplyUpdate u d with Ok d' => (d', skipped) | Err _ => (d, skipped + 1) end)
    (d, 0) us.

(** The document part of [Room.load] and of [Fetch]: a snapshot that does not apply is
    an error. *)
Definition restore (stored : Document) (d : Doc) : res (Doc * Z) :=
  d ← match Store.Snapshot stored with Some b => Doc.ApplyUpdate b d | None => Ok d end;
  Ok (replay (Updates stored) d).

(** [Room.load]: the room with the document, and the rows its writer starts with. *)
Definition load_room {C} (Usage : Doc -> Z * Z) (f : faults) (now : Z) (docID : UUID) (name : bytes) (owner : UUID)
    (r : @Room.Room C) (db : Database) : res (@Room.Room C * list Z * Database) :=
  '(stored, db) ← Load inflate f now docID name owner db;
  '(d, _) ← restore stored (r_doc r);
  let r := with_jobs (r_jobsOpen r) (r_jobs r) (Z.of_nat (length (Updates stored))) (with_doc d r) in
  let r := touchDocument r in
  let r := with_usage (MkUsage (u_bytes (r_usage r)) (u_structs (r_usage r)) (u_dirty (r_usage r)) zeroTime) r in
  Ok (measure Usage now r, Seqs stored, db).

Definition Fetch (f : faults) (now : Z) (name sv : bytes) (db : Database) : res Room.Snapshot :=
  '(stored, _) ← LoadAny inflate f now (DocumentID sha1 name) db;
  if decide (Store.Snapshot stored = None /\ Updates stored = []) then Err ErrNoDocument
  else
    '(d, skipped) ← restore stored (NewDoc 0);
    s ← encodeSnapshot d sv;
    Ok (MkSnapshot (s_Update s) (s_StateVector s) (s_Clients s) (s_Resident s) skipped).

(** [Import]: what it writes, and the envelope it publishes when there is a bus. *)
Definition Import (f : faults) (now : Z) (owner : bytes) (bus : bool) (NodeID : Z) (name update : bytes) (db : Database)
    : res (option Envelope) * Database :=
  match Doc.ApplyUpdate update (NewDoc 0) with
  | Err e => (Err e, db)
  | Ok _ =>
      let id := DocumentID sha1 name in
      match Ensure f now id name (OwnerID sha1 owner) db with
      | Err e => (Err e, db)
      | Ok (found, db) =>
          if bool_decide (owner <> []) && bool_decide (found <> OwnerID sha1 owner) then (Err ErrWrongOwner, db)
          else
            let '(out, db) := Append f now id [update] db in
            match out with
            | Err e => (Err e, db)
            | Ok _ => (Ok (if bus then Some (MkEnvelope NodeID KindUpdate update) else None), db)
            end
      end
  end.
End Load.
