(* ===== verification/PersistProps.v ===== *)
(** * The writer implements a write-through log

    Batching, flush timers and compaction are invisible: with a database that answers,
    what is stored is what would be stored if every job were written at once. *)

From S2P Require Import Prelude Lib0 Content StateVector DeleteSet Struct Update StructStore Doc Sync Cluster Conn Awareness Room.
From S2P Require Import Uuid Pack Store StoreProps StoreLog StoreLife Persist.

(** The abstract store of one document. *)
Record Saved := MkSaved { saved_snapshot : option bytes; saved_log : list bytes }.

(** A job written at once: an update is logged, a snapshot replaces the log it covers. *)
Definition write_job (s : Saved) (j : persistJob) : Saved :=
  match j with
  | JobUpdate p => MkSaved (saved_snapshot s) (saved_log s ++ [p])
  | JobSnapshot b => if decide (saved_log s = []) then s else MkSaved (Some b) []
  | JobVersion _ _ _ _ => s
  end.

Definition jobs_of (events : list (reception * at_time)) : list persistJob :=
  omap (fun x => match x.1 with GotJob j => Some j | GotTick => None end) events.

Section Refine.
Context (deflate inflate : bytes -> option bytes).
Hypothesis flate : forall x y, deflate x = Some y -> inflate y = Some x.
Context (docID : UUID) (durable : bool) (VersionKeep : Z).
#[local] Notation view := (StoreProps.view inflate).
#[local] Notation db_ok := (StoreProps.db_ok inflate).
#[local] Notation persist_step := (persist_step deflate docID durable VersionKeep).

Definition log_payloads (m : gmap Z LogRow) : list bytes := map (fun x => log_payload x.2) (rows m).

(** The writer holds [s]: part of its log is still in the batch, and the rows of the
    others are exactly the ones the next snapshot covers. *)
Record holds (s : Saved) (w : Writer) : Prop := {
  ho_db : db_ok (w_db w);
  ho_view : exists v, view (w_db w) docID = Some v
    /\ vw_snapshot v = Ok (saved_snapshot s)
    /\ log_payloads (vw_log v) ++ w_batch w = saved_log s
    /\ w_folded w = (rows (vw_log v)).*1
    /\ Forall (fun x => vw_seq v < x < next_seq (w_db w)) (w_folded w);
}.

Lemma rows_keys (m : gmap Z LogRow) k : is_Some (m !! k) -> k ∈ (rows m).*1.
Proof.
  intros [x Hx]. apply list_elem_of_fmap. exists (k, x). split; [done|].
  apply list_elem_of_omap. exists k. rewrite elem_of_asc, Hx. eauto.
Qed.

Lemma flush_eq t w :
  w_batch w <> [] ->
  flush docID t w =
    let '(out, db) := Append (at_faults t) (at_now t) docID (w_batch w) (w_db w) in
    match out with
    | Err _ => MkWriter [] (w_folded w) db (w_stored w)
    | Ok seqs => MkWriter [] (w_folded w ++ seqs) db (w_stored w + Z.of_nat (length (w_batch w)))
    end.
Proof. unfold flush. by destruct (w_batch w). Qed.

Lemma Append_succeeds now id ps db v :
  view db id = Some v -> ps <> [] ->
  (Append no_faults now id ps db).1 = Ok (seqZ (next_seq db) (Z.of_nat (length ps))).
Proof.
  unfold StoreProps.view, Append. intros Hv Hps. destruct ps; [done|]. cbn [no_faults].
  by destruct (documents db !! id).
Qed.

Lemma flush_holds t s w :
  at_faults t = no_faults -> holds s w -> holds s (flush docID t w) /\ w_batch (flush docID t w) = [].
Proof.
  intros Ht Hw. destruct (decide (w_batch w = [])) as [Eb|Eb]; [unfold flush; by rewrite Eb|].
  destruct Hw as [Hok (v & Hv & Hs & Hl & Hf & Hb)]. rewrite flush_eq by done.
  set (batch := w_batch w) in *. rewrite Ht.
  pose proof (Append_ok inflate no_faults (at_now t) docID batch (w_db w) Hok) as H.
  pose proof (Append_succeeds (at_now t) docID batch (w_db w) v Hv Eb) as Eout.
  destruct (Append _ _ _ _ _) as [out db']. cbn in Eout. subst out. destruct H as (H1 & _ & H2).
  destruct H2 as [[_ ?]|[(E & _)|(H2 & _ & Hn & _)]]; [done..|].
  rewrite Hv in H2. cbn in H2.
  assert (Hlt : forall j, is_Some (vw_log v !! j) -> j < next_seq (w_db w)).
  { intros j Hj. unfold StoreProps.view in Hv. destruct (documents _ !! _); [|done]. injection Hv as <-.
    by apply (ok_seq _ _ Hok) in Hj as [_ ?]. }
  pose proof (rows_insert_rows (at_now t) batch _ _ Hlt) as Hr.
  assert (length (seqZ (next_seq (w_db w)) (Z.of_nat (length batch))) = length batch) as Hlen by (rewrite length_seqZ; lia).
  split; [|done]. split; [done|]. eexists. split; [exact H2|]. cbn [vw_snapshot vw_log vw_seq appended w_batch w_folded w_db].
  split_and!; [done| | |].
  - unfold log_payloads. rewrite Hr, map_app, app_nil_r, <- Hl. f_equal.
    rewrite <- (map_map snd log_payload). change (map snd) with (@fmap list _ (Z * LogRow)%type _ snd).
    rewrite snd_zip by (rewrite length_map; lia). rewrite map_map. apply map_id.
  - rewrite Hr, fmap_app, Hf. f_equal. symmetry. apply fst_zip. rewrite length_map. lia.
  - apply Forall_app. split.
    + eapply Forall_impl; [exact Hb|]. cbn. lia.
    + rewrite Forall_forall. intros x Hx%elem_of_seqZ.
      assert (vw_seq v < next_seq (w_db w)).
      { unfold StoreProps.view in Hv. destruct (documents (w_db w) !! docID) as [r|] eqn:Er; [|done].
        injection Hv as <-. by apply (ok_wm _ _ Hok) in Er as [_ ?]. }
      lia.
Qed.

Lemma Compact_succeeds now id snap folded db r :
  documents db !! id = Some r -> folded <> [] -> snapshot_seq r < watermark_of folded ->
  (Compact deflate no_faults now id snap folded db).1 = None.
Proof.
  intros Hr Hne Hlt. unfold Compact. rewrite decide_False by done. cbn [no_faults orb].
  destruct (Pack.Pack deflate snap) as [packed codec]. unfold putBlob. cbn [no_faults].
  apply Z.ltb_lt in Hlt. destruct (useBlobs db); cbn [negb]; cbn [documents set_objects]; rewrite Hr, Hlt; cbn [negb];
    by case_decide.
Qed.

Lemma compact_holds t snap s w :
  uuid_ok docID -> at_faults t = no_faults -> holds s w -> w_batch w = [] ->
  holds (write_job s (JobSnapshot snap)) (compact deflate docID t snap w).
Proof.
  intros Hid Ht Hw Hbatch. pose proof Hw as [Hok (v & Hv & Hs & Hl & Hf & Hb)].
  rewrite Hbatch, app_nil_r in Hl. unfold compact, write_job.
  assert (saved_log s = [] <-> w_folded w = []) as Hnil.
  { rewrite <- Hl, Hf. unfold log_payloads. destruct (rows (vw_log v)); done. }
  destruct (decide (w_folded w = [])) as [E|Hne].
  { rewrite decide_True by (by apply Hnil). done. }
  rewrite decide_False by (by rewrite Hnil). rewrite Ht.
  assert (exists r, documents (w_db w) !! docID = Some r /\ snapshot_seq r = vw_seq v) as (r & Er & Es).
  { unfold StoreProps.view in Hv. destruct (documents (w_db w) !! docID) as [r|]; [|done]. injection Hv as <-. eauto. }
  assert (vw_seq v < watermark_of (w_folded w)) as Hwm.
  { destruct (w_folded w) as [|x l] eqn:El; [done|]. destruct (watermark_spec (x :: l)) as (_ & Hmax & _).
    specialize (Hmax x ltac:(left)). apply Forall_cons in Hb as [Hb _]. lia. }
  pose proof (Compact_ok deflate inflate flate no_faults (at_now t) docID snap (w_folded w) (w_db w) Hok Hid Hne) as H.
  pose proof (Compact_succeeds (at_now t) docID snap (w_folded w) (w_db w) r Er Hne ltac:(lia)) as Ec.
  destruct (Compact _ _ _ _ _ _) as [err db']. cbn in Ec. subst err. destruct H as (H1 & _ & H2 & _).
  { eapply Forall_impl; [exact Hb|]. cbn. lia. }
  { done. }
  rewrite Hv in H2. cbn in H2.
  assert (filter (fun x : Z * LogRow => x.1 ∉ w_folded w) (vw_log v) = ∅) as Hempty.
  { apply map_empty. intros k. apply eq_None_not_Some. intros [x [Hx Hk]%map_lookup_filter_Some].
    apply Hk. rewrite Hf. apply rows_keys. by eexists. }
  split; [done|]. eexists. split; [exact H2|]. cbn. rewrite Hempty. rewrite Hbatch. done.
Qed.

(** A version is beside the log: saving and pruning versions changes neither. *)
Lemma saveVersion_holds t payload sv label minAge s w :
  uuid_ok docID -> objects (w_db w) !! versionKey docID (at_random t) = None -> holds s w ->
  holds s (saveVersion deflate docID VersionKeep t payload sv label minAge w).
Proof.
  intros Hid Hfresh [Hok (v & Hv & Hs & Hl & Hf & Hb)]. unfold saveVersion.
  pose proof (SaveVersion_ok deflate inflate flate (at_faults t) (at_now t) (at_random t) docID sv payload label minAge
    (w_db w) Hok Hid Hfresh) as H.
  destruct (SaveVersion _ _ _ _ _ _ _ _ _) as [out db1]. destruct H as (H1 & _ & Hn & H2).
  assert (exists v1, view db1 docID = Some v1 /\ vw_snapshot v1 = vw_snapshot v /\ vw_log v1 = vw_log v /\ vw_seq v1 = vw_seq v)
    as (v1 & Hv1 & E1 & E2 & E3).
  { destruct out as [[]|]; [destruct H2 as (_ & -> & _)|destruct H2 as [_ ->]|rewrite H2]; rewrite Hv; by eexists. }
  assert (Hw1 : holds s (MkWriter (w_batch w) (w_folded w) db1 (w_stored w))).
  { split; [done|]. exists v1. cbn. by rewrite E1, E2, E3, Hn. }
  destruct out as [[]|]; try done. case_if; [done|]. cbn [w_batch w_folded w_db w_stored].
  pose proof (PruneVersions_ok inflate (at_faults t) docID VersionKeep db1 H1) as H.
  destruct (PruneVersions _ _ _ _) as [n db2]. destruct H as (H3 & _ & Hn2 & H4). cbn [snd].
  split; [done|]. cbn [w_batch w_folded w_db]. rewrite Hn2, Hn.
  destruct H4 as [[-> _]| ->]; rewrite Hv1; eexists; (split; [done|]); cbn; by rewrite E1, E2, E3.
Qed.

(** The database answers every call, and no random version key was drawn before. *)
Fixpoint answered (w : Writer) (events : list (reception * at_time)) : Prop :=
  match events with
  | [] => True
  | x :: rest =>
      at_faults x.2 = no_faults /\ objects (w_db w) !! versionKey docID (at_random x.2) = None
      /\ answered (persist_step w x) rest
  end.

Definition write_reception (s : Saved) (x : reception * at_time) : Saved :=
  match x.1 with GotJob j => write_job s j | GotTick => s end.

Lemma step_holds x s w :
  uuid_ok docID -> at_faults x.2 = no_faults -> objects (w_db w) !! versionKey docID (at_random x.2) = None ->
  holds s w -> holds (write_reception s x) (persist_step w x).
Proof.
  intros Hid Ht Hr Hw. destruct x as [[[p|snap|payload sv label minAge]|] t]; cbn in Ht, Hr.
  - assert (Hw1 : holds (write_job s (JobUpdate p)) (MkWriter (w_batch w ++ [p]) (w_folded w) (w_db w) (w_stored w))).
    { destruct Hw as [Hok (v & Hv & Hs & Hl & Hf & Hb)]. split; [done|]. exists v. cbn. by rewrite app_assoc, Hl. }
    cbn [persist_step write_reception fst]. case_if; [|done]. by apply flush_holds.
  - cbn [persist_step write_reception fst]. destruct (flush_holds t s w Ht Hw) as [H1 H2]. by apply compact_holds.
  - by apply saveVersion_holds.
  - cbn. by apply flush_holds.
Qed.

Lemma run_holds events : forall s w,
  uuid_ok docID -> answered w events -> holds s w ->
  holds (foldl write_job s (jobs_of events)) (foldl persist_step w events).
Proof.
  induction events as [|x events IH]; intros s w Hid Ha Hw; [done|]. destruct Ha as (Ht & Hr & Ha).
  cbn [foldl jobs_of]. pose proof (step_holds x s w Hid Ht Hr Hw) as H1. specialize (IH _ _ Hid Ha H1).
  destruct x as [[j|] t]; exact IH.
Qed.

(** The writer of a freshly loaded document. *)
Lemma loaded_holds now d db :
  db_ok db -> documents db !! docID <> None -> LoadAny inflate no_faults now docID db = Ok (d, db) ->
  Forall (fun x => SnapshotSeq d < x) (Seqs d) ->
  holds (MkSaved (Snapshot d) (Updates d)) (MkWriter [] (Seqs d) db 0).
Proof.
  intros Hok Hdoc Hl Hseq. rewrite LoadAny_view in Hl. destruct (view db docID) as [v|] eqn:Ev.
  2: { unfold StoreProps.view in Ev. by destruct (documents db !! docID). }
  unfold loaded in Hl. destruct (vw_snapshot v) as [sn|] eqn:Es; [|done]. cbn in Hl. injection Hl as <-. cbn in *.
  split; [done|]. exists v. split_and!; [done|by rewrite Es|by rewrite app_nil_r|done|]. cbn.
  rewrite Forall_forall in Hseq |- *. intros x Hx. split; [by apply Hseq|].
  apply list_elem_of_fmap in Hx as ([k row] & -> & Hx). apply list_elem_of_omap in Hx as (k' & Hk & Hx). cbn.
  apply elem_of_asc in Hk as Hk'. destruct (vw_log v !! k') eqn:El; [|done]. cbn in Hx. injection Hx as -> ->.
  apply (ok_seq _ _ Hok docID). unfold StoreProps.view in Ev. destruct (documents db !! docID); [|done].
  injection Ev as <-. by eexists.
Qed.

(** C10. The writer of a room implements a write-through log, as long as the database answers
    every call, this writer alone writes the document, and the log it loaded lies behind
    the snapshot.  Whatever the batching, the ticks, the flushes forced by [maxBatch] or
    durability, the versions saved in between and the compactions, what a later load
    returns is then what it would return had every job been written at once, in the order
    the room queued them: each update logged, each snapshot in place of the log it covers.
    (A failed write is dropped, [eviction_drops_failed_update]; two writers can lose an
    update, [overlapping_rooms_lose_update].) *)
Theorem writer_refines_log now now' events final d db :
  store_run deflate inflate db -> uuid_ok docID -> documents db !! docID <> None ->
  LoadAny inflate no_faults now docID db = Ok (d, db) -> Forall (fun x => SnapshotSeq d < x) (Seqs d) ->
  answered (MkWriter [] (Seqs d) db 0) events -> at_faults final = no_faults ->
  let s := foldl write_job (MkSaved (Snapshot d) (Updates d)) (jobs_of events) in
  let w := persist deflate docID durable VersionKeep events final (MkWriter [] (Seqs d) db 0) in
  exists d', LoadAny inflate no_faults now' docID (w_db w) = Ok (d', w_db w)
    /\ Snapshot d' = saved_snapshot s /\ Updates d' = saved_log s /\ w_folded w = Seqs d'.
Proof.
  intros Hrun Hid Hdoc Hl Hseq Ha Hfin. pose proof (store_run_ok _ _ flate _ Hrun) as Hok.
  pose proof (loaded_holds _ _ _ Hok Hdoc Hl Hseq) as H0. intros s w.
  destruct (flush_holds final s _ Hfin (run_holds events _ _ Hid Ha H0)) as [[Hok' (v & Hv & Hs & Hlog & Hf & _)] Hb].
  change (flush docID final _) with w in *. rewrite Hb, app_nil_r in Hlog.
  rewrite LoadAny_view, Hv. unfold loaded. rewrite Hs. cbn. by eexists.
Qed.
End Refine.

(** ** A run *)

Definition demo_time : at_time := MkAt no_faults 9 [1; 2].

Definition demo_events : list (reception * at_time) :=
  [(GotJob (JobUpdate [5]), demo_time); (GotTick, demo_time); (GotJob (JobUpdate [6]), demo_time);
   (GotJob (JobVersion [5; 6] [1] [] 0), demo_time); (GotJob (JobSnapshot [4; 5; 6]), MkAt no_faults 10 [3]);
   (GotJob (JobUpdate [7]), MkAt no_faults 11 [4])].

Definition demo_writer : Writer := MkWriter [] [1] (demo_db true [[4]]) 0.

Lemma writer_refines_log_witness :
  exists d, let w := persist toy_deflate demo_id false 2 demo_events demo_time demo_writer in
  LoadAny toy_inflate no_faults 12 demo_id (w_db w) = Ok (d, w_db w)
  /\ Snapshot d = Some [4; 5; 6] /\ Updates d = [[7]].
Proof.
  destruct (LoadAny toy_inflate no_faults 3 demo_id (demo_db true [[4]])) as [[d0 db0]|] eqn:E; [|by vm_compute in E].
  assert (db0 = demo_db true [[4]] /\ Snapshot d0 = None /\ Updates d0 = [[4]] /\ Seqs d0 = [1] /\ SnapshotSeq d0 = 0)
    as (-> & H1 & H2 & H3 & H4) by (vm_compute in E; by injection E as <- <-).
  destruct (writer_refines_log toy_deflate toy_inflate toy_flate demo_id false 2 3 12 demo_events demo_time d0
    (demo_db true [[4]])) as (d & Hd & Hs & Hu & _).
  - apply demo_store_run.
  - apply demo_id_ok.
  - done.
  - exact E.
  - rewrite H3, H4. by repeat constructor.
  - rewrite H3. vm_compute. split_and!; reflexivity || exact I.
  - done.
  - rewrite H3 in Hd. exists d. split_and!; [exact Hd| |].
    + rewrite Hs, H1, H2. reflexivity.
    + rewrite Hu, H1, H2. reflexivity.
Defined.

(** What the refinement needs an answering database for: the only update of a fresh
    room failed to reach the log, and the snapshot an eviction queues, which holds it,
    is not written either, because no log row waits to be folded. *)
Example eviction_drops_failed_update :
  let down := MkAt (fun c => match c with InsertRow => true | _ => false end) 9 [] in
  let w := persist toy_deflate demo_id false 0
    [(GotJob (JobUpdate [5]), demo_time); (GotTick, down); (GotJob (JobSnapshot [5]), demo_time)] demo_time
    (MkWriter [] [] (demo_row_db false) 0) in
  demo_load (w_db w) = Ok (None, []).
Proof. vm_compute. reflexivity. Qed.

(** What it needs a single writer for: a room that stops is still flushing when the
    next room of its document loads, and the second one's snapshot, which has not seen
    update [5], replaces the first one's because its rows have higher numbers. *)
Example overlapping_rooms_lose_update :
  let stopping := flush demo_id demo_time (MkWriter [[5]] [] (demo_row_db false) 0) in
  let fresh := flush demo_id demo_time (MkWriter [[6]] [] (w_db stopping) 0) in
  let stopped := compact toy_deflate demo_id demo_time [5] (MkWriter [] (w_folded stopping) (w_db fresh) 0) in
  let evicted := compact toy_deflate demo_id demo_time [6] (MkWriter [] (w_folded fresh) (w_db stopped) 0) in
  demo_load (w_db stopped) = Ok (Some [5], [[6]]) /\ demo_load (w_db evicted) = Ok (Some [6], []).
Proof. vm_compute. split; reflexivity. Qed.
