(* ===== verification/Registry.v ===== *)
(** * The registry of rooms

    [internal/room/registry.go] and the budget half of [internal/room/memory.go]: which
    documents are resident, who may join them, and which idle ones make way when the
    cap or the memory budget is reached.

    The registry knows a room through [RoomActor]; [RoomActor_Room] is the room of
    [Room].  Rooms live in a store of their own ([heap]) because one can outlive its
    place in the map: a room that stops leaves the map first ([OnExit]), then writes
    itself out, then is done.  The rooms run concurrently with each other and with
    every caller, so besides the sequential operations there is a step relation
    ([mstep]) whose steps are the critical sections of [mu], the database transactions
    and the actions of the rooms. *)

From S2P Require Import Prelude Awareness Uuid Store.

(** What the registry uses of a room. *)
Class RoomActor (R : Type) := {
  (** [New(cfg)] with the name and the owner filled in. *)
  New : bytes -> bytes -> Z -> R;
  (** [Room.Bytes]. *)
  Bytes : R -> Z;
  (** Nobody is connected: what an [evictCmd] is answered by. *)
  Idle : R -> bool;
  (** A command handled without stopping. *)
  acts : R -> R -> Prop;
}.

(** The life of a room's goroutine: running; out of the map and writing itself out;
    [done] closed. *)
Inductive phase := Running | Stopping | Stopped.

#[export] Instance phase_eq_dec : EqDecision phase.
Proof. solve_decision. Defined.

Inductive pressure := Cap | Budget.

Record ManagerConfig := MkManagerConfig { HasStore : bool; MaxRooms : Z; MaxMemory : Z }.

Section Registry.
Context {R : Type} `{!RoomActor R}.
Context (sha1 : bytes -> bytes) (cfg : ManagerConfig).

Record inst := MkInst { i_name : bytes; i_owner : UUID; i_room : R; i_phase : phase }.

(** A room is known by its address. *)
Record Manager := MkManager {
  m_rooms : gmap bytes Z;
  m_used : gmap bytes Z;
  m_clock : Z;
  m_closed : bool;
  m_pressure : option pressure;
  m_heap : gmap Z inst;
  m_next : Z;
  m_db : Database;
}.

Definition NewManager (db : Database) : Manager := MkManager ∅ ∅ 0 false None ∅ 0 db.

Definition set_heap (h : gmap Z inst) (m : Manager) : Manager :=
  MkManager (m_rooms m) (m_used m) (m_clock m) (m_closed m) (m_pressure m) h (m_next m) (m_db m).
Definition set_db (d : Database) (m : Manager) : Manager :=
  MkManager (m_rooms m) (m_used m) (m_clock m) (m_closed m) (m_pressure m) (m_heap m) (m_next m) d.
Definition set_pressure (p : pressure) (m : Manager) : Manager :=
  MkManager (m_rooms m) (m_used m) (m_clock m) (m_closed m) (Some p) (m_heap m) (m_next m) (m_db m).

(** ** Critical sections *)

Definition touch (name : bytes) (m : Manager) : Manager :=
  let c := u64 (m_clock m + 1) in
  MkManager (m_rooms m) (<[name := c]> (m_used m)) c (m_closed m) (m_pressure m) (m_heap m) (m_next m) (m_db m).

Definition forget (name : bytes) (h : Z) (m : Manager) : Manager :=
  if decide (m_rooms m !! name = Some h)
  then MkManager (delete name (m_rooms m)) (delete name (m_used m)) (m_clock m) (m_closed m) (m_pressure m)
         (m_heap m) (m_next m) (m_db m)
  else m.

Definition bytes_of (m : Manager) (h : Z) : Z :=
  match m_heap m !! h with Some i => Bytes (i_room i) | None => 0 end.
Definition residentBytes (m : Manager) : Z :=
  map_fold (fun _ h total => total + bytes_of m h) 0 (m_rooms m).

(** [m.used[name]]. *)
Definition used_of (m : Manager) (name : bytes) : Z := default 0 (m_used m !! name).
Definition before (m : Manager) (a b : bytes * Z) : Prop := used_of m a.1 <= used_of m b.1.
#[global] Instance before_dec m a b : Decision (before m a b).
Proof. unfold before. apply _. Defined.

Definition byLeastRecentlyUsed (m : Manager) : list Z :=
  (merge_sort (before m) (map_to_list (m_rooms m))).*2.

Definition overBudget (m : Manager) : bool * list Z :=
  if MaxMemory cfg <=? 0 then (false, [])
  else if residentBytes m <=? MaxMemory cfg then (false, [])
  else (true, byLeastRecentlyUsed m).

(** [resident]: the answer, when the room is open here. *)
Definition resident (name : bytes) (want : UUID) (m : Manager) : option (res Z) * Manager :=
  match m_rooms m !! name with
  | None => (None, m)
  | Some h =>
      match m_heap m !! h with
      | Some i => if decide (i_owner i = want) then (Some (Ok h), touch name m) else (Some (Err ErrWrongOwner), m)
      | None => (None, m)
      end
  end.

Definition settleOwner (f : faults) (now : Z) (name : bytes) (want : UUID) (m : Manager) : option GoError * Manager :=
  if negb (HasStore cfg) then (None, m)
  else match Ensure f now (DocumentID sha1 name) name want (m_db m) with
       | Err e => (Some e, m)
       | Ok (found, d) => (if decide (found = want) then None else Some ErrWrongOwner, set_db d m)
       end.

(** What [tryGet] does with the lock held: a room, or the candidates to evict. *)
Definition open_ (now : Z) (name owner : bytes) (m : Manager) : res (Z + list Z) * Manager :=
  let want := OwnerID sha1 owner in
  match resident name want m with
  | (Some (Ok h), m) => (Ok (inl h), m)
  | (Some (Err e), m) => (Err e, m)
  | (None, _) =>
      if m_closed m then (Err ErrManagerClosed, m)
      else if (0 <? MaxRooms cfg) && (MaxRooms cfg <=? Z.of_nat (size (m_rooms m)))
      then (Ok (inr (byLeastRecentlyUsed m)), set_pressure Cap m)
      else match overBudget m with
           | (true, candidates) => (Ok (inr candidates), set_pressure Budget m)
           | (false, _) =>
               let m := touch name m in
               let h := m_next m in
               let i := MkInst name want (New name owner now) Running in
               (Ok (inl h),
                MkManager (<[name := h]> (m_rooms m)) (m_used m) (m_clock m) (m_closed m) (m_pressure m)
                  (<[h := i]> (m_heap m)) (h + 1) (m_db m))
           end
  end.

(** The room [h] leaves the map; it is still writing itself out. *)
Definition exits (h : Z) (i : inst) (m : Manager) : Manager :=
  forget (i_name i) h (set_heap (<[h := MkInst (i_name i) (i_owner i) (i_room i) Stopping]> (m_heap m)) m).
Definition finishes (h : Z) (i : inst) (m : Manager) : Manager :=
  set_heap (<[h := MkInst (i_name i) (i_owner i) (i_room i) Stopped]> (m_heap m)) m.

(** ** Operations, when nobody else is at it *)

Definition tryGet (f : faults) (now : Z) (name owner : bytes) (m : Manager) : res (Z + list Z) * Manager :=
  let want := OwnerID sha1 owner in
  match resident name want m with
  | (Some (Ok h), m) => (Ok (inl h), m)
  | (Some (Err e), m) => (Err e, m)
  | (None, m) =>
      match settleOwner f now name want m with
      | (Some e, m) => (Err e, m)
      | (None, m) => open_ now name owner m
      end
  end.

(** [EvictIfIdle], then waiting for [Done]: a room that is already gone counts. *)
Definition evictIfIdle (h : Z) (m : Manager) : bool * Manager :=
  match m_heap m !! h with
  | None => (true, m)
  | Some i =>
      match i_phase i with
      | Running => if Idle (i_room i) then (true, finishes h i (exits h i m)) else (false, m)
      | _ => (true, finishes h i m)
      end
  end.

Fixpoint evictOne (candidates : list Z) (m : Manager) : bool * Manager :=
  match candidates with
  | [] => (false, m)
  | h :: rest => match evictIfIdle h m with (true, m) => (true, m) | (false, m) => evictOne rest m end
  end.

(** [None] when the fuel ran out. *)
Fixpoint get (fuel : nat) (f : faults) (now : Z) (name owner : bytes) (m : Manager) : option (res Z * Manager) :=
  match fuel with
  | O => None
  | S fuel =>
      match tryGet f now name owner m with
      | (Err e, m) => Some (Err e, m)
      | (Ok (inl h), m) => Some (Ok h, m)
      | (Ok (inr candidates), m) =>
          match evictOne candidates m with
          | (true, m) => get fuel f now name owner m
          | (false, m) => Some (Err ErrTooManyRooms, m)
          end
      end
  end.

Fixpoint enforceBudget (fuel : nat) (m : Manager) : option (Z * Manager) :=
  match fuel with
  | O => None
  | S fuel =>
      match overBudget m with
      | (false, _) => Some (0, m)
      | (true, candidates) =>
          match evictOne candidates (set_pressure Budget m) with
          | (false, m) => Some (0, m)
          | (true, m) => '(n, m) ← enforceBudget fuel m; Some (n + 1, m)
          end
      end
  end.

Definition Evict (name : bytes) (m : Manager) : bool * Manager :=
  match m_rooms m !! name with None => (true, m) | Some h => evictIfIdle h m end.

Definition Len (m : Manager) : Z := Z.of_nat (size (m_rooms m)).

(** The half of [Wait] that takes the lock. *)
Definition Wait (m : Manager) : Manager :=
  MkManager (m_rooms m) (m_used m) (m_clock m) true (m_pressure m) (m_heap m) (m_next m) (m_db m).

(** ** The registry among its callers *)

(** Where a call to [get] is. *)
Inductive call_at :=
  | Asking (name owner : bytes)
  | Missed (name owner : bytes)
  | Settled (name owner : bytes)
  | Evicting (name owner : bytes) (candidates : list Z)
  | Waiting (name owner : bytes) (h : Z)
  | Answered (name owner : bytes) (out : res Z).

Record system := MkSystem { sys : Manager; calls : gmap Z call_at }.

(** Where [resident] leads, and where [open_] does. *)
Definition after_resident (name owner : bytes) (out : option (res Z)) : call_at :=
  match out with Some r => Answered name owner r | None => Missed name owner end.
Definition after_settle (name owner : bytes) (err : option GoError) : call_at :=
  match err with None => Settled name owner | Some e => Answered name owner (Err e) end.
Definition after_open (name owner : bytes) (out : res (Z + list Z)) : call_at :=
  match out with
  | Ok (inl h) => Answered name owner (Ok h)
  | Ok (inr cs) => Evicting name owner cs
  | Err e => Answered name owner (Err e)
  end.

Context (db_step : Database -> Database -> Prop).

Inductive mstep : system -> system -> Prop :=
  | CallBegin m cs c name owner :
      cs !! c = None -> mstep (MkSystem m cs) (MkSystem m (<[c := Asking name owner]> cs))
  | CallLook m cs c name owner out m' :
      cs !! c = Some (Asking name owner) ->
      resident name (OwnerID sha1 owner) m = (out, m') ->
      mstep (MkSystem m cs) (MkSystem m' (<[c := after_resident name owner out]> cs))
  | CallSettle m cs c name owner f now err m' :
      cs !! c = Some (Missed name owner) ->
      settleOwner f now name (OwnerID sha1 owner) m = (err, m') ->
      mstep (MkSystem m cs) (MkSystem m' (<[c := after_settle name owner err]> cs))
  | CallOpen m cs c name owner now out m' :
      cs !! c = Some (Settled name owner) -> now <> zeroTime ->
      open_ now name owner m = (out, m') ->
      mstep (MkSystem m cs) (MkSystem m' (<[c := after_open name owner out]> cs))
  | CallNoneLeft m cs c name owner :
      cs !! c = Some (Evicting name owner []) ->
      mstep (MkSystem m cs) (MkSystem m (<[c := Answered name owner (Err ErrTooManyRooms)]> cs))
  | CallRefused m cs c name owner h rest i :
      cs !! c = Some (Evicting name owner (h :: rest)) -> m_heap m !! h = Some i ->
      i_phase i = Running -> Idle (i_room i) = false ->
      mstep (MkSystem m cs) (MkSystem m (<[c := Evicting name owner rest]> cs))
  | CallEvicted m cs c name owner h rest i :
      cs !! c = Some (Evicting name owner (h :: rest)) -> m_heap m !! h = Some i ->
      i_phase i = Running -> Idle (i_room i) = true ->
      mstep (MkSystem m cs) (MkSystem (exits h i m) (<[c := Waiting name owner h]> cs))
  | CallAlreadyGone m cs c name owner h rest i :
      cs !! c = Some (Evicting name owner (h :: rest)) -> m_heap m !! h = Some i -> i_phase i <> Running ->
      mstep (MkSystem m cs) (MkSystem m (<[c := Waiting name owner h]> cs))
  | CallGone m cs c name owner h i :
      cs !! c = Some (Waiting name owner h) -> m_heap m !! h = Some i -> i_phase i = Stopped ->
      mstep (MkSystem m cs) (MkSystem m (<[c := Asking name owner]> cs))
  | CallReturn m cs c name owner out :
      cs !! c = Some (Answered name owner out) -> mstep (MkSystem m cs) (MkSystem m (delete c cs))
  (** A room handles a command; stops for a reason of its own; has written itself out. *)
  | RoomActs m cs h i r' :
      m_heap m !! h = Some i -> i_phase i = Running -> acts (i_room i) r' ->
      mstep (MkSystem m cs)
        (MkSystem (set_heap (<[h := MkInst (i_name i) (i_owner i) r' Running]> (m_heap m)) m) cs)
  | RoomExits m cs h i :
      m_heap m !! h = Some i -> i_phase i = Running -> mstep (MkSystem m cs) (MkSystem (exits h i m) cs)
  | RoomDone m cs h i :
      m_heap m !! h = Some i -> i_phase i = Stopping -> mstep (MkSystem m cs) (MkSystem (finishes h i m) cs)
  (** The database changes under somebody else's hands; the server shuts down. *)
  | DbStep m cs d : db_step (m_db m) d -> mstep (MkSystem m cs) (MkSystem (set_db d m) cs)
  | Shutdown m cs : mstep (MkSystem m cs) (MkSystem (Wait m) cs).
End Registry.
