(* ===== verification/RegistryProps.v ===== *)
(** * The registry's invariant

    Who is in the map, in which order they were used, and which rooms run: kept by every
    critical section of [Registry] and by the rooms' own comings and goings. *)

From S2P Require Import Prelude Uuid Pack Store StoreProps StoreLog StoreLife Registry.

Section Invariant.
Context {R : Type} `{!RoomActor R}.
Context (cfg : ManagerConfig).
#[local] Notation Manager := (@Manager R).
#[local] Notation inst := (@inst R).

Record reg_ok (m : Manager) : Prop := {
  rk_rooms : forall n h, m_rooms m !! n = Some h ->
    exists i, m_heap m !! h = Some i /\ i_name i = n /\ i_phase i = Running;
  rk_running : forall h i, m_heap m !! h = Some i -> i_phase i = Running -> m_rooms m !! i_name i = Some h;
  rk_used : forall n, is_Some (m_used m !! n) <-> is_Some (m_rooms m !! n);
  rk_clock : forall n c, m_used m !! n = Some c -> c <= m_clock m;
  rk_inj : forall n n' c, m_used m !! n = Some c -> m_used m !! n' = Some c -> n = n';
  rk_next : forall h, is_Some (m_heap m !! h) -> h < m_next m;
  rk_cap : 0 < MaxRooms cfg -> Z.of_nat (size (m_rooms m)) <= MaxRooms cfg;
  rk_pos : 0 <= m_clock m;
}.

(** The counter has room for one more use. *)
Definition counts (m : Manager) : Prop := m_clock m < two64 - 1.

Lemma NewManager_ok db : reg_ok (NewManager db).
Proof.
  split; cbn; try done.
  - intros h. rewrite lookup_empty. by intros [].
  - intros H. rewrite map_size_empty. lia.
Qed.

(** Two managers that differ in pressure, database or the closed flag only. *)
Lemma reg_ok_same (m m' : Manager) :
  m_rooms m' = m_rooms m -> m_used m' = m_used m -> m_clock m' = m_clock m -> m_heap m' = m_heap m ->
  m_next m' = m_next m -> reg_ok m -> reg_ok m'.
Proof. intros H1 H2 H3 H4 H5 [K1 K2 K3 K4 K5 K6 K7 K8]. split; rewrite ?H1, ?H2, ?H3, ?H4, ?H5; done. Qed.

Lemma touch_clock (m : Manager) : reg_ok m -> counts m -> u64 (m_clock m + 1) = m_clock m + 1.
Proof. intros Hm Hc. apply u64_small. pose proof (rk_pos _ Hm). unfold counts in Hc. lia. Qed.

(** A use of [n], with [n] in the map afterwards. *)
Lemma used_fresh (m : Manager) (n : bytes) (rs : gmap bytes Z) :
  reg_ok m -> (forall n' : bytes, is_Some (rs !! n') <-> n' = n \/ is_Some (m_rooms m !! n')) ->
  let u := <[n := m_clock m + 1]> (m_used m) in
  (forall n', is_Some (u !! n') <-> is_Some (rs !! n'))
  /\ (forall n' c, u !! n' = Some c -> c <= m_clock m + 1)
  /\ (forall n' n'' c, u !! n' = Some c -> u !! n'' = Some c -> n' = n'').
Proof.
  intros Hm Hrs u. unfold u. split_and!.
  - intros n'. rewrite Hrs, lookup_insert_is_Some', <- (rk_used _ Hm). naive_solver.
  - intros n' c [[_ <-]|[_ H]]%lookup_insert_Some; [lia|]. apply (rk_clock _ Hm) in H. lia.
  - intros n' n'' c H H'. apply lookup_insert_Some in H as [[<- <-]|[Hn H]];
      apply lookup_insert_Some in H' as [[<- E]|[Hn' H']]; [done| | |by eapply rk_inj].
    + apply (rk_clock _ Hm) in H'. lia.
    + apply (rk_clock _ Hm) in H. lia.
Qed.

Lemma touch_ok (m : Manager) n : reg_ok m -> counts m -> is_Some (m_rooms m !! n) -> reg_ok (touch n m).
Proof.
  intros Hm Hc Hn. destruct (used_fresh m n (m_rooms m) Hm) as (U1 & U2 & U3).
  { intros n'. split; [by right|]. by intros [->|?]. }
  unfold touch. rewrite touch_clock by done. destruct Hm. split; try done; cbn; lia.
Qed.

Lemma resident_ok (m m' : Manager) n want out :
  reg_ok m -> counts m -> resident n want m = (out, m') ->
  reg_ok m' /\ m_heap m' = m_heap m /\ m_db m' = m_db m /\ m_rooms m' = m_rooms m
  /\ match out with
     | Some (Ok h) => exists i, m_heap m !! h = Some i /\ i_name i = n /\ i_owner i = want /\ m_rooms m !! n = Some h
     | Some (Err e) => e = ErrWrongOwner /\ m' = m
     | None => m_rooms m !! n = None /\ m' = m
     end.
Proof.
  intros Hm Hc. unfold resident. destruct (m_rooms m !! n) as [h|] eqn:Eh; [|by intros [= <- <-]].
  destruct (rk_rooms _ Hm _ _ Eh) as (i & Hi & Hn & Hr). rewrite Hi. case_decide; intros [= <- <-]; [|done].
  split_and!; try done; [by apply touch_ok|]. by exists i.
Qed.

(** A room that leaves the map. *)
Lemma exits_eq (m : Manager) h i :
  reg_ok m -> m_heap m !! h = Some i -> i_phase i = Running ->
  exits h i m = MkManager (delete (i_name i) (m_rooms m)) (delete (i_name i) (m_used m)) (m_clock m) (m_closed m)
    (m_pressure m) (<[h := MkInst (i_name i) (i_owner i) (i_room i) Stopping]> (m_heap m)) (m_next m) (m_db m).
Proof.
  intros Hm Hi Hr. unfold exits, forget. cbn. rewrite decide_True; [done|]. by apply (rk_running _ Hm).
Qed.

Lemma heap_next (m : Manager) h i i' h' :
  reg_ok m -> m_heap m !! h = Some i -> is_Some (<[h := i']> (m_heap m) !! h') -> h' < m_next m.
Proof.
  intros Hm Hi [<-|[_ H]]%lookup_insert_is_Some; apply (rk_next _ Hm); [by eexists|done].
Qed.

Lemma exits_ok (m : Manager) h i :
  reg_ok m -> m_heap m !! h = Some i -> i_phase i = Running -> reg_ok (exits h i m).
Proof.
  intros Hm Hi Hr. rewrite exits_eq by done. pose proof (rk_running _ Hm _ _ Hi Hr) as Hh.
  pose proof (fun h' => heap_next m h i (MkInst (i_name i) (i_owner i) (i_room i) Stopping) h' Hm Hi) as Hnext.
  destruct Hm as [K1 K2 K3 K4 K5 K6 K7 K8].
  split; cbn; try done.
  - intros n h' [Hn H]%lookup_delete_Some. destruct (K1 _ _ H) as (i' & Hi' & ? & ?).
    exists i'. rewrite lookup_insert_ne; [done|]. intros ->. congruence.
  - intros h' i' [[<- <-]|[Hne H]]%lookup_insert_Some Hr'; [done|].
    rewrite lookup_delete_ne; [by apply K2|]. intros E. specialize (K2 _ _ H Hr'). congruence.
  - intros n. rewrite !lookup_delete_is_Some, K3. done.
  - intros n c [_ H]%lookup_delete_Some. eauto.
  - intros n n' c [_ H]%lookup_delete_Some [_ H']%lookup_delete_Some. eauto.
  - intros Hcap. specialize (K7 Hcap). rewrite map_size_delete, Hh. cbn. lia.
Qed.

(** A room changes without leaving, or is done after having left. *)
Lemma set_inst_ok (m : Manager) h i i' :
  reg_ok m -> m_heap m !! h = Some i -> i_name i' = i_name i ->
  (i_phase i = Running <-> i_phase i' = Running) ->
  reg_ok (set_heap (<[h := i']> (m_heap m)) m).
Proof.
  intros Hm Hi Hn Hp. pose proof (fun h' => heap_next m h i i' h' Hm Hi) as Hnext.
  destruct Hm as [K1 K2 K3 K4 K5 K6 K7 K8]. split; cbn; try done.
  - intros n h' H. destruct (K1 _ _ H) as (j & Hj & E & Hr). destruct (decide (h' = h)) as [->|Hne].
    + exists i'. rewrite lookup_insert_eq. assert (j = i) as -> by congruence. split_and!; [done|congruence|by apply Hp].
    + exists j. by rewrite lookup_insert_ne.
  - intros h' j [[<- <-]|[Hne H]]%lookup_insert_Some Hr; [|by apply K2]. rewrite Hn. apply K2; [done|by apply Hp].
Qed.

Context (sha1 : bytes -> bytes).

Lemma open_ok (m m' : Manager) now n owner out :
  reg_ok m -> counts m -> open_ sha1 cfg now n owner m = (out, m') ->
  reg_ok m' /\ m_db m' = m_db m /\ (forall h i, m_heap m !! h = Some i -> m_heap m' !! h = Some i)
  /\ (forall h i, m_heap m' !! h = Some i -> m_heap m !! h = Some i
        \/ i_name i = n /\ i_owner i = OwnerID sha1 owner)
  /\ match out with
     | Ok (inl h) => exists i, m_heap m' !! h = Some i /\ i_name i = n /\ i_owner i = OwnerID sha1 owner
                              /\ m_rooms m' !! n = Some h
     | _ => True
     end.
Proof.
  intros Hm Hc. unfold open_. destruct (resident n (OwnerID sha1 owner) m) as [o m1] eqn:Er.
  destruct (resident_ok _ _ _ _ _ Hm Hc Er) as (H1 & H2 & H3 & H4 & H5).
  destruct o as [[h|e]|].
  { intros [= <- <-]. rewrite H2. split_and!; auto. destruct H5 as (i & ? & ? & ? & ?). exists i. by rewrite H4. }
  { intros [= <- <-]. destruct H5 as [_ ->]. split_and!; auto. }
  destruct H5 as [Hn ->]. case_if; [intros [= <- <-]; split_and!; auto|]. case_if.
  { intros [= <- <-]. split_and!; auto. by eapply reg_ok_same. }
  destruct (overBudget cfg m) as [[|] cs].
  { intros [= <- <-]. split_and!; auto. by eapply reg_ok_same. }
  unfold touch. rewrite touch_clock by done. cbn. intros [= <- <-].
  destruct (m_heap m !! m_next m) eqn:Eh.
  { pose proof (rk_next _ Hm (m_next m) ltac:(by eexists)). lia. }
  destruct (used_fresh m n (<[n := m_next m]> (m_rooms m)) Hm) as (U1 & U2 & U3).
  { intros n'. rewrite lookup_insert_is_Some'. naive_solver. }
  cbn. split_and!; try done.
  - destruct Hm as [K1 K2 K3 K4 K5 K6 K7 K8]. split; cbn; try done.
    + intros n' h. intros [[<- <-]|[Hne H]]%lookup_insert_Some.
      * eexists. rewrite lookup_insert_eq. split; [done|]. done.
      * destruct (K1 _ _ H) as (i & Hi & ? & ?). exists i. rewrite lookup_insert_ne; [done|]. intros E9; subst; congruence.
    + intros h i [[<- <-]|[Hne H]]%lookup_insert_Some Hr; cbn; [by rewrite lookup_insert_eq|].
      rewrite lookup_insert_ne; [by apply K2|]. intros ->. specialize (K2 _ _ H Hr). congruence.
    + intros h [->|[_ H]]%lookup_insert_is_Some; [lia|]. apply K6 in H. lia.
    + intros Hcap. rewrite map_size_insert_None by done. bool_arith. apply andb_false_iff in E0 as [E0|E0]; bool_arith; lia.
    + lia.
  - intros h i H. rewrite lookup_insert_ne; [done|]. intros E9; subst; congruence.
  - intros h i [[<- <-]|[_ H]]%lookup_insert_Some; [by right|by left].
  - eexists. rewrite !lookup_insert_eq. done.
Qed.
End Invariant.
