(* ===== verification/RegistrySys.v ===== *)
(** * The registry under concurrency

    The invariant of [RegistryProps] over every run of the step relation, with the
    database's owners beside it. *)

From S2P Require Import Prelude Awareness Uuid Pack Store StoreProps StoreLog StoreLife Registry RegistryProps.

Section System.
Context {R : Type} `{!RoomActor R}.
Context (sha1 : bytes -> bytes) (cfg : ManagerConfig).
Hypothesis sha1_digest : forall b, length (sha1 b) = 20%nat /\ Forall (fun x => 0 <= x < 256) (sha1 b).
Context (deflate inflate : bytes -> option bytes).
Hypothesis flate : forall x y, deflate x = Some y -> inflate y = Some x.
#[local] Notation Manager := (@Manager R).
#[local] Notation system := (@system R).
#[local] Notation view := (StoreProps.view inflate).
#[local] Notation db_ok := (StoreProps.db_ok inflate).
(** Other replicas, and everything this server writes, change the database without
    reassigning or deleting documents. *)
#[local] Notation mstep := (mstep sha1 cfg (store_step deflate inflate false)).

(** The row of document [n] belongs to [want]. *)
Definition owned (db : Database) (n : bytes) (want : UUID) : Prop :=
  HasStore cfg = true -> exists v, view db (DocumentID sha1 n) = Some v /\ vw_owner v = want.

(** What is known of a call where it stands. *)
Definition call_ok (m : Manager) (k : call_at) : Prop :=
  match k with
  | Settled n owner => owned (m_db m) n (OwnerID sha1 owner)
  | Answered n owner (Ok h) => exists i, m_heap m !! h = Some i /\ i_name i = n /\ i_owner i = OwnerID sha1 owner
  | _ => True
  end.

Record sys_ok (s : system) : Prop := {
  so_reg : reg_ok cfg (sys s);
  so_db : db_ok (m_db (sys s));
  so_inst : forall h i, m_heap (sys s) !! h = Some i -> owned (m_db (sys s)) (i_name i) (i_owner i);
  so_calls : forall c k, calls s !! c = Some k -> call_ok (sys s) k;
}.

(** [m'] knows the rooms and the owners [m] knew. *)
Definition extends (m m' : Manager) : Prop :=
  (forall h i, m_heap m !! h = Some i -> exists i', m_heap m' !! h = Some i' /\ i_name i' = i_name i /\ i_owner i' = i_owner i)
  /\ forall n want, owned (m_db m) n want -> owned (m_db m') n want.

Lemma call_ok_extends m m' k : extends m m' -> call_ok m k -> call_ok m' k.
Proof.
  intros [H1 H2]. destruct k as [| | | | |n owner [h|]]; cbn; auto.
  intros (i & Hi & <- & Ho). destruct (H1 _ _ Hi) as (i' & Hi' & ? & ?). exists i'. split_and!; [done..|congruence].
Qed.

(** A call moves on: the others know what they knew. *)
Lemma call_moves m m' cs c k :
  sys_ok (MkSystem m cs) -> reg_ok cfg m' -> db_ok (m_db m') -> extends m m' ->
  (forall h i, m_heap m' !! h = Some i -> owned (m_db m') (i_name i) (i_owner i)) ->
  call_ok m' k -> sys_ok (MkSystem m' (<[c := k]> cs)).
Proof.
  intros [K1 K2 K3 K4] H1 H2 H3 H4 H5. split; cbn in *; try done.
  intros c' k' [[<- <-]|[_ Hk]]%lookup_insert_Some; [done|]. eapply call_ok_extends; eauto.
Qed.

Lemma extends_refl m : extends m m.
Proof. split; eauto. Qed.

Lemma call_stays m cs c k : sys_ok (MkSystem m cs) -> call_ok m k -> sys_ok (MkSystem m (<[c := k]> cs)).
Proof. intros H Hk. apply (call_moves m); try done; [apply H..|apply extends_refl|apply H]. Qed.

Lemma extends_heap m m' :
  m_db m' = m_db m ->
  (forall h i, m_heap m !! h = Some i -> exists i', m_heap m' !! h = Some i' /\ i_name i' = i_name i /\ i_owner i' = i_owner i) ->
  extends m m'.
Proof. intros E H. split; [done|]. by rewrite E. Qed.

(** The steps of rooms: one instance changes, keeping its name and owner. *)
Lemma inst_moves m m' cs h i i' :
  sys_ok (MkSystem m cs) -> reg_ok cfg m' -> m_db m' = m_db m -> m_heap m !! h = Some i ->
  m_heap m' = <[h := i']> (m_heap m) -> i_name i' = i_name i -> i_owner i' = i_owner i ->
  sys_ok (MkSystem m' cs) /\ extends m m'.
Proof.
  intros [K1 K2 K3 K4] H1 H2 H3 H4 H5 H6. cbn in *.
  assert (extends m m') as He.
  { apply extends_heap; [done|]. intros h' j Hj. rewrite H4. destruct (decide (h' = h)) as [->|Hne].
    - exists i'. rewrite lookup_insert_eq. split_and!; [done|congruence..].
    - exists j. by rewrite lookup_insert_ne. }
  split; [|done]. split; cbn; rewrite ?H2; try done.
  - rewrite H4. intros h' j [[<- <-]|[_ Hj]]%lookup_insert_Some; [rewrite H5, H6|]; eauto.
  - intros c k Hk. eapply call_ok_extends; eauto.
Qed.

Lemma settle_ok m f now n want err m' :
  db_ok (m_db m) -> settleOwner sha1 cfg f now n want m = (err, m') ->
  db_ok (m_db m') /\ m_heap m' = m_heap m /\ extends m m' /\ (err = None -> owned (m_db m') n want)
  /\ m_rooms m' = m_rooms m /\ m_used m' = m_used m /\ m_clock m' = m_clock m /\ m_next m' = m_next m.
Proof.
  intros Hok. unfold settleOwner. destruct (HasStore cfg) eqn:Es; cbn [negb].
  2: { intros [= <- <-]. split_and!; try done; [apply extends_refl|]. intros _ H. congruence. }
  destruct (Ensure _ _ _ _ _ _) as [[found d]|e] eqn:Ee; [|intros [= <- <-]; split_and!; try done; apply extends_refl].
  intros [= <- <-]. unfold Ensure in Ee. case_if_in Ee; [done|]. res_inv. case_if_in Hk; [done|]. simplify_eq.
  destruct (ensureIn_ok inflate _ _ _ _ _ _ _ _ Hok (DocumentID_ok _ sha1_digest n) Hm) as (H1 & H2 & H3 & H4 & _).
  split_and!; try done.
  - split; [eauto|]. intros n' want' Ho Hs. destruct (Ho Hs) as (v & Hv & Hw).
    destruct (decide (DocumentID sha1 n' = DocumentID sha1 n)) as [E1|Hne]; [|exists v; by rewrite H2].
    exists v. cbn. rewrite E1 in *. by rewrite H3, Hv.
  - case_decide; [|done]. intros _ _. eexists. split; [exact H3|]. congruence.
Qed.

(** One step keeps everything. *)
Lemma mstep_ok s s' : counts (sys s) -> mstep s s' -> sys_ok s -> sys_ok s'.
Proof.
  intros Hc Hs Hok. pose proof Hok as [K1 K2 K3 K4]. destruct Hs as
    [m cs c n o Hk|m cs c n o out m' Hk Hr|m cs c n o f now err m' Hk Hr|m cs c n o now out m' Hk Hz Hr|m cs c n o Hk
    |m cs c n o h rest i Hk Hi Hp Hd|m cs c n o h rest i Hk Hi Hp Hd|m cs c n o h rest i Hk Hi Hp|m cs c n o h i Hk Hi Hp
    |m cs c n o out Hk|m cs h i r' Hi Hp Ha|m cs h i Hi Hp|m cs h i Hi Hp|m cs d Hd|m cs]; cbn in *.
  - by apply call_stays.
  - destruct (resident_ok cfg _ _ _ _ _ K1 Hc Hr) as (H1 & H2 & H3 & _ & H5).
    apply (call_moves m); rewrite ?H2, ?H3; try done.
    + apply extends_heap; [done|]. rewrite H2. eauto.
    + destruct out as [[h|e]|]; cbn; try done. destruct H5 as (i & ? & ? & ? & _). exists i. by rewrite H2.
  - destruct (settle_ok _ _ _ _ _ _ _ K2 Hr) as (H1 & H2 & H3 & H4 & E1 & E2 & E3 & E4).
    apply (call_moves m); rewrite ?H2; try done.
    + by apply (reg_ok_same cfg m).
    + intros h i Hi. apply H3. by apply (K3 h).
    + destruct err; [done|]. by apply H4.
  - destruct (open_ok cfg sha1 _ _ _ _ _ _ K1 Hc Hr) as (H1 & H2 & H3 & H4 & H5). pose proof (K4 c _ Hk) as Hs. cbn in Hs.
    apply (call_moves m); rewrite ?H2; try done.
    + apply extends_heap; [done|]. eauto.
    + intros h i Hi. apply H4 in Hi as [Hi|[-> ->]]; [by apply (K3 h)|done].
    + destruct out as [[h|]|]; cbn; try done. destruct H5 as (i & ? & ? & ? & _). eauto.
  - by apply call_stays.
  - by apply call_stays.
  - destruct (inst_moves m (exits h i m) cs h i (MkInst (i_name i) (i_owner i) (i_room i) Stopping)) as [H He]; try done;
      [by apply exits_ok|by rewrite (exits_eq cfg)|by rewrite (exits_eq cfg)|]. by apply call_stays.
  - by apply call_stays.
  - by apply call_stays.
  - split; cbn; try done. intros c' k [_ Hk']%lookup_delete_Some. eauto.
  - apply (inst_moves m _ cs h i (MkInst (i_name i) (i_owner i) r' Running)); try done.
    eapply set_inst_ok; [done..|]. by rewrite Hp.
  - apply (inst_moves m _ cs h i (MkInst (i_name i) (i_owner i) (i_room i) Stopping)); try done;
      [by apply exits_ok|by rewrite (exits_eq cfg)|by rewrite (exits_eq cfg)].
  - apply (inst_moves m _ cs h i (MkInst (i_name i) (i_owner i) (i_room i) Stopped)); try done.
    eapply set_inst_ok; [done..|]. by rewrite Hp.
  - destruct (step_ok deflate inflate flate _ _ _ Hd K2) as [H1 H2].
    assert (extends m (set_db d m)) as He.
    { split; [eauto|]. intros n want Ho Hs. destruct (Ho Hs) as (v & Hv & <-). by apply H2. }
    split; cbn; try done.
    + by apply (reg_ok_same cfg m).
    + intros h i Hi. apply He. by apply (K3 h).
    + intros c k Hk. eapply call_ok_extends; eauto.
  - split; cbn; try done. by apply (reg_ok_same cfg m).
Qed.

(** A property every room starts with and keeps, holds of every room there is. *)
Lemma mstep_rooms (P : R -> Prop) s s' :
  (forall n o now, now <> zeroTime -> P (New n o now)) -> (forall r r', acts r r' -> P r -> P r') ->
  counts (sys s) -> sys_ok s -> mstep s s' ->
  (forall h i, m_heap (sys s) !! h = Some i -> P (i_room i)) -> forall h i, m_heap (sys s') !! h = Some i -> P (i_room i).
Proof.
  intros Pn Pa Hc Hok Hs HP. pose proof Hok as [K1 _ _ _]. destruct Hs as
    [m cs c n o Hk|m cs c n o out m' Hk Hr|m cs c n o f now err m' Hk Hr|m cs c n o now out m' Hk Hz Hr|m cs c n o Hk
    |m cs c n o h rest i Hk Hi Hp Hd|m cs c n o h rest i Hk Hi Hp Hd|m cs c n o h rest i Hk Hi Hp|m cs c n o h i Hk Hi Hp
    |m cs c n o out Hk|m cs h i r' Hi Hp Ha|m cs h i Hi Hp|m cs h i Hi Hp|m cs d Hd|m cs]; cbn in *; try done.
  - destruct (resident_ok cfg _ _ _ _ _ K1 Hc Hr) as (_ & -> & _). done.
  - revert Hr. unfold settleOwner. case_if; [by intros [= <- <-]|]. destruct (Ensure _ _ _ _ _ _) as [[]|]; by intros [= <- <-].
  - revert Hr. unfold open_. destruct (resident _ _ m) as [o1 m1] eqn:Er.
    destruct (resident_ok cfg _ _ _ _ _ K1 Hc Er) as (_ & E & _). destruct o1 as [[]|]; [by intros [= <- <-]; rewrite E..|].
    case_if; [by intros [= <- <-]|]. case_if; [by intros [= <- <-]|].
    destruct (overBudget cfg m) as [[] ?]; intros [= <- <-]; [done|]. cbn.
    intros h i [[<- <-]|[_ Hi]]%lookup_insert_Some; [by apply Pn|by eapply HP].
  - rewrite (exits_eq cfg) by done. cbn. intros h' j [[<- <-]|[_ Hj]]%lookup_insert_Some; cbn; eauto.
  - intros h' j [[<- <-]|[_ Hj]]%lookup_insert_Some; cbn; eauto.
  - rewrite (exits_eq cfg) by done. cbn. intros h' j [[<- <-]|[_ Hj]]%lookup_insert_Some; cbn; eauto.
  - intros h' j [[<- <-]|[_ Hj]]%lookup_insert_Some; cbn; eauto.
Qed.

(** The runs of a server on a database: fewer than [2^64] uses are counted. *)
Inductive mrun (db : Database) : system -> Prop :=
  | mrun_start : mrun db (MkSystem (NewManager db) ∅)
  | mrun_step s s' : mrun db s -> counts (sys s) -> mstep s s' -> mrun db s'.

Lemma mrun_ok db s : store_run deflate inflate db -> mrun db s -> sys_ok s.
Proof.
  intros Hdb. induction 1 as [|s s' _ IH Hc Hs]; [|by eapply mstep_ok].
  split; cbn; [apply NewManager_ok|by apply (store_run_ok _ _ flate)|done|done].
Qed.

Lemma mrun_rooms (P : R -> Prop) db s :
  (forall n o now, now <> zeroTime -> P (New n o now)) -> (forall r r', acts r r' -> P r -> P r') ->
  store_run deflate inflate db -> mrun db s -> forall h i, m_heap (sys s) !! h = Some i -> P (i_room i).
Proof.
  intros Pn Pa Hdb. induction 1 as [|s s' Hr IH Hc Hs]; [done|].
  eapply mstep_rooms; [done..|by eapply mrun_ok|done|exact IH].
Qed.

(** C14. However calls, evictions and rooms interleave, the cap on resident rooms holds, a
    document's running room is the one in the map, so there is at most one, and the
    uses that order evictions are distinct. *)
Theorem registry_invariant db s :
  store_run deflate inflate db -> mrun db s ->
  (0 < MaxRooms cfg -> Len (sys s) <= MaxRooms cfg)
  /\ (forall h h' i i', m_heap (sys s) !! h = Some i -> m_heap (sys s) !! h' = Some i' ->
        i_phase i = Running -> i_phase i' = Running -> i_name i = i_name i' -> h = h')
  /\ (forall n h, m_rooms (sys s) !! n = Some h -> exists i, m_heap (sys s) !! h = Some i /\ i_name i = n /\ i_phase i = Running)
  /\ forall n n', is_Some (m_rooms (sys s) !! n) -> is_Some (m_rooms (sys s) !! n') ->
        used_of (sys s) n = used_of (sys s) n' -> n = n'.
Proof.
  intros Hdb Hr. destruct (so_reg _ (mrun_ok _ _ Hdb Hr)) as [K1 K2 K3 K4 K5 K6 K7 K8]. split_and!; try done.
  - intros h h' i i' Hi Hi' Hp Hp' E. pose proof (K2 _ _ Hi Hp). pose proof (K2 _ _ Hi' Hp'). congruence.
  - unfold used_of. intros n n' [c Hc]%K3 [c' Hc']%K3. rewrite Hc, Hc'. cbn. intros <-. eauto.
Qed.

(** C13. The tenancy boundary: a call is only ever answered with a room of the document it
    named, opened for the owner it named, and, with a store, that owner is the one the
    document's row records, for as long as nobody reassigns or deletes the document. *)
Theorem tenancy db s c name owner h :
  store_run deflate inflate db -> mrun db s -> calls s !! c = Some (Answered name owner (Ok h)) ->
  exists i, m_heap (sys s) !! h = Some i /\ i_name i = name /\ i_owner i = OwnerID sha1 owner
    /\ owned (m_db (sys s)) name (OwnerID sha1 owner).
Proof.
  intros Hdb Hr Hc. destruct (mrun_ok _ _ Hdb Hr) as [_ _ K3 K4].
  destruct (K4 _ _ Hc) as (i & Hi & <- & Ho). exists i. split_and!; [done..|]. rewrite <- Ho. by apply (K3 h).
Qed.
End System.
