(* ===== verification/RegistryGet.v ===== *)
(** * Making way

    Opening a document at a cap, and the memory budget's sweep, when nothing else
    happens meanwhile: both return, and stop idle rooms only, the least recently used
    ones first. *)

From S2P Require Import Prelude Uuid Pack Store StoreProps Registry RegistryProps.

Section Get.
Context {R : Type} `{!RoomActor R}.
Context (cfg : ManagerConfig).
#[local] Notation Manager := (@Manager R).
#[local] Notation reg_ok := (reg_ok cfg).

(** The room of [n], if it has one, is idle. *)
Definition idle_at (m : Manager) (n : bytes) : bool :=
  match m_rooms m !! n with
  | Some h => match m_heap m !! h with Some i => Idle (i_room i) | None => false end
  | None => false
  end.

(** Over one of the bounds. *)
Definition full (m : Manager) : Prop :=
  0 < MaxRooms cfg <= Len m \/ 0 < MaxMemory cfg < residentBytes m.

(** From [m] to [m'] rooms were stopped: no busy one, and the idle ones that stayed
    were all used later than those that went. *)
Record made_way (m m' : Manager) : Prop := {
  mw_sub : forall n h, m_rooms m' !! n = Some h -> m_rooms m !! n = Some h;
  mw_used : forall n, is_Some (m_rooms m' !! n) -> used_of m' n = used_of m n;
  mw_idle : forall n, is_Some (m_rooms m' !! n) -> idle_at m' n = idle_at m n;
  mw_busy : forall n h, m_rooms m !! n = Some h -> idle_at m n = false -> m_rooms m' !! n = Some h;
  mw_lru : forall n n', is_Some (m_rooms m !! n) -> m_rooms m' !! n = None -> is_Some (m_rooms m' !! n') ->
    idle_at m n' = true -> used_of m n < used_of m n';
}.

(** Only what the rooms are not concerned by differs. *)
Definition same_rooms (m m' : Manager) : Prop :=
  m_rooms m' = m_rooms m /\ m_used m' = m_used m /\ m_clock m' = m_clock m /\ m_heap m' = m_heap m
  /\ m_next m' = m_next m.

Lemma same_made_way m m' m'' : same_rooms m m' -> made_way m' m'' -> made_way m m''.
Proof.
  intros (E1 & E2 & _ & E4 & _) [K1 K2 K3 K4 K5]. unfold idle_at, used_of in *. rewrite E1, ?E2, ?E4 in *. by split.
Qed.

Lemma made_way_refl m : made_way m m.
Proof. split; try done. intros n n' [h Hh] Hn. congruence. Qed.

Lemma made_way_trans m1 m2 m3 : made_way m1 m2 -> made_way m2 m3 -> made_way m1 m3.
Proof.
  intros [A1 A2 A3 A4 A5] [B1 B2 B3 B4 B5].
  assert (Hs : forall n, is_Some (m_rooms m3 !! n) -> is_Some (m_rooms m2 !! n)) by (intros n [h Hh]; eauto).
  split.
  - eauto.
  - intros n Hn. rewrite B2, A2; auto.
  - intros n Hn. rewrite B3, A3; auto.
  - intros n h Hh Hi. apply B4; [by apply A4|]. rewrite A3; [done|]. eexists. by apply A4.
  - intros n n' Hn Hn3 Hn' Hi. destruct (m_rooms m2 !! n) as [h|] eqn:E.
    + rewrite <- (A2 n), <- (A2 n') by (eauto || by eexists). apply B5; [by eexists|done|done|]. rewrite A3; auto.
    + apply A5; auto.
Qed.

(** ** One eviction *)

Definition dropped (h : Z) (i : inst) (m : Manager) : Manager := finishes h i (exits h i m).

Lemma dropped_rooms m h i :
  reg_ok m -> m_heap m !! h = Some i -> i_phase i = Running ->
  m_rooms (dropped h i m) = delete (i_name i) (m_rooms m) /\ m_used (dropped h i m) = delete (i_name i) (m_used m)
  /\ (forall h', h' <> h -> m_heap (dropped h i m) !! h' = m_heap m !! h') /\ m_clock (dropped h i m) = m_clock m.
Proof.
  intros Hm Hi Hp. unfold dropped, finishes. rewrite (exits_eq cfg) by done. cbn. split_and!; try done.
  intros h' Hne. by rewrite !lookup_insert_ne by done.
Qed.

Lemma dropped_ok m h i :
  reg_ok m -> m_heap m !! h = Some i -> i_phase i = Running -> reg_ok (dropped h i m).
Proof.
  intros Hm Hi Hp. unfold dropped, finishes. eapply (set_inst_ok cfg (exits h i m)).
  - by apply exits_ok.
  - rewrite (exits_eq cfg) by done. cbn. apply lookup_insert_eq.
  - done.
  - done.
Qed.

Lemma dropped_way m h i :
  reg_ok m -> m_heap m !! h = Some i -> i_phase i = Running -> Idle (i_room i) = true ->
  (forall n', is_Some (m_rooms m !! n') -> n' <> i_name i -> idle_at m n' = true -> used_of m (i_name i) < used_of m n') ->
  made_way m (dropped h i m).
Proof.
  intros Hm Hi Hp Hd Hl. destruct (dropped_rooms m h i Hm Hi Hp) as (E1 & E2 & E3 & _).
  pose proof (rk_running _ _ Hm _ _ Hi Hp) as Hh.
  assert (Hne : forall n h', m_rooms m !! n = Some h' -> n <> i_name i -> h' <> h).
  { intros n h' H Hn ->. destruct (rk_rooms _ _ Hm _ _ H) as (i' & ? & ? & _). congruence. }
  split; rewrite ?E1.
  - by intros n h' [_ ?]%lookup_delete_Some.
  - intros n [h' [Hn _]%lookup_delete_Some]. unfold used_of. by rewrite E2, lookup_delete_ne.
  - intros n [h' [Hn H]%lookup_delete_Some]. unfold idle_at. rewrite E1, lookup_delete_ne, H by done. rewrite E3; [done|].
    by eapply Hne.
  - intros n h' H Hb. rewrite lookup_delete_ne; [done|]. intros <-. unfold idle_at in Hb. rewrite Hh, Hi in Hb. congruence.
  - intros n n' Hn Hgone Hn' Hb. apply lookup_delete_None in Hgone as [<-|Hgone]; [|by rewrite Hgone in Hn; destruct Hn].
    destruct Hn' as [h' [Hne' H]%lookup_delete_Some]. apply Hl; [by eexists|done..].
Qed.

(** ** The candidates *)

Lemma before_total (m : Manager) : Total (before m).
Proof. intros a b. unfold before. lia. Qed.
Lemma before_trans (m : Manager) : Transitive (before m).
Proof. intros a b c. unfold before. lia. Qed.

(** The candidates: the rooms of the map, each used no later than those after it. *)
Lemma candidates_spec (m : Manager) :
  exists l, byLeastRecentlyUsed m = l.*2 /\ (forall n h, (n, h) ∈ l <-> m_rooms m !! n = Some h) /\ StronglySorted (before m) l.
Proof.
  exists (merge_sort (before m) (map_to_list (m_rooms m))). split_and!; [done| |].
  - intros n h. rewrite merge_sort_Permutation. apply elem_of_map_to_list.
  - apply StronglySorted_merge_sort; (apply before_total || apply before_trans).
Qed.

Lemma evictOne_spec m l :
  reg_ok m -> (forall n h, (n, h) ∈ l -> m_rooms m !! n = Some h) -> StronglySorted (before m) l ->
  match evictOne l.*2 m with
  | (false, m') => m' = m /\ forall n h, (n, h) ∈ l -> idle_at m n = false
  | (true, m') => exists h i, m' = dropped h i m /\ m_heap m !! h = Some i /\ i_phase i = Running
      /\ Idle (i_room i) = true /\ forall n' h', (n', h') ∈ l -> idle_at m n' = true -> used_of m (i_name i) <= used_of m n'
  end.
Proof.
  intros Hm Hl Hs. induction Hs as [|[n h] l Hs IH Hb]; cbn.
  { split; [done|]. by intros n h ?%elem_of_nil. }
  destruct (rk_rooms _ _ Hm n h) as (i & Hi & Hn & Hp); [apply Hl; by left|].
  assert (Hidle : idle_at m n = Idle (i_room i)) by (unfold idle_at; by rewrite (Hl n h), Hi by (by left)).
  unfold evictIfIdle. rewrite Hi, Hp. destruct (Idle (i_room i)) eqn:Ed.
  - exists h, i. split_and!; try done. intros n' h' [[= -> ->]|Hin]%elem_of_cons _; [by subst|].
    rewrite Forall_forall in Hb. specialize (Hb _ Hin). unfold before in Hb. cbn in Hb. by subst.
  - specialize (IH ltac:(intros; apply Hl; by right)). destruct (evictOne l.*2 m) as [[|] m'].
    + destruct IH as (h0 & i0 & H1 & H2 & H3 & H4 & H5). exists h0, i0. split_and!; try done.
      intros n' h' [[= -> ->]|Hin]%elem_of_cons Hi'; [congruence|by eapply H5].
    + destruct IH as [-> IH]. split; [done|]. intros n' h' [[= -> ->]|Hin]%elem_of_cons; [done|by eapply IH].
Qed.

(** Evicting from the candidates: the least recently used idle room, or none is idle. *)
Lemma evict_lru m :
  reg_ok m ->
  match evictOne (byLeastRecentlyUsed m) m with
  | (false, m') => m' = m /\ forall n, is_Some (m_rooms m !! n) -> idle_at m n = false
  | (true, m') => made_way m m' /\ reg_ok m' /\ m_clock m' = m_clock m
                  /\ size (m_rooms m) = S (size (m_rooms m'))
  end.
Proof.
  intros Hm. destruct (candidates_spec m) as (l & -> & Hl & Hs).
  pose proof (evictOne_spec m l Hm ltac:(intros n h; apply Hl) Hs) as H.
  destruct (evictOne l.*2 m) as [[|] m'].
  - destruct H as (h & i & -> & Hi & Hp & Hd & Hu). pose proof (rk_running _ _ Hm _ _ Hi Hp) as Hh.
    destruct (dropped_rooms m h i Hm Hi Hp) as (E1 & E2 & _ & E3). split_and!; [|by apply dropped_ok|done|].
    + apply dropped_way; try done. intros n' [h' Hn'] Hne Hi'. specialize (Hu n' h' ltac:(by apply Hl) Hi').
      enough (used_of m (i_name i) <> used_of m n') by lia. unfold used_of. intros Eu. apply Hne.
      destruct (rk_used _ _ Hm n') as [_ [c Hc]]; [by eexists|].
      destruct (rk_used _ _ Hm (i_name i)) as [_ [c' Hc']]; [by eexists|].
      rewrite Hc, Hc' in Eu. cbn in Eu. subst c'. by eapply rk_inj.
    + rewrite E1, map_size_delete, Hh. cbn. enough (size (m_rooms m) <> 0)%nat by lia.
      intros E%map_size_empty_iff. by rewrite E in Hh.
  - destruct H as [-> H]. split; [done|]. intros n [h Hh]. by apply (H n h), Hl.
Qed.

Lemma evict_lru_same m m1 :
  same_rooms m m1 -> reg_ok m ->
  match evictOne (byLeastRecentlyUsed m) m1 with
  | (false, m') => m' = m1 /\ forall n, is_Some (m_rooms m' !! n) -> idle_at m' n = false
  | (true, m') => made_way m m' /\ reg_ok m' /\ m_clock m' = m_clock m /\ size (m_rooms m) = S (size (m_rooms m'))
  end.
Proof.
  intros Hsame Hm. pose proof Hsame as (E1 & E2 & E3 & E4 & E5).
  assert (reg_ok m1) as Hm1 by (by apply (reg_ok_same cfg m)).
  assert (byLeastRecentlyUsed m = byLeastRecentlyUsed m1) as ->.
  { unfold byLeastRecentlyUsed, before, used_of, before_dec, before, used_of. by rewrite E1, E2. }
  pose proof (evict_lru m1 Hm1) as H. destruct (evictOne _ m1) as [[|] m'].
  - destruct H as (H1 & H2 & H3 & H4). split_and!; [by eapply same_made_way|done|congruence..].
  - destruct H as [-> H]. done.
Qed.

(** ** The budget *)

Lemma enforceBudget_ok fuel : forall m,
  reg_ok m -> (size (m_rooms m) < fuel)%nat ->
  exists n m', enforceBudget cfg fuel m = Some (n, m') /\ made_way m m' /\ reg_ok m'
    /\ n = Len m - Len m'
    /\ (MaxMemory cfg <= 0 \/ residentBytes m' <= MaxMemory cfg
        \/ forall name, is_Some (m_rooms m' !! name) -> idle_at m' name = false).
Proof.
  induction fuel as [|fuel IH]; intros m Hm Hf; [lia|]. cbn [enforceBudget]. unfold overBudget.
  case_if; [exists 0, m; split_and!; [done|apply made_way_refl|done|lia|by left]|].
  case_if; [exists 0, m; split_and!; [done|apply made_way_refl|done|lia|by right; left]|].
  pose proof (evict_lru_same m (set_pressure Budget m) ltac:(done) Hm) as H.
  destruct (evictOne _ (set_pressure Budget m)) as [[|] m1].
  - destruct H as (H1 & H2 & H3 & H4). destruct (IH m1 H2 ltac:(lia)) as (n & m' & Hr & K1 & K2 & K3 & K4).
    rewrite Hr. cbn. exists (n + 1), m'. split_and!; [done|by eapply made_way_trans|done| |done]. unfold Len in *. lia.
  - destruct H as [-> H]. exists 0, (set_pressure Budget m). split_and!; [done| |by apply (reg_ok_same cfg m)|unfold Len; cbn; lia|by right; right].
    apply (same_made_way m (set_pressure Budget m)); [done|apply made_way_refl].
Qed.

(** The sweep ends, whatever is resident: inside the budget, or with every room that is
    left in use.  It stops nothing anybody is connected to, and takes the least
    recently used rooms first. *)
Theorem enforceBudget_spec fuel m :
  reg_ok m -> (size (m_rooms m) < fuel)%nat ->
  exists n m', enforceBudget cfg fuel m = Some (n, m') /\ made_way m m' /\ n = Len m - Len m'
    /\ (MaxMemory cfg <= 0 \/ residentBytes m' <= MaxMemory cfg
        \/ forall name, is_Some (m_rooms m' !! name) -> idle_at m' name = false).
Proof. intros Hm Hf. destruct (enforceBudget_ok fuel m Hm Hf) as (n & m' & ? & ? & _ & ? & ?). eauto 10. Qed.

(** ** Opening a document *)

Context (sha1 : bytes -> bytes).

Lemma settle_same f now name want m err m' :
  settleOwner sha1 cfg f now name want m = (err, m') -> same_rooms m m' /\ err <> Some ErrTooManyRooms.
Proof.
  unfold settleOwner. case_if; [by intros [= <- <-]|]. unfold Ensure, ensureIn.
  destruct (f Begin); [by intros [= <- <-]|]. destruct (f InsertRow); [by intros [= <- <-]|].
  destruct (f SelectOwner); [by intros [= <- <-]|]. destruct (_ !! _); cbn.
  - destruct (f Commit); [by intros [= <- <-]|]. case_decide; by intros [= <- <-].
  - by intros [= <- <-].
Qed.

Lemma tryGet_spec f now name owner m out m' :
  reg_ok m -> counts m -> tryGet sha1 cfg f now name owner m = (out, m') ->
  match out with
  | Ok (inl h) => m_rooms m' !! name = Some h /\ forall n, n <> name -> m_rooms m' !! n = m_rooms m !! n
  | Ok (inr candidates) => same_rooms m m' /\ candidates = byLeastRecentlyUsed m /\ full m'
  | Err e => same_rooms m m' /\ e <> ErrTooManyRooms
  end.
Proof.
  intros Hm Hc. unfold tryGet. destruct (resident _ _ m) as [o m1] eqn:Er.
  destruct (resident_ok cfg _ _ _ _ _ Hm Hc Er) as (_ & _ & _ & R4 & R5).
  destruct o as [[h|e]|].
  { intros [= <- <-]. rewrite R4. destruct R5 as (i & _ & _ & _ & ?). done. }
  { intros [= <- <-]. by destruct R5 as [-> ->]. }
  destruct R5 as [Hn ->]. destruct (settleOwner _ _ _ _ _ _ m) as [err m2] eqn:Es.
  destruct (settle_same _ _ _ _ _ _ _ Es) as [Hs He]. destruct err as [e|]; [intros [= <- <-]; by split; [|congruence]|].
  destruct Hs as (E1 & E2 & E3 & E4 & E5). assert (Hs : same_rooms m m2) by done.
  unfold open_, resident. rewrite E1, Hn. case_if; [by intros [= <- <-]|]. case_if.
  { intros [= <- <-]. split_and!; [done| |left; unfold Len; cbn; rewrite E1; lia].
    unfold byLeastRecentlyUsed, before, used_of, before_dec, before, used_of. by rewrite E1, E2. }
  unfold overBudget. destruct (MaxMemory cfg <=? 0) eqn:Em.
  2: destruct (residentBytes m2 <=? MaxMemory cfg) eqn:Eb.
  3: { intros [= <- <-]. bool_arith. split_and!; [done| |right; unfold residentBytes, bytes_of in *; cbn; lia].
       unfold byLeastRecentlyUsed, before, used_of, before_dec, before, used_of. by rewrite E1, E2. }
  all: intros [= <- <-]; cbn; rewrite E1, lookup_insert_eq; split; [done|];
    intros n Hne; by rewrite lookup_insert_ne.
Qed.

(** C21. Opening a document returns.  It makes way by stopping idle rooms only, least
    recently used first; the document is refused for want of room only when a bound is
    reached and every resident room is in use. *)
Theorem get_spec f now name owner fuel m :
  reg_ok m -> counts m -> (size (m_rooms m) < fuel)%nat ->
  exists out m' m1, get sha1 cfg fuel f now name owner m = Some (out, m') /\ made_way m m1
    /\ match out with
       | Ok h => m_rooms m' !! name = Some h /\ forall n, n <> name -> m_rooms m' !! n = m_rooms m1 !! n
       | Err e => m_rooms m' = m_rooms m1
           /\ (e = ErrTooManyRooms -> full m' /\ forall n, is_Some (m_rooms m' !! n) -> idle_at m' n = false)
       end.
Proof.
  revert m. induction fuel as [|fuel IH]; intros m Hm Hc Hf; [lia|]. cbn [get].
  destruct (tryGet sha1 cfg f now name owner m) as [out m2] eqn:Et.
  pose proof (tryGet_spec _ _ _ _ _ _ _ Hm Hc Et) as H. destruct out as [[h|cs]|e].
  - destruct H as [H1 H2]. exists (Ok h), m2, m. split_and!; [done|apply made_way_refl|done..].
  - destruct H as (Hs & -> & Hfull). pose proof (evict_lru_same m m2 Hs Hm) as H.
    destruct (evictOne _ m2) as [[|] m3].
    + destruct H as (H1 & H2 & H3 & H4).
      destruct (IH m3 H2 ltac:(unfold counts in *; lia) ltac:(lia)) as (out & m' & m1 & K1 & K2 & K3).
      exists out, m', m1. split_and!; [done|by eapply made_way_trans|done].
    + destruct H as [-> H]. exists (Err ErrTooManyRooms), m2, m. split_and!; [done|apply made_way_refl|apply Hs|done].
  - destruct H as [Hs He]. exists (Err e), m2, m. split_and!; [done|apply made_way_refl|apply Hs|done].
Qed.
End Get.
