(* ===== verification/RegistryRoom.v ===== *)
(** * The registry's rooms

    The room of [Room] behind the registry's interface, what follows for every room a
    server ever opens, and a server with one document. *)

From stdpp Require Import strings.
From S2P Require Import Prelude Lib0 Content StateVector DeleteSet Struct Update StructStore Doc Sync Cluster Conn Awareness Room RoomInv RoomProps RoomScenario.
From S2P Require Import Uuid Pack Store StoreProps StoreLog StoreLife Persist Registry RegistryProps RegistrySys RegistryGet.

Section Instance_.
Context {C : Type} {OP : ConnOps C} {HL : ConnLaws C} {MO : MapOrder}.
Context (Usage : Doc -> Z * Z) (errText : GoError -> bytes) (inflate : bytes -> option bytes).
(** The template every room is made from, and the connections of the gateway. *)
Context (rcfg : Room.Config) (objs : gmap Z C).
#[local] Notation Room := (@Room.Room C).

(** Rows below 2 GiB. *)
Definition small (stored : Document) : Prop :=
  Forall (fun b => Z.of_nat (length b) < Content.maxLen) (from_option (fun b => [b]) [] (Store.Snapshot stored) ++ Updates stored).

(** What a running room does: it loads its document, handles a command, or takes an
    envelope of another replica. *)
Inductive room_acts (r : Room) : Room -> Prop :=
  | act_load f now docID name owner db r' seqs db' stored db1 :
      Load inflate f now docID name owner db = Ok (stored, db1) -> small stored ->
      load_room inflate Usage f now docID name owner r db = Ok (r', seqs, db') -> room_acts r r'
  | act_handle now queued cmd reply r' :
      admissible now cmd r -> handle Usage errText now queued cmd r = (false, reply, r') -> room_acts r r'
  | act_remote now env :
      now <> zeroTime -> Z.of_nat (length (env_Payload env)) < Content.maxLen -> room_acts r (remoteEnvelope now env r).

#[export] Instance RoomActor_Room : RoomActor Room := {|
  New _ _ now := NewRoom rcfg objs now;
  Bytes r := u_bytes (r_usage r);
  Idle r := bool_decide (r_conns r = ∅);
  acts := room_acts;
|}.

(** [Idle] is what the room answers an [evictCmd] by. *)
Lemma Idle_evictCmd now queued (r : Room) :
  (handle Usage errText now queued evictCmd r).1 = (Idle r, EvictReply (Idle r)).
Proof. cbn. case_decide; [by rewrite bool_decide_true|by rewrite bool_decide_false]. Qed.

(** Replaying rows leads to a document the rows lead to. *)
Lemma replay_reachable us : forall d n,
  reachable d -> Forall (fun b => Z.of_nat (length b) < Content.maxLen) us ->
  reachable (foldl (fun (acc : Doc * Z) u =>
    let '(d, skipped) := acc in
    match Doc.ApplyUpdate u d with Ok d' => (d', skipped) | Err _ => (d, skipped + 1) end) (d, n) us).1.
Proof.
  induction us as [|u us IH]; intros d n Hd Hs; [done|]. apply Forall_cons in Hs as [Hu Hs]. cbn [foldl].
  destruct (Doc.ApplyUpdate u d) eqn:E; apply IH; try done. by eapply reach_apply.
Qed.

Lemma restore_reachable stored d d' n :
  reachable d -> small stored -> restore stored d = Ok (d', n) -> reachable d'.
Proof.
  intros Hd [Hs1 Hs2]%Forall_app H. unfold restore in H. apply bind_Ok_inv in H as (a & Hm & [= H1]).
  assert (reachable a) as Ha.
  { destruct (Store.Snapshot stored); [|by injection Hm as <-]. apply Forall_cons in Hs1 as [? _]. by eapply reach_apply. }
  pose proof (replay_reachable (Updates stored) a 0 Ha Hs2) as K. unfold replay in *. by rewrite H1 in K.
Qed.

Lemma room_acts_ok (r r' : Room) : room_acts r r' -> room_ok r -> room_ok r'.
Proof.
  intros [f now docID name owner db r1 seqs db' stored db1 Hl Hs Hr|now queued cmd reply r1 Ha Hh|now env Hn He] Hok.
  - unfold load_room in Hr. rewrite Hl in Hr. res_inv. simplify_eq/=.
    pose proof (restore_reachable _ _ _ _ (ro_doc _ Hok) Hs Hm0) as Hd.
    apply (room_ok_frame (with_doc x0 r)); try done; [..|by apply with_doc_ok];
      unfold measure; repeat case_if; try done; by destruct (Usage _).
  - pose proof (handle_ok errText Usage now queued cmd r Ha Hok) as H. by rewrite Hh in H.
  - by apply remoteEnvelope_ok.
Qed.

Context (sha1 : bytes -> bytes) (cfg : ManagerConfig) (deflate : bytes -> option bytes).
Hypothesis sha1_digest : forall b, length (sha1 b) = 20%nat /\ Forall (fun x => 0 <= x < 256) (sha1 b).
Hypothesis flate : forall x y, deflate x = Some y -> inflate y = Some x.

(** C22. Every room a server ever has, whether in the map, stopping or gone, satisfies the
    invariant of rooms: its document is one that updates lead to, restored from the
    database or not, its tracker is within its limits, its members are connected. *)
Theorem resident_rooms_ok db s h i :
  limits_ok (AwarenessLimits rcfg) -> store_run deflate inflate db -> mrun sha1 cfg deflate inflate db s ->
  m_heap (sys s) !! h = Some i -> room_ok (i_room i).
Proof.
  intros Hl Hdb Hr. apply (mrun_rooms sha1 cfg sha1_digest deflate inflate flate room_ok db s); try done.
  - intros n o now. by apply NewRoom_ok.
  - apply room_acts_ok.
Qed.
End Instance_.

(** ** A server *)

#[local] Existing Instance any_order.
#[local] Instance demo_ops : ConnOps conn := gateway_ops false.
#[local] Instance demo_laws : ConnLaws conn := gateway_laws false.
#[local] Instance demo_actor : RoomActor (@Room.Room conn) :=
  RoomActor_Room demo_usage demo_text toy_inflate demo_cfg demo_objs.

(** At most one room, and ten bytes of documents. *)
Definition one_room : ManagerConfig := MkManagerConfig true 1 10.
Definition doc_a : bytes := str "a".
Definition doc_b : bytes := str "b".
Definition demo_manager : @Manager (@Room.Room conn) := NewManager (empty_db false).

Lemma toy_digest b : length (toy_sha1 b) = 20%nat /\ Forall (fun x => 0 <= x < 256) (toy_sha1 b).
Proof. split; [reflexivity|]. by repeat constructor. Qed.

#[local] Notation demo_run := (mrun toy_sha1 one_room toy_deflate toy_inflate (empty_db false)).

(** A call of [get] for [name], alone, from where nobody else is calling. *)
Lemma demo_call (m : @Manager (@Room.Room conn)) name owner m1 m2 h :
  demo_run (MkSystem m ∅) -> m_clock m < 100 -> m_clock m1 = m_clock m ->
  resident name (OwnerID toy_sha1 owner) m = (None, m) ->
  settleOwner toy_sha1 one_room no_faults 5 name (OwnerID toy_sha1 owner) m = (None, m1) ->
  open_ toy_sha1 one_room 5 name owner m1 = (Ok (inl h), m2) ->
  demo_run (MkSystem m2 {[1 := Answered name owner (Ok h)]}).
Proof.
  intros Hr Hc Hc1 H1 H2 H3.
  assert (Hcount : forall (m' : @Manager (@Room.Room conn)) cs, m_clock m' < 100 -> counts (sys (MkSystem m' cs))) by (intros; unfold counts; cbn; unfold two64; lia).
  assert (R1 : demo_run (MkSystem m {[1 := Asking name owner]})).
  { eapply mrun_step; [exact Hr|by apply Hcount|]. by apply CallBegin. }
  assert (R2 : demo_run (MkSystem m {[1 := Missed name owner]})).
  { eapply mrun_step; [exact R1|by apply Hcount|].
    rewrite <- (insert_singleton_eq 1 (Missed name owner) (Asking name owner)). apply (CallLook _ _ _ m _ 1 name owner None m); [apply lookup_singleton_eq|exact H1]. }
  assert (R3 : demo_run (MkSystem m1 {[1 := Settled name owner]})).
  { eapply mrun_step; [exact R2|by apply Hcount|].
    rewrite <- (insert_singleton_eq 1 (Settled name owner) (Missed name owner)). apply (CallSettle _ _ _ m _ 1 name owner no_faults 5 None m1); [apply lookup_singleton_eq|exact H2]. }
  eapply mrun_step; [exact R3|apply Hcount; lia|].
  rewrite <- (insert_singleton_eq 1 (Answered name owner (Ok h)) (Settled name owner)). apply (CallOpen _ _ _ m1 _ 1 name owner 5 (Ok (inl h)) m2); [apply lookup_singleton_eq|done|exact H3].
Qed.

(** The server after the first client opened document [a]. *)
Definition opened_ (name owner : bytes) (m : @Manager (@Room.Room conn)) : @Manager (@Room.Room conn) :=
  (open_ toy_sha1 one_room 5 name owner
     (settleOwner toy_sha1 one_room no_faults 5 name (OwnerID toy_sha1 owner) m).2).2.
Definition server_a : @Manager (@Room.Room conn) := opened_ doc_a [] demo_manager.

Lemma server_a_run : demo_run (MkSystem server_a {[1 := Answered doc_a [] (Ok 0)]}).
Proof.
  apply (demo_call demo_manager doc_a [] (settleOwner toy_sha1 one_room no_faults 5 doc_a (OwnerID toy_sha1 []) demo_manager).2);
    [apply mrun_start|vm_compute; done|reflexivity..].
Qed.

Lemma registry_invariant_witness : Len server_a = 1 /\ Len server_a <= 1.
Proof.
  split; [reflexivity|].
  apply (registry_invariant toy_sha1 one_room toy_digest toy_deflate toy_inflate toy_flate (empty_db false)
    (MkSystem server_a {[1 := Answered doc_a [] (Ok 0)]})); [apply run_empty|apply server_a_run|reflexivity].
Defined.

Lemma tenancy_witness :
  exists v, view toy_inflate (m_db server_a) (DocumentID toy_sha1 doc_a) = Some v /\ vw_owner v = NilUUID.
Proof.
  destruct (tenancy toy_sha1 one_room toy_digest toy_deflate toy_inflate toy_flate (empty_db false)
    (MkSystem server_a {[1 := Answered doc_a [] (Ok 0)]}) 1 doc_a [] 0) as (i & _ & _ & _ & H);
    [apply run_empty|apply server_a_run|reflexivity|].
  destruct H as (v & Hv & Ho); [reflexivity|]. by exists v.
Defined.

Lemma resident_rooms_ok_witness :
  exists i, m_heap server_a !! 0 = Some i /\ room_ok (i_room i).
Proof.
  destruct (m_heap server_a !! 0) as [i|] eqn:E; [|by vm_compute in E]. exists i. split; [reflexivity|].
  apply (resident_rooms_ok demo_usage demo_text toy_inflate demo_cfg demo_objs toy_sha1 one_room toy_deflate toy_digest
    toy_flate (empty_db false) (MkSystem server_a {[1 := Answered doc_a [] (Ok 0)]}) 0 i);
    [reflexivity|apply run_empty|apply server_a_run|exact E].
Defined.

Lemma server_a_ok : reg_ok one_room server_a.
Proof.
  apply (so_reg _ _ _ _ (mrun_ok toy_sha1 one_room toy_digest toy_deflate toy_inflate toy_flate (empty_db false)
    (MkSystem server_a {[1 := Answered doc_a [] (Ok 0)]}) ltac:(apply run_empty) server_a_run)).
Qed.

Lemma server_a_db : StoreProps.db_ok toy_inflate (m_db server_a).
Proof.
  apply (so_db _ _ _ _ (mrun_ok toy_sha1 one_room toy_digest toy_deflate toy_inflate toy_flate (empty_db false)
    (MkSystem server_a {[1 := Answered doc_a [] (Ok 0)]}) ltac:(apply run_empty) server_a_run)).
Qed.

(** Opening [b] with room for one document: [a], idle, makes way. *)
Lemma get_spec_witness :
  exists m', get toy_sha1 one_room 3 no_faults 6 doc_b [] server_a = Some (Ok 1, m')
    /\ m_rooms m' !! doc_b = Some 1 /\ m_rooms m' !! doc_a = None.
Proof.
  destruct (get_spec one_room toy_sha1 no_faults 6 doc_b [] 3 server_a) as (out & m' & m1 & Hg & _ & Hout).
  - apply server_a_ok.
  - vm_compute. reflexivity.
  - vm_compute. lia.
  - assert (out = Ok 1 /\ m_rooms m' !! doc_a = None) as [-> Ha].
    { vm_compute in Hg. injection Hg as <- <-. split; reflexivity. }
    exists m'. split; [exact Hg|]. split; [apply Hout|exact Ha].
Defined.

(** The same server once its document weighs twenty bytes. *)
Definition heavy_inst : inst :=
  MkInst doc_a NilUUID (with_usage (MkUsage 20 1 false 5) (NewRoom demo_cfg demo_objs 5)) Running.
Definition server_heavy : @Manager (@Room.Room conn) := set_heap (<[0 := heavy_inst]> (m_heap server_a)) server_a.

Lemma enforceBudget_spec_witness :
  exists m', enforceBudget one_room 2 server_heavy = Some (1, m') /\ Len m' = 0.
Proof.
  destruct (enforceBudget_spec one_room 2 server_heavy) as (n & m' & H1 & _ & H2 & _).
  - destruct (m_heap server_a !! 0) as [i|] eqn:E; [|by vm_compute in E].
    apply (set_inst_ok one_room server_a 0 i heavy_inst); [apply server_a_ok|exact E|..];
      vm_compute in E; injection E as <-; done.
  - vm_compute. lia.
  - assert (n = 1) as -> by (vm_compute in H1; by injection H1 as <- _).
    exists m'. split; [exact H1|]. change (Len server_heavy) with 1 in H2. lia.
Defined.

(** The map does not say who is still writing.  A room that stops leaves the map before
    it writes itself out, so a client that comes back meanwhile gets a second room for
    the same document, which has loaded what the first had not written yet. *)
Example two_rooms_for_one_document :
  match m_heap server_a !! 0 with
  | Some i =>
      let m := opened_ doc_a [] (exits 0 i server_a) in
      m_rooms m !! doc_a = Some 1
      /\ (i_phase <$> m_heap m !! 0) = Some Stopping /\ (i_phase <$> m_heap m !! 1) = Some Running
      /\ (i_name <$> m_heap m !! 0) = (i_name <$> m_heap m !! 1)
  | None => False
  end.
Proof. vm_compute. split_and!; reflexivity. Qed.
