(* ===== verification/Admin.v ===== *)
(** * The administrative surface

    [cmd/server/document.go], [documents.go], [versions.go] and [admin.go]: reading,
    merging, deleting, listing and versioning documents over HTTP, moving one between
    owners, and the routes of the admin listener.

    A handler is a program over the server ([site]: the registry with its rooms and the
    database, and what was published on the bus).  Its steps are the lookups under the
    registry's lock, the commands rooms handle and the calls to the store, each with the
    faults, the clock and the random bytes of its moment.  A command sent to a room that
    has stopped is answered [ErrClosed], and so may be one whose room stops before the
    caller looks at the reply.

    The rendering and parsing of JSON, the profiler, the metrics exposition, SHA-1,
    SHA-256 and [net.SplitHostPort] are parameters.  Requests are those [ServeMux] does
    not answer with a redirect to the canonical path. *)

From stdpp Require Import strings.
From S2P Require Import Prelude Lib0 Content StateVector DeleteSet Struct Update StructStore Doc Sync Views Cluster Conn Awareness Room.
From S2P Require Import Uuid Text Base64 Http AuditTrail Pack Store Listing Persist Registry RegistryRoom.

(** ** The JSON bodies *)

Record rootView := MkRootView { rv_Name : bytes; rv_Text : bytes; rv_Keys : list bytes }.

Record document := MkDocumentView {
  dv_Document : bytes; dv_StateVector : bytes; dv_Resident : bool; dv_Clients : option Z; dv_Bytes : Z;
  dv_Skipped : Z; dv_Roots : list rootView; dv_Subdocs : list bytes }.

Record documentSummary := MkSummary {
  ds_Name : bytes; ds_ID : bytes; ds_OwnerID : bytes; ds_Resident : bool; ds_UpdatedAt : Z; ds_SnapshotBytes : Z;
  ds_Updates : Z }.

Record documentList := MkDocumentList { dl_Documents : list documentSummary; dl_Next : bytes }.

Record versionView := MkVersionView {
  vv_ID : Z; vv_CreatedAt : Z; vv_StateVector : bytes; vv_Label : bytes; vv_Bytes : Z }.

Record versionList := MkVersionList { vl_Document : bytes; vl_Versions : list versionView }.

(** What a handler gives [json.Encoder]; times are formatted by [render].  The cluster
    counters of [/statsz] are not part of the model. *)
Inductive json_value :=
  | DocumentJSON (d : document)
  | DocumentsJSON (l : documentList)
  | VersionsJSON (l : versionList)
  | TakenJSON (name : bytes) (written : bool)
  | StatsJSON (node rooms : Z).

Definition headerStateVector : bytes := str "X-Ycollab-State-Vector".
Definition headerResident : bytes := str "X-Ycollab-Resident".
Definition boolString (b : bool) : bytes := if b then str "true" else str "false".

Definition maxImport : Z := Z.shiftl 16 20.
Definition maxVersionList : Z := 200.

(** ** Reading a request *)

Definition requestedStateVector (r : http_request) : option bytes + unit :=
  let raw := query_get (str "sv") r in
  if decide (raw = []) then inl None
  else match DecodeString encodeStd raw with
       | Some sv => inl (Some sv)
       | None => match DecodeString encodeURL raw with Some sv => inl (Some sv) | None => inr () end
       end.

Definition wantsJSON (r : http_request) : bool :=
  let format := query_get (str "format") r in
  if decide (format = str "json") then true
  else if decide (format = str "binary" \/ format = str "update") then false
  else Contains_ (header_get (str "Accept") r) (str "application/json").

Definition etag_candidate (c : bytes) : bytes :=
  let c := TrimSpace c in default c (cut_prefix (str "W/") c).

Definition etagMatches (header etag : bytes) : bool :=
  existsb (fun c => let c := etag_candidate c in bool_decide (c = str "*") || bool_decide (c = etag)) (split_on 44 header).

Definition not_modified (r : http_request) (etag : bytes) : bool :=
  let m := header_get (str "If-None-Match") r in bool_decide (m <> []) && etagMatches m etag.

(** [errors.Is(err, store.ErrWrongOwner)]. *)
Definition wrongOwner (e : GoError) : bool := bool_decide (e = ErrWrongOwner).

Section Describe.
Context {MO : MapOrder}.

(** Both readings of every root. *)
Definition describe (name : bytes) (s : Room.Snapshot) : res document :=
  d ← Doc.ApplyUpdate (s_Update s) (NewDoc 0);
  let st := store d in
  Ok (MkDocumentView name (EncodeToString encodeStd (s_StateVector s)) (s_Resident s)
    (if 0 <=? s_Clients s then Some (s_Clients s) else None) (Z.of_nat (length (s_Update s))) (s_Skipped s)
    (map (fun n => MkRootView n (YText_String st (TRoot n)) (Keys st (TRoot n))) (sort_by str_lt (Doc_Roots d)))
    (Subdocs d)).
End Describe.

(** ** The server *)

(** What a step of a handler finds besides the state: the moment, whether publishing
    fails, and whether a caller looks at a reply only after the room stopped. *)
Record moment := MkMoment { mo_at : at_time; mo_bus_down : bool; mo_late : bool }.

Section Admin.
Context {C : Type} {OP : ConnOps C} {MO : MapOrder}.
Context (Usage : Doc -> Z * Z) (errText : GoError -> bytes) (deflate inflate : bytes -> option bytes).
Context (rcfg : Room.Config) (objs : gmap Z C).
Context (sha1 sha256 : bytes -> bytes) (SplitHostPort : bytes -> option bytes).
Context (name_lt : bytes -> bytes -> bool).
Context (render : json_value -> bytes).
(** The owner in a JSON body, of which these bytes arrive; the flag says that reading on
    fails. *)
Context (decodeOwner : bytes -> bool -> option bytes).
Context (profile metrics : http_request -> list wcall).
(** [cfg.Room.Bus != nil], the node id and [cfg.VersionKeep]. *)
Context (cfg : ManagerConfig) (has_bus : bool) (NodeID VersionKeep : Z).

#[local] Notation Room := (@Room.Room C).
#[local] Instance room_actor : RoomActor Room := RoomActor_Room Usage errText inflate rcfg objs.

Record site := MkSite {
  st_m : @Manager Room;
  (** What [Import] published, newest last. *)
  st_bus : list (bytes * Envelope);
}.

#[local] Notation P := (prog moment site).

Definition set_m (m : @Manager Room) (s : site) : site := MkSite m (st_bus s).
Definition db_of (s : site) : Database := m_db (st_m s).
Definition with_db (db : Database) (s : site) : site := set_m (set_db db (st_m s)) s.

(** [manager.Resident]. *)
Definition Resident (name : bytes) : P (option Z) := atomically (fun _ s => (m_rooms (st_m s) !! name, s)).

Definition room_at (h : Z) (s : site) : option inst := m_heap (st_m s) !! h.

Definition running (h : Z) (s : site) : bool :=
  match room_at h s with Some i => bool_decide (i_phase i = Running) | None => false end.

(** A command to the room at [h]: what it answers, and the jobs it gave its writer. *)
Definition deliver_cmd (h : Z) (cmd : command) (t : moment) (s : site) : res (reply * list persistJob) * site :=
  match room_at h s with
  | Some i =>
      if decide (i_phase i = Running) then
        let '(_, rep, r') := handle Usage errText (at_now (mo_at t)) [] cmd (i_room i) in
        (Ok (rep, skipn (length (r_jobs (i_room i))) (r_jobs r')),
         set_m (set_heap (<[h := MkInst (i_name i) (i_owner i) r' (i_phase i)]> (m_heap (st_m s))) (st_m s)) s)
      else (Err ErrClosed, s)
  | None => (Err ErrClosed, s)
  end.

(** The caller's [select]: once the room has stopped, [done] may win over the reply. *)
Definition collect {X} (h : Z) (x : res X) : P (res X) :=
  atomically (fun t s => (if negb (running h s) && mo_late t then Err ErrClosed else x, s)).

Definition ask_room (h : Z) (cmd : command) : P (res (reply * list persistJob)) :=
  x ← atomically (deliver_cmd h cmd); collect h x.

(** [Room.Read] and [Room.Merge]. *)
Definition Room_Read (h : Z) (sv : bytes) : P (res Room.Snapshot) :=
  x ← ask_room h (readCmd sv);
  mret (match x with Ok (ReadReply out, _) => out | Ok _ => Err ErrClosed | Err e => Err e end).

Definition Room_Merge (h : Z) (update : bytes) : P (option GoError) :=
  x ← ask_room h (mergeCmd update);
  mret (match x with Ok (MergeReply out, _) => out | Ok _ => Some ErrClosed | Err e => Some e end).

(** The writer's turn at a version somebody waits for. *)
Definition write_version (id : UUID) (payload sv label : bytes) (minAge : Z) (t : moment) (s : site) : bool * site :=
  let '(out, _) := SaveVersion deflate (at_faults (mo_at t)) (at_now (mo_at t)) (at_random (mo_at t)) id sv payload
                     label minAge (db_of s) in
  let w := Persist.saveVersion deflate id VersionKeep (mo_at t) payload sv label minAge (MkWriter [] [] (db_of s) 0) in
  (match out with Ok written => written | Err _ => false end, with_db (w_db w) s).

(** [Room.TakeVersion]. *)
Definition Room_TakeVersion (h : Z) (name label : bytes) : P (res bool) :=
  x ← ask_room h (versionCmd label);
  match x with
  | Err e => mret (Err e)
  | Ok (VersionReply false, _) => mret (Err ErrNoVersioning)
  | Ok (VersionReply true, [JobVersion payload sv label minAge]) =>
      out ← atomically (fun t s =>
        if negb (running h s) && mo_late t then (Err ErrClosed, s)
        else let '(written, s) := write_version (DocumentID sha1 name) payload sv label minAge t s in (Ok written, s));
      collect h out
  | Ok _ => mret (Ok false)
  end.

(** [manager.Evict]. *)
Definition Evict_ (name : bytes) : P bool :=
  resident ← Resident name;
  match resident with
  | None => mret true
  | Some h => atomically (fun _ s => let '(b, m) := evictIfIdle h (st_m s) in (b, set_m m s))
  end.

(** [room.Fetch] and [room.Import], the latter call by call; without a database there is no document. *)
Definition fetch (name sv : bytes) : P (res Room.Snapshot) :=
  if negb (HasStore cfg) then mret (Err ErrNoDocument)
  else atomically (fun t s => (Fetch inflate sha1 (at_faults (mo_at t)) (at_now (mo_at t)) name sv (db_of s), s)).

(** [None] is success; [ErrBusClosed] stands for a publication that failed. *)
Definition import (owner name update : bytes) : P (option GoError) :=
  if negb (HasStore cfg) then mret (Some ErrNoDocument)
  else match Doc.ApplyUpdate update (NewDoc 0) with
       | Err e => mret (Some e)
       | Ok _ =>
           let id := DocumentID sha1 name in
           found ← atomically (fun t s =>
             match Ensure (at_faults (mo_at t)) (at_now (mo_at t)) id name (OwnerID sha1 owner) (db_of s) with
             | Err e => (Err e, s)
             | Ok (found, db) => (Ok found, with_db db s)
             end);
           match found with
           | Err e => mret (Some e)
           | Ok found =>
               if bool_decide (owner <> []) && bool_decide (found <> OwnerID sha1 owner) then mret (Some ErrWrongOwner)
               else
                 out ← atomically (fun t s =>
                   let '(out, db) := Append (at_faults (mo_at t)) (at_now (mo_at t)) id [update] (db_of s) in
                   (out, with_db db s));
                 match out with
                 | Err e => mret (Some e)
                 | Ok _ =>
                     if negb has_bus then mret None
                     else atomically (fun t s =>
                       if mo_bus_down t then (Some ErrBusClosed, s)
                       else (None, MkSite (st_m s) (st_bus s ++ [(name, MkEnvelope NodeID KindUpdate update)])))
                 end
           end
       end.

(** ** The handlers *)

Definition no_name : list wcall := http_Error (str "no document name") 400.

Definition deleteDocument (r : http_request) : P (list wcall) :=
  let name := rq_name r in
  if decide (name = []) then mret no_name
  else
    gone ← Evict_ name;
    if negb gone then mret (http_Error (str "the document is in use") 409)
    else
      out ← atomically (fun t s =>
        let '(out, db) := Store.Delete (at_faults (mo_at t)) (DocumentID sha1 name) (db_of s) in (out, with_db db s));
      mret (match out with
            | Err _ => http_Error (str "could not delete the document") 500
            | Ok false => http_Error (str "no such document") 404
            | Ok true => [WriteHeader 204]
            end).

Definition readDocument (name sv : bytes) : P (res Room.Snapshot) :=
  resident ← Resident name;
  match resident with
  | None => fetch name sv
  | Some h =>
      out ← Room_Read h sv;
      match out with
      | Err ErrClosed => fetch name sv
      | out => mret out
      end
  end.

Definition etag_of (s : Room.Snapshot) : bytes := [34] ++ hex_encode (s_StateVector s) ++ [34].

Definition document_headers (s : Room.Snapshot) : list wcall :=
  [SetHeader headerStateVector (EncodeToString encodeStd (s_StateVector s));
   SetHeader headerResident (boolString (s_Resident s));
   SetHeader (str "ETag") (etag_of s);
   SetHeader (str "Cache-Control") (str "no-store")].

(** What a document that was read is answered with. *)
Definition serve_document (r : http_request) (asJSON : bool) (s : Room.Snapshot) : list wcall :=
  document_headers s ++
  if not_modified r (etag_of s) then [WriteHeader 304]
  else if negb asJSON then [SetHeader (str "Content-Type") (str "application/octet-stream"); Write (s_Update s)]
  else match describe (rq_name r) s with
       | Err _ => http_Error (str "could not read the document") 500
       | Ok body => [SetHeader (str "Content-Type") (str "application/json"); Write (render (DocumentJSON body))]
       end.

Definition getDocument (r : http_request) : P (list wcall) :=
  let name := rq_name r in
  if decide (name = []) then mret no_name
  else
    let asJSON := wantsJSON r in
    match requestedStateVector r with
    | inr _ => mret (http_Error (str "sv is not base64") 400)
    | inl sv =>
        if asJSON && bool_decide (sv <> None)
        then mret (http_Error (str "sv applies to the binary form only, not to format=json") 400)
        else
          out ← readDocument name (default [] sv);
          mret (match out with
                | Err ErrNoDocument => http_Error (str "no such document") 404
                | Err _ => http_Error (str "could not read the document") 500
                | Ok s => serve_document r asJSON s
                end)
    end.

Definition not_yours : list wcall := http_Error (str "the document belongs to another owner") 409.

(** The second half of [mergeDocument]: no room took it. *)
Definition merge_stored (owner name update : bytes) : P (list wcall) :=
  err ← import owner name update;
  mret (match err with
        | None => [WriteHeader 204]
        | Some e =>
            if wrongOwner e then not_yours
            else if decide (e = ErrNoDocument)
            then http_Error (str "this server has no database, so a document with no room cannot be written") 503
            else http_Error (str "could not merge the update") 500
        end).

(** [resident.OwnedBy]: the owner a room was opened with never changes. *)
Definition OwnedBy (h : Z) (owner : bytes) (s : site) : bool :=
  match room_at h s with Some i => bool_decide (i_owner i = OwnerID sha1 owner) | None => false end.

Definition mergeDocument (r : http_request) : P (list wcall) :=
  let name := rq_name r in
  if decide (name = []) then mret no_name
  else
    match read_body maxImport r with
    | None => mret (http_Error (str "could not read the body") 413)
    | Some update =>
        if bool_decide (update = []) || isEmptyUpdate update
        then mret (http_Error (str "the body is not a Yjs update, or is one that carries nothing") 400)
        else
          let owner := query_get (str "owner") r in
          resident ← Resident name;
          match resident with
          | None => merge_stored owner name update
          | Some h =>
              yours ← atomically (fun _ s => (bool_decide (owner = []) || OwnedBy h owner s, s));
              if negb yours then mret not_yours
              else
                err ← Room_Merge h update;
                match err with
                | None => mret [WriteHeader 204]
                | Some ErrClosed => merge_stored owner name update
                | Some e => mret (http_Error (str "the body would not apply: " ++ errText e) 400)
                end
          end
    end.

(** The listing's [limit]: [strconv.Atoi], which must be positive. *)
Definition positive_limit (raw : bytes) : option Z :=
  match ParseInt raw with Some n => if n <=? 0 then None else Some n | None => None end.

Fixpoint summaries (docs : list Listing.Listing) : P (list documentSummary) :=
  match docs with
  | [] => mret []
  | d :: docs =>
      resident ← (if decide (l_Name d = []) then mret None else Resident (l_Name d));
      rest ← summaries docs;
      mret (MkSummary (l_Name d) (UUID_String (l_ID d)) (UUID_String (l_Owner d)) (bool_decide (resident <> None))
              (l_UpdatedAt d) (l_SnapshotBytes d) (l_Updates d) :: rest)
  end.

Definition list_request (r : http_request) : list wcall + ListRequest :=
  let '(all, owner) := match rq_Query r !! str "owner" with
                       | Some (o :: _) => (false, OwnerID sha1 o)
                       | _ => (true, NilUUID)
                       end in
  let after := query_get (str "after") r in
  match (if decide (after = []) then Ok (MkCursor [] NilUUID) else ParseCursor after) with
  | Err _ => inl (http_Error (str "malformed after cursor") 400)
  | Ok cursor =>
      let raw := query_get (str "limit") r in
      match (if decide (raw = []) then Some 0 else positive_limit raw) with
      | None => inl (http_Error (str "limit must be a positive number") 400)
      | Some limit => inr (MkListRequest owner all cursor limit)
      end
  end.

Definition listDocuments (r : http_request) : P (list wcall) :=
  match list_request r with
  | inl refused => mret refused
  | inr req =>
      out ← atomically (fun t s => (Listing.List name_lt (at_faults (mo_at t)) req (db_of s), s));
      match out with
      | Err _ => mret (http_Error (str "could not list the documents") 500)
      | Ok page =>
          docs ← summaries (lp_Documents page);
          mret [SetHeader (str "Content-Type") (str "application/json");
                Write (render (DocumentsJSON (MkDocumentList docs (lp_Next page))))]
      end
  end.

Definition maxOwnerBody : Z := Z.shiftl 4 10.

Definition bad_owner_body : bytes :=
  str "body must be {" ++ [34] ++ str "owner" ++ [34] ++ str ": " ++ [34] ++ str "..." ++ [34] ++ str "}".

Definition setOwner (r : http_request) : P (list wcall) :=
  let name := rq_name r in
  if decide (name = []) then mret no_name
  else
    let arrives := take (Z.to_nat maxOwnerBody) (rq_Body r) in
    match decodeOwner arrives (rq_cut r || (maxOwnerBody <? Z.of_nat (length (rq_Body r)))) with
    | None => mret (http_Error bad_owner_body 400)
    | Some owner =>
        gone ← Evict_ name;
        if negb gone then mret (http_Error (str "the document is in use") 409)
        else
          out ← atomically (fun t s =>
            let '(out, db) := SetOwner (at_faults (mo_at t)) (DocumentID sha1 name) (OwnerID sha1 owner) (db_of s) in
            (out, with_db db s));
          match out with
          | Err _ => mret (http_Error (str "could not set the owner") 500)
          | Ok false => mret (http_Error (str "no such document") 404)
          | Ok true =>
              atomically (fun t s => ((), with_db (SetName (at_faults (mo_at t)) (DocumentID sha1 name) name (db_of s)).2 s));;
              mret [WriteHeader 204]
          end
    end.

Definition version_view (v : Version) : versionView :=
  MkVersionView (ver_ID v) (ver_CreatedAt v) (EncodeToString encodeStd (ver_StateVector v)) (ver_Label v) (ver_Bytes v).

Definition listVersions (r : http_request) : P (list wcall) :=
  let name := rq_name r in
  if decide (name = []) then mret no_name
  else
    let raw := query_get (str "limit") r in
    match (if decide (raw = []) then Some maxVersionList else Z.min maxVersionList <$> positive_limit raw) with
    | None => mret (http_Error (str "limit must be a positive number") 400)
    | Some limit =>
        out ← atomically (fun t s => (ListVersions (at_faults (mo_at t)) (DocumentID sha1 name) limit (db_of s), s));
        mret (match out with
              | Err _ => http_Error (str "could not read the history") 500
              | Ok versions =>
                  [SetHeader (str "Content-Type") (str "application/json");
                   SetHeader (str "Cache-Control") (str "no-store");
                   Write (render (VersionsJSON (MkVersionList name (map version_view versions))))]
              end)
    end.

Definition getVersion (r : http_request) : P (list wcall) :=
  let name := rq_name r in
  match ParseInt (rq_id r) with
  | Some id =>
      if decide (name = []) then mret (http_Error (str "the version id must be a number") 400)
      else
        out ← atomically (fun t s => (LoadVersion inflate (at_faults (mo_at t)) (DocumentID sha1 name) id (db_of s), s));
        mret (match out with
              | Err ErrNoVersion => http_Error (str "no such version") 404
              | Err _ => http_Error (str "could not read the version") 500
              | Ok v =>
                  let etag := [34] ++ str "v" ++ FormatInt (ver_ID v) ++ [34] in
                  [SetHeader (str "Content-Type") (str "application/octet-stream");
                   SetHeader headerStateVector (EncodeToString encodeStd (ver_StateVector v));
                   SetHeader (str "Cache-Control") (str "no-store");
                   SetHeader (str "ETag") etag] ++
                  if not_modified r etag then [WriteHeader 304] else [Write (default [] (ver_Payload v))]
              end)
  | None => mret (http_Error (str "the version id must be a number") 400)
  end.

Definition versionStored (name label : bytes) : P (res bool) :=
  if negb (HasStore cfg) then mret (Err ErrNoVersioning)
  else
    out ← fetch name [];
    match out with
    | Err e => mret (Err e)
    | Ok s =>
        atomically (fun t site =>
          let '(out, db) := SaveVersion deflate (at_faults (mo_at t)) (at_now (mo_at t)) (at_random (mo_at t))
            (DocumentID sha1 name) (s_StateVector s) (s_Update s) label 0 (db_of site) in
          (out, with_db db site))
    end.

(** Through the room when there is one. *)
Definition take_version (name label : bytes) : P (res bool) :=
  resident ← Resident name;
  match resident with
  | None => versionStored name label
  | Some h =>
      out ← Room_TakeVersion h name label;
      match out with Err ErrClosed => versionStored name label | out => mret out end
  end.

Definition takeVersion (r : http_request) : P (list wcall) :=
  let name := rq_name r in
  if decide (name = []) then mret no_name
  else
    let label := query_get (str "label") r in
    if 200 <? Z.of_nat (length label) then mret (http_Error (str "the label is too long") 400)
    else
      out ← take_version name label;
      mret (match out with
            | Err ErrNoDocument => http_Error (str "no such document") 404
            | Err ErrNoVersioning => http_Error (str "this server keeps no version history") 503
            | Err _ => http_Error (str "could not take a version") 500
            | Ok written =>
                SetHeader (str "Content-Type") (str "application/json") ::
                (if (written : bool) then [WriteHeader 201] else []) ++ [Write (render (TakenJSON name written))]
            end).

Definition statsz (r : http_request) : P (list wcall) :=
  rooms ← atomically (fun _ s => (Len (st_m s), s));
  mret [SetHeader (str "Content-Type") (str "application/json"); Write (render (StatsJSON NodeID rooms))].

(** ** The listener ([startAdmin]) *)

Definition is_get (m : bytes) : bool := bool_decide (m = str "GET" \/ m = str "HEAD").

(** The most specific pattern that matches, on the method and the path: the action it is
    recorded under, the handler, and the path values. *)
Definition route (withPprof : bool) (r : http_request)
    : option bytes * (http_request -> P (list wcall)) * (bytes * bytes) :=
  let m := rq_Method r in
  let unknown := (Some (str "unknown"), (fun _ => mret NotFound), ([], [])) in
  match rq_segments r with
  | [a] =>
      if decide (a = str "metrics") then (None, (fun r => mret (metrics r)), ([], []))
      else if decide (a = str "statsz") then (Some actionStats, statsz, ([], []))
      else if bool_decide (a = str "documents") && is_get m && HasStore cfg
      then (Some actionDocumentList, listDocuments, ([], []))
      else unknown
  | a :: name :: rest =>
      if decide (a = str "documents" /\ name <> []) then
        match rest with
        | [] =>
            if is_get m then (Some actionDocumentRead, getDocument, (name, []))
            else if decide (m = str "POST") then (Some actionDocumentWrite, mergeDocument, (name, []))
            else if bool_decide (m = str "DELETE") && HasStore cfg
            then (Some actionDocumentDelete, deleteDocument, (name, []))
            else unknown
        | [b] =>
            if bool_decide (b = str "owner") && bool_decide (m = str "PUT") && HasStore cfg
            then (Some actionOwnerSet, setOwner, (name, []))
            else if bool_decide (b = str "versions") && is_get m && HasStore cfg
            then (Some actionVersionList, listVersions, (name, []))
            else if bool_decide (b = str "versions") && bool_decide (m = str "POST") && HasStore cfg
            then (Some actionVersionTake, takeVersion, (name, []))
            else unknown
        | [b; id] =>
            if bool_decide (b = str "versions") && bool_decide (id <> []) && is_get m && HasStore cfg
            then (Some actionVersionRead, getVersion, (name, id))
            else unknown
        | _ => unknown
        end
      else if withPprof && bool_decide (a = str "debug") && bool_decide (name = str "pprof") && bool_decide (rest <> [])
      then (Some actionProfile, (fun r => mret (profile r)), ([], []))
      else unknown
  | [] => unknown
  end.

Definition clock (t : moment) : Z := at_now (mo_at t).

(** The inner mux. *)
Definition admin_mux (withPprof : bool) (r : http_request) : P served :=
  let '(action, h, (name, id)) := route withPprof r in
  let r := with_values name id r in
  match action with
  | Some action => audited SplitHostPort clock action h r
  | None => unaudited h r
  end.

Definition healthz : list wcall := [SetHeader (str "Content-Type") (str "text/plain"); Write (str "ok" ++ [10])].

(** The outer mux: everything but [/healthz] is behind the token. *)
Definition serve_admin (t : adminTokens) (withPprof : bool) (r : http_request) : P served :=
  if decide (rq_segments r = [str "healthz"]) then unaudited (fun _ => mret healthz) r
  else requireToken sha256 SplitHostPort clock t (admin_mux withPprof) r.

(** One sweep of [startRetention]. *)
Definition sweep (keep : Z) : P (res Z) :=
  if negb (HasStore cfg) || (keep <=? 0) then mret (Ok 0)
  else atomically (fun t s =>
         let '(out, db) := DeleteIdle (at_faults (mo_at t)) (at_now (mo_at t) - keep) (db_of s) in (out, with_db db s)).
End Admin.
