(* ===== verification/AdminProps.v ===== *)
(** * What the administrative surface promises

    Nobody without a configured token gets further than a 401; every request leaves one
    record, which says what the client was told and nothing of a document; a merge on
    behalf of a tenant stays within that tenant; a deletion deletes; and a document read
    from one server and posted to another is that document. *)

From stdpp Require Import strings.
From S2P Require Import Prelude Lib0 Content StateVector DeleteSet Struct Update StructStore Doc Sync Build Transfer Views Cluster Conn Awareness Room.
From S2P Require Import Uuid Text Base64 Webhook Http AuditTrail Pack Store StoreProps StoreLog Listing Persist Registry RegistryProps RegistryRoom Admin.

(** ** The door and the trail *)

Section Trail.
Context (sha256 : bytes -> bytes) (SplitHostPort : bytes -> option bytes).
Context {I S : Type} (clock : I -> Z).

(** What a record says of the response it is about. *)
Record recorded (e : audit_Event) (w : response) : Prop := {
  rec_status : ev_Status e = rs_status w;
  rec_result : ev_Result e = resultOf (rs_status w);
  rec_ok : rs_status w < 400 -> ev_Err e = [];
  rec_problem : 400 <= rs_status w -> ev_Err e <> [];
  rec_line : one_line (ev_Err e);
}.

Lemma digits_chars fuel : forall n acc, 0 <= n -> Forall (fun c => 48 <= c <= 57) acc ->
  Forall (fun c => 48 <= c <= 57) (digits fuel n acc)
  /\ (length acc + (if fuel is O then 0 else 1) <= length (digits fuel n acc) <= fuel + length acc)%nat.
Proof.
  induction fuel as [|fuel IH]; intros n acc Hn Ha; cbn [digits]; [split; [done|lia]|]. case_if.
  - split; [by constructor; [lia|]|cbn; lia].
  - destruct (IH (n / 10) ((48 + n mod 10) :: acc)) as [H1 H2];
      [by apply Z.div_pos|constructor; [|done]; pose proof (Z.mod_pos_bound n 10); lia|].
    split; [done|]. cbn [length] in H2. destruct fuel; lia.
Qed.

Lemma FormatInt_line n : 0 <= n -> one_line (FormatInt n) /\ FormatInt n <> [].
Proof.
  intros Hn. unfold FormatInt. rewrite (proj2 (Z.ltb_ge _ _)) by done.
  destruct (digits_chars 20 n [] Hn (Forall_nil_2 _)) as [H1 H2]. revert H1 H2. generalize (digits 20 n []). intros l H1 H2.
  assert (forall c, c ∈ l -> 48 <= c <= 57) as Hc by (by apply Forall_forall).
  split; [|by intros ->; cbn in H2; lia]. repeat split; [intros ?%Hc; lia..|]. cbn in H2. unfold max_line. lia.
Qed.

Lemma problem_recorded w : aw_inv w ->
  (aw_status w < 400 -> problem w = []) /\ (400 <= aw_status w -> problem w <> []) /\ one_line (problem w).
Proof.
  intros [_ _ _ Hl _]. unfold problem. destruct (aw_status w <? 400) eqn:E; bool_arith.
  { repeat split; try done; [lia|set_solver..|cbn; unfold max_line; lia]. }
  destruct (FormatInt_line (aw_status w)) as [H1 H2]; [lia|]. case_decide; repeat split; try (done || lia); apply H1 || apply Hl.
Qed.

Lemma audited_record action (h : http_request -> prog I S (list wcall)) r env s out s' :
  exec env (audited SplitHostPort clock action h r) s out s' ->
  exists e, sv_trail out = [e] /\ recorded e (sv_response out)
    /\ ev_Action e = action /\ ev_Document e = rq_name r
    /\ ev_Method e = rq_Method r /\ ev_Path e = rq_Path r /\ ev_IP e = requestIP SplitHostPort r
    /\ (credentialOf r <> [] -> ev_Credential e = credentialOf r)
    /\ exists calls, sv_response out = foldl respond no_response calls.
Proof.
  unfold audited. intros (start & s1 & _ & H)%exec_bind. apply exec_bind in H as (calls & s2 & _ & H).
  apply exec_bind in H as (stop & s3 & _ & H). apply exec_ret in H as [-> _].
  destruct (aw_calls_spec calls new_auditedWriter new_aw_inv) as [Hi Hrw].
  set (w := foldl aw_call new_auditedWriter calls) in *.
  destruct (problem_recorded w Hi) as (P1 & P2 & P3).
  eexists. split; [done|]. cbn [sv_response sv_trail Record_]. split_and!; cbn; try done.
  - split; cbn; rewrite <- ?(awi_status _ Hi); done.
  - intros Hc. by case_decide.
  - by exists calls.
Qed.
End Trail.

Section Surface.
Context {C : Type} {OP : ConnOps C} {MO : MapOrder}.
Context (Usage : Doc -> Z * Z) (errText : GoError -> bytes) (deflate inflate : bytes -> option bytes).
Context (rcfg : Room.Config) (objs : gmap Z C).
Context (sha1 sha256 : bytes -> bytes) (SplitHostPort : bytes -> option bytes).
Context (name_lt : bytes -> bytes -> bool).
Context (render : json_value -> bytes) (decodeOwner : bytes -> bool -> option bytes).
Context (profile metrics : http_request -> list wcall).
Context (cfg : ManagerConfig) (has_bus : bool) (NodeID VersionKeep : Z).

#[local] Notation site := (@site C).
#[local] Notation mux := (admin_mux Usage errText deflate inflate rcfg objs sha1 SplitHostPort name_lt render decodeOwner
  profile metrics cfg has_bus NodeID VersionKeep).
#[local] Notation serve := (serve_admin Usage errText deflate inflate rcfg objs sha1 sha256 SplitHostPort name_lt render
  decodeOwner profile metrics cfg has_bus NodeID VersionKeep).

(** The token a request presents is one of the configured ones, as far as SHA-256 tells. *)
Definition authorized (spec : bytes) (r : http_request) (token : bytes) : Prop :=
  presented r = Some token /\ sha256 token ∈ map sha256 (splitList spec).

Lemma enabled_spec spec t : parseAdminTokens sha256 spec = inr t -> splitList spec <> [] -> enabled t = true.
Proof.
  intros (_ & Hd & _)%collect_tokens_spec Hs. unfold enabled. rewrite Hd. by destruct (splitList spec).
Qed.

(** C24. Nobody without a configured token gets past the door.  When tokens are configured,
    each has at least 16 bytes, and a request for anything but [/healthz] whose
    [Authorization] header does not carry a token with the digest of one of them is
    answered 401 with the server left alone and one record, of a denial that names
    neither a document nor a fingerprint.  A request that does is served, and on record
    under the fingerprint of the token it presented. *)
Theorem admin_authorization spec t pprof r env (s : site) out s' :
  parseAdminTokens sha256 spec = inr t -> splitList spec <> [] -> rq_segments r <> [str "healthz"] ->
  exec env (serve t pprof r) s out s' ->
  Forall (fun token => 16 <= Z.of_nat (length token)) (splitList spec)
  /\ (forall token, authorized spec r token ->
        exec env (mux pprof (withCredential r (Fingerprint sha256 token))) s out s')
  /\ ((forall token, ~ authorized spec r token) ->
        env s s' /\ rs_status (sv_response out) = 401
        /\ rs_headers (sv_response out) !! str "WWW-Authenticate" = Some adminRealm
        /\ exists e, sv_trail out = [e] /\ ev_Result e = str "denied" /\ ev_Credential e = CredentialBad /\ ev_Document e = []).
Proof.
  intros Hp Hs Hr H. split; [by apply (collect_tokens_spec sha256 _ _ _ Hp)|].
  unfold serve_admin in H. rewrite decide_False in H by done. unfold requireToken in H.
  rewrite (enabled_spec _ _ Hp Hs), (match_spec _ _ _ r Hp) in H. cbn [negb] in H. split.
  - intros token [Ht Hd]. rewrite Ht, bool_decide_true in H by done. done.
  - intros Hno. assert (exec env (refuse SplitHostPort clock r) s out s') as (i & s1 & He & -> & ->).
    { destruct (presented r) as [token|] eqn:Ht; [|done]. rewrite bool_decide_false in H; [done|].
      intros Hd. by apply (Hno token). }
    split_and!; [done..|]. by eexists.
Qed.

(** C25. Every request but a health check leaves exactly one record, whatever its handler
    and the rest of the server do, except an admitted scrape of [/metrics], which leaves
    none.  The record carries the status the client got and the word for it, the method,
    path and peer address of the request, and, when the answer is an error and only
    then, one line of at most 200 bytes of it; so nothing of a document that was served
    is in the trail. *)
Theorem admin_trail t pprof r env (s : site) out s' :
  rq_segments r <> [str "healthz"] -> exec env (serve t pprof r) s out s' ->
  (rq_segments r = [str "metrics"] /\ sv_trail out = [])
  \/ exists e, sv_trail out = [e] /\ recorded e (sv_response out)
       /\ ev_Method e = rq_Method r /\ ev_Path e = rq_Path r /\ ev_IP e = requestIP SplitHostPort r.
Proof.
  intros Hr H. unfold serve_admin in H. rewrite decide_False in H by done.
  assert (exec env (refuse SplitHostPort clock r) s out s'
          \/ exists r', exec env (mux pprof r') s out s' /\ rq_segments r' = rq_segments r /\ rq_Method r' = rq_Method r
               /\ rq_Path r' = rq_Path r /\ rq_RemoteAddr r' = rq_RemoteAddr r) as [(i & s1 & _ & -> & _)|(r' & H' & E1 & E2 & E3 & E4)].
  { unfold requireToken in H. destruct (negb (enabled t)); [right; by exists r|].
    destruct (match_ sha256 t r) as [print []]; [right; by exists (withCredential r print)|by left]. }
  - right. eexists. split; [done|]. split_and!; [|done..]. split; try done. cbn. unfold one_line, max_line.
    split_and!; [by vm_compute; intros ?; set_solver|by vm_compute; set_solver|cbn; lia].
  - unfold admin_mux in H'. destruct (route _ _ _ _ _ _ _ _ _ _ _ _ _ _ _ _ pprof r') as [[action h] [name id]] eqn:Er.
    destruct action as [action|].
    + right. apply audited_record in H' as (e & Ht & He & _ & _ & Em & Ep & Ei & _).
      exists e. cbn in Em, Ep, Ei. unfold requestIP in *. cbn in Ei. split_and!; congruence.
    + left. unfold unaudited in H'. apply exec_bind in H' as (calls & s1 & _ & [-> _]%exec_ret).
      split; [|done]. rewrite <- E1. unfold route in Er. revert Er. clear.
      destruct (rq_segments r') as [|a [|b rest]]; [done|..].
      * repeat (case_decide || case_match); try done. congruence.
      * repeat (case_decide || case_match); done.
Qed.

End Surface.

(** ** Among other requests *)

Section Requests.
Context {C : Type} {OP : ConnOps C} {MO : MapOrder}.
Context (Usage : Doc -> Z * Z) (errText : GoError -> bytes) (inflate : bytes -> option bytes).
Context (rcfg : Room.Config) (objs : gmap Z C) (sha1 : bytes -> bytes).
Context (cfg : ManagerConfig) (has_bus : bool) (NodeID : Z).
#[local] Notation site := (@site C).

#[local] Notation view := (view inflate).
#[local] Notation db_ok := (db_ok inflate).
#[local] Notation status_of calls := (rs_status (foldl respond no_response calls)).
#[local] Notation delete_handler := (deleteDocument Usage errText inflate rcfg objs sha1).
#[local] Notation merge_handler := (mergeDocument Usage errText sha1 cfg has_bus NodeID).

(** The store stays readable in everybody's hands. *)
Definition store_kept (s s1 : site) : Prop := db_ok (db_of s) -> db_ok (db_of s1).

(** A step that touches no document but [name], and no room somebody is in. *)
Definition spares_others (name : bytes) (s1 s2 : site) : Prop :=
  (db_ok (db_of s1) -> forall id, id <> DocumentID sha1 name -> view (db_of s2) id = view (db_of s1) id)
  /\ forall h i, room_at h s1 = Some i -> i_phase i = Running -> r_conns (i_room i) <> ∅ -> room_at h s2 = Some i.

Lemma spares_refl name s : spares_others name s s.
Proof. done. Qed.

Lemma stopped_heap h i (m : @Manager (@Room.Room C)) :
  m_heap (finishes h i (exits h i m)) = <[h := MkInst (i_name i) (i_owner i) (i_room i) Stopped]> (m_heap m)
  /\ m_db (finishes h i (exits h i m)) = m_db m.
Proof. unfold finishes, exits, forget. case_decide; cbn; by rewrite insert_insert_eq. Qed.

(** Eviction stops one room, in which nobody is. *)
Lemma evictIfIdle_spares name h (s : site) b m' :
  @evictIfIdle _ (RoomActor_Room Usage errText inflate rcfg objs) h (st_m s) = (b, m') ->
  spares_others name s (set_m m' s) /\ m_db m' = m_db (st_m s)
  /\ (b = false -> m' = st_m s /\ exists i, room_at h s = Some i /\ i_phase i = Running /\ r_conns (i_room i) <> ∅).
Proof.
  unfold evictIfIdle, spares_others, room_at, db_of, set_m. cbn [st_m]. intros E.
  destruct (m_heap (st_m s) !! h) as [i|] eqn:Eh; [|by injection E as <- <-].
  assert (forall m1 r ph, m_heap m1 = <[h := MkInst (i_name i) (i_owner i) r ph]> (m_heap (st_m s)) ->
    ~ (i_phase i = Running /\ r_conns (i_room i) <> ∅) ->
    forall h' i', m_heap (st_m s) !! h' = Some i' -> i_phase i' = Running -> r_conns (i_room i') <> ∅ -> m_heap m1 !! h' = Some i') as Hsp.
  { intros m1 r ph -> Hno h' i' Hi Hp Hc. rewrite lookup_insert_ne; [done|]. intros <-. rewrite Eh in Hi. injection Hi as <-. tauto. }
  destruct (i_phase i) eqn:Ep.
  - cbn [Idle RoomActor_Room] in E. destruct (bool_decide (r_conns (i_room i) = ∅)) eqn:Ec; injection E as <- <-.
    + apply bool_decide_eq_true in Ec. destruct (stopped_heap h i (st_m s)) as [E1 E2]. rewrite E2.
      split_and!; [done| |done|done]. by apply (Hsp _ (i_room i) Stopped); [|tauto].
    + apply bool_decide_eq_false in Ec. split_and!; [done..|]. intros _. split; [done|]. by exists i.
  - injection E as <- <-. split_and!; [done|by eapply Hsp; [done|naive_solver]|done..].
  - injection E as <- <-. split_and!; [done|by eapply Hsp; [done|naive_solver]|done..].
Qed.

Lemma with_db_db db (s : site) : db_of (with_db db s) = db.
Proof. done. Qed.

Lemma room_at_with_db h db (s : site) : room_at h (with_db db s) = room_at h s.
Proof. done. Qed.

(** What others may do meanwhile: anything that leaves the store and the registry well
    formed; a room never changes its name. *)
Definition orderly (s s1 : site) : Prop :=
  store_kept s s1 /\ (reg_ok cfg (st_m s) -> reg_ok cfg (st_m s1))
  /\ forall h i, room_at h s = Some i -> exists i', room_at h s1 = Some i' /\ i_name i' = i_name i.

(** [h] is the room of document [name], and somebody is in it. *)
Definition occupied (name : bytes) (h : Z) (s : site) : Prop :=
  m_rooms (st_m s) !! name = Some h /\ exists i, room_at h s = Some i /\ i_phase i = Running /\ r_conns (i_room i) <> ∅.

(** Nobody opens document [name]. *)
Definition opens_none (name : bytes) (s s1 : site) : Prop :=
  forall h, m_rooms (st_m s1) !! name = Some h -> m_rooms (st_m s) !! name = Some h.

(** [manager.Evict]: when it refuses, somebody is in the room of the document. *)
Lemma Evict_rg rely name (Q : bool -> site -> Prop) s :
  (forall s s1, rely s s1 -> orderly s s1) -> db_ok (db_of s) -> reg_ok cfg (st_m s) ->
  (forall b s1, db_ok (db_of s1) -> (b = false -> exists h, occupied name h s1) -> Q b s1) ->
  rg rely (spares_others name) Q (Evict_ Usage errText inflate rcfg objs name) s.
Proof.
  intros Hrely Hok Hreg HQ. unfold Evict_. apply rg_bind, rg_atomically. intros t s1 x s2 H1 [= <- <-]. split; [done|].
  destruct (Hrely _ _ H1) as (K1 & K2 & _). specialize (K1 Hok). specialize (K2 Hreg).
  destruct (m_rooms (st_m s1) !! name) as [h|] eqn:Eh; [|by apply rg_ret, HQ].
  destruct (rk_rooms _ _ K2 _ _ Eh) as (i & Hi & Hn & _).
  apply rg_atomically. intros t2 s3 b s4 H3 E. destruct (Hrely _ _ H3) as (L1 & L2 & L3). specialize (L1 K1). specialize (L2 K2).
  destruct (evictIfIdle h (st_m s3)) as [b' m'] eqn:Ee. injection E as <- <-.
  destruct (evictIfIdle_spares name _ _ _ _ Ee) as (G1 & G2 & G3). split; [done|]. apply HQ.
  { unfold db_of, set_m. cbn [st_m]. by rewrite G2. }
  intros (-> & i3 & Hi3 & Hp & Hc)%G3. exists h. destruct (L3 _ _ Hi) as (i' & Hi' & Hn'). rewrite Hi3 in Hi'. injection Hi' as <-.
  split; [|by exists i3]. cbn [st_m set_m]. rewrite <- Hn, <- Hn'. by apply (rk_running _ _ L2).
Qed.

(** Somebody who stays in the room keeps it, and the eviction changes nothing. *)
Lemma Evict_occupied rely name h (Q : bool -> site -> Prop) s :
  occupied name h s -> (forall s1 s2, rely s1 s2 -> occupied name h s1 -> occupied name h s2) ->
  (forall s1, occupied name h s1 -> Q false s1) ->
  rg rely eq Q (Evict_ Usage errText inflate rcfg objs name) s.
Proof.
  intros Ho Hrely HQ. unfold Evict_. apply rg_bind, rg_atomically. intros t s1 x s2 H1 [= <- <-]. split; [done|].
  apply (Hrely _ _ H1) in Ho. rewrite (proj1 Ho).
  apply rg_atomically. intros t2 s3 b s4 H3 E. apply (Hrely _ _ H3) in Ho.
  pose proof Ho as (_ & i & Hi & Hp & Hc). unfold evictIfIdle in E. unfold room_at in Hi. rewrite Hi, Hp in E.
  match type of E with context [if ?x then _ else _] => assert (x = false) as Hidle by (by apply bool_decide_false) end.
  rewrite Hidle in E. injection E as <- <-.
  assert (set_m (st_m s3) s3 = s3) as -> by (by destruct s3). split; [done|]. by apply HQ.
Qed.

(** Unless somebody opens the document again, it is out of memory once [Evict] says so. *)
Lemma Evict_vacates rely name (Q : bool -> site -> Prop) s :
  (forall s s1, rely s s1 -> orderly s s1) -> reg_ok cfg (st_m s) -> (forall s1 s2, rely s1 s2 -> opens_none name s1 s2) ->
  (forall b s1, (b = true -> m_rooms (st_m s1) !! name = None) -> Q b s1) ->
  rg rely (fun _ _ => True) Q (Evict_ Usage errText inflate rcfg objs name) s.
Proof.
  intros Hrely Hreg Hopen HQ. unfold Evict_. apply rg_bind, rg_atomically. intros t s1 x s2 H1 [= <- <-]. split; [done|].
  destruct (Hrely _ _ H1) as (_ & K2 & _). specialize (K2 Hreg).
  destruct (m_rooms (st_m s1) !! name) as [h|] eqn:Eh; [|by apply rg_ret, HQ].
  apply rg_atomically. intros t2 s3 b s4 H3 E. split; [done|].
  destruct (Hrely _ _ H3) as (_ & L2 & _). specialize (L2 K2).
  destruct (evictIfIdle h (st_m s3)) as [b' m'] eqn:Ee. injection E as <- <-. apply HQ. intros ->. cbn [st_m set_m].
  assert (Hh : forall h', m_rooms (st_m s3) !! name = Some h' -> h' = h).
  { intros h' E. apply (Hopen _ _ H3) in E. congruence. }
  destruct (m_rooms (st_m s3) !! name) as [h'|] eqn:E3.
  - assert (h' = h) as -> by auto. destruct (rk_rooms _ _ L2 _ _ E3) as (i & Hi & Hn & Hp).
    unfold evictIfIdle in Ee. rewrite Hi, Hp in Ee. destruct (Idle (i_room i)); [|done]. injection Ee as <-.
    unfold finishes, exits, forget. cbn [m_rooms set_heap]. rewrite Hn, decide_True by done. cbn. apply lookup_delete_eq.
  - unfold evictIfIdle in Ee. destruct (m_heap (st_m s3) !! h) as [i|] eqn:Eh3; [|by injection Ee as <-].
    destruct (i_phase i) eqn:Ep; [|by injection Ee as <-..]. destruct (Idle (i_room i)); [|done]. injection Ee as <-.
    unfold finishes, exits, forget. cbn [m_rooms set_heap]. case_decide; cbn; [|done].
    rewrite lookup_delete. by case_decide.
Qed.

(** C27. Deleting a document, whatever else the server does meanwhile, as long as its
    database and its registry stay well formed.  No other document changes and nobody is
    put out of a room; an answer 204 means that at that moment the row, its log and its
    history are gone; 404, that there was no row; 409, that somebody is in the room of
    this very document.  While somebody stays in that room, the answer is 409 and nothing
    is touched; and unless somebody opens the document again meanwhile, any other answer
    leaves no room of it. *)
Theorem delete_document_spec rely r s :
  rq_name r <> [] -> (forall s s1, rely s s1 -> orderly s s1) -> db_ok (db_of s) -> reg_ok cfg (st_m s) ->
  rg rely (spares_others (rq_name r))
    (fun calls s' =>
       let id := DocumentID sha1 (rq_name r) in
       db_ok (db_of s') /\
       (status_of calls = 204 /\ view (db_of s') id = None /\ log_of (db_of s') id = ∅ /\ versions_of (db_of s') id = ∅
        \/ status_of calls = 404 /\ view (db_of s') id = None
        \/ status_of calls = 409 /\ (exists h, occupied (rq_name r) h s')
        \/ status_of calls = 500))
    (delete_handler r) s
  /\ (forall h, occupied (rq_name r) h s -> (forall s1 s2, rely s1 s2 -> occupied (rq_name r) h s1 -> occupied (rq_name r) h s2) ->
      rg rely eq (fun calls s' => status_of calls = 409 /\ occupied (rq_name r) h s') (delete_handler r) s)
  /\ ((forall s1 s2, rely s1 s2 -> opens_none (rq_name r) s1 s2) ->
      rg rely (fun _ _ => True) (fun calls s' => status_of calls <> 409 -> m_rooms (st_m s') !! rq_name r = None)
        (delete_handler r) s).
Proof.
  intros Hn Hrely Hok Hreg. unfold deleteDocument. rewrite decide_False by done. split_and!.
  2: { intros h Ho Hstay. apply rg_bind, (Evict_occupied _ _ h); [done..|]. intros s1 H1. by apply rg_ret. }
  2: { intros Hopen. apply rg_bind, Evict_vacates; [done..|]. intros b s1 Hb. destruct b; cbn [negb]; [|by apply rg_ret].
    apply rg_bind, rg_atomically. intros t s2 out s3 H2 E. split; [done|]. apply rg_ret. intros _.
    destruct (Store.Delete _ _ _) as [o db]. injection E as _ <-. cbn [st_m with_db set_m set_db m_rooms].
    destruct (m_rooms (st_m s2) !! rq_name r) as [h|] eqn:E; [|done]. apply (Hopen _ _ H2) in E. rewrite Hb in E by done. done. }
  apply rg_bind, Evict_rg; [done..|]. intros b s1 Hok1 Hb. destruct b; cbn [negb].
  2: { apply rg_ret. split; [done|]. right; right; left. split; [done|auto]. }
  apply rg_bind, rg_atomically. intros t s2 out s3 H2 E. apply (proj1 (Hrely _ _ H2)) in Hok1.
  pose proof (Delete_ok inflate (at_faults (mo_at t)) (DocumentID sha1 (rq_name r)) (db_of s2) Hok1) as Hd.
  assert (forall out db, Store.Delete (at_faults (mo_at t)) (DocumentID sha1 (rq_name r)) (db_of s2) = (out, db) ->
    (out = Ok false -> documents (db_of s2) !! DocumentID sha1 (rq_name r) = None)) as Hno.
  { unfold Store.Delete. intros o db E' ->. repeat case_match; by simplify_eq. }
  destruct (Store.Delete _ _ _) as [o db] eqn:Ed. injection E as <- <-. destruct Hd as (D1 & D2 & D3). split.
  { split; [intros _; apply D2|done]. }
  apply rg_ret. rewrite with_db_db. split; [done|]. destruct o as [[]|].
  - left. split_and!; [done..| |].
    + unfold log_of. destruct (doc_updates db !! _) eqn:El; [|done].
      destruct (ok_log _ _ D1 (DocumentID sha1 (rq_name r))) as [row Hrow]; [by eexists|].
      unfold StoreProps.view in D3. by rewrite Hrow in D3.
    + eapply no_row_no_versions; [done|]. unfold StoreProps.view in D3. by destruct (documents db !! _).
  - right; left. split; [done|]. subst db. unfold StoreProps.view. by rewrite (Hno _ _ eq_refl eq_refl).
  - right; right; right. done.
Qed.

(** ** A merge stays within its tenant *)

Hypothesis sha1_digest : forall b, length (sha1 b) = 20%nat /\ Forall (fun x => 0 <= x < 256) (sha1 b).

(** Others keep the store readable, and neither rooms nor rows change owners. *)
Definition owners_stand (s s1 : site) : Prop :=
  store_kept s s1
  /\ (forall h i, room_at h s = Some i -> exists i', room_at h s1 = Some i' /\ i_owner i' = i_owner i)
  /\ forall id v v', view (db_of s) id = Some v -> view (db_of s1) id = Some v' -> vw_owner v' = vw_owner v.

(** A step that leaves every room and every document of other owners as they are. *)
Definition within_owner (owner : UUID) (s1 s2 : site) : Prop :=
  (forall h i, room_at h s1 = Some i -> i_owner i <> owner -> room_at h s2 = Some i)
  /\ (db_ok (db_of s1) -> forall id v, view (db_of s1) id = Some v -> vw_owner v <> owner -> view (db_of s2) id = Some v).

Lemma within_refl o s : within_owner o s s.
Proof. done. Qed.

Lemma deliver_cmd_within o h cmd t (s : site) out s' :
  OwnedBy sha1 h o s = true -> deliver_cmd Usage errText h cmd t s = (out, s') ->
  within_owner (OwnerID sha1 o) s s' /\ db_of s' = db_of s.
Proof.
  unfold OwnedBy, deliver_cmd, within_owner. intros Ho E. destruct (room_at h s) as [i|] eqn:Eh; [|done].
  apply bool_decide_eq_true in Ho. case_decide; [|by injection E as <- <-].
  destruct (handle _ _ _ _ _ _) as [[b rep] r']. injection E as <- <-. split; [|done]. split; [|done].
  intros h' i' Hi Hne. unfold room_at in *. cbn. rewrite lookup_insert_ne; [done|]. intros <-. rewrite Eh in Hi. congruence.
Qed.

Lemma OwnedBy_stands o h s s1 : owners_stand s s1 -> OwnedBy sha1 h o s = true -> OwnedBy sha1 h o s1 = true.
Proof.
  intros (_ & H & _). unfold OwnedBy. destruct (room_at h s) as [i|] eqn:E; [|done].
  destruct (H _ _ E) as (i' & -> & ->). done.
Qed.

Lemma import_within owner name u s (Q : option GoError -> site -> Prop) :
  owner <> [] -> db_ok (db_of s) -> (forall e s, Q e s) ->
  rg owners_stand (within_owner (OwnerID sha1 owner)) Q (import sha1 cfg has_bus NodeID owner name u) s.
Proof.
  intros Ho Hok HQ. unfold import. destruct (negb (HasStore cfg)); [by apply rg_ret|].
  destruct (Doc.ApplyUpdate u (NewDoc 0)); [|by apply rg_ret]. apply rg_bind, rg_atomically.
  intros t s1 found s2 H1 E. apply (proj1 H1) in Hok. set (id := DocumentID sha1 name) in *.
  destruct (Ensure _ _ _ _ _ _) as [[fo db]|e] eqn:Ee; injection E as <- <-; [|by split; [|apply rg_ret]].
  unfold Ensure in Ee. case_if_in Ee; [done|]. destruct (ensureIn _ _ _ _ _ _) as [[fo' db']|] eqn:Ei; [|done].
  cbn in Ee. case_if_in Ee; [done|]. injection Ee as -> ->.
  destruct (ensureIn_ok inflate _ _ _ _ _ _ _ _ Hok (DocumentID_ok sha1 sha1_digest _) Ei) as (N1 & N2 & N3 & N4 & _).
  change (DocumentID sha1 name) with id in N2, N3, N4. split.
  { split; [done|]. intros _ id' v Hv Hne. rewrite with_db_db. destruct (decide (id' = id)) as [->|Hd]; [|by rewrite N2].
    by rewrite N3, Hv. }
  destruct (bool_decide (owner <> []) && bool_decide (fo <> OwnerID sha1 owner)) eqn:Eo; [by apply rg_ret|].
  rewrite bool_decide_true in Eo by done. apply bool_decide_eq_false, dec_stable in Eo.
  apply rg_bind, rg_atomically. intros t2 s3 out s4 (K1 & _ & K3) E2. rewrite with_db_db in K3. apply K1 in N1.
  pose proof (Append_ok inflate (at_faults (mo_at t2)) (at_now (mo_at t2)) id [u] (db_of s3) N1) as Ha.
  destruct (Append _ _ _ _ _) as [o db2]. injection E2 as <- <-. destruct Ha as (A1 & A2 & A3). split.
  { split; [done|]. intros _ id' v Hv Hne. rewrite with_db_db. destruct (decide (id' = id)) as [->|Hd]; [|by rewrite A2].
    exfalso. apply Hne. rewrite (K3 _ _ _ N3 Hv). congruence. }
  destruct o; [|by apply rg_ret]. destruct (negb has_bus); [by apply rg_ret|].
  apply rg_atomically. intros t3 s5 e s6 _ E3. case_if_in E3; injection E3 as <- <-; done.
Qed.

Lemma merge_stored_within owner name u s (Q : list wcall -> site -> Prop) :
  owner <> [] -> db_ok (db_of s) -> (forall e s, status_of e ∈ [204; 400; 409; 413; 500; 503] -> Q e s) ->
  rg owners_stand (within_owner (OwnerID sha1 owner)) Q (merge_stored sha1 cfg has_bus NodeID owner name u) s.
Proof.
  intros Ho Hok HQ. apply rg_bind, import_within; [done..|]. intros e s'. apply rg_ret, HQ.
  destruct e as [e|]; [|by vm_compute; set_solver]. destruct (wrongOwner e); [by vm_compute; set_solver|].
  case_decide; by vm_compute; set_solver.
Qed.

(** C26. A merge on behalf of a tenant stays within that tenant.  While a POST with
    [?owner=] is served, whatever other requests, rooms and replicas do, as long as nobody
    moves a document from one owner to another meanwhile: no step of it changes a room
    opened for another owner, or the row, the log or the history of a document of
    another owner.  It is always answered. *)
Theorem merge_within_tenant r s :
  query_get (str "owner") r <> [] -> db_ok (db_of s) ->
  rg owners_stand (within_owner (OwnerID sha1 (query_get (str "owner") r)))
    (fun calls _ => status_of calls ∈ [204; 400; 409; 413; 500; 503]) (merge_handler r) s.
Proof.
  intros Ho Hok. unfold mergeDocument. case_decide; [apply rg_ret; by vm_compute; set_solver|].
  destruct (read_body maxImport r) as [u|]; [|apply rg_ret; by vm_compute; set_solver].
  destruct (_ || isEmptyUpdate u); [apply rg_ret; by vm_compute; set_solver|]. set (o := query_get (str "owner") r) in *.
  apply rg_bind, rg_atomically. intros t s1 x s2 HA [= <- <-]. split; [done|]. apply (proj1 HA) in Hok.
  destruct (m_rooms (st_m s1) !! rq_name r) as [h|]; [|by apply merge_stored_within].
  apply rg_bind, rg_atomically. intros t2 s3 yours s4 H3 [= <- <-]. split; [done|]. apply (proj1 H3) in Hok.
  rewrite bool_decide_false by done. cbn [orb]. destruct (OwnedBy sha1 h o s3) eqn:Eo; cbn [negb];
    [|apply rg_ret; by vm_compute; set_solver].
  apply rg_bind. unfold Room_Merge. apply rg_bind. unfold ask_room. apply rg_bind, rg_atomically.
  intros t5 s5 out s6 H5 E5. apply (OwnedBy_stands o h _ _ H5) in Eo. apply (proj1 H5) in Hok.
  destruct (deliver_cmd_within o h _ _ _ _ _ Eo E5) as [G1 G2]. split; [done|]. rewrite <- G2 in Hok.
  apply rg_atomically. intros t7 s7 y s8 H7 [= <- <-]. split; [done|]. apply (proj1 H7) in Hok. apply rg_ret.
  case_match; [|apply rg_ret; by vm_compute; set_solver].
  destruct g; try (by apply merge_stored_within); apply rg_ret; cbn; set_solver.
Qed.
End Requests.
