(* ===== verification/Backup.v ===== *)
(** * Backup and restore

    GET a document from one server, POST the body to another: the handlers of Admin, the
    room that answers, the store that keeps it and the CRDT that reads it back, in one
    theorem. *)

From stdpp Require Import strings.
From S2P Require Import Prelude Lib0 Content StateVector DeleteSet Struct Update StructStore Doc Sync Build Transfer Views Cluster Conn Awareness Room.
From S2P Require Import Uuid Text Base64 Webhook Http AuditTrail Pack Store StoreProps StoreLog Listing Persist Registry RegistryRoom Admin AdminProps.

Section Backup.
Context {C : Type} {OP : ConnOps C} {MO : MapOrder}.
Context (Usage : Doc -> Z * Z) (errText : GoError -> bytes) (inflate : bytes -> option bytes) (sha1 : bytes -> bytes).
Context (render : json_value -> bytes) (cfg : ManagerConfig) (has_bus : bool) (NodeID : Z).
Hypothesis sha1_digest : forall b, length (sha1 b) = 20%nat /\ Forall (fun x => 0 <= x < 256) (sha1 b).

#[local] Notation site := (@site C).
#[local] Notation view := (view inflate).
#[local] Notation db_ok := (db_ok inflate).
#[local] Notation get_handler := (getDocument Usage errText inflate sha1 render cfg).
#[local] Notation merge_handler := (mergeDocument Usage errText sha1 cfg has_bus NodeID).
#[local] Notation read_handler := (readDocument Usage errText inflate sha1 cfg).

(** A GET for the whole document as bytes, on a version nobody has yet. *)
Record plain_get (name : bytes) (r : http_request) : Prop := {
  pg_name : rq_name r = name;
  pg_sv : query_get (str "sv") r = [];
  pg_json : wantsJSON r = false;
  pg_fresh : header_get (str "If-None-Match") r = [];
}.

(** A POST of [b]. *)
Record post_of (name b : bytes) (r : http_request) : Prop := {
  po_name : rq_name r = name;
  po_body : read_body maxImport r = Some b;
}.

(** The database and the bus answer. *)
Definition healthy (t : moment) : Prop := at_faults (mo_at t) = no_faults /\ mo_bus_down t = false.

(** The document lives in a room of this server. *)
Record resident_doc (name : bytes) (d : Doc) (s : site) : Prop := {
  rd_doc : exists h i, m_rooms (st_m s) !! name = Some h /\ room_at h s = Some i /\ i_phase i = Running /\ r_doc (i_room i) = d;
}.

Lemma deliver_read h i sv t (s : site) :
  room_at h s = Some i -> i_phase i = Running ->
  deliver_cmd Usage errText h (readCmd sv) t s = (Ok (ReadReply (read sv (i_room i)), []), s).
Proof.
  intros Hi Hp. unfold deliver_cmd. rewrite Hi, decide_True by done. cbn [handle]. rewrite skipn_all. do 2 f_equal.
  unfold set_m, room_at in *. destruct s as [m bus], m as [rs us cl cd pr hp nx db], i as [nm ow rm ph]. cbn in *.
  by rewrite insert_id.
Qed.

Lemma alone_Room_Read ok h i sv (Q : res Room.Snapshot -> site -> Prop) s :
  room_at h s = Some i -> i_phase i = Running -> Q (read sv (i_room i)) s ->
  alone ok Q (Room_Read Usage errText h sv) s.
Proof.
  intros Hi Hp HQ. unfold Room_Read, ask_room. apply alone_bind, alone_bind, alone_atomically.
  intros t x s' _. rewrite (deliver_read h i) by done. intros [= <- <-]. apply alone_atomically.
  intros t' x' s' _ [= <- <-]. unfold running. rewrite Hi, bool_decide_true by done. done.
Qed.

(** The room answers with its document. *)
Lemma get_resident ok name d b sv r s :
  name <> [] -> resident_doc name d s -> plain_get name r ->
  EncodeStateAsUpdate ∅ d = Ok b -> Doc_EncodeStateVector d = Ok sv ->
  alone ok (fun calls s' => s' = s /\ exists clients, calls = document_headers (MkSnapshot b sv clients true 0)
      ++ [SetHeader (str "Content-Type") (str "application/octet-stream"); Write b])
    (get_handler r) s.
Proof.
  intros Hn [(h & i & Hr & Hi & Hp & Hd)] [G1 G2 G3 G4] Hb Hsv.
  unfold getDocument. rewrite G1, decide_False, G3 by done. unfold requestedStateVector. rewrite G2, decide_True by done.
  cbn [andb default]. apply alone_bind. unfold readDocument. apply alone_bind, alone_atomically.
  intros t x s' _ [= <- <-]. rewrite Hr. apply alone_bind, (alone_Room_Read ok h i); [done..|].
  assert (read [] (i_room i) = Ok (MkSnapshot b sv (Z.of_nat (size (r_conns (i_room i)))) true 0)) as ->.
  { unfold read, encodeSnapshot. rewrite Hd, Hb. cbn [mbind res_bind]. by rewrite Hsv. }
  apply alone_ret. cbn beta iota. split; [done|]. eexists. unfold serve_document, not_modified. by rewrite G4.
Qed.

(** A document nobody has is created with the posted update as its only row. *)
Lemma import_fresh owner name b d s (Q : option GoError -> site -> Prop) :
  HasStore cfg = true -> db_ok (db_of s) -> view (db_of s) (DocumentID sha1 name) = None ->
  Doc.ApplyUpdate b (NewDoc 0) = Ok d ->
  (forall s' now seq, m_rooms (st_m s') = m_rooms (st_m s) -> db_ok (db_of s') ->
     view (db_of s') (DocumentID sha1 name) = Some (appended now seq [b] (fresh_view (OwnerID sha1 owner) name)) -> Q None s') ->
  alone healthy Q (import sha1 cfg has_bus NodeID owner name b) s.
Proof.
  intros Hs Hok Hv Hd HQ. unfold import. rewrite Hs, Hd. cbn [negb]. apply alone_bind, alone_atomically.
  intros t x s1 [Hf _] E. rewrite Hf in E. unfold Ensure in E.
  change (no_faults Begin) with false in E. change (no_faults Commit) with false in E. cbn iota in E.
  destruct (ensureIn no_faults _ _ _ _ _) as [[fo db]|] eqn:Ei.
  2: { unfold ensureIn in Ei. cbn in Ei. destruct (documents (db_of s) !! _) eqn:Er; [by rewrite Er in Ei|].
       cbn in Ei. by rewrite lookup_insert_eq in Ei. }
  destruct (ensureIn_ok inflate _ _ _ _ _ _ _ _ Hok (DocumentID_ok sha1 sha1_digest _) Ei) as (N1 & _ & N3 & N4 & _).
  cbn [mbind res_bind] in E. injection E as <- <-. rewrite Hv in N3, N4. cbn in N3, N4. subst fo.
  rewrite (bool_decide_false (OwnerID sha1 owner <> _)) by naive_solver. rewrite andb_false_r.
  apply alone_bind, alone_atomically. intros t2 x2 s2 [Hf2 _] E2. rewrite Hf2, with_db_db in E2.
  pose proof (Append_ok inflate no_faults (at_now (mo_at t2)) (DocumentID sha1 name) [b] db N1) as Ha.
  assert (is_Some (documents db !! DocumentID sha1 name)) as [row Hrow].
  { unfold StoreProps.view in N3. by destruct (documents db !! _). }
  unfold Append in E2, Ha. rewrite Hrow in E2, Ha. cbn [no_faults] in E2, Ha. injection E2 as <- <-.
  destruct Ha as (A1 & _ & [[_ ?]|[[? _]|(A3 & _)]]); [done..|]. rewrite N3 in A3.
  destruct (negb has_bus); [by apply alone_ret; eapply HQ|].
  apply alone_atomically. intros t3 x3 s3 [_ Hb3] E3. rewrite Hb3 in E3. injection E3 as <- <-. by eapply HQ.
Qed.

(** What is read from a document with that one row. *)
Lemma fetch_fresh owner name b d now seq sv s (Q : res Room.Snapshot -> site -> Prop) :
  HasStore cfg = true ->
  view (db_of s) (DocumentID sha1 name) = Some (appended now seq [b] (fresh_view (OwnerID sha1 owner) name)) ->
  Doc.ApplyUpdate b (NewDoc 0) = Ok d -> Q (encodeSnapshot d sv) s ->
  alone healthy Q (fetch inflate sha1 cfg name sv) s.
Proof.
  intros Hs Hv Hd HQ. unfold fetch. rewrite Hs. cbn [negb]. apply alone_atomically. intros t x s' [Hf _] [= <- <-].
  rewrite Hf. unfold Fetch. rewrite LoadAny_view, Hv. unfold loaded, appended. cbn [vw_snapshot fresh_view mbind res_bind vw_log vw_seq vw_owner].
  rewrite rows_insert_rows by (intros j Hj; rewrite lookup_empty in Hj; by destruct Hj).
  assert (rows ∅ ++ zip (seqZ seq (Z.of_nat (length [b]))) (map (fun p => MkLogRow p now) [b]) = [(seq, MkLogRow b now)]) as ->
    by (cbn; do 2 f_equal; lia).
  cbn [map fmap list_fmap snd log_payload]. rewrite decide_False by naive_solver.
  unfold restore, replay. cbn [Store.Snapshot Updates mbind res_bind foldl]. rewrite Hd. cbn [mbind res_bind].
  destruct (encodeSnapshot d sv) as [sn|] eqn:Es; [|done]. cbn.
  unfold encodeSnapshot in Es. apply bind_Ok_inv in Es as (u & _ & Es). apply bind_Ok_inv in Es as (v & _ & [= <-]). done.
Qed.

(** C23. A backup restores.  Take any document [d] that a running room of server [A] holds,
    that is not empty and fits the wire format, and a server [B] that does not have it,
    whose database and bus answer and on which nothing else runs.  GET on [A] answers 200
    with bytes [b]; POSTing [b] to [B], when it is within the 16 MiB a body may have,
    answers 204 and creates the document for the named owner; and from then on [B] reads,
    for every state vector a client may ask with, a document [d'] that restores [d]
    ([restored]: the same structs and state vector, whose bytes the ETag is made of, all
    deletions of [d]; nothing of what [d] was holding back). *)
Theorem backup_restores name owner d b sv r_get r_post (A B : site) :
  name <> [] -> reachable d -> update_ok (Transfer.snapshot d) -> EncodeStateAsUpdate ∅ d = Ok b -> Doc_EncodeStateVector d = Ok sv ->
  resident_doc name d A -> plain_get name r_get ->
  isEmptyUpdate b = false -> post_of name b r_post -> query_get (str "owner") r_post = owner ->
  HasStore cfg = true -> m_rooms (st_m B) !! name = None -> db_ok (db_of B) ->
  view (db_of B) (DocumentID sha1 name) = None ->
  alone (fun _ => True) (fun calls _ => let w := foldl respond no_response calls in
      rs_status w = 200 /\ rs_body w = b /\ rs_headers w !! str "ETag" = Some ([34] ++ hex_encode sv ++ [34]))
    (get_handler r_get) A
  /\ exists d', restored d d' /\ Doc_EncodeStateVector d' = Ok sv
     /\ alone healthy (fun calls B' =>
          rs_status (foldl respond no_response calls) = 204
          /\ (exists v, view (db_of B') (DocumentID sha1 name) = Some v /\ vw_owner v = OwnerID sha1 owner)
          /\ forall ask, alone healthy (fun out _ => out = encodeSnapshot d' ask) (read_handler name ask) B')
        (merge_handler r_post) B.
Proof.
  intros Hn Hr Hok Hb Hsv HA Hget Hne [P1 P2] Ho Hs Hroom Hdb Hv. split.
  { eapply alone_mono; [|by eapply get_resident]. cbn. intros calls s' (_ & clients & ->). done. }
  destruct (snapshot_restores_ok d 0 Hr Hok) as (b' & d' & Hb' & Hd' & Hres & Esv). rewrite Hb in Hb'. injection Hb' as <-.
  exists d'. split; [done|]. split; [unfold Doc_EncodeStateVector, Doc_StateVector in *; by rewrite Esv|].
  unfold mergeDocument. rewrite P1, P2, decide_False, Ho by done.
  assert (bool_decide (b = []) = false) as ->. { apply bool_decide_eq_false. by intros ->. }
  rewrite Hne. cbn [orb]. apply alone_bind, alone_atomically. intros t x s1 _ [= <- <-]. rewrite Hroom.
  apply alone_bind. eapply import_fresh; [done..|]. intros B' now seq E1 E2 E3. apply alone_ret.
  split; [done|]. split; [by eexists|]. intros ask. unfold readDocument. apply alone_bind, alone_atomically.
  intros t2 x2 s2 _ [= <- <-]. rewrite E1, Hroom. by eapply fetch_fresh.
Qed.
End Backup.
