(* ===== verification/AdminScenario.v ===== *)
(** * An administrative session

    The theorems about the administrative surface on a concrete server, and two races
    its comments do not mention. *)

From stdpp Require Import strings.
From S2P Require Import Prelude Lib0 Content StateVector DeleteSet Struct Update StructStore Doc Sync Skeleton Build Transfer Views Scenario Cluster Conn Awareness Room RoomScenario.
From S2P Require Import Uuid Text Base64 Webhook Http AuditTrail Pack Store StoreProps StoreLog StoreLife Listing Persist Registry RegistryProps RegistryRoom Admin AdminProps Backup.

#[local] Existing Instance any_order.
#[local] Instance adm_ops : ConnOps conn := gateway_ops false.

(** ** The server *)

Definition toy_sha256 (b : bytes) : bytes := b.
Definition toy_split (b : bytes) : option bytes := fst <$> cut 58 b.
Definition toy_render (j : json_value) : bytes := str "{}".
Definition toy_owner (b : bytes) (cut_ : bool) : option bytes := if cut_ then None else Some b.

Definition quiet : moment := MkMoment (MkAt no_faults 5 []) false false.

Definition ask (method : bytes) (path : list bytes) (query : gmap bytes (list bytes)) (header : gmap bytes bytes) (body : bytes)
    : http_request :=
  MkRequest method (path ≫= fun s => 47 :: s) path query header body false (Z.of_nat (length body)) (str "127.0.0.1:9") [] [] None.

Definition admin_spec : bytes := str "operator-token-1, operator-token-2".
Definition admin_set : adminTokens :=
  match parseAdminTokens toy_sha256 admin_spec with inr t => t | inl _ => MkAdminTokens [] [] end.

#[local] Notation serve_toy := (serve_admin demo_usage demo_text toy_deflate toy_inflate demo_cfg demo_objs toy_sha1 toy_sha256
  toy_split bytes_lt toy_render toy_owner (fun _ => []) (fun _ => []) one_room false 7 3).

Definition empty_site : @site conn := MkSite demo_manager [].

(** Document "a", as a room holds it. *)
Definition whole_inst : inst := MkInst doc_a NilUUID (with_doc whole (NewRoom demo_cfg demo_objs 5)) Running.
Definition whole_site : @site conn := MkSite (set_heap (<[0 := whole_inst]> (m_heap server_a)) server_a) [].

Lemma empty_site_ok : StoreProps.db_ok toy_inflate (db_of empty_site).
Proof. apply empty_db_ok. Qed.

Definition stranger : http_request := ask (str "DELETE") [str "documents"; doc_a] ∅ {[str "Authorization" := str "Bearer operator-token"]} [].

Lemma admin_authorization_witness :
  rs_status (sv_response (run (fun _ => quiet) 0 (serve_toy admin_set false stranger) whole_site).1) = 401.
Proof.
  destruct (admin_authorization demo_usage demo_text toy_deflate toy_inflate demo_cfg demo_objs toy_sha1 toy_sha256
    toy_split bytes_lt toy_render toy_owner (fun _ => []) (fun _ => []) one_room false 7 3 admin_spec admin_set false stranger eq
    whole_site (run (fun _ => quiet) 0 (serve_toy admin_set false stranger) whole_site).1
    (run (fun _ => quiet) 0 (serve_toy admin_set false stranger) whole_site).2) as (_ & _ & H);
    [by vm_compute..|apply run_exec|].
  apply H. intros token [H1 H2]. assert (presented stranger = Some (str "operator-token")) as E by (by vm_compute).
  rewrite E in H1. injection H1 as <-. apply (bool_decide_eq_true_2 _) in H2. by vm_compute in H2.
Defined.

Definition operator (method : bytes) (path : list bytes) (query : gmap bytes (list bytes)) (body : bytes) : http_request :=
  ask method path query {[str "Authorization" := str "bearer operator-token-2"]} body.

Lemma admin_trail_witness :
  exists e, sv_trail (run (fun _ => quiet) 0 (serve_toy admin_set false (operator (str "DELETE") [str "documents"; doc_a] ∅ [])) whole_site).1 = [e]
    /\ recorded e (sv_response (run (fun _ => quiet) 0 (serve_toy admin_set false (operator (str "DELETE") [str "documents"; doc_a] ∅ [])) whole_site).1).
Proof.
  destruct (admin_trail demo_usage demo_text toy_deflate toy_inflate demo_cfg demo_objs toy_sha1 toy_sha256
    toy_split bytes_lt toy_render toy_owner (fun _ => []) (fun _ => []) one_room false 7 3 admin_set false
    (operator (str "DELETE") [str "documents"; doc_a] ∅ []) eq whole_site _ _ ltac:(by vm_compute)
    (run_exec (fun _ => quiet) _ 0 whole_site)) as [[? _]|(e & H1 & H2 & _)]; [done|]. by exists e.
Defined.

(** What the record of that deletion says. *)
Example deletion_on_record :
  map (fun e => (ev_Action e, ev_Result e, ev_Status e, ev_Document e, ev_IP e))
    (sv_trail (run (fun _ => quiet) 0 (serve_toy admin_set false (operator (str "DELETE") [str "documents"; doc_a] ∅ [])) whole_site).1)
  = [(str "document.delete", str "ok", 204, doc_a, str "127.0.0.1")].
Proof. by vm_compute. Qed.

Definition named (r : http_request) : http_request := with_values doc_a [] r.

(** The same server with somebody in the room. *)
Definition busy_inst : inst := MkInst doc_a NilUUID (with_conns {[1 := ∅]} (NewRoom demo_cfg demo_objs 5)) Running.
Definition busy_site : @site conn := MkSite (set_heap (<[0 := busy_inst]> (m_heap server_a)) server_a) [].

Lemma busy_site_ok : reg_ok one_room (st_m busy_site).
Proof.
  destruct (m_heap server_a !! 0) as [i|] eqn:E; [|by vm_compute in E].
  apply (set_inst_ok one_room server_a 0 i busy_inst); [apply server_a_ok|exact E|..]; vm_compute in E; by injection E as <-.
Qed.

Lemma busy_occupied : occupied doc_a 0 busy_site.
Proof. split; [reflexivity|]. exists busy_inst. split_and!; [reflexivity..|]. by intros ?%(f_equal size). Qed.

Lemma delete_document_spec_witness :
  rg eq eq (fun calls s' => rs_status (foldl respond no_response calls) = 409 /\ occupied doc_a 0 s')
    (deleteDocument demo_usage demo_text toy_inflate demo_cfg demo_objs toy_sha1 (named (operator (str "DELETE") [] ∅ []))) busy_site.
Proof.
  apply (delete_document_spec demo_usage demo_text toy_inflate demo_cfg demo_objs toy_sha1 one_room eq
    (named (operator (str "DELETE") [] ∅ [])) busy_site); [done| | |apply busy_site_ok|apply busy_occupied|by intros ? ? ->].
  - intros s s1 <-. split; [by intros ?|]. split; [done|]. eauto.
  - apply server_a_db.
Defined.

Definition acme_post : http_request := named (operator (str "POST") [] {[str "owner" := [str "acme"]]} demo_edit).

Lemma merge_within_tenant_witness :
  rg (owners_stand toy_inflate) (within_owner toy_inflate (OwnerID toy_sha1 (str "acme")))
    (fun calls _ => rs_status (foldl respond no_response calls) ∈ [204; 400; 409; 413; 500; 503])
    (mergeDocument demo_usage demo_text toy_sha1 one_room false 7 acme_post) empty_site.
Proof.
  apply (merge_within_tenant demo_usage demo_text toy_inflate toy_sha1 one_room false 7 toy_digest acme_post empty_site);
    [by vm_compute|apply empty_site_ok].
Defined.

Lemma whole_resident : resident_doc doc_a whole whole_site.
Proof. split. exists 0, whole_inst. split_and!; reflexivity. Qed.

Lemma plain_request : plain_get doc_a (named (operator (str "GET") [] ∅ [])).
Proof. split; reflexivity. Qed.

Lemma post_request b : Z.of_nat (length b) <= 100 -> post_of doc_a b (named (operator (str "POST") [] ∅ b)).
Proof.
  intros Hb. split; [reflexivity|]. unfold read_body. cbn [rq_cut rq_Body named with_values operator ask orb].
  assert (maxImport = 16777216) as -> by reflexivity. rewrite (proj2 (Z.ltb_ge _ _)) by lia. reflexivity.
Qed.

(** The backup of the session of Scenario, restored on an empty server. *)
Lemma backup_restores_witness :
  exists b d', EncodeStateAsUpdate ∅ whole = Ok b /\ restored whole d'
    /\ alone healthy (fun calls _ => rs_status (foldl respond no_response calls) = 204)
         (mergeDocument demo_usage demo_text toy_sha1 one_room false 7
            (named (operator (str "POST") [] ∅ b))) empty_site.
Proof.
  destruct (EncodeStateAsUpdate ∅ whole) as [b|] eqn:Eb; [|by vm_compute in Eb].
  destruct (Doc_EncodeStateVector whole) as [sv|] eqn:Es; [|by vm_compute in Es].
  assert (Z.of_nat (length b) <= 100 /\ isEmptyUpdate b = false) as [Hl Hne].
  { vm_compute in Eb. injection Eb as <-. split; [cbn; lia|reflexivity]. }
  destruct (backup_restores demo_usage demo_text toy_inflate toy_sha1 toy_render one_room false 7 toy_digest doc_a [] whole b sv
    (named (operator (str "GET") [] ∅ [])) (named (operator (str "POST") [] ∅ b)) whole_site empty_site) as (_ & d' & H1 & _ & H2);
    [discriminate|session|apply whole_fits|exact Eb|exact Es|apply whole_resident|apply plain_request|exact Hne
    |by apply post_request|reflexivity..|apply empty_site_ok|reflexivity|].
  exists b, d'. split; [reflexivity|]. split; [exact H1|]. eapply alone_mono; [|exact H2]. intros calls B' [H _]. exact H.
Defined.

(** ** Two races *)

(** A client of nobody's opens document "a" just before the operator's statement runs. *)
Definition somebody_joins (s : @site conn) : @site conn := set_m (opened_ doc_a [] (st_m s)) s.

Definition stored_owner (s : @site conn) : option UUID := owner_id <$> documents (db_of s) !! DocumentID toy_sha1 doc_a.
Definition open_rooms (s : @site conn) : list (UUID * bool) :=
  (fun x => (i_owner x.2, bool_decide (i_phase x.2 = Running))) <$> map_to_list (m_heap (st_m s)).

(** The document exists and no room holds it; PUT moves it to "acme" and says so, but the
    room opened between the eviction and the statement keeps serving it to the old
    owner. *)
Example owner_change_misses_room :
  let s := MkSite (settleOwner toy_sha1 one_room no_faults 5 doc_a NilUUID demo_manager).2 [] in
  let '(calls, s') := run_among [id; somebody_joins] quiet
    (setOwner demo_usage demo_text toy_inflate demo_cfg demo_objs toy_sha1 toy_owner (named (operator (str "PUT") [] ∅ (str "acme")))) s in
  calls = [WriteHeader 204] /\ stored_owner s' = Some (OwnerID toy_sha1 (str "acme")) /\ open_rooms s' = [(NilUUID, true)].
Proof. by vm_compute. Qed.

(** The room a client opens after [mergeDocument] saw none loads the document before the
    update is appended, and drops the publication as its own: it is answered 204 and
    stored, but the client does not have it. *)
Example merge_misses_local_room :
  let s := MkSite demo_manager [] in
  let '(calls, s') := run_among [id; id; somebody_joins] quiet
    (mergeDocument demo_usage demo_text toy_sha1 one_room true 7 (named (operator (str "POST") [] ∅ demo_edit))) s in
  calls = [WriteHeader 204]
  /\ map (fun x => log_payload x.2) (rows (log_of (db_of s') (DocumentID toy_sha1 doc_a))) = [demo_edit]
  /\ (fun x => (bool_decide (Doc_StateVector (r_doc (i_room x.2)) = ∅),
                map (fun e => accepts e.2 (i_room x.2)) (st_bus s'))) <$> map_to_list (m_heap (st_m s')) = [(true, [false])].
Proof. by vm_compute. Qed.

(** A body that is not an update is the caller's mistake when a room is asked and the
    server's when none is. *)
Example bad_body_is_500 :
  let r := named (operator (str "POST") [] ∅ [9; 9; 9]) in
  let status s := rs_status (foldl respond no_response
    (run (fun _ => quiet) 0 (mergeDocument demo_usage demo_text toy_sha1 one_room true 7 r) s).1) in
  status whole_site = 400 /\ status empty_site = 500.
Proof. by vm_compute. Qed.
